(** * Social-graph synthesis engine (mongo_social_setup.js)

    A shallow embedding of the generator script: the seeded
    linear-congruential source, the population partitioner, the degree
    planner, the neighbour selector, the two edge builders, the interaction
    emitter and the batch sink, followed by the properties of each.

    Numbers.  Every integer the script handles stays far below 2^53, where
    JavaScript's doubles are exact, so integers are modelled by [Z] (and the
    generator state, which is never negative, by [N]).  The two places where
    the script leaves the integers, the product [rand()*n] behind every
    random index and the scale factor of the degree planner, are computed
    with the binary64 operations of [SpecFloat]. *)

From Stdlib Require Import ZArith NArith Lia List Ascii.
From Stdlib Require Import SpecFloat.
From stdpp Require Import gmap strings list pretty sorting.

Local Open Scope Z_scope.
Set Warnings "-clear-no-such-hyp".

(** ** Binary64 arithmetic *)

Module F64.
Definition prec : Z := 53.
Definition emax : Z := 1024.
Definition of_Z (z : Z) : spec_float := binary_normalize prec emax z 0 false.
Definition div : spec_float -> spec_float -> spec_float := SFdiv prec emax.
Definition mul : spec_float -> spec_float -> spec_float := SFmul prec emax.
(** [Math.floor] of a finite double.  Infinities and NaN cannot arise from
    the integers the script handles and are mapped to 0. *)
Definition floor (x : spec_float) : Z :=
  match x with
  | S754_finite s m e =>
      let v := if s then Z.neg m else Z.pos m in
      if 0 <=? e then v * 2 ^ e else v / 2 ^ (- e)
  | _ => 0
  end.
End F64.

(** ** The deterministic pseudo-random source *)

Module Rng.

(** [_seed = ((_seed*1664525) + 1013904223) % 4294967296].  The state is a
    non-negative integer, on which [%] is the modulus. *)
Definition rand (_seed : N) : N :=
  ((_seed * 1664525 + 1013904223) mod 4294967296)%N.

(** [rand()] returns the double [_seed/4294967296]; the draw is kept as its
    numerator, the new state.  [Math.floor(rand()*n)] floors the binary64
    product of that double and [n]: the integer quotient [_seed*n / 2^32] as
    long as [_seed*n] is below 2^53 ([floor_mul_exact] below), a neighbour of
    it once the product is rounded.  [n] is an array length or the size of
    an integer range; from 2^53 on, where [n] itself is no integer a double
    can count to, the model keeps the quotient. *)
Definition floor_mul (r : N) (n : Z) : Z :=
  if Z.abs n <? 9007199254740992 then
    F64.floor (F64.mul (F64.div (F64.of_Z (Z.of_N r)) (F64.of_Z 4294967296))
                       (F64.of_Z n))
  else (Z.of_N r * n) / 4294967296.

(** [rand() < p] for a literal [p = num/den] (0.5, 0.7, 0.25, ...).  The
    draw is a multiple of 2^-32, and every literal of the script whose
    double is not [num/den] itself (tenths) lies at least 2^-32/10 away from
    those multiples, much farther than its double does from [num/den]: the
    comparison of the doubles is the comparison of the fractions. *)
Definition lt_ratio (r : N) (num den : Z) : bool :=
  Z.of_N r * den <? num * 4294967296.

Definition randint (a b : Z) (_seed : N) : Z * N :=
  let r := rand _seed in (a + floor_mul r (b - a + 1), r).

(** [arr[Math.floor(rand()*arr.length)]]; [None] is [undefined]. *)
Definition choice {A} (arr : list A) (_seed : N) : option A * N :=
  let r := rand _seed in
  (arr !! Z.to_nat (floor_mul r (Z.of_nat (length arr))), r).

Definition randBool (num den : Z) (_seed : N) : bool * N :=
  let r := rand _seed in (lt_ratio r num den, r).

(** The rejection loop of [sample]: [res] is the result so far, [s] the set
    of indices already drawn.  [fuel] bounds the number of draws.  The index
    drawn is below [arr.length], so [arr[i]] is an entry of [arr]
    ([index_at_lt] below); the branch for a missing entry is never taken. *)
Fixpoint sample_loop {A} (fuel : nat) (arr : list A) (k : Z)
    (res : list A) (s : gset nat) (_seed : N) : option (list A * N) :=
  if Z.of_nat (length res) <? k then
    match fuel with
    | O => None
    | S fuel' =>
        let r := rand _seed in
        let i := Z.to_nat (floor_mul r (Z.of_nat (length arr))) in
        if decide (i ∈ s) then sample_loop fuel' arr k res s r
        else match arr !! i with
             | Some x => sample_loop fuel' arr k (res ++ [x]) ({[i]} ∪ s) r
             | None => None
             end
    end
  else Some (res, _seed).

Definition sample {A} (fuel : nat) (arr : list A) (k : Z) (_seed : N)
    : option (list A * N) :=
  if Z.of_nat (length arr) <=? k then Some (arr, _seed)
  else sample_loop fuel arr k [] ∅ _seed.

End Rng.

(** ** Results of script fragments

    A fragment either completes, throws a JavaScript exception that nothing
    caught, or (in the model only) runs out of the fuel that bounds the
    rejection loop of [sample]. *)

Inductive res (A : Type) : Type :=
  | Ok (a : A)
  | Throw (e : string)
  | OutOfFuel.
Arguments Ok {A} a.
Arguments Throw {A} e.
Arguments OutOfFuel {A}.

Definition rbind {A B} (m : res A) (k : A -> res B) : res B :=
  match m with
  | Ok a => k a
  | Throw e => Throw e
  | OutOfFuel => OutOfFuel
  end.

Notation "'let*' p ':=' m 'in' k" := (rbind m (fun p => k))
  (at level 10, p pattern, m at level 100, k at level 200).

Definition of_fuel {A} (o : option A) : res A :=
  match o with Some a => Ok a | None => OutOfFuel end.

(** [try { body } catch(e) { handler(e) }] *)
Definition try_catch {A} (body : res A) (handler : string -> res A) : res A :=
  match body with
  | Throw e => handler e
  | r => r
  end.

(** ** Documents *)

Record Place := { city : string; lang : string }.
Record Language := { code : string; is_primary : bool }.
Record Location := { loc_city : string; loc_state : string; loc_country : string }.

Record UserDoc := {
  _id : Z; name : string; age : Z; gender : string;
  location : Location; languages : list Language; primaryLang : string;
  joinedAt : string; education : string; profession : string;
  interests : list string; purpose : string; thirdParty : bool;
  community : Z }.

(** A friend edge carries its canonical [pair] key, a follow edge does not;
    the [dst] of a follow edge is whatever [choice] returned. *)
Record FriendEdge := { f_src : Z; f_dst : Z; f_pair : string }.
Record FollowEdge := { w_src : Z; w_dst : option Z }.
Inductive EdgeDoc :=
  | Friend (e : FriendEdge)     (* { type:'friend', src, dst, pair, weight: 1.0 } *)
  | Follow (e : FollowEdge).    (* { type:'follow', src, dst, weight: 1.0 } *)

Inductive IType := message | like | comment | view.
(** [weight] is in halves: 2.0, 1.5, 1.0 and 0.5 are 4, 3, 2 and 1. *)
Record InteractionDoc := {
  actor : option Z; target : option Z; itype : option IType;
  weight2 : Z; createdAt : Z }.

(** ** The external store and the console

    [insertMany(batch, {ordered:false})] is the store's business: it returns
    the store it leaves behind (a failing unordered insert may have written
    part of the batch) and the exception it threw, if any.  The count
    fields are what [countDocuments] returns when it answers; whether it
    answers is the store's [Outage], below. *)

Record Sink := {
  DB : Type;
  insertUsers : list UserDoc -> DB -> DB * option string;
  insertEdges : list EdgeDoc -> DB -> DB * option string;
  insertInteractions : list InteractionDoc -> DB -> DB * option string;
  countUsers : DB -> Z;
  countEdges : DB -> Z;
  countFriendEdges : DB -> Z;
  countInteractions : DB -> Z }.

(** A store that keeps everything and never fails. *)
Record MemDB := {
  db_users : list UserDoc; db_edges : list EdgeDoc;
  db_interactions : list InteractionDoc }.

Definition is_friend (e : EdgeDoc) : bool :=
  match e with Friend _ => true | Follow _ => false end.

Definition memSink : Sink := {|
  DB := MemDB;
  insertUsers b d := ({| db_users := db_users d ++ b; db_edges := db_edges d;
                         db_interactions := db_interactions d |}, None);
  insertEdges b d := ({| db_users := db_users d; db_edges := db_edges d ++ b;
                         db_interactions := db_interactions d |}, None);
  insertInteractions b d :=
    ({| db_users := db_users d; db_edges := db_edges d;
        db_interactions := db_interactions d ++ b |}, None);
  countUsers d := Z.of_nat (length (db_users d));
  countEdges d := Z.of_nat (length (db_edges d));
  countFriendEdges d := Z.of_nat (length (filter is_friend (db_edges d)));
  countInteractions d := Z.of_nat (length (db_interactions d)) |}.

(** A store with room for a hundred edges: an insert of edges that would
    take it beyond throws and writes nothing. *)
Definition quotaSink : Sink := {|
  DB := MemDB;
  insertUsers b d := ({| db_users := db_users d ++ b; db_edges := db_edges d;
                         db_interactions := db_interactions d |}, None);
  insertEdges b d :=
    if Z.of_nat (length (db_edges d) + length b) <=? 100
    then ({| db_users := db_users d; db_edges := db_edges d ++ b;
             db_interactions := db_interactions d |}, None)
    else (d, Some "quota exceeded"%string);
  insertInteractions b d :=
    ({| db_users := db_users d; db_edges := db_edges d;
        db_interactions := db_interactions d ++ b |}, None);
  countUsers d := Z.of_nat (length (db_users d));
  countEdges d := Z.of_nat (length (db_edges d));
  countFriendEdges d := Z.of_nat (length (filter is_friend (db_edges d)));
  countInteractions d := Z.of_nat (length (db_interactions d)) |}.

(** A store that is down: every insert throws and nothing is written.  Its
    counts are those of an empty store; that [countDocuments] throws as
    well is the outage [unreachable], below. *)
Definition downSink : Sink := {|
  DB := MemDB;
  insertUsers b d := (d, Some "connection refused"%string);
  insertEdges b d := (d, Some "connection refused"%string);
  insertInteractions b d := (d, Some "connection refused"%string);
  countUsers d := Z.of_nat (length (db_users d));
  countEdges d := Z.of_nat (length (db_edges d));
  countFriendEdges d := Z.of_nat (length (filter is_friend (db_edges d)));
  countInteractions d := Z.of_nat (length (db_interactions d)) |}.

Definition emptyDB : MemDB :=
  {| db_users := []; db_edges := []; db_interactions := [] |}.

(** The store, what [print] has written, and the documents handed to
    [insertMany] so far, per collection (the generator's output, whatever the
    store made of it). *)
Record World (K : Sink) := {
  db : DB K; console : list string;
  sentUsers : list UserDoc; sentEdges : list EdgeDoc;
  sentInteractions : list InteractionDoc }.
Arguments db {K} w.
Arguments console {K} w.
Arguments sentUsers {K} w.
Arguments sentEdges {K} w.
Arguments sentInteractions {K} w.

Definition print {K} (msg : string) (w : World K) : World K :=
  {| db := db w; console := console w ++ [msg]; sentUsers := sentUsers w;
     sentEdges := sentEdges w; sentInteractions := sentInteractions w |}.

Definition thrown (exn : option string) : res unit :=
  match exn with Some e => Throw e | None => Ok tt end.

(** [db.users.insertMany(batch, {ordered:false})] as a statement: the store
    is updated, and the exception, if any, propagates. *)
Definition insertMany_users {K} (batch : list UserDoc) (w : World K)
    : World K * res unit :=
  let '(d, exn) := insertUsers K batch (db w) in
  ({| db := d; console := console w; sentUsers := sentUsers w ++ batch;
      sentEdges := sentEdges w; sentInteractions := sentInteractions w |},
   thrown exn).

Definition insertMany_edges {K} (batch : list EdgeDoc) (w : World K)
    : World K * res unit :=
  let '(d, exn) := insertEdges K batch (db w) in
  ({| db := d; console := console w; sentUsers := sentUsers w;
      sentEdges := sentEdges w ++ batch;
      sentInteractions := sentInteractions w |},
   thrown exn).

Definition insertMany_interactions {K} (batch : list InteractionDoc)
    (w : World K) : World K * res unit :=
  let '(d, exn) := insertInteractions K batch (db w) in
  ({| db := d; console := console w; sentUsers := sentUsers w;
      sentEdges := sentEdges w;
      sentInteractions := sentInteractions w ++ batch |},
   thrown exn).

(** [try { insertMany } catch(e){ print(warning, e) }]: the shape shared by
    the four flush sites.  The handler prints and completes. *)
Definition try_insert {K} (ins : World K * res unit) (warning : string)
    : res (World K) :=
  let '(w1, r) := ins in
  try_catch (let* _ := r in Ok w1)
            (fun e => Ok (print (warning +:+ " " +:+ e) w1)).

(** What the handler of a flush site leaves on the console:
    [print(warning, e)] if [insertMany] threw [e], nothing otherwise. *)
Definition warning_line (warning : string) (exn : option string)
    : list string :=
  match exn with
  | Some e => [(warning +:+ " " +:+ e)%string]
  | None => []
  end.

(** ** Counting outside a [try]

    The progress lines call [countDocuments] outside any [try] block: when
    the call throws, the store having become unreachable, the exception
    leaves the script.  Whether a call throws, for a collection and a state
    of the store, is the store's business as well; the count fields of a
    [Sink] are what it returns when it answers. *)

Inductive Counted := CUsers | CEdges | CFriendEdges | CInteractions.

Class Outage (K : Sink) := count_throws : Counted -> DB K -> option string.

(** A store that answers every [countDocuments].  The properties that name
    no outage are about such a store. *)
#[global] Instance answers (K : Sink) : Outage K := fun _ _ => None.

Definition count_of (K : Sink) (c : Counted) : DB K -> Z :=
  match c with
  | CUsers => countUsers K
  | CEdges => countEdges K
  | CFriendEdges => countFriendEdges K
  | CInteractions => countInteractions K
  end.

(** [db.users.countDocuments()], [db.edges.countDocuments({type:'friend'})],
    ... as an expression. *)
Definition countDocuments {K} {O : Outage K} (c : Counted) (d : DB K)
    : res Z :=
  match count_throws c d with
  | Some e => Throw e
  | None => Ok (count_of K c d)
  end.

(** The store that is down, when it cannot be reached at all: every
    [countDocuments] throws as every insert does. *)
Definition unreachable : Outage downSink :=
  fun _ _ => Some "connection refused"%string.

(** [r] is how a fragment ends against a store with outages, [r0] how it
    ends against the same store answering: the same way, unless a
    [countDocuments] call threw. *)
Definition outage_only {K} {O : Outage K} {A} (r r0 : res A) : Prop :=
  r = r0 ∨ ∃ e c d, r = Throw e ∧ count_throws c d = Some e.

(** ** Configuration (the constants at the top of the script) *)

Record Config := {
  N_USERS : Z; TARGET_EDGE_MIN : Z; TARGET_EDGE_MAX : Z;
  AVG_DEGREE : Z; FRIEND_DEGREE_VARIANCE : Z;
  FOLLOW_MIN : Z; FOLLOW_MAX : Z; N_INTERACTIONS : Z; BATCH_SIZE : Z;
  COMMUNITIES_MIN : Z; COMMUNITIES_MAX : Z;    (* randint(12,22) *)
  RETRY_FACTOR : Z;                            (* desired * 15 *)
  SEED : N }.

Definition script_config : Config := {|
  N_USERS := 15000; TARGET_EDGE_MIN := 112500; TARGET_EDGE_MAX := 187500;
  AVG_DEGREE := 10; FRIEND_DEGREE_VARIANCE := 6;
  FOLLOW_MIN := 2; FOLLOW_MAX := 6; N_INTERACTIONS := 60000;
  BATCH_SIZE := 5000; COMMUNITIES_MIN := 12; COMMUNITIES_MAX := 22;
  RETRY_FACTOR := 15; SEED := 1234567 |}.

(** ** Reference lists and attribute helpers *)

Local Open Scope string_scope.

Definition languages_ref : list string :=
  ["hi";"bn";"ta";"te";"mr";"gu";"kn";"ml";"pa";"or";"as";"en"].
Definition cities : list Place :=
  [ {|city:="Delhi";lang:="hi"|}; {|city:="Mumbai";lang:="mr"|};
    {|city:="Pune";lang:="mr"|}; {|city:="Kolkata";lang:="bn"|};
    {|city:="Chennai";lang:="ta"|}; {|city:="Hyderabad";lang:="te"|};
    {|city:="Bengaluru";lang:="kn"|}; {|city:="Ahmedabad";lang:="gu"|};
    {|city:="Jaipur";lang:="hi"|}; {|city:="Lucknow";lang:="hi"|};
    {|city:="Bhopal";lang:="hi"|}; {|city:="Patna";lang:="hi"|};
    {|city:="Bhubaneswar";lang:="or"|}; {|city:="Guwahati";lang:="as"|};
    {|city:="Kochi";lang:="ml"|}; {|city:="Thiruvananthapuram";lang:="ml"|} ].
Definition firstNamesF : list string :=
  ["Ananya";"Ishita";"Meera";"Zoya";"Priya";"Aisha";"Diya";"Sanya";"Kavya";
   "Neha";"Riya";"Sneha";"Pooja";"Nisha";"Tanvi";"Aarohi";"Ira";"Jahnvi";
   "Mira";"Aditi"].
Definition firstNamesM : list string :=
  ["Rohan";"Aarav";"Kabir";"Dev";"Nikhil";"Arjun";"Rahul";"Siddharth";
   "Rajat";"Yash";"Vikram";"Rohit";"Aman";"Ankit";"Kunal";"Varun";"Aakash";
   "Naveen";"Sagar";"Harsh"].
Definition lastNames : list string :=
  ["Sharma";"Gupta";"Iyer";"Nair";"Khan";"Patel";"Banerjee";"Deshmukh";
   "Verma";"Singh";"Chatterjee";"Mukherjee";"Agarwal";"Bose";"Kapoor";
   "Joshi";"Mehta";"Bhat";"Gowda";"Reddy"].
Definition educations : list string :=
  ["highschool";"undergrad";"postgrad";"phd";"other"].
Definition professions : list string :=
  ["student";"engineer";"doctor";"teacher";"researcher";"artist";"lawyer";
   "manager";"sales";"developer";"data_scientist";"other"].
Definition interestsPool : list string :=
  ["music";"travel";"sports";"reading";"movies";"gaming";"cooking";
   "photography";"fitness";"tech";"art";"politics";"fashion";"science";
   "nature"].
Definition purposes : list string :=
  ["socializing";"networking";"gaming";"news";"learning";"business"].

(** [choice] on a string list; an [undefined] would print as "undefined"
    (the reference lists are never empty, so it does not happen). *)
Definition choice_str (arr : list string) (_seed : N) : string * N :=
  let '(o, r) := Rng.choice arr _seed in (default "undefined" o, r).

Definition neqb_str (a b : string) : bool := negb (String.eqb a b).

Definition randomName (g : string) (_seed : N) : string * N :=
  let '(first, s1) :=
    if String.eqb g "female" then choice_str firstNamesF _seed
    else choice_str firstNamesM _seed in
  let '(last, s2) := choice_str lastNames s1 in
  (first +:+ " " +:+ last, s2).

Definition pickPrimaryLang (cityLang : string) (_seed : N) : string * N :=
  let r := Rng.rand _seed in
  if Rng.lt_ratio r 7 10 then (cityLang, r)
  else choice_str (filter (fun x => neqb_str x "en") languages_ref) r.

Definition buildLanguages (primary : string) (_seed : N) : list Language * N :=
  let arr := [ {| code := primary; is_primary := true |} ] in
  let r1 := Rng.rand _seed in
  let arr := if Rng.lt_ratio r1 8 10
             then (arr ++ [ {| code := "en"; is_primary := false |} ])%list
             else arr in
  let r2 := Rng.rand r1 in
  if Rng.lt_ratio r2 3 10 then
    let '(extra, s3) :=
      choice_str (filter (fun l => neqb_str l primary && neqb_str l "en")
                         languages_ref) r2 in
    ((arr ++ [ {| code := extra; is_primary := false |} ])%list, s3)
  else (arr, r2).

(** [String(n).padStart(2,'0')] *)
Definition padStart2 (s : string) : string :=
  match String.length s with
  | O => "00" | S O => "0" +:+ s | _ => s
  end.

Definition dateRandom (startYear : Z) (_seed : N) : string * N :=
  let '(year, s1) := Rng.randint startYear 2025 _seed in
  let '(m, s2) := Rng.randint 1 12 s1 in
  let '(d, s3) := Rng.randint 1 28 s2 in
  (pretty year +:+ "-" +:+ padStart2 (pretty m) +:+ "-" +:+ padStart2 (pretty d),
   s3).

(** The attribute draws of one user, in the order of the loop body. *)
Definition make_user (fuel : nat) (id community : Z) (_seed : N)
    : res (UserDoc * N) :=
  let r0 := Rng.rand _seed in
  let gender := if Rng.lt_ratio r0 1 2 then "female" else "male" in
  let '(oplace, s1) := Rng.choice cities r0 in
  let place := default {| city := "undefined"; lang := "undefined" |} oplace in
  let '(primary, s2) := pickPrimaryLang (lang place) s1 in
  let '(languagesList, s3) := buildLanguages primary s2 in
  let '(education, s4) := choice_str educations s3 in
  let '(profession, s5) := choice_str professions s4 in
  let '(nInterests, s6) := Rng.randint 1 3 s5 in
  let* (interests, s7) := of_fuel (Rng.sample fuel interestsPool nInterests s6) in
  let '(dateJoined, s8) := dateRandom 2016 s7 in
  let '(purpose, s9) := choice_str purposes s8 in
  let '(thirdParty, s10) := Rng.randBool 1 4 s9 in
  let '(name, s11) := randomName gender s10 in
  let '(age, s12) := Rng.randint 16 60 s11 in
  Ok ({| _id := id; name := name; age := age; gender := gender;
         location := {| loc_city := city place; loc_state := "";
                        loc_country := "India" |};
         languages := languagesList; primaryLang := primary;
         joinedAt := dateJoined; education := education;
         profession := profession; interests := interests;
         purpose := purpose; thirdParty := thirdParty;
         community := community |}, s12).

Local Close Scope string_scope.

(** ** The population partitioner *)

Record Population := {
  allUserIds : list Z;
  idsByCommunity : gmap Z (list Z);
  idsByCity : gmap string (list Z) }.

(** [if(!m[k]) m[k] = []; m[k].push(id)] *)
Definition push_at `{Countable K} (k : K) (id : Z) (m : gmap K (list Z))
    : gmap K (list Z) :=
  <[k := default [] (m !! k) ++ [id]]> m.

Definition add_user (id community : Z) (c : string) (pop : Population)
    : Population :=
  {| allUserIds := allUserIds pop ++ [id];
     idsByCommunity := push_at community id (idsByCommunity pop);
     idsByCity := push_at c id (idsByCity pop) |}.

Definition emptyPopulation : Population :=
  {| allUserIds := []; idsByCommunity := ∅; idsByCity := ∅ |}.

Module Partition.

(** The loop that fills [communities]; [n] counts the iterations left
    ([nCommunities - i]).  The quotients are of non-negative integers
    below 2^53, where flooring the double quotient is integer division. *)
Fixpoint communities_loop (n : nat) (i nCommunities nUsers rem : Z)
    (communities : list Z) (_seed : N) : list Z * N :=
  match n with
  | O => (communities, _seed)
  | S n' =>
      let min := nUsers / (nCommunities * 2) in
      if i =? nCommunities - 1 then (communities ++ [rem], _seed)
      else
        let '(take, s) :=
          Rng.randint min (Z.max min (rem / (nCommunities - i))) _seed in
        communities_loop n' (i + 1) nCommunities nUsers (rem - take)
                         (communities ++ [take]) s
  end.

Definition communities (nCommunities nUsers : Z) (_seed : N) : list Z * N :=
  communities_loop (Z.to_nat nCommunities) 0 nCommunities nUsers nUsers []
                   _seed.

Record State (K : Sink) := {
  _seed : N; GLOBAL_USER_ID : Z; userBatch : list UserDoc;
  communityIndex : Z; assignedToCurrent : Z;
  pop : Population; degree : gmap Z Z; world : World K }.
Arguments _seed {K} s.
Arguments GLOBAL_USER_ID {K} s.
Arguments userBatch {K} s.
Arguments communityIndex {K} s.
Arguments assignedToCurrent {K} s.
Arguments pop {K} s.
Arguments degree {K} s.
Arguments world {K} s.

(** [if(assignedToCurrent >= communities[communityIndex])
      { communityIndex++; assignedToCurrent = 0; }]
    (a comparison with [undefined] is false). *)
Definition advance (communities : list Z) (communityIndex assigned : Z)
    : Z * Z :=
  match communities !! Z.to_nat communityIndex with
  | Some c => if c <=? assigned then (communityIndex + 1, 0)
              else (communityIndex, assigned)
  | None => (communityIndex, assigned)
  end.

(** One iteration of the user loop; [created] is its value on entry. *)
Definition user_body {K} {O : Outage K} (fuel : nat) (cfg : Config)
    (communities : list Z) (created : Z) (st : State K) : res (State K) :=
  let '(communityIndex, assigned) :=
    advance communities (communityIndex st) (assignedToCurrent st) in
  let community := communityIndex in
  let assigned := assigned + 1 in
  let id := GLOBAL_USER_ID st in
  let* (userDoc, s) := make_user fuel id community (_seed st) in
  let batch := userBatch st ++ [userDoc] in
  let pop := add_user id community (loc_city (location userDoc)) (pop st) in
  let degree := <[id := 0]> (degree st) in
  let created := created + 1 in
  if (BATCH_SIZE cfg <=? Z.of_nat (length batch)) || (created =? N_USERS cfg)
  then
    let* w := try_insert (insertMany_users batch (world st))
                "Warning: insertMany users batch error (continuing)." in
    let* n := countDocuments CUsers (db w) in
    let w := print ("Inserted users so far: " +:+ pretty n) w in
    Ok {| _seed := s; GLOBAL_USER_ID := id + 1; userBatch := [];
          communityIndex := communityIndex; assignedToCurrent := assigned;
          pop := pop; degree := degree; world := w |}
  else
    Ok {| _seed := s; GLOBAL_USER_ID := id + 1; userBatch := batch;
          communityIndex := communityIndex; assignedToCurrent := assigned;
          pop := pop; degree := degree; world := world st |}.

(** [for(let created=0; created<N_USERS; ) { ...; created++; ... }];
    [n] counts the iterations left. *)
Fixpoint user_loop {K} {O : Outage K} (fuel : nat) (cfg : Config)
    (communities : list Z) (n : nat) (created : Z) (st : State K)
    : res (State K) :=
  match n with
  | O => Ok st
  | S n' =>
      let* st' := user_body fuel cfg communities created st in
      user_loop fuel cfg communities n' (created + 1) st'
  end.

Definition init {K} (s : N) (w : World K) : State K :=
  {| _seed := s; GLOBAL_USER_ID := 1; userBatch := [];
     communityIndex := 0; assignedToCurrent := 0;
     pop := emptyPopulation; degree := ∅; world := w |}.

(** The whole phase: community count, community sizes, users. *)
Definition run {K} {O : Outage K} (fuel : nat) (cfg : Config) (s : N)
    (w : World K) : res (list Z * State K) :=
  let w := print "Generating users and attributes (streamed in batches)..." w in
  let '(nCommunities, s1) :=
    Rng.randint (COMMUNITIES_MIN cfg) (COMMUNITIES_MAX cfg) s in
  let '(communities, s2) := communities nCommunities (N_USERS cfg) s1 in
  let* st := user_loop fuel cfg communities (Z.to_nat (N_USERS cfg)) 0
               (init s2 w) in
  let* n := countDocuments CUsers (db (world st)) in
  let w := print ("Finished creating users. Total users inserted (count): "
                  +:+ pretty n) (world st) in
  Ok (communities,
      {| _seed := _seed st; GLOBAL_USER_ID := GLOBAL_USER_ID st;
         userBatch := userBatch st; communityIndex := communityIndex st;
         assignedToCurrent := assignedToCurrent st; pop := pop st;
         degree := degree st; world := w |}).

End Partition.

(** ** The degree planner *)

Module Planner.

(** [m[id]] for a numeric table whose entry exists (every id read here was
    written by an earlier loop over the same [allUserIds]). *)
Definition get (m : gmap Z Z) (id : Z) : Z := default 0 (m !! id).

(** First loop: a base degree per user. *)
Fixpoint base_loop (cfg : Config) (ids : list Z) (baseDegrees : gmap Z Z)
    (sumBase : Z) (_seed : N) : gmap Z Z * Z * N :=
  match ids with
  | [] => (baseDegrees, sumBase, _seed)
  | id :: ids' =>
      let '(x, s) :=
        Rng.randint (AVG_DEGREE cfg - FRIEND_DEGREE_VARIANCE cfg)
                    (AVG_DEGREE cfg + FRIEND_DEGREE_VARIANCE cfg) _seed in
      let d := Z.max 1 x in
      base_loop cfg ids' (<[id := d]> baseDegrees) (sumBase + d) s
  end.

(** [sumBase > 0 ? (totalStubs / sumBase) : 1.0] *)
Definition scaleFactor (totalStubs sumBase : Z) : spec_float :=
  if 0 <? sumBase then F64.div (F64.of_Z totalStubs) (F64.of_Z sumBase)
  else F64.of_Z 1.

(** [Math.max(1, Math.floor(baseDegrees[id] * scaleFactor))] *)
Definition first_pass (base : Z) (scale : spec_float) : Z :=
  Z.max 1 (F64.floor (F64.mul (F64.of_Z base) scale)).

(** Second loop: the scaled, floored, clamped first-pass targets. *)
Fixpoint assign_loop (ids : list Z) (baseDegrees : gmap Z Z)
    (scale : spec_float) (targetDegrees : gmap Z Z) (sumAssigned : Z)
    : gmap Z Z * Z :=
  match ids with
  | [] => (targetDegrees, sumAssigned)
  | id :: ids' =>
      let assigned := first_pass (get baseDegrees id) scale in
      assign_loop ids' baseDegrees scale (<[id := assigned]> targetDegrees)
                  (sumAssigned + assigned)
  end.

(** [allUserIds[idx % idsLen]]; the index is in range whenever
    [idsLen > 0]. *)
Definition at_mod (ids : list Z) (idx : Z) : Z :=
  default 0 (ids !! Z.to_nat (idx mod Z.of_nat (length ids))).

(** [while(remaining > 0 && idsLen>0)
      { targetDegrees[id] += 1; remaining--; idx++; }] *)
Fixpoint add_loop (fuel : nat) (ids : list Z) (targetDegrees : gmap Z Z)
    (remaining idx : Z) : res (gmap Z Z * Z) :=
  if (0 <? remaining) && (0 <? Z.of_nat (length ids)) then
    match fuel with
    | O => OutOfFuel
    | S fuel' =>
        let id := at_mod ids idx in
        add_loop fuel' ids (<[id := get targetDegrees id + 1]> targetDegrees)
                 (remaining - 1) (idx + 1)
    end
  else Ok (targetDegrees, remaining).

(** [while(remaining < 0 && idsLen>0)
      { if(targetDegrees[id] > 1){ targetDegrees[id] -= 1; remaining++; }
        idx++; }] *)
Fixpoint trim_loop (fuel : nat) (ids : list Z) (targetDegrees : gmap Z Z)
    (remaining idx : Z) : res (gmap Z Z * Z) :=
  if (remaining <? 0) && (0 <? Z.of_nat (length ids)) then
    match fuel with
    | O => OutOfFuel
    | S fuel' =>
        let id := at_mod ids idx in
        if 1 <? get targetDegrees id then
          trim_loop fuel' ids (<[id := get targetDegrees id - 1]> targetDegrees)
                    (remaining + 1) (idx + 1)
        else trim_loop fuel' ids targetDegrees remaining (idx + 1)
    end
  else Ok (targetDegrees, remaining).

(** "fix rounding differences by distributing any remaining stubs" *)
Definition fix_rounding (fuel : nat) (ids : list Z) (targetDegrees : gmap Z Z)
    (remaining : Z) : res (gmap Z Z * Z) :=
  let* (td, remaining) := add_loop fuel ids targetDegrees remaining 0 in
  if remaining <? 0 then trim_loop fuel ids td remaining 0
  else Ok (td, remaining).

Record Plan := { targetEdges : Z; totalStubs : Z; targetDegrees : gmap Z Z }.

Definition plan (fuel : nat) (cfg : Config) (ids : list Z) (_seed : N)
    : res (Plan * N) :=
  let '(targetEdges, s1) :=
    Rng.randint (TARGET_EDGE_MIN cfg) (TARGET_EDGE_MAX cfg) _seed in
  let totalStubs := targetEdges * 2 in
  let '(baseDegrees, sumBase, s2) := base_loop cfg ids ∅ 0 s1 in
  let scale := scaleFactor totalStubs sumBase in
  let '(td, sumAssigned) := assign_loop ids baseDegrees scale ∅ 0 in
  let* (td, _) := fix_rounding fuel ids td (totalStubs - sumAssigned) in
  Ok ({| targetEdges := targetEdges; totalStubs := totalStubs;
         targetDegrees := td |}, s2).

(** The sum of the per-user targets. *)
Definition sum_targets (ids : list Z) (td : gmap Z Z) : Z :=
  foldr (fun id acc => get td id + acc) 0 ids.

(** [Math.floor(Object.values(targetDegrees).reduce((a,b)=>a+b,0)/2)] *)
Definition expectedEdges (td : gmap Z Z) : Z :=
  map_fold (fun _ v acc => acc + v) 0 td / 2.

End Planner.

(** ** Lookup maps and the neighbour selector *)

(** [for (const k in m) for (const id of m[k]) index[id] = k].  The lists of
    one table never share an id, so the order of the keys is immaterial. *)
Definition index_of `{Countable K} (m : gmap K (list Z)) : gmap Z K :=
  map_fold (fun k ids acc => foldl (fun acc id => <[id := k]> acc) acc ids) ∅ m.

Record Lookup := {
  userCommunityMap : gmap Z Z;
  userCityMap : gmap Z string }.

Definition lookup_maps (pop : Population) : Lookup :=
  {| userCommunityMap := index_of (idsByCommunity pop);
     userCityMap := index_of (idsByCity pop) |}.

(** [m[k] && m[k].length > 1], with [k] possibly [undefined]. *)
Definition usable `{Countable K} (m : gmap K (list Z)) (k : option K)
    : option (list Z) :=
  match k ≫= (m !!.) with
  | Some l => if 1 <? Z.of_nat (length l) then Some l else None
  | None => None
  end.

Module Neighbor.

(** The pool for a draw [r]: community, city or everybody. *)
Definition pool_for (pop : Population) (lk : Lookup) (uId : Z) (r : N)
    : list Z :=
  let cidx := userCommunityMap lk !! uId in
  let city := userCityMap lk !! uId in
  match (if Rng.lt_ratio r 3 4 then usable (idsByCommunity pop) cidx else None) with
  | Some l => l
  | None =>
      match (if Rng.lt_ratio r 9 10 then usable (idsByCity pop) city else None) with
      | Some l => l
      | None => allUserIds pop
      end
  end.

(** [pool.filter(id => id !== uId)] *)
Definition others (uId : Z) (pool : list Z) : list Z :=
  filter (fun id => id ≠ uId) pool.

(** [Math.min(6, Math.max(0, pool.length-1))] *)
Definition how_many (pool : list Z) : Z :=
  Z.min 6 (Z.max 0 (Z.of_nat (length pool) - 1)).

(** One iteration of the scan over the candidates:
    [dv = degree[cand] || 0;
     if(dv > bestDeg && cand !== uId) { best = cand; bestDeg = dv; }] *)
Definition scan_step (degree : gmap Z Z) (uId : Z) (acc : option Z * Z)
    (cand : Z) : option Z * Z :=
  let dv := default 0 (degree !! cand) in
  if (snd acc <? dv) && negb (cand =? uId) then (Some cand, dv) else acc.

Definition scan (degree : gmap Z Z) (uId : Z) (candidates : list Z)
    : option Z * Z :=
  foldl (scan_step degree uId) (None, -1) candidates.

(** [!best]: [null] and the number 0 are falsy. *)
Definition falsy (v : option Z) : bool :=
  match v with None => true | Some x => x =? 0 end.

(** [if(!best && candidates.length) best = candidates[0]; return best] *)
Definition choose (degree : gmap Z Z) (uId : Z) (candidates : list Z)
    : option Z :=
  let best := fst (scan degree uId candidates) in
  if falsy best && (0 <? Z.of_nat (length candidates)) then head candidates
  else best.

Definition pickNeighbor (fuel : nat) (pop : Population) (lk : Lookup)
    (degree : gmap Z Z) (uId : Z) (_seed : N) : res (option Z * N) :=
  let r := Rng.rand _seed in
  let pool := pool_for pop lk uId r in
  let* (candidates, s) :=
    of_fuel (Rng.sample fuel (others uId pool) (how_many pool) r) in
  Ok (choose degree uId candidates, s).

End Neighbor.

(** ** The undirected edge builder *)

(** [pairKey(a,b)]: the two decimal strings, the smaller first. *)
Definition pairKey (a b : Z) : string :=
  let s := pretty a in
  let t := pretty b in
  if String.ltb s t then s +:+ "|" +:+ t else t +:+ "|" +:+ s.

Module FriendBuilder.

Record Ctx := {
  cfg : Config; pop : Population; lk : Lookup; plan : Planner.Plan }.

(** The variables the loop updates. *)
Record Data (K : Sink) := {
  _seed : N; degree : gmap Z Z; friendSet : gset string;
  edgeBatch : list EdgeDoc; totalEdges : Z; progressCounter : Z;
  world : World K }.
Arguments _seed {K} d.
Arguments degree {K} d.
Arguments friendSet {K} d.
Arguments edgeBatch {K} d.
Arguments totalEdges {K} d.
Arguments progressCounter {K} d.
Arguments world {K} d.

(** Where control is: at the head of the [for], at the head of the [while]
    of user [uId], after that [while], after the [for], or at the end. *)
Inductive Control :=
  | ForHead (rest : list Z)
  | WhileHead (uId desired tries : Z) (rest : list Z)
  | AfterWhile (rest : list Z)
  | AfterFor
  | Finished.

Definition with_world {K} (d : Data K) (w : World K) (batch : list EdgeDoc)
    : Data K :=
  {| _seed := _seed d; degree := degree d; friendSet := friendSet d;
     edgeBatch := batch; totalEdges := totalEdges d;
     progressCounter := progressCounter d; world := w |}.

Definition with_seed {K} (d : Data K) (s : N) : Data K :=
  {| _seed := s; degree := degree d; friendSet := friendSet d;
     edgeBatch := edgeBatch d; totalEdges := totalEdges d;
     progressCounter := progressCounter d; world := world d |}.

Definition flushEdges {K} (d : Data K) : res (Data K) :=
  if 0 <? Z.of_nat (length (edgeBatch d)) then
    let* w := try_insert (insertMany_edges (edgeBatch d) (world d))
                "Edge batch insert warning:" in
    Ok (with_world d w [])
  else Ok d.

(** [degree[uId] < desired && totalEdges < targetEdges] *)
Definition while_cond {K} (c : Ctx) (uId desired : Z) (d : Data K) : bool :=
  match degree d !! uId with
  | Some du => du <? desired
  | None => false
  end && (totalEdges d <? Planner.targetEdges (plan c)).

(** The statements after the three [continue]s, for an accepted [vId]. *)
Definition accept {K} (c : Ctx) (uId vId : Z) (k : string) (d : Data K)
    : res (Data K) :=
  let friendSet := {[k]} ∪ friendSet d in
  let batch := edgeBatch d ++
               [Friend {| f_src := uId; f_dst := vId; f_pair := k |}] in
  let degree := <[uId := default 0 (degree d !! uId) + 1]> (degree d) in
  let degree := <[vId := default 0 (degree !! vId) + 1]> degree in
  let totalEdges := totalEdges d + 1 in
  let d1 := {| _seed := _seed d; degree := degree; friendSet := friendSet;
               edgeBatch := batch; totalEdges := totalEdges;
               progressCounter := progressCounter d + 1;
               world := world d |} in
  let* d2 := if BATCH_SIZE (cfg c) <=? Z.of_nat (length batch)
             then flushEdges d1 else Ok d1 in
  Ok (if (progressCounter d + 1) mod 50000 =? 0
      then with_world d2
             (print ("Friend edges produced so far: " +:+ pretty totalEdges)
                    (world d2))
             (edgeBatch d2)
      else d2).

(** The body of the [while] after the retry test. *)
Definition attempt {K} (fuel : nat) (c : Ctx) (uId : Z) (d : Data K)
    : res (Data K) :=
  let* (vId, s) :=
    Neighbor.pickNeighbor fuel (pop c) (lk c) (degree d) uId (_seed d) in
  let d := with_seed d s in
  match vId with
  | None => Ok d                                    (* if (!vId) continue *)
  | Some v =>
      if v =? 0 then Ok d                           (* if (!vId) continue *)
      else if uId =? v then Ok d                    (* if (uId === vId) continue *)
      else
        let k := pairKey uId v in
        if decide (k ∈ friendSet d) then Ok d       (* if (friendSet[k]) continue *)
        else accept c uId v k d
  end.

Definition step {K} {O : Outage K} (fuel : nat) (c : Ctx)
    (m : Control * Data K) : res (Control * Data K) :=
  let '(pc, d) := m in
  match pc with
  | ForHead [] => Ok (AfterFor, d)
  | ForHead (uId :: rest) =>
      (* desired = targetDegrees[uId] || 1 *)
      let t := default 0 (Planner.targetDegrees (plan c) !! uId) in
      let desired := if t =? 0 then 1 else t in
      Ok (WhileHead uId desired 0 rest, d)
  | WhileHead uId desired tries rest =>
      if while_cond c uId desired d then
        (* if (tries++ > desired * 15) break *)
        if desired * RETRY_FACTOR (cfg c) <? tries then Ok (AfterWhile rest, d)
        else
          let* d' := attempt fuel c uId d in
          Ok (WhileHead uId desired (tries + 1) rest, d')
      else Ok (AfterWhile rest, d)
  | AfterWhile rest =>
      (* if (totalEdges >= targetEdges) break *)
      if Planner.targetEdges (plan c) <=? totalEdges d then Ok (AfterFor, d)
      else Ok (ForHead rest, d)
  | AfterFor =>
      let* d1 := flushEdges d in
      let* n := countDocuments CFriendEdges (db (world d1)) in
      Ok (Finished,
          with_world d1
            (print ("Friend edges inserted (capped): " +:+ pretty n)
                   (world d1))
            (edgeBatch d1))
  | Finished => Ok (Finished, d)
  end.

Fixpoint run {K} {O : Outage K} (steps fuel : nat) (c : Ctx)
    (m : Control * Data K) : res (Data K) :=
  match m with
  | (Finished, d) => Ok d
  | _ =>
      match steps with
      | O => OutOfFuel
      | S steps' => let* m' := step fuel c m in run steps' fuel c m'
      end
  end.

Definition init {K} (c : Ctx) (s : N) (degree : gmap Z Z) (w : World K)
    : Control * Data K :=
  (ForHead (allUserIds (pop c)),
   {| _seed := s; degree := degree; friendSet := ∅; edgeBatch := [];
      totalEdges := 0; progressCounter := 0; world := w |}).

End FriendBuilder.

(** ** The directed edge builder *)

(** How a candidate prints in [uId + "|" + candidate]. *)
Definition show_candidate (c : option Z) : string :=
  match c with Some v => pretty v | None => "undefined" end.

Definition followKey (uId : Z) (candidate : option Z) : string :=
  pretty uId +:+ "|" +:+ show_candidate candidate.

Module FollowBuilder.

Record Data (K : Sink) := {
  _seed : N; followSet : gset string; followBatch : list EdgeDoc;
  world : World K }.
Arguments _seed {K} d.
Arguments followSet {K} d.
Arguments followBatch {K} d.
Arguments world {K} d.

Definition flushFollow {K} (d : Data K) : res (Data K) :=
  if 0 <? Z.of_nat (length (followBatch d)) then
    let* w := try_insert (insertMany_edges (followBatch d) (world d))
                "Follow batch insert warning:" in
    Ok {| _seed := _seed d; followSet := followSet d; followBatch := [];
          world := w |}
  else Ok d.

(** The candidate draw: global, community, global.  Reading [.length] of a
    missing community list is a [TypeError]. *)
Definition draw_candidate (pop : Population) (lk : Lookup) (uId : Z)
    (_seed : N) : res (option Z * N) :=
  let r := Rng.rand _seed in
  if Rng.lt_ratio r 4 10 then Ok (Rng.choice (allUserIds pop) r)
  else if Rng.lt_ratio r 8 10 then
    match (userCommunityMap lk !! uId) ≫= (idsByCommunity pop !!.) with
    | Some commList => Ok (Rng.choice commList r)
    | None => Throw "TypeError: Cannot read properties of undefined"
    end
  else Ok (Rng.choice (allUserIds pop) r).

(** The [while] of one user; [n] counts the tries left ([nF*8 - tries]). *)
Fixpoint while_loop {K} (n : nat) (cfg : Config) (pop : Population)
    (lk : Lookup) (uId nF made tries : Z) (d : Data K) : res (Data K) :=
  if (made <? nF) && (tries <? nF * 8) then
    match n with
    | O => OutOfFuel
    | S n' =>
        let tries := tries + 1 in
        let* (candidate, s) := draw_candidate pop lk uId (_seed d) in
        let d := {| _seed := s; followSet := followSet d;
                    followBatch := followBatch d; world := world d |} in
        if decide (candidate = Some uId) then
          while_loop n' cfg pop lk uId nF made tries d
        else
          let key := followKey uId candidate in
          if decide (key ∈ followSet d) then
            while_loop n' cfg pop lk uId nF made tries d
          else
            let batch := followBatch d ++
                         [Follow {| w_src := uId; w_dst := candidate |}] in
            let d1 := {| _seed := s; followSet := {[key]} ∪ followSet d;
                         followBatch := batch; world := world d |} in
            let* d2 := if BATCH_SIZE cfg <=? Z.of_nat (length batch)
                       then flushFollow d1 else Ok d1 in
            while_loop n' cfg pop lk uId nF (made + 1) tries d2
    end
  else Ok d.

Fixpoint for_loop {K} (cfg : Config) (pop : Population) (lk : Lookup)
    (users : list Z) (d : Data K) : res (Data K) :=
  match users with
  | [] => Ok d
  | uId :: rest =>
      let '(nF, s) := Rng.randint (FOLLOW_MIN cfg) (FOLLOW_MAX cfg) (_seed d) in
      let d := {| _seed := s; followSet := followSet d;
                  followBatch := followBatch d; world := world d |} in
      let* d' := while_loop (Z.to_nat (nF * 8)) cfg pop lk uId nF 0 0 d in
      for_loop cfg pop lk rest d'
  end.

Definition run {K} {O : Outage K} (cfg : Config) (pop : Population)
    (lk : Lookup) (s : N) (w : World K) : res (Data K) :=
  let w := print "Generating follow (directed) edges..." w in
  let* d := for_loop cfg pop lk (allUserIds pop)
              {| _seed := s; followSet := ∅; followBatch := []; world := w |} in
  let* d := flushFollow d in
  let* n := countDocuments CEdges (db (world d)) in
  Ok {| _seed := _seed d; followSet := followSet d;
        followBatch := followBatch d;
        world := print ("Total edges after follows: " +:+ pretty n)
                       (world d) |}.

End FollowBuilder.

(** ** The interaction emitter *)

Module Interactions.

Definition interactionTypes : list IType := [message; like; comment; view].

(** [t === 'message' ? 2.0 : t === 'comment' ? 1.5 : t === 'like' ? 1.0 : 0.5]
    in halves. *)
Definition weight_of (t : option IType) : Z :=
  match t with
  | Some message => 4 | Some comment => 3 | Some like => 2 | _ => 1
  end.

Record Data (K : Sink) := {
  _seed : N; interactionsBatch : list InteractionDoc; world : World K }.
Arguments _seed {K} d.
Arguments interactionsBatch {K} d.
Arguments world {K} d.

Definition flushInteractions {K} (d : Data K) : res (Data K) :=
  if 0 <? Z.of_nat (length (interactionsBatch d)) then
    let* w := try_insert
                (insertMany_interactions (interactionsBatch d) (world d))
                "Interactions batch insert warning:" in
    Ok {| _seed := _seed d; interactionsBatch := []; world := w |}
  else Ok d.

(** One iteration; [now] is what [new Date()] returns in it. *)
Definition body {K} (cfg : Config) (pop : Population) (now : Z) (d : Data K)
    : res (Data K) :=
  let '(actor, s1) := Rng.choice (allUserIds pop) (_seed d) in
  let '(target, s2) := Rng.choice (allUserIds pop) s1 in
  if decide (actor = target) then
    Ok {| _seed := s2; interactionsBatch := interactionsBatch d;
          world := world d |}
  else
    let '(t, s3) := Rng.choice interactionTypes s2 in
    let batch := interactionsBatch d ++
                 [ {| actor := actor; target := target; itype := t;
                      weight2 := weight_of t; createdAt := now |} ] in
    let d1 := {| _seed := s3; interactionsBatch := batch; world := world d |} in
    if BATCH_SIZE cfg <=? Z.of_nat (length batch) then flushInteractions d1
    else Ok d1.

(** [for(let i=0;i<N_INTERACTIONS;i++)]; [n] counts the iterations left and
    [clock i] is the wall-clock time read in iteration [i]. *)
Fixpoint for_loop {K} (cfg : Config) (pop : Population) (clock : Z -> Z)
    (n : nat) (i : Z) (d : Data K) : res (Data K) :=
  match n with
  | O => Ok d
  | S n' =>
      let* d' := body cfg pop (clock i) d in
      for_loop cfg pop clock n' (i + 1) d'
  end.

Definition run {K} {O : Outage K} (cfg : Config) (pop : Population)
    (clock : Z -> Z) (s : N) (w : World K) : res (Data K) :=
  let w := print "Generating interactions (batched)..." w in
  let* d := for_loop cfg pop clock (Z.to_nat (N_INTERACTIONS cfg)) 0
              {| _seed := s; interactionsBatch := []; world := w |} in
  let* d := flushInteractions d in
  let* n := countDocuments CInteractions (db (world d)) in
  Ok {| _seed := _seed d; interactionsBatch := interactionsBatch d;
        world := print ("Interactions inserted: " +:+ pretty n) (world d) |}.

End Interactions.

(** ** The script

    From the users to the interactions, in the order of the file.  Dropping
    the collections at the start and creating the indexes at the end (each
    call in its own [try]) touch no generated document and are left out. *)

Definition start {K : Sink} (d : DB K) : World K :=
  {| db := d; console := []; sentUsers := []; sentEdges := [];
     sentInteractions := [] |}.

Definition main {K : Sink} {O : Outage K} (fuel : nat) (cfg : Config)
    (clock : Z -> Z) (d : DB K) : res (World K) :=
  let* (communities, us) := Partition.run fuel cfg (SEED cfg) (start d) in
  let pop := Partition.pop us in
  let w := print "Preparing to generate biased friend edges (batched)."
                 (Partition.world us) in
  let* (plan, s1) := Planner.plan fuel cfg (allUserIds pop) (Partition._seed us) in
  let w := print ("Target friend edges:" +:+ pretty (Planner.targetEdges plan)
                  +:+ "  expected ~"
                  +:+ pretty (Planner.expectedEdges (Planner.targetDegrees plan)))
                 w in
  let lk := lookup_maps pop in
  let c := {| FriendBuilder.cfg := cfg; FriendBuilder.pop := pop;
              FriendBuilder.lk := lk; FriendBuilder.plan := plan |} in
  let* fd := FriendBuilder.run fuel fuel c
               (FriendBuilder.init c s1 (Partition.degree us) w) in
  let* wd := FollowBuilder.run cfg pop lk (FriendBuilder._seed fd)
               (FriendBuilder.world fd) in
  let* id := Interactions.run cfg pop clock (FollowBuilder._seed wd)
               (FollowBuilder.world wd) in
  Ok (Interactions.world id).

(** ** Auxiliary definitions for the properties *)

(** The affine map behind [rand], on unbounded integers. *)
Definition lcg (x : Z) : Z := x * 1664525 + 1013904223.

(** A window of draws in which every 32-bit state occurs, as a number of
    draws (2^32). *)
Definition period : nat := Z.to_nat 4294967296.

(** The state after [n] further draws. *)
Definition draws (n : nat) (_seed : N) : N := Nat.iter n Rng.rand _seed.

(** [out] lists the entries of [arr] at pairwise distinct positions. *)
Definition Sampled {A} (arr out : list A) : Prop :=
  ∃ idxs : list nat,
    NoDup idxs ∧ Forall2 (fun i x => arr !! i = Some x) idxs out.

(** The index [Math.floor(rand()*arr.length)] for the draw [r]. *)
Definition index_at {A} (arr : list A) (r : N) : nat :=
  Z.to_nat (Rng.floor_mul r (Z.of_nat (length arr))).

(** [degree[c] || 0] *)
Definition counter (degree : gmap Z Z) (c : Z) : Z := default 0 (degree !! c).

(** What the selector owes for the candidates [cs]: nothing if there are
    none; otherwise one of them, the first sampled if no counter exceeds the
    sentinel -1, and else the first one among those with the highest
    counter. *)
Definition Best (degree : gmap Z Z) (cs : list Z) (r : option Z) : Prop :=
  match r with
  | None => cs = []
  | Some b =>
      ∃ j : nat, cs !! j = Some b
        ∧ ((∀ c, c ∈ cs → counter degree c ≤ -1) → j = 0%nat)
        ∧ ((∃ c, c ∈ cs ∧ -1 < counter degree c) →
           (∀ c, c ∈ cs → counter degree c ≤ counter degree b)
           ∧ (∀ j' c, (j' < j)%nat → cs !! j' = Some c →
                      counter degree c < counter degree b))
  end.

(** A population of three users in one community and one city. *)
Definition pop3 : Population :=
  {| allUserIds := [1; 2; 3];
     idsByCommunity := {[ 0 := [1; 2; 3] ]};
     idsByCity := {[ "Pune"%string := [1; 2; 3] ]} |}.

Definition sumZ (l : list Z) : Z := foldr Z.add 0 l.

(** [id] is a member of community [c]. *)
Definition member (pop : Population) (c id : Z) : Prop :=
  ∃ l, idsByCommunity pop !! c = Some l ∧ id ∈ l.

(** The first [n] user ids, each in exactly one community list, once. *)
Definition Partitioned (pop : Population) (n : Z) : Prop :=
  allUserIds pop = seqZ 1 n
  ∧ (∀ c l, idsByCommunity pop !! c = Some l →
            NoDup l ∧ ∀ id, id ∈ l → 1 ≤ id ≤ n)
  ∧ (∀ id, 1 ≤ id ≤ n → ∃ c, member pop c id)
  ∧ (∀ id c1 c2, member pop c1 id → member pop c2 id → c1 = c2)
  ∧ (∀ c l, idsByCity pop !! c = Some l →
            NoDup l ∧ ∀ id, id ∈ l → 1 ≤ id ≤ n).

(** The script's constants, scaled down to thirty users. *)
Definition small_config : Config := {|
  N_USERS := 30; TARGET_EDGE_MIN := 40; TARGET_EDGE_MAX := 40;
  AVG_DEGREE := 10; FRIEND_DEGREE_VARIANCE := 6;
  FOLLOW_MIN := 2; FOLLOW_MAX := 6; N_INTERACTIONS := 5;
  BATCH_SIZE := 10; COMMUNITIES_MIN := 3; COMMUNITIES_MAX := 5;
  RETRY_FACTOR := 15; SEED := 1234567 |}.

(** The user documents produced so far: those already handed to the store and
    those waiting in [userBatch]. *)
Definition produced_users {K} (st : Partition.State K) : list UserDoc :=
  sentUsers (Partition.world st) ++ Partition.userBatch st.

(** After [n] users: their ids are 1..n, each sits in exactly one community
    list, and each document carries that community. *)
Definition UsersInv {K} (st : Partition.State K) (n : Z) : Prop :=
  Partitioned (Partition.pop st) n
  ∧ Partition.GLOBAL_USER_ID st = n + 1
  ∧ _id <$> produced_users st = allUserIds (Partition.pop st)
  ∧ Forall (fun d => member (Partition.pop st) (community d) (_id d))
           (produced_users st).

(** The world at the start of a run against the in-memory store. *)
Definition world0 : World memSink := @start memSink emptyDB.

(** Every user of [ids] has a target of at least 1. *)
Definition Planned (ids : list Z) (td : gmap Z Z) : Prop :=
  ∀ id, id ∈ ids → 1 ≤ Planner.get td id.

(** Thirty users and a budget of ten edges: fewer stubs than users. *)
Definition low_budget_config : Config := {|
  N_USERS := 30; TARGET_EDGE_MIN := 10; TARGET_EDGE_MAX := 10;
  AVG_DEGREE := 10; FRIEND_DEGREE_VARIANCE := 6;
  FOLLOW_MIN := 2; FOLLOW_MAX := 6; N_INTERACTIONS := 5;
  BATCH_SIZE := 10; COMMUNITIES_MIN := 3; COMMUNITIES_MAX := 5;
  RETRY_FACTOR := 15; SEED := 1234567 |}.

(** The friend edges among a list of edge documents. *)
Definition friends_of (l : list EdgeDoc) : list FriendEdge :=
  omap (fun e => match e with Friend f => Some f | Follow _ => None end) l.

(** The follow edges among a list of edge documents. *)
Definition follows_of (l : list EdgeDoc) : list FollowEdge :=
  omap (fun e => match e with Follow f => Some f | Friend _ => None end) l.

(** Every friend edge generated so far: handed to the store or waiting in
    [edgeBatch]. *)
Definition generated {K} (d : FriendBuilder.Data K) : list FriendEdge :=
  friends_of (sentEdges (FriendBuilder.world d) ++ FriendBuilder.edgeBatch d).

(** The state of the generation proper: everything but the store and the
    console. *)
Definition same_generation {K} (d d' : FriendBuilder.Data K) : Prop :=
  FriendBuilder._seed d' = FriendBuilder._seed d
  ∧ FriendBuilder.degree d' = FriendBuilder.degree d
  ∧ FriendBuilder.friendSet d' = FriendBuilder.friendSet d
  ∧ FriendBuilder.totalEdges d' = FriendBuilder.totalEdges d
  ∧ FriendBuilder.progressCounter d' = FriendBuilder.progressCounter d
  ∧ sentEdges (FriendBuilder.world d') ++ FriendBuilder.edgeBatch d'
    = sentEdges (FriendBuilder.world d) ++ FriendBuilder.edgeBatch d
  ∧ sentUsers (FriendBuilder.world d') = sentUsers (FriendBuilder.world d)
  ∧ sentInteractions (FriendBuilder.world d')
    = sentInteractions (FriendBuilder.world d).

(** What holds of the friend edges at every point of the generation. *)
Definition FriendInv {K} (d : FriendBuilder.Data K) : Prop :=
  NoDup (f_pair <$> generated d)
  ∧ Forall (fun e => f_src e ≠ f_dst e
                     ∧ f_pair e = pairKey (f_src e) (f_dst e)
                     ∧ f_pair e ∈ FriendBuilder.friendSet d) (generated d)
  ∧ Z.of_nat (length (generated d)) = FriendBuilder.totalEdges d.

(** The accepted count is within the budget. *)
Definition Capped {K} (c : FriendBuilder.Ctx) (d : FriendBuilder.Data K)
    : Prop :=
  FriendBuilder.totalEdges d
    ≤ Z.max 0 (Planner.targetEdges (FriendBuilder.plan c)).

(** At the head of a user's [while], [tries] attempts have been made, at
    most one more than [desired * RETRY_FACTOR]. *)
Definition ControlInv (c : FriendBuilder.Ctx) (pc : FriendBuilder.Control)
    : Prop :=
  match pc with
  | FriendBuilder.WhileHead _ desired tries _ =>
      0 ≤ tries ≤ Z.max 0 (desired * RETRY_FACTOR (FriendBuilder.cfg c) + 1)
  | _ => True
  end.

(** What a step of the machine preserves. *)
Definition MachineInv {K} (c : FriendBuilder.Ctx)
    (m : FriendBuilder.Control * FriendBuilder.Data K) : Prop :=
  FriendInv m.2 ∧ Capped c m.2 ∧ ControlInv c m.1
  ∧ (m.1 = FriendBuilder.Finished → FriendBuilder.edgeBatch m.2 = []).

(** One step of the machine, as a relation. *)
Definition steps_to {K} {O : Outage K} (fuel : nat) (c : FriendBuilder.Ctx)
    (m m' : FriendBuilder.Control * FriendBuilder.Data K) : Prop :=
  m.1 ≠ FriendBuilder.Finished ∧ FriendBuilder.step fuel c m = Ok m'.

(** The machine after [n] steps. *)
Fixpoint after {K} {O : Outage K} (n fuel : nat) (c : FriendBuilder.Ctx)
    (m : FriendBuilder.Control * FriendBuilder.Data K)
    : res (FriendBuilder.Control * FriendBuilder.Data K) :=
  match n with
  | O => Ok m
  | S n' => let* m' := FriendBuilder.step fuel c m in after n' fuel c m'
  end.

(** No pool has more entries than the generator has states. *)
Definition SmallPools (pop : Population) : Prop :=
  Z.of_nat (length (allUserIds pop)) ≤ 4294967296
  ∧ map_Forall (fun _ l => Z.of_nat (length l) ≤ 4294967296) (idsByCommunity pop)
  ∧ map_Forall (fun _ l => Z.of_nat (length l) ≤ 4294967296) (idsByCity pop).

(** Three users, a budget of three edges, two friends planned for each. *)
Definition ctx3 : FriendBuilder.Ctx := {|
  FriendBuilder.cfg := small_config;
  FriendBuilder.pop := pop3;
  FriendBuilder.lk := lookup_maps pop3;
  FriendBuilder.plan := {| Planner.targetEdges := 3; Planner.totalStubs := 6;
                           Planner.targetDegrees := {[ 1 := 2; 2 := 2; 3 := 2 ]} |} |}.

Definition degree3 : gmap Z Z := {[ 1 := 0; 2 := 0; 3 := 0 ]}.

(** A single user, a budget of one edge: two stubs, both planned for the
    only user, who has nobody to befriend. *)
Definition pop1 : Population :=
  {| allUserIds := [1];
     idsByCommunity := {[ 0 := [1] ]};
     idsByCity := {[ "Pune"%string := [1] ]} |}.

Definition ctx1 : FriendBuilder.Ctx := {|
  FriendBuilder.cfg := small_config;
  FriendBuilder.pop := pop1;
  FriendBuilder.lk := lookup_maps pop1;
  FriendBuilder.plan := {| Planner.targetEdges := 1; Planner.totalStubs := 2;
                           Planner.targetDegrees := {[ 1 := 2 ]} |} |}.

(** Every character of [s] satisfies [P]. *)
Fixpoint all_chars (P : Ascii.ascii -> Prop) (s : string) : Prop :=
  match s with
  | EmptyString => True
  | String a s' => P a ∧ all_chars P s'
  end.

(** Neither the separator of the keys nor the first letter of "undefined". *)
Definition plain (a : Ascii.ascii) : Prop := a ≠ "|"%char ∧ a ≠ "u"%char.

(** Every follow edge generated so far: handed to the store or waiting in
    [followBatch]. *)
Definition followed {K} (d : FollowBuilder.Data K) : list FollowEdge :=
  follows_of (sentEdges (FollowBuilder.world d) ++ FollowBuilder.followBatch d).

(** No ordered pair twice, no self-loop, and the dedup set holds exactly the
    keys of the pairs accepted. *)
Definition FollowInv {K} (d : FollowBuilder.Data K) : Prop :=
  NoDup (followed d)
  ∧ Forall (fun e => w_dst e ≠ Some (w_src e)) (followed d)
  ∧ ∀ u c, followKey u c ∈ FollowBuilder.followSet d
           ↔ {| w_src := u; w_dst := c |} ∈ followed d.

(** What a part of the follow phase leaves alone and what it may extend. *)
Definition follow_frame {K} (d d' : FollowBuilder.Data K) : Prop :=
  friends_of (sentEdges (FollowBuilder.world d') ++ FollowBuilder.followBatch d')
  = friends_of (sentEdges (FollowBuilder.world d) ++ FollowBuilder.followBatch d)
  ∧ sentUsers (FollowBuilder.world d') = sentUsers (FollowBuilder.world d)
  ∧ sentInteractions (FollowBuilder.world d')
    = sentInteractions (FollowBuilder.world d).

(** Every user has a community, and the community has a member list. *)
Definition WellIndexed (pop : Population) (lk : Lookup) : Prop :=
  ∀ u, u ∈ allUserIds pop →
    ∃ c l, userCommunityMap lk !! u = Some c ∧ idsByCommunity pop !! c = Some l.

(** An interaction without its timestamp. *)
Definition untimed (i : InteractionDoc) : InteractionDoc :=
  {| actor := actor i; target := target i; itype := itype i;
     weight2 := weight2 i; createdAt := 0 |}.

(** Two worlds, possibly of different stores, into which the same documents
    have been generated, the interactions compared through [p] (as they are,
    or without their timestamps). *)
Definition agree (p : InteractionDoc -> InteractionDoc) {K1 K2}
    (w1 : World K1) (w2 : World K2) : Prop :=
  sentUsers w1 = sentUsers w2 ∧ sentEdges w1 = sentEdges w2
  ∧ p <$> sentInteractions w1 = p <$> sentInteractions w2.

(** Two results that end the same way, on related values. *)
Definition rel_res {A B} (R : A -> B -> Prop) (r1 : res A) (r2 : res B) : Prop :=
  match r1, r2 with
  | Ok a, Ok b => R a b
  | Throw e1, Throw e2 => e1 = e2
  | OutOfFuel, OutOfFuel => True
  | _, _ => False
  end.

(** The same state of a phase, over worlds that agree. *)
Definition users_agree (p : InteractionDoc -> InteractionDoc) {K1 K2}
    (a : Partition.State K1) (b : Partition.State K2) : Prop :=
  Partition._seed a = Partition._seed b
  ∧ Partition.GLOBAL_USER_ID a = Partition.GLOBAL_USER_ID b
  ∧ Partition.userBatch a = Partition.userBatch b
  ∧ Partition.communityIndex a = Partition.communityIndex b
  ∧ Partition.assignedToCurrent a = Partition.assignedToCurrent b
  ∧ Partition.pop a = Partition.pop b
  ∧ Partition.degree a = Partition.degree b
  ∧ agree p (Partition.world a) (Partition.world b).

Definition friends_agree (p : InteractionDoc -> InteractionDoc) {K1 K2}
    (a : FriendBuilder.Data K1) (b : FriendBuilder.Data K2) : Prop :=
  FriendBuilder._seed a = FriendBuilder._seed b
  ∧ FriendBuilder.degree a = FriendBuilder.degree b
  ∧ FriendBuilder.friendSet a = FriendBuilder.friendSet b
  ∧ FriendBuilder.edgeBatch a = FriendBuilder.edgeBatch b
  ∧ FriendBuilder.totalEdges a = FriendBuilder.totalEdges b
  ∧ FriendBuilder.progressCounter a = FriendBuilder.progressCounter b
  ∧ agree p (FriendBuilder.world a) (FriendBuilder.world b).

Definition follows_agree (p : InteractionDoc -> InteractionDoc) {K1 K2}
    (a : FollowBuilder.Data K1) (b : FollowBuilder.Data K2) : Prop :=
  FollowBuilder._seed a = FollowBuilder._seed b
  ∧ FollowBuilder.followSet a = FollowBuilder.followSet b
  ∧ FollowBuilder.followBatch a = FollowBuilder.followBatch b
  ∧ agree p (FollowBuilder.world a) (FollowBuilder.world b).

Definition interactions_agree (p : InteractionDoc -> InteractionDoc) {K1 K2}
    (a : Interactions.Data K1) (b : Interactions.Data K2) : Prop :=
  Interactions._seed a = Interactions._seed b
  ∧ p <$> Interactions.interactionsBatch a
    = p <$> Interactions.interactionsBatch b
  ∧ agree p (Interactions.world a) (Interactions.world b).

(** The interactions a completed run has handed to the store. *)
Definition interactions_of {K} (r : res (World K)) : option (list InteractionDoc) :=
  match r with Ok w => Some (sentInteractions w) | _ => None end.

(** Two wall clocks, a second apart. *)
Definition clock_a (i : Z) : Z := 1000 + i.
Definition clock_b (i : Z) : Z := 2000 + i.

(** [targetDegrees[uId] || 1] *)
Definition desired_of (c : FriendBuilder.Ctx) (uId : Z) : Z :=
  let t := default 0 (Planner.targetDegrees (FriendBuilder.plan c) !! uId) in
  if t =? 0 then 1 else t.

Local Open Scope string_scope.
Local Open Scope list_scope.
Local Open Scope Z_scope.

(** ** Auxiliary definitions for the further properties *)

(** The decimal digit [n] (0..9) as a character. *)
Definition digit (n : Z) : ascii := ascii_of_nat (48 + Z.to_nat n).

(** [n] (0..99) written with two digits, [n] (0..9999) with four. *)
Definition two_digits (n : Z) : string :=
  String (digit (n / 10)) (String (digit (n mod 10)) EmptyString).
Definition four_digits (n : Z) : string :=
  String (digit (n / 1000))
    (String (digit (n / 100 mod 10)) (two_digits (n mod 100))).

(** The names [randomName] can build for a gender. *)
Definition names_for (g : string) : list string :=
  first ← (if String.eqb g "female" then firstNamesF else firstNamesM);
  last ← lastNames;
  [first +:+ " " +:+ last].

(** What every generated user document satisfies. *)
Definition WellFormedUser (doc : UserDoc) : Prop :=
  16 ≤ age doc ≤ 60
  ∧ gender doc ∈ ["female"; "male"]
  ∧ name doc ∈ names_for (gender doc)
  ∧ loc_city (location doc) ∈ (city <$> cities)
  ∧ loc_state (location doc) = EmptyString
  ∧ loc_country (location doc) = "India"
  ∧ primaryLang doc ∈ languages_ref ∧ primaryLang doc ≠ "en"
  ∧ head (languages doc)
    = Some {| code := primaryLang doc; is_primary := true |}
  ∧ Forall (fun l => is_primary l = false ∧ code l ∈ languages_ref)
           (tail (languages doc))
  ∧ NoDup (code <$> languages doc)
  ∧ 1 ≤ Z.of_nat (length (interests doc)) ≤ 3
  ∧ NoDup (interests doc)
  ∧ Forall (fun i => i ∈ interestsPool) (interests doc)
  ∧ education doc ∈ educations
  ∧ profession doc ∈ professions
  ∧ purpose doc ∈ purposes
  ∧ String.length (joinedAt doc) = 10%nat.

(** The ids of the users before those of community [c]: the sizes of the
    communities before it, summed. *)
Definition offset (communities : list Z) (c : nat) : Z :=
  sumZ (take c communities).

(** The community lists while the user loop runs: community [c] holds the
    ids that follow those of the communities before it, all of its size for
    a community already left, [a] of them for the current one [ci], none
    for a later one. *)
Definition Filling (communities : list Z) (ci : nat) (a : Z)
    (pop : Population) : Prop :=
  ∀ c : nat,
    default [] (idsByCommunity pop !! Z.of_nat c)
    = seqZ (1 + offset communities c)
           (if (c <? ci)%nat then default 0 (communities !! c)
            else if (c =? ci)%nat then a else 0).

(** The state of the user loop after [created] users. *)
Definition FillInv {K} (communities : list Z) (created : Z)
    (st : Partition.State K) : Prop :=
  ∃ ci : nat,
    Partition.communityIndex st = Z.of_nat ci
    ∧ (ci < length communities)%nat
    ∧ 0 ≤ Partition.assignedToCurrent st
        ≤ default 0 (communities !! ci)
    ∧ created = offset communities ci + Partition.assignedToCurrent st
    ∧ Partition.GLOBAL_USER_ID st = created + 1
    ∧ Filling communities ci (Partition.assignedToCurrent st)
              (Partition.pop st).

(** How many ends of the friend edge [e] are [u]. *)
Definition touches (u : Z) (e : FriendEdge) : Z :=
  (if decide (f_src e = u) then 1 else 0)
  + (if decide (f_dst e = u) then 1 else 0).

(** The friend edges of [es] at [u], counted at each end. *)
Definition incident (u : Z) (es : list FriendEdge) : Z :=
  sumZ (touches u <$> es).

(** The friend edges of [es] made in [u]'s own loop: those with source [u]. *)
Definition initiated (u : Z) (es : list FriendEdge) : Z :=
  Z.of_nat (length (filter (fun e => f_src e = u) es)).

(** Every community list and every city list holds user ids only. *)
Definition PoolsWithin (pop : Population) : Prop :=
  map_Forall (fun _ l => l ⊆ allUserIds pop) (idsByCommunity pop)
  ∧ map_Forall (fun _ l => l ⊆ allUserIds pop) (idsByCity pop).

(** The users whose loop is running or still to come. *)
Definition pending (pc : FriendBuilder.Control) : list Z :=
  match pc with
  | FriendBuilder.ForHead rest => rest
  | FriendBuilder.WhileHead u _ _ rest => u :: rest
  | FriendBuilder.AfterWhile rest => rest
  | _ => []
  end.

(** The follow edges of [es] with source [u]. *)
Definition out_follows (u : Z) (es : list FollowEdge) : Z :=
  Z.of_nat (length (filter (fun e => w_src e = u) es)).

(** Every community list has a member and holds user ids only. *)
Definition ListsWithin (pop : Population) : Prop :=
  map_Forall (fun _ l => l ≠ [] ∧ l ⊆ allUserIds pop) (idsByCommunity pop).

(** A follow edge of [u] whose target was drawn by [draw_candidate]. *)
Definition drawn_for (pop : Population) (lk : Lookup) (u : Z)
    (e : FollowEdge) : Prop :=
  w_src e = u
  ∧ ∃ seed r, FollowBuilder.draw_candidate pop lk u seed = Ok (w_dst e, r).

(** Every interaction generated so far: handed to the store or waiting in
    [interactionsBatch]. *)
Definition emitted {K} (d : Interactions.Data K) : list InteractionDoc :=
  sentInteractions (Interactions.world d) ++ Interactions.interactionsBatch d.

(** An interaction between two different users of the population, of one of
    the four types and with the weight of its type, stamped in one of the
    iterations [lo..hi-1]. *)
Definition ValidInteraction (pop : Population) (clock : Z -> Z) (lo hi : Z)
    (x : InteractionDoc) : Prop :=
  ∃ a t ty i,
    x = {| actor := Some a; target := Some t; itype := Some ty;
           weight2 := Interactions.weight_of (Some ty);
           createdAt := clock i |}
    ∧ a ≠ t ∧ a ∈ allUserIds pop ∧ t ∈ allUserIds pop
    ∧ ty ∈ Interactions.interactionTypes ∧ lo ≤ i < hi.

(** An edge document between two different users among 1..n. *)
Definition EdgeWithin (n : Z) (e : EdgeDoc) : Prop :=
  match e with
  | Friend f => 1 ≤ f_src f ≤ n ∧ 1 ≤ f_dst f ≤ n ∧ f_src f ≠ f_dst f
  | Follow g =>
      1 ≤ w_src g ≤ n
      ∧ ∃ v, w_dst g = Some v ∧ 1 ≤ v ≤ n ∧ v ≠ w_src g
  end.

(** An interaction between two different users among 1..n. *)
Definition InteractionWithin (n : Z) (x : InteractionDoc) : Prop :=
  ∃ a t, actor x = Some a ∧ target x = Some t ∧ a ≠ t
         ∧ 1 ≤ a ≤ n ∧ 1 ≤ t ≤ n.

(** ** The degree planner of the earlier version of the script

    The earlier version (4000 users) plans the degrees in one pass that
    spends the stub budget as it goes and stops when it is spent, followed
    by one round that gives every planned user one more stub while some are
    left. *)

Module OldPlanner.

(** [for (const u of users) { let d = Math.max(1, ...randint(...));
      if (remainingDegree - d < 0) d = remainingDegree;
      targetDegrees[u._id] = d; remainingDegree -= d;
      if (remainingDegree <= 0) break; }];
    [users] lists the [_id]s in the order of the array. *)
Fixpoint assign_loop (cfg : Config) (users : list Z) (targetDegrees : gmap Z Z)
    (remainingDegree : Z) (_seed : N) : gmap Z Z * Z * N :=
  match users with
  | [] => (targetDegrees, remainingDegree, _seed)
  | id :: users' =>
      let '(x, s) :=
        Rng.randint (AVG_DEGREE cfg - FRIEND_DEGREE_VARIANCE cfg)
                    (AVG_DEGREE cfg + FRIEND_DEGREE_VARIANCE cfg) _seed in
      let d := Z.max 1 x in
      let d := if remainingDegree - d <? 0 then remainingDegree else d in
      let targetDegrees := <[id := d]> targetDegrees in
      let remainingDegree := remainingDegree - d in
      if remainingDegree <=? 0 then (targetDegrees, remainingDegree, s)
      else assign_loop cfg users' targetDegrees remainingDegree s
  end.

(** The keys of the table in the order of [for (const id in targetDegrees)]:
    the ids are array-index keys (integers from 0 to 2^32 - 2), which are
    enumerated in ascending order. *)
Definition keys_in_order (targetDegrees : gmap Z Z) : list Z :=
  merge_sort Z.le (elements (dom targetDegrees)).

(** [for (const id in targetDegrees) { targetDegrees[id]++;
      remainingDegree--; if (remainingDegree <= 0) break; }] *)
Fixpoint bump_loop (keys : list Z) (targetDegrees : gmap Z Z)
    (remainingDegree : Z) : gmap Z Z * Z :=
  match keys with
  | [] => (targetDegrees, remainingDegree)
  | id :: keys' =>
      let targetDegrees :=
        <[id := Planner.get targetDegrees id + 1]> targetDegrees in
      let remainingDegree := remainingDegree - 1 in
      if remainingDegree <=? 0 then (targetDegrees, remainingDegree)
      else bump_loop keys' targetDegrees remainingDegree
  end.

Record Plan := {
  targetEdges : Z; targetDegrees : gmap Z Z; remainingDegree : Z }.

Definition plan (cfg : Config) (users : list Z) (_seed : N) : Plan * N :=
  let '(targetEdges, s1) :=
    Rng.randint (TARGET_EDGE_MIN cfg) (TARGET_EDGE_MAX cfg) _seed in
  let '(td, remaining, s2) := assign_loop cfg users ∅ (targetEdges * 2) s1 in
  let '(td, remaining) :=
    if 0 <? remaining then bump_loop (keys_in_order td) td remaining
    else (td, remaining) in
  ({| targetEdges := targetEdges; targetDegrees := td;
      remainingDegree := remaining |}, s2).

(** [Object.values(targetDegrees).reduce((a,b)=>a+b,0)] *)
Definition total (targetDegrees : gmap Z Z) : Z :=
  map_fold (fun _ v acc => acc + v) 0 targetDegrees.

End OldPlanner.

(** The script's constants with no user to create. *)
Definition no_users_config : Config := {|
  N_USERS := 0; TARGET_EDGE_MIN := 112500; TARGET_EDGE_MAX := 187500;
  AVG_DEGREE := 10; FRIEND_DEGREE_VARIANCE := 6;
  FOLLOW_MIN := 2; FOLLOW_MAX := 6; N_INTERACTIONS := 60000;
  BATCH_SIZE := 5000; COMMUNITIES_MIN := 12; COMMUNITIES_MAX := 22;
  RETRY_FACTOR := 15; SEED := 1234567 |}.

Local Close Scope string_scope.


(** * Properties *)

(** ** The generator visits every state *)

Section FullPeriod.

Local Abbreviation pw k := (2 ^ Z.of_nat k).

Lemma pw_S k : pw (S k) = 2 * pw k.
Proof. rewrite Nat2Z.inj_succ, Z.pow_succ_r by lia. reflexivity. Qed.

Lemma pw_pos k : 0 < pw k.
Proof. apply Z.pow_pos_nonneg; lia. Qed.

Lemma iter_lcg_add n m x :
  Nat.iter (n + m) lcg x = Nat.iter n lcg (Nat.iter m lcg x).
Proof. induction n as [|n IH]; simpl; [reflexivity | now rewrite IH]. Qed.

(** After 2^k draws the state has moved by an odd multiple of 2^k, up to a
    multiple of 2^(k+2) of itself. *)
Lemma lcg_doubling k :
  ∃ m c : Z, ∀ x,
    Nat.iter (Nat.pow 2 k) lcg x
    = (1 + 4 * pw k * m) * x + pw k * (2 * c + 1).
Proof.
  induction k as [|k (m & c & IH)].
  - exists 416131, 506952111. intros x. simpl. unfold lcg. lia.
  - exists (m + 2 * pw k * m * m), (c + pw k * m * (2 * c + 1)).
    intros x.
    replace (Nat.pow 2 (S k)) with (Nat.pow 2 k + Nat.pow 2 k)%nat
      by (simpl; lia).
    rewrite iter_lcg_add, !IH, pw_S. ring.
Qed.

Lemma iter_lcg_affine n :
  ∃ a b : Z, ∀ x, Nat.iter n lcg x = (2 * a + 1) * x + b.
Proof.
  induction n as [|n (a & b & IH)].
  - exists 0, 0. intros x; simpl; lia.
  - exists (832262 + 1664525 * a), (b * 1664525 + 1013904223).
    intros x. simpl. rewrite IH. unfold lcg. ring.
Qed.

(** Every residue modulo 2^k is met within 2^k draws. *)
Lemma lcg_reaches k x t :
  ∃ n q, (n < Nat.pow 2 k)%nat ∧ Nat.iter n lcg x - t = q * pw k.
Proof.
  induction k as [|k (n & q & Hn & Hq)].
  - exists 0%nat, (x - t). split; [simpl; lia|]. simpl. lia.
  - destruct (Z.Even_or_Odd q) as [[h Hh]|[h Hh]].
    + exists n, h. split; [simpl; lia|]. rewrite pw_S, Hq, Hh. ring.
    + destruct (lcg_doubling k) as (m & c & Hd).
      exists (Nat.pow 2 k + n)%nat,
             (h + 1 + c + 2 * m * Nat.iter n lcg x).
      split; [simpl; lia|].
      rewrite iter_lcg_add, Hd, pw_S.
      replace ((1 + 4 * pw k * m) * Nat.iter n lcg x + pw k * (2 * c + 1) - t)
        with ((Nat.iter n lcg x - t) + 4 * pw k * m * Nat.iter n lcg x
              + pw k * (2 * c + 1)) by ring.
      rewrite Hq, Hh. ring.
Qed.

Lemma rand_lcg s : Z.of_N (Rng.rand s) = lcg (Z.of_N s) mod 4294967296.
Proof. unfold Rng.rand, lcg. rewrite N2Z.inj_mod. f_equal. lia. Qed.

Lemma rand_lt s : Z.of_N (Rng.rand s) < 4294967296.
Proof. rewrite rand_lcg. apply Z.mod_pos_bound. lia. Qed.

Lemma draws_lcg n s :
  Z.of_N (draws n (Rng.rand s))
  = Nat.iter n lcg (lcg (Z.of_N s)) mod 4294967296.
Proof.
  induction n as [|n IH].
  - apply rand_lcg.
  - unfold draws in *. simpl. rewrite rand_lcg, IH. unfold lcg.
    rewrite <- Zplus_mod_idemp_l, Zmult_mod_idemp_l, Zplus_mod_idemp_l.
    reflexivity.
Qed.

Lemma period_Z : Z.of_nat period = 4294967296.
Proof. unfold period. lia. Qed.

(** Whatever the state, any 32-bit value is the state again within 2^32
    draws. *)
Lemma draws_reach s t :
  (t < 4294967296)%N → ∃ n, (n < period)%nat ∧ draws n (Rng.rand s) = t.
Proof.
  intros Ht.
  destruct (lcg_reaches 32 (lcg (Z.of_N s)) (Z.of_N t)) as (n & q & Hn & Hq).
  exists n. split.
  - apply Nat2Z.inj_lt. rewrite period_Z.
    apply Nat2Z.inj_lt in Hn. rewrite Nat2Z.inj_pow in Hn.
    change (Z.of_nat 2 ^ Z.of_nat 32) with 4294967296 in Hn. exact Hn.
  - apply N2Z.inj. rewrite draws_lcg.
    change (2 ^ Z.of_nat 32) with 4294967296 in Hq.
    replace (Nat.iter n lcg (lcg (Z.of_N s)))
      with (Z.of_N t + q * 4294967296) by lia.
    rewrite Z_mod_plus_full. apply Z.mod_small. lia.
Qed.

End FullPeriod.

Global Opaque period.

(** ** Binary64 products of a draw *)

Lemma digits2_pos_log2 (p : positive) :
  Z.pos (digits2_pos p) = Z.log2 (Z.pos p) + 1.
Proof.
  induction p as [p IH|p IH|]; simpl digits2_pos.
  - rewrite Pos2Z.inj_succ, IH.
    change (Z.pos p~1) with (2 * Z.pos p + 1).
    rewrite Z.log2_succ_double by lia. lia.
  - rewrite Pos2Z.inj_succ, IH.
    change (Z.pos p~0) with (2 * Z.pos p).
    rewrite Z.log2_double by lia. lia.
  - reflexivity.
Qed.

Lemma iter_pos_nat {A} (f : A → A) (p : positive) : ∀ x,
  SpecFloat.iter_pos f p x = Nat.iter (Pos.to_nat p) f x.
Proof.
  induction p as [p IH|p IH|]; intros x; simpl SpecFloat.iter_pos.
  - rewrite !IH, Pos2Nat.inj_xI.
    replace (S (2 * Pos.to_nat p)) with (Pos.to_nat p + (Pos.to_nat p + 1))%nat
      by lia.
    rewrite !Nat.iter_add. reflexivity.
  - rewrite !IH, Pos2Nat.inj_xO.
    replace (2 * Pos.to_nat p)%nat with (Pos.to_nat p + Pos.to_nat p)%nat by lia.
    rewrite Nat.iter_add. reflexivity.
  - reflexivity.
Qed.

Lemma shr_1_spec (m : Z) (r s : bool) :
  0 ≤ m →
  shr_1 {| shr_m := m; shr_r := r; shr_s := s |}
  = {| shr_m := m / 2; shr_r := Z.odd m; shr_s := r || s |}.
Proof.
  intros Hm. destruct m as [|p|p]; [reflexivity| |lia].
  destruct p as [p|p|]; simpl shr_1; f_equal.
  - change (Z.pos p~1) with (2 * Z.pos p + 1).
    apply Z.div_unique with (r := 1); lia.
  - change (Z.pos p~0) with (2 * Z.pos p).
    apply Z.div_unique with (r := 0); lia.
Qed.

(** [k >= 1] shifts of a mantissa [m]: the quotient, and whether the
    remainder reaches half a unit. *)
Lemma shr_iter (m : Z) (k : nat) :
  0 ≤ m →
  ∃ r s,
    Nat.iter (S k) shr_1 {| shr_m := m; shr_r := false; shr_s := false |}
    = {| shr_m := m / 2 ^ Z.of_nat (S k); shr_r := r; shr_s := s |}
    ∧ (r = true → 2 ^ Z.of_nat k ≤ m mod 2 ^ Z.of_nat (S k))
    ∧ (m mod 2 ^ Z.of_nat (S k) = 0 → r = false ∧ s = false).
Proof.
  intros Hm. induction k as [|k IH].
  - exists (Z.odd m), false. cbn [Nat.iter]. rewrite shr_1_spec by done.
    change (2 ^ Z.of_nat 1) with 2. change (2 ^ Z.of_nat 0) with 1.
    split; [reflexivity|].
    rewrite Zmod_odd. destruct (Z.odd m); split; intros; try done; lia.
  - destruct IH as (r & s & Heq & Hr & Hz).
    exists (Z.odd (m / 2 ^ Z.of_nat (S k))), (r || s).
    change (Nat.iter (S (S k)) shr_1 ?x) with (shr_1 (Nat.iter (S k) shr_1 x)).
    rewrite Heq, shr_1_spec by (apply Z.div_pos; lia).
    assert (Hpow : 2 ^ Z.of_nat (S (S k)) = 2 ^ Z.of_nat (S k) * 2).
    { rewrite (Nat2Z.inj_succ (S k)), Z.pow_succ_r by lia. lia. }
    rewrite Hpow, Z.div_div by lia.
    split; [reflexivity|].
    assert (Hmod : m mod (2 ^ Z.of_nat (S k) * 2)
                   = m mod 2 ^ Z.of_nat (S k)
                     + 2 ^ Z.of_nat (S k) * ((m / 2 ^ Z.of_nat (S k)) mod 2)).
    { rewrite Z.rem_mul_r by lia. lia. }
    rewrite Hmod, Zmod_odd.
    pose proof (Z.mod_pos_bound m (2 ^ Z.of_nat (S k)) ltac:(lia)).
    destruct (Z.odd (m / 2 ^ Z.of_nat (S k))); split; intros; try done; try lia.
    destruct Hz as [-> ->]; [lia|done].
Qed.

Lemma shr_nonpos (mrs : shr_record) (e k : Z) : k ≤ 0 → shr mrs e k = (mrs, e).
Proof. intros Hk. destruct k; [reflexivity|lia|reflexivity]. Qed.

Lemma shr_pos (m e k : Z) :
  0 ≤ m → 0 < k →
  ∃ r s,
    shr {| shr_m := m; shr_r := false; shr_s := false |} e k
    = ({| shr_m := m / 2 ^ k; shr_r := r; shr_s := s |}, e + k)
    ∧ (r = true → 2 ^ (k - 1) ≤ m mod 2 ^ k)
    ∧ (m mod 2 ^ k = 0 → r = false ∧ s = false).
Proof.
  intros Hm Hk. destruct k as [|p|p]; [lia| |lia].
  unfold shr. rewrite iter_pos_nat.
  destruct (Pos2Nat.is_succ p) as [j Hj]. rewrite Hj.
  destruct (shr_iter m j Hm) as (r & s & Heq & Hr & Hz).
  assert (Hp : Z.of_nat (S j) = Z.pos p) by (rewrite <- Hj; lia).
  rewrite Hp in *.
  replace (Z.of_nat j) with (Z.pos p - 1) in Hr by lia.
  exists r, s. by rewrite Heq.
Qed.

(** The exponent function of binary64 away from the subnormals. *)
Lemma fexp_normal (d : Z) : -1021 ≤ d → fexp 53 1024 d = d - 53.
Proof. intros Hd. unfold fexp, emin. lia. Qed.

Lemma digits_bounds (P : Z) :
  0 < P → 2 ^ Z.log2 P ≤ P < 2 ^ (Z.log2 P + 1).
Proof. intros HP. pose proof (Z.log2_spec P HP). lia. Qed.

Lemma Zdigits2_log2 (P : Z) : 0 < P → Zdigits2 P = Z.log2 P + 1.
Proof. intros HP. destruct P; try lia. simpl. apply digits2_pos_log2. Qed.

(** A mantissa of at most 53 bits is kept as it is. *)
Lemma round_keep (P e : Z) :
  0 < P → Z.log2 P + 1 ≤ 53 → -1074 ≤ e ≤ 971 →
  binary_round_aux 53 1024 false P e loc_Exact
  = S754_finite false (Z.to_pos P) e.
Proof.
  intros HP HD He. unfold binary_round_aux, shr_fexp.
  rewrite Zdigits2_log2 by done. cbn [shr_record_of_loc].
  assert (Hk : fexp 53 1024 (Z.log2 P + 1 + e) - e ≤ 0)
    by (unfold fexp, emin; lia).
  rewrite (shr_nonpos _ _ _ Hk).
  cbn [shr_m loc_of_shr_record round_nearest_even shr_record_of_loc].
  rewrite Zdigits2_log2 by done.
  rewrite (shr_nonpos _ _ _ Hk). cbn [shr_m].
  destruct P; try lia.
  assert ((e <=? 1024 - 53) = true) as -> by (apply Z.leb_le; lia).
  reflexivity.
Qed.

(** A longer mantissa is rounded to 53 bits: the result, in units of the
    exponent [e] given, is a multiple [V] of [2^k] next to [P]. *)
Lemma round_shift (P e : Z) :
  0 < P → 53 < Z.log2 P + 1 →
  -1021 ≤ Z.log2 P + 1 + e ≤ 1023 →
  let k := Z.log2 P + 1 - 53 in
  ∃ Q E V,
    binary_round_aux 53 1024 false P e loc_Exact = S754_finite false Q E
    ∧ e + k ≤ E ≤ e + k + 1 ∧ 2 ^ 52 ≤ Z.pos Q < 2 ^ 53
    ∧ Z.pos Q * 2 ^ (E - e) = V
    ∧ P / 2 ^ k * 2 ^ k ≤ V ≤ P + 2 ^ (k - 1)
    ∧ (P mod 2 ^ k = 0 → V = P).
Proof.
  intros HP HD He k.
  pose proof (digits_bounds P HP) as HPb.
  assert (Hk : 0 < k) by (unfold k; lia).
  unfold binary_round_aux, shr_fexp.
  rewrite Zdigits2_log2 by done. cbn [shr_record_of_loc].
  rewrite fexp_normal by lia.
  replace (Z.log2 P + 1 + e - 53 - e) with k by (unfold k; lia).
  destruct (shr_pos P e k ltac:(lia) Hk) as (r & s & -> & Hr & Hz).
  cbn [shr_m].
  set (q := P / 2 ^ k).
  assert (H2k : 0 < 2 ^ k) by (apply Z.pow_pos_nonneg; lia).
  assert (Hsplit : P = 2 ^ k * q + P mod 2 ^ k) by (apply Z.div_mod; lia).
  pose proof (Z.mod_pos_bound P (2 ^ k) H2k) as Hrem.
  assert (Hpk : 2 ^ (Z.log2 P) = 2 ^ 52 * 2 ^ k).
  { rewrite <- Z.pow_add_r by lia. f_equal. unfold k. lia. }
  assert (Hpk1 : 2 ^ (Z.log2 P + 1) = 2 ^ 53 * 2 ^ k).
  { rewrite <- Z.pow_add_r by lia. f_equal. unfold k. lia. }
  assert (Hq : 2 ^ 52 ≤ q < 2 ^ 53).
  { split.
    - apply Z.div_le_lower_bound; [done|]. lia.
    - apply Z.div_lt_upper_bound; [done|]. lia. }
  set (Q0 := round_nearest_even q
               (loc_of_shr_record {| shr_m := q; shr_r := r; shr_s := s |})).
  assert (HQ0 : (Q0 = q ∨ (Q0 = q + 1 ∧ r = true))
                ∧ (P mod 2 ^ k = 0 → Q0 = q)).
  { unfold Q0. split.
    - destruct r, s; cbn; try (by left).
      + by right.
      + destruct (Z.even q); [by left|by right].
    - intros H0. destruct (Hz H0) as [-> ->]. reflexivity. }
  clearbody Q0. destruct HQ0 as [HQ0 HQex].
  assert (HQr : 2 ^ 52 ≤ Q0 ≤ 2 ^ 53) by lia.
  assert (Hhalf : 2 ^ k = 2 * 2 ^ (k - 1)).
  { rewrite <- Z.pow_succ_r by lia. f_equal. lia. }
  assert (HV : q * 2 ^ k ≤ Q0 * 2 ^ k ≤ P + 2 ^ (k - 1)
               ∧ (P mod 2 ^ k = 0 → Q0 * 2 ^ k = P)).
  { split; [|intros H0; rewrite (HQex H0); lia].
    destruct HQ0 as [->|[-> Hrt]]; [lia|]. specialize (Hr Hrt). lia. }
  destruct (Z.eq_dec Q0 (2 ^ 53)) as [Htop|Hntop].
  - (* the mantissa overflowed to 2^53 *)
    rewrite Htop. change (Zdigits2 (2 ^ 53)) with 54.
    rewrite fexp_normal by lia.
    replace (54 + (e + k) - 53 - (e + k)) with 1 by lia.
    cbn [shr_record_of_loc shr SpecFloat.iter_pos shr_1 shr_m].
    change (2 ^ 53) with 9007199254740992. cbn [shr_1 shr_m].
    assert ((e + k + 1 <=? 1024 - 53) = true) as ->
      by (apply Z.leb_le; unfold k; lia).
    eexists _, _, _. split; [reflexivity|]. split; [lia|].
    split; [done|]. split; [reflexivity|].
    replace (e + k + 1 - e) with (k + 1) by lia.
    rewrite Z.pow_add_r by lia. rewrite Htop in HV.
    change (2 ^ 53) with 9007199254740992 in HV. change (2 ^ 1) with 2. lia.
  - assert (HdQ : Zdigits2 Q0 = 53).
    { rewrite Zdigits2_log2 by lia.
      assert (Z.log2 Q0 = 52); [|lia].
      apply Z.log2_unique; [lia|]. change (52 + 1) with 53. lia. }
    rewrite HdQ, fexp_normal by lia.
    replace (53 + (e + k) - 53 - (e + k)) with 0 by lia.
    cbn [shr_record_of_loc shr shr_m].
    destruct Q0 as [|Qp|Qp]; try lia.
    assert ((e + k <=? 1024 - 53) = true) as ->
      by (apply Z.leb_le; unfold k; lia).
    eexists _, _, _. split; [reflexivity|]. split; [lia|].
    split; [lia|]. split; [reflexivity|].
    replace (e + k - e) with k by lia. exact HV.
Qed.

Lemma pos_iter_xO (p n : positive) :
  Z.pos (Pos.iter xO p n) = Z.pos p * 2 ^ Z.pos n.
Proof.
  induction n as [|n IH] using Pos.peano_ind.
  - simpl. lia.
  - rewrite Pos.iter_succ, Pos2Z.inj_xO, IH, Pos2Z.inj_succ, Z.pow_succ_r by lia.
    lia.
Qed.

Lemma log2_scaled (z t : Z) : 0 < z → 0 ≤ t → Z.log2 (z * 2 ^ t) = Z.log2 z + t.
Proof. intros. rewrite Z.log2_mul_pow2 by lia. lia. Qed.

(** The double of an integer below 2^53 is that integer, its mantissa
    scaled to 53 bits. *)
Lemma of_Z_exact (z : Z) :
  0 < z < 2 ^ 53 →
  F64.of_Z z
  = S754_finite false (Z.to_pos (z * 2 ^ (52 - Z.log2 z))) (Z.log2 z - 52).
Proof.
  intros Hz. pose proof (digits_bounds z ltac:(lia)) as Hb.
  assert (Hlog : 0 ≤ Z.log2 z ≤ 52).
  { split; [apply Z.log2_nonneg|].
    destruct (Z.le_gt_cases (Z.log2 z) 52) as [|Hgt]; [done|].
    assert (2 ^ 53 ≤ 2 ^ Z.log2 z) by (apply Z.pow_le_mono_r; lia). lia. }
  unfold F64.of_Z, binary_normalize. destruct z as [|p|p]; try lia.
  unfold binary_round. rewrite digits2_pos_log2, fexp_normal by lia.
  unfold shl_align.
  replace (Z.log2 (Z.pos p) + 1 + 0 - 53 - 0) with (Z.log2 (Z.pos p) - 52) by lia.
  destruct (Z.log2 (Z.pos p) - 52) as [|d|d] eqn:Hd; [|lia|].
  - replace (52 - Z.log2 (Z.pos p)) with 0 by lia.
    rewrite Z.mul_1_r. rewrite round_keep; [reflexivity|lia|lia|lia].
  - replace (52 - Z.log2 (Z.pos p)) with (Z.pos d) by lia.
    rewrite <- pos_iter_xO, Pos2Z.id.
    rewrite round_keep; [f_equal; lia|lia| |lia].
    rewrite pos_iter_xO, log2_scaled by lia. lia.
Qed.

(** [_seed/4294967296] is exact. *)
Lemma div_exact (r : Z) :
  0 < r < 2 ^ 32 →
  F64.div (F64.of_Z r) (F64.of_Z 4294967296)
  = S754_finite false (Z.to_pos (r * 2 ^ (52 - Z.log2 r))) (Z.log2 r - 84).
Proof.
  intros Hr. pose proof (digits_bounds r ltac:(lia)) as Hb.
  assert (Hlog : 0 ≤ Z.log2 r ≤ 31).
  { split; [apply Z.log2_nonneg|].
    destruct (Z.le_gt_cases (Z.log2 r) 31) as [|Hgt]; [done|].
    assert (2 ^ 32 ≤ 2 ^ Z.log2 r) by (apply Z.pow_le_mono_r; lia). lia. }
  rewrite of_Z_exact by lia.
  change (F64.of_Z 4294967296)
    with (S754_finite false 4503599627370496 (-20)).
  set (m := r * 2 ^ (52 - Z.log2 r)).
  assert (Hm : 2 ^ 52 ≤ m < 2 ^ 53).
  { unfold m.
    assert (2 ^ 52 = 2 ^ Z.log2 r * 2 ^ (52 - Z.log2 r)) as ->
      by (rewrite <- Z.pow_add_r by lia; f_equal; lia).
    assert (2 ^ 53 = 2 ^ (Z.log2 r + 1) * 2 ^ (52 - Z.log2 r)) as ->
      by (rewrite <- Z.pow_add_r by lia; f_equal; lia).
    assert (0 < 2 ^ (52 - Z.log2 r)) by (apply Z.pow_pos_nonneg; lia).
    nia. }
  assert (Hlm : Z.log2 m = 52).
  { apply Z.log2_unique; [lia|]. change (52 + 1) with 53. lia. }
  unfold F64.div, SFdiv, xorb, SFdiv_core_binary.
  change F64.prec with 53. change F64.emax with 1024.
  rewrite Z2Pos.id by lia.
  rewrite (Zdigits2_log2 m) by lia. rewrite Hlm.
  change (Zdigits2 4503599627370496) with 53.
  rewrite fexp_normal by lia.
  replace (Z.min (52 + 1 + (Z.log2 r - 52) - (53 + -20) - 53)
                 (Z.log2 r - 52 - -20))
    with (Z.log2 r - 85) by lia.
  replace (Z.log2 r - 52 - -20 - (Z.log2 r - 85)) with 53 by lia.
  cbv iota. rewrite Z.shiftl_mul_pow2 by lia.
  assert (Hdiv : Z.div_eucl (m * 2 ^ 53) 4503599627370496 = (2 * m, 0)).
  { pose proof (Z.div_eucl_eq (m * 2 ^ 53) 4503599627370496 ltac:(lia)) as He.
    pose proof (Z.mod_pos_bound (m * 2 ^ 53) 4503599627370496 ltac:(lia)) as Hb'.
    unfold Z.modulo in Hb'.
    destruct (Z.div_eucl (m * 2 ^ 53) 4503599627370496) as [q0 r0].
    change (2 ^ 53) with (4503599627370496 * 2) in He.
    assert (q0 = 2 * m) by nia. f_equal; lia. }
  rewrite Hdiv.
  change (new_location 4503599627370496 0) with loc_Exact.
  destruct (round_shift (2 * m) (Z.log2 r - 85)) as (Q & E & V & -> & HE & HQ & HV & _ & Hex).
  { lia. }
  { rewrite Z.log2_double by lia. lia. }
  { rewrite Z.log2_double by lia. lia. }
  rewrite Z.log2_double in HE, Hex by lia. rewrite Hlm in HE, Hex.
  change (Z.succ 52 + 1 - 53) with 1 in HE, Hex.
  change (2 ^ 1) with 2 in Hex.
  rewrite Hex in HV by (rewrite Z.mul_comm; apply Z_mod_mult).
  assert (E = Z.log2 r - 84) as ->.
  { destruct (Z.eq_dec E (Z.log2 r - 84)) as [|Hne]; [done|].
    assert (E = Z.log2 r - 83) as -> by lia.
    replace (Z.log2 r - 83 - (Z.log2 r - 85)) with 2 in HV by lia.
    change (2 ^ 2) with 4 in HV. lia. }
  replace (Z.log2 r - 84 - (Z.log2 r - 85)) with 1 in HV by lia.
  change (2 ^ 1) with 2 in HV.
  f_equal. lia.
Qed.

Lemma floor_units (Q : positive) (E e V : Z) :
  e ≤ E → e ≤ 0 → Z.pos Q * 2 ^ (E - e) = V →
  F64.floor (S754_finite false Q E) = V / 2 ^ (- e).
Proof.
  intros HE He <-. unfold F64.floor.
  destruct (0 <=? E) eqn:H0.
  - apply Z.leb_le in H0.
    replace (E - e) with (E + - e) by lia.
    rewrite Z.pow_add_r, Z.mul_assoc by lia.
    rewrite Z.div_mul; [done|]. apply Z.pow_nonzero; lia.
  - apply Z.leb_gt in H0.
    replace (- e) with (- E + (E - e)) by lia.
    rewrite Z.pow_add_r by lia.
    rewrite Z.div_mul_cancel_r; [done| |]; apply Z.pow_nonzero; lia.
Qed.

(** The product of the draw [r/2^32] and an integer [n], floored: a
    multiple [V] of the binary64 unit next to [r*n], over 2^32. *)
Lemma mul_rounded (r n : Z) :
  0 < r < 2 ^ 32 → 0 < n < 2 ^ 53 →
  let t := 104 - Z.log2 r - Z.log2 n in
  ∃ V,
    F64.floor (F64.mul (F64.div (F64.of_Z r) (F64.of_Z 4294967296))
                       (F64.of_Z n))
    = V / 2 ^ (t + 32)
    ∧ 0 ≤ V ≤ r * n * 2 ^ t + 2 ^ 52
    ∧ (r * n < 2 ^ 53 → V = r * n * 2 ^ t).
Proof.
  intros Hr Hn t.
  pose proof (digits_bounds r ltac:(lia)) as Hbr.
  pose proof (digits_bounds n ltac:(lia)) as Hbn.
  assert (Hlr : 0 ≤ Z.log2 r ≤ 31).
  { split; [apply Z.log2_nonneg|].
    destruct (Z.le_gt_cases (Z.log2 r) 31) as [|Hgt]; [done|].
    assert (2 ^ 32 ≤ 2 ^ Z.log2 r) by (apply Z.pow_le_mono_r; lia). lia. }
  assert (Hln : 0 ≤ Z.log2 n ≤ 52).
  { split; [apply Z.log2_nonneg|].
    destruct (Z.le_gt_cases (Z.log2 n) 52) as [|Hgt]; [done|].
    assert (2 ^ 53 ≤ 2 ^ Z.log2 n) by (apply Z.pow_le_mono_r; lia). lia. }
  rewrite div_exact, of_Z_exact by lia.
  set (m1 := r * 2 ^ (52 - Z.log2 r)). set (m2 := n * 2 ^ (52 - Z.log2 n)).
  assert (H1 : 0 < 2 ^ (52 - Z.log2 r)) by (apply Z.pow_pos_nonneg; lia).
  assert (H2 : 0 < 2 ^ (52 - Z.log2 n)) by (apply Z.pow_pos_nonneg; lia).
  assert (Hm1 : 0 < m1) by (unfold m1; nia).
  assert (Hm2 : 0 < m2) by (unfold m2; nia).
  unfold F64.mul, SFmul, xorb.
  change F64.prec with 53. change F64.emax with 1024.
  rewrite Pos2Z.inj_mul, !Z2Pos.id by lia.
  set (P := m1 * m2). set (e := Z.log2 r - 84 + (Z.log2 n - 52)).
  assert (HP : P = r * n * 2 ^ t).
  { unfold P, m1, m2, t.
    replace (104 - Z.log2 r - Z.log2 n)
      with ((52 - Z.log2 r) + (52 - Z.log2 n)) by lia.
    rewrite Z.pow_add_r by lia. ring. }
  assert (Ht : 0 ≤ t) by (unfold t; lia).
  assert (H2t : 0 < 2 ^ t) by (apply Z.pow_pos_nonneg; lia).
  assert (Hrn : 0 < r * n) by nia.
  assert (HlP : Z.log2 P = Z.log2 (r * n) + t).
  { rewrite HP. by apply log2_scaled. }
  pose proof (Z.log2_mul_below r n ltac:(lia) ltac:(lia)) as Hlo.
  pose proof (Z.log2_mul_above r n ltac:(lia) ltac:(lia)) as Hhi.
  destruct (round_shift P e) as (Q & E & V & -> & HE & HQ & HV & Hbd & Hex).
  { unfold P. nia. }
  { rewrite HlP. unfold t. lia. }
  { rewrite HlP. unfold t, e. lia. }
  set (k := Z.log2 P + 1 - 53) in *.
  assert (Hk : 52 ≤ k ≤ 53) by (unfold k; rewrite HlP; unfold t; lia).
  exists V. split; [|split].
  - replace (t + 32) with (- e) by (unfold t, e; lia).
    apply floor_units; [lia|unfold e; lia|done].
  - split.
    + assert (0 ≤ P / 2 ^ k) by (apply Z.div_pos; [unfold P; nia|lia]).
      assert (0 < 2 ^ k) by (apply Z.pow_pos_nonneg; lia). nia.
    + rewrite <- HP.
      assert (2 ^ (k - 1) ≤ 2 ^ 52) by (apply Z.pow_le_mono_r; lia). lia.
  - intros Hsmall. rewrite <- HP. apply Hex.
    assert (Hlrn : Z.log2 (r * n) ≤ 52).
    { destruct (Z.le_gt_cases (Z.log2 (r * n)) 52) as [|Hgt]; [done|].
      pose proof (digits_bounds (r * n) Hrn).
      assert (2 ^ 53 ≤ 2 ^ Z.log2 (r * n)) by (apply Z.pow_le_mono_r; lia).
      lia. }
    assert (Hkt : k ≤ t) by (unfold k; rewrite HlP; lia).
    rewrite HP. replace t with ((t - k) + k) by lia.
    rewrite Z.pow_add_r, Z.mul_assoc by lia. apply Z_mod_mult.
Qed.

(** [Math.floor(rand()*n)] is the integer quotient as long as the product
    [_seed*n] stays below 2^53. *)
Lemma floor_mul_exact (r : N) (n : Z) :
  Z.of_N r < 4294967296 → 0 ≤ n → Z.of_N r * n < 2 ^ 53 →
  Rng.floor_mul r n = Z.of_N r * n / 4294967296.
Proof.
  intros Hr Hn Hrn. unfold Rng.floor_mul.
  destruct (Z.abs n <? 9007199254740992) eqn:Hlt; [|reflexivity].
  apply Z.ltb_lt in Hlt.
  destruct (Z.eq_dec (Z.of_N r) 0) as [Hr0|Hr0].
  - rewrite Hr0.
    change (F64.div (F64.of_Z 0) (F64.of_Z 4294967296)) with (S754_zero false).
    destruct (Z.eq_dec n 0) as [->|Hn0]; [reflexivity|].
    rewrite of_Z_exact by (change (2 ^ 53) with 9007199254740992; lia).
    reflexivity.
  - destruct (Z.eq_dec n 0) as [->|Hn0].
    + rewrite div_exact by (change (2 ^ 32) with 4294967296; lia).
      rewrite Z.mul_0_r. reflexivity.
    + destruct (mul_rounded (Z.of_N r) n) as (V & -> & _ & Hex).
      { change (2 ^ 32) with 4294967296; lia. }
      { change (2 ^ 53) with 9007199254740992; lia. }
      rewrite (Hex Hrn).
      set (t := 104 - Z.log2 (Z.of_N r) - Z.log2 n).
      assert (Ht : 0 ≤ t).
      { pose proof (Z.log2_le_mono (Z.of_N r) (2 ^ 32 - 1) ltac:(lia)).
        pose proof (Z.log2_le_mono n (2 ^ 53 - 1)
                      ltac:(change (2 ^ 53) with 9007199254740992; lia)).
        change (Z.log2 (2 ^ 32 - 1)) with 31 in *.
        change (Z.log2 (2 ^ 53 - 1)) with 52 in *. unfold t. lia. }
      rewrite Z.pow_add_r by lia. change (2 ^ 32) with 4294967296.
      rewrite (Z.mul_comm (2 ^ t)).
      rewrite Z.div_mul_cancel_r; [done|lia|]. apply Z.pow_nonzero; lia.
Qed.

(** Whatever the rounding, the index is below [n]. *)
Lemma floor_mul_range (r : N) (n : Z) :
  Z.of_N r < 4294967296 → 0 < n → 0 ≤ Rng.floor_mul r n < n.
Proof.
  intros Hr Hn. unfold Rng.floor_mul.
  destruct (Z.abs n <? 9007199254740992) eqn:Hlt.
  - apply Z.ltb_lt in Hlt.
    destruct (Z.eq_dec (Z.of_N r) 0) as [Hr0|Hr0].
    + rewrite Hr0.
      change (F64.div (F64.of_Z 0) (F64.of_Z 4294967296)) with (S754_zero false).
      rewrite of_Z_exact by (change (2 ^ 53) with 9007199254740992; lia).
      cbn. lia.
    + destruct (mul_rounded (Z.of_N r) n) as (V & -> & HV & _).
      { change (2 ^ 32) with 4294967296; lia. }
      { change (2 ^ 53) with 9007199254740992; lia. }
      set (t := 104 - Z.log2 (Z.of_N r) - Z.log2 n) in *.
      pose proof (Z.log2_le_mono (Z.of_N r) (2 ^ 32 - 1) ltac:(lia)) as Hlr.
      change (Z.log2 (2 ^ 32 - 1)) with 31 in Hlr.
      pose proof (Z.log2_nonneg (Z.of_N r)) as Hlr0.
      pose proof (digits_bounds n Hn) as Hbn.
      pose proof (Z.log2_le_mono n (2 ^ 53 - 1)
                    ltac:(change (2 ^ 53) with 9007199254740992; lia)) as Hln.
      change (Z.log2 (2 ^ 53 - 1)) with 52 in Hln.
      pose proof (Z.log2_nonneg n) as Hln0.
      assert (Ht : 0 ≤ t) by (unfold t; lia).
      assert (H2t : 0 < 2 ^ t) by (apply Z.pow_pos_nonneg; lia).
      assert (Hbig : 2 ^ 52 < n * 2 ^ t).
      { assert (2 ^ 73 ≤ 2 ^ (Z.log2 n + t))
          by (apply Z.pow_le_mono_r; unfold t; lia).
        rewrite Z.pow_add_r in H by lia. nia. }
      split.
      * apply Z.div_pos; [lia|]. apply Z.pow_pos_nonneg; lia.
      * apply Z.div_lt_upper_bound; [apply Z.pow_pos_nonneg; lia|].
        rewrite Z.pow_add_r by lia. change (2 ^ 32) with 4294967296. nia.
  - split.
    + apply Z.div_pos; lia.
    + apply Z.div_lt_upper_bound; nia.
Qed.

(** From 2^21 entries on the product is rounded: the draw 2147483666 on an
    array of 4294967262 entries gives the index after the quotient. *)
Example floor_mul_rounds :
  Rng.floor_mul 2147483666 4294967262 = 2147483649
  ∧ 2147483666 * 4294967262 / 4294967296 = 2147483648.
Proof. split; reflexivity. Qed.

(** From here on the product is used through the three facts above. *)
#[global] Opaque Rng.floor_mul.

(** ** Ranges of the draws *)

Lemma randint_range a b s :
  a ≤ b → a ≤ fst (Rng.randint a b s) ≤ b.
Proof.
  intros Hab. unfold Rng.randint. simpl.
  pose proof (floor_mul_range (Rng.rand s) (b - a + 1) (rand_lt s)). lia.
Qed.

Lemma index_at_lt {A} (arr : list A) s :
  arr ≠ [] → (index_at arr (Rng.rand s) < length arr)%nat.
Proof.
  intros Hne. unfold index_at.
  assert (0 < Z.of_nat (length arr)) by (destruct arr; simpl; [done | lia]).
  pose proof (floor_mul_range (Rng.rand s) _ (rand_lt s) H). lia.
Qed.

Lemma choice_Some {A} (arr : list A) s :
  arr ≠ [] → ∃ x, fst (Rng.choice arr s) = Some x ∧ x ∈ arr.
Proof.
  intros Hne. unfold Rng.choice. simpl.
  destruct (lookup_lt_is_Some_2 arr (index_at arr (Rng.rand s))) as [x Hx].
  { by apply index_at_lt. }
  exists x. split; [exact Hx | by eapply list_elem_of_lookup_2].
Qed.

Lemma choice_elem {A} (arr : list A) s x :
  fst (Rng.choice arr s) = Some x → x ∈ arr.
Proof. unfold Rng.choice. simpl. apply list_elem_of_lookup_2. Qed.

(** Every index below 2^21 of an array of at most 2^32 entries is the index
    of some 32-bit draw: the product behind it is below 2^53, hence exact. *)
Lemma index_at_surj {A} (arr : list A) i :
  Z.of_nat (length arr) ≤ 4294967296 → (i < length arr)%nat →
  Z.of_nat i < 2097152 →
  ∃ t : N, (t < 4294967296)%N ∧ index_at arr t = i.
Proof.
  intros Hlen Hi Hsmall.
  set (len := Z.of_nat (length arr)) in *.
  set (t := (Z.of_nat i * 4294967296 + len - 1) / len).
  assert (Hlen0 : 0 < len) by lia.
  assert (Hlo : Z.of_nat i * 4294967296 ≤ t * len).
  { pose proof (Z.mod_pos_bound (Z.of_nat i * 4294967296 + len - 1) len Hlen0).
    pose proof (Z.div_mod (Z.of_nat i * 4294967296 + len - 1) len).
    fold t in H0. nia. }
  assert (Hhi : t * len ≤ Z.of_nat i * 4294967296 + len - 1).
  { pose proof (Z.mul_div_le (Z.of_nat i * 4294967296 + len - 1) len Hlen0).
    fold t in H. lia. }
  assert (Ht0 : 0 ≤ t) by (apply Z.div_pos; lia).
  assert (Ht32 : t < 4294967296) by nia.
  exists (Z.to_N t). split; [lia|].
  unfold index_at. fold len.
  rewrite floor_mul_exact; rewrite ?Z2N.id by lia;
    [|lia|lia|change (2 ^ 53) with 9007199254740992; lia].
  assert (t * len / 4294967296 = Z.of_nat i) as ->; [|lia].
  symmetry. apply Z.div_unique with (r := t * len - Z.of_nat i * 4294967296);
    lia.
Qed.

(** ** The rejection loop of [sample] *)

Lemma draws_rand n s : draws n (Rng.rand s) = Rng.rand (draws n s).
Proof. unfold draws. induction n; simpl; congruence. Qed.

Lemma fresh_index (len : nat) : ∀ s : gset nat,
  (size s < len)%nat → ∃ i, (i < len)%nat ∧ i ∉ s.
Proof.
  induction len as [|n IH]; intros s Hsz; [lia|].
  destruct (decide (n ∈ s)) as [Hin|Hout]; [|exists n; split; [lia|done]].
  destruct (IH (s ∖ ({[n]} : gset nat))) as (i & Hi & Hni).
  { rewrite size_difference by set_solver. rewrite size_singleton.
    assert (size s ≠ 0)%nat by (intros ?%size_empty_inv; set_solver). lia. }
  exists i. split; [lia|]. set_solver by lia.
Qed.

(** The first draw, among the next 2^32, whose index is not in [s] yet. *)
Lemma next_hit {A} (arr : list A) (s : gset nat) seed :
  Z.of_nat (length arr) ≤ 4294967296 → (size s < length arr)%nat →
  Z.of_nat (size s) < 2097152 →
  ∃ j, (j < period)%nat
       ∧ (index_at arr (draws j (Rng.rand seed)) ∉ s)
       ∧ ∀ j', (j' < j)%nat → index_at arr (draws j' (Rng.rand seed)) ∈ s.
Proof.
  intros Hlen Hsz Hsmall.
  destruct (fresh_index (Nat.min (length arr) (Z.to_nat 2097152)) s)
    as (i & Hi & Hni); [lia|].
  destruct (index_at_surj arr i Hlen) as (t & Ht & Hti); [lia|lia|].
  destruct (draws_reach seed t Ht) as (n & Hn & Hd).
  set (P := fun j => index_at arr (draws j (Rng.rand seed)) ∉ s).
  destruct (dec_inh_nat_subset_has_unique_least_element P) as (j & [Hj Hleast] & _).
  { intros k. unfold P. destruct (decide (index_at arr (draws k (Rng.rand seed)) ∈ s));
      [right | left]; tauto. }
  { exists n. unfold P. by rewrite Hd, Hti. }
  exists j. split; [specialize (Hleast n); unfold P in Hleast;
                    rewrite Hd, Hti in Hleast; specialize (Hleast Hni); lia|].
  split; [exact Hj|].
  intros j' Hj'. destruct (decide (index_at arr (draws j' (Rng.rand seed)) ∈ s));
    [done|]. specialize (Hleast j'). unfold P in Hleast. specialize (Hleast n0). lia.
Qed.

Lemma sample_loop_skip {A} (arr : list A) k res s f j : ∀ seed,
  Z.of_nat (length res) < k →
  (∀ j', (j' < j)%nat → index_at arr (draws j' (Rng.rand seed)) ∈ s) →
  Rng.sample_loop (j + f) arr k res s seed
  = Rng.sample_loop f arr k res s (draws j seed).
Proof.
  induction j as [|j IH]; intros seed Hk Hin; [reflexivity|].
  change (S j + f)%nat with (S (j + f)). simpl.
  apply Z.ltb_lt in Hk as Hk'. rewrite Hk'.
  pose proof (Hin 0%nat ltac:(lia)) as H0. unfold draws in H0. simpl in H0.
  fold (index_at arr (Rng.rand seed)).
  rewrite decide_True by exact H0.
  rewrite IH; [|exact Hk|].
  - f_equal. apply (draws_rand j seed).
  - intros j' Hj'. rewrite draws_rand.
    specialize (Hin (S j') ltac:(lia)). unfold draws in *. simpl in Hin.
    exact Hin.
Qed.

(** With 2^32 draws of fuel per element still to find, the loop returns,
    for up to 2^21 elements. *)
Lemma sample_loop_total {A} (arr : list A) k :
  Z.of_nat (length arr) ≤ 4294967296 → k < Z.of_nat (length arr) →
  k ≤ 2097152 →
  ∀ m res s seed fuel,
    (Z.to_nat k - length res)%nat = m → (size s = length res) →
    (m * period ≤ fuel)%nat →
    is_Some (Rng.sample_loop fuel arr k res s seed).
Proof.
  intros Hlen Hk Hk21.
  induction m as [|m IH]; intros res s seed fuel Hm Hsz Hfuel.
  - destruct fuel; simpl; (assert ((Z.of_nat (length res) <? k) = false) as ->
      by (apply Z.ltb_ge; lia)); eauto.
  - assert (Hres : Z.of_nat (length res) < k) by lia.
    destruct (next_hit arr s seed Hlen) as (j & Hj & Hhit & Hbefore);
      [lia|lia|].
    replace fuel with (j + S (fuel - j - 1))%nat by lia.
    rewrite sample_loop_skip by done.
    simpl. apply Z.ltb_lt in Hres as ->.
    fold (index_at arr (Rng.rand (draws j seed))).
    rewrite <- draws_rand. rewrite decide_False by exact Hhit.
    destruct (lookup_lt_is_Some_2 arr
                (index_at arr (draws j (Rng.rand seed)))) as [x ->].
    { rewrite draws_rand. apply index_at_lt. intros ->. simpl in *. lia. }
    apply IH.
    + rewrite length_app. simpl. lia.
    + rewrite size_union by set_solver. rewrite size_singleton, length_app.
      simpl. lia.
    + simpl in Hfuel. lia.
Qed.

Lemma sample_total {A} (arr : list A) k seed fuel :
  Z.of_nat (length arr) ≤ 4294967296 → k ≤ 2097152 →
  (Z.to_nat k * period ≤ fuel)%nat →
  is_Some (Rng.sample fuel arr k seed).
Proof.
  intros Hlen Hk21 Hfuel. unfold Rng.sample.
  destruct (Z.leb_spec (Z.of_nat (length arr)) k); [eauto|].
  eapply sample_loop_total; eauto. simpl. lia.
Qed.

(** What the loop returns: the entries at distinct positions, [k] of them. *)
Lemma sample_loop_spec {A} (arr : list A) k fuel : ∀ res s seed out seed',
  Rng.sample_loop fuel arr k res s seed = Some (out, seed') →
  (∃ idxs, NoDup idxs ∧ (∀ i, i ∈ s ↔ i ∈ idxs)
           ∧ Forall2 (fun i x => arr !! i = Some x) idxs res) →
  Sampled arr out ∧ (Z.of_nat (length res) ≤ k → Z.of_nat (length out) = k).
Proof.
  induction fuel as [|fuel IH]; intros res s seed out seed'; simpl;
    destruct (Z.ltb_spec (Z.of_nat (length res)) k) as [Hlt|Hge]; try done.
  - intros [= <- <-] (idxs & Hnd & _ & Hall). split; [by exists idxs | lia].
  - destruct (decide _) as [Hin|Hout]; [by apply IH|].
    destruct (arr !! _) as [x|] eqn:Hx; [|done].
    intros Hrun (idxs & Hnd & Hs & Hall).
    eapply IH in Hrun as [Hsam Hlen].
    + split; [exact Hsam|]. intros _. apply Hlen. rewrite length_app. simpl. lia.
    + exists (idxs ++ [Z.to_nat (Rng.floor_mul (Rng.rand seed) (Z.of_nat (length arr)))]).
      split; [|split].
      * apply NoDup_app. split; [done|]. split; [|apply NoDup_singleton].
        intros i Hi ->%list_elem_of_singleton. apply Hout, Hs, Hi.
      * intros i. rewrite elem_of_union, elem_of_singleton, elem_of_app,
          list_elem_of_singleton, Hs. tauto.
      * apply Forall2_app; [done|]. by constructor.
  - intros [= <- <-] (idxs & Hnd & _ & Hall). split; [by exists idxs | lia].
Qed.

Lemma Sampled_all {A} (arr : list A) : Sampled arr arr.
Proof.
  exists (seq 0 (length arr)). split; [apply NoDup_seq|].
  apply Forall2_same_length_lookup_2; [by rewrite length_seq|].
  intros i j x [-> _]%lookup_seq Hx. exact Hx.
Qed.

Lemma sample_spec {A} (arr : list A) k fuel seed out seed' :
  Rng.sample fuel arr k seed = Some (out, seed') →
  Sampled arr out
  ∧ Z.of_nat (length out) = Z.max 0 (Z.min k (Z.of_nat (length arr))).
Proof.
  unfold Rng.sample. destruct (Z.leb_spec (Z.of_nat (length arr)) k).
  - intros [= <- <-]. split; [apply Sampled_all | lia].
  - intros Hrun.
    destruct (Z.le_gt_cases 0 k) as [Hk|Hk].
    + eapply sample_loop_spec in Hrun as [Hs Hl].
      * split; [done|]. simpl in Hl. lia.
      * exists []. split; [constructor|]. split; [set_solver | constructor].
    + destruct k as [|p|p]; try lia.
      destruct fuel; simpl in Hrun; injection Hrun as <- <-;
        (split; [exists []; split; constructor | simpl; lia]).
Qed.

Lemma Sampled_elem {A} (arr out : list A) x :
  Sampled arr out → x ∈ out → x ∈ arr.
Proof.
  intros (idxs & _ & Hall) (j & Hj)%list_elem_of_lookup_1.
  destruct (Forall2_lookup_r _ _ _ _ _ Hall Hj) as (i & _ & Hi).
  by eapply list_elem_of_lookup_2.
Qed.

Lemma Sampled_NoDup {A} (arr out : list A) :
  NoDup arr → Sampled arr out → NoDup out.
Proof.
  intros Harr (idxs & Hnd & Hall). apply NoDup_alt. intros j1 j2 x H1 H2.
  destruct (Forall2_lookup_r _ _ _ _ _ Hall H1) as (i1 & Hi1 & Hx1).
  destruct (Forall2_lookup_r _ _ _ _ _ Hall H2) as (i2 & Hi2 & Hx2).
  assert (i1 = i2) as -> by exact (NoDup_lookup arr i1 i2 x Harr Hx1 Hx2).
  exact (NoDup_lookup idxs j1 j2 i2 Hnd Hi1 Hi2).
Qed.

(** More fuel does not change what the rejection loop returns. *)
Lemma sample_loop_mono {A} (arr : list A) k (fuel : nat) :
  ∀ res s seed r fuel',
  Rng.sample_loop fuel arr k res s seed = Some r → (fuel ≤ fuel')%nat →
  Rng.sample_loop fuel' arr k res s seed = Some r.
Proof.
  induction fuel as [|fuel IH]; intros res s seed r fuel' Hrun Hle.
  - destruct fuel'; simpl in *; destruct (_ <? _); done.
  - destruct fuel' as [|fuel']; [lia|]. simpl in *.
    destruct (_ <? _); [|done].
    destruct (decide _); [apply IH; [done|lia]|].
    destruct (arr !! _); [|done]. apply IH; [done|lia].
Qed.

Lemma sample_mono {A} (arr : list A) k fuel fuel' seed r :
  Rng.sample fuel arr k seed = Some r → (fuel ≤ fuel')%nat →
  Rng.sample fuel' arr k seed = Some r.
Proof.
  unfold Rng.sample. destruct (_ <=? _); [done|]. apply sample_loop_mono.
Qed.

(** ** The neighbour selector *)

Section Selector.

Variables (degree : gmap Z Z) (uId : Z).

(** The scan after a prefix of the candidates: nothing kept while no counter
    exceeds -1, and else the first maximum so far. *)
Lemma scan_inv (cs : list Z) :
  uId ∉ cs →
  match Neighbor.scan degree uId cs with
  | (None, bestDeg) =>
      bestDeg = -1 ∧ ∀ c, c ∈ cs → counter degree c ≤ -1
  | (Some b, bestDeg) =>
      bestDeg = counter degree b ∧ -1 < bestDeg
      ∧ ∃ j : nat, cs !! j = Some b
          ∧ (∀ c, c ∈ cs → counter degree c ≤ bestDeg)
          ∧ (∀ j' c, (j' < j)%nat → cs !! j' = Some c →
                     counter degree c < bestDeg)
  end.
Proof.
  unfold Neighbor.scan.
  induction cs as [|x cs IH] using rev_ind; intros Hu.
  - simpl. split; [done|]. intros c Hc. inversion Hc.
  - rewrite foldl_app. simpl.
    assert (Hx : x ≠ uId) by (intros ->; apply Hu; set_solver).
    assert (Hcs : uId ∉ cs) by set_solver.
    specialize (IH Hcs).
    destruct (foldl (Neighbor.scan_step degree uId) (None, -1) cs)
      as [best bestDeg].
    unfold Neighbor.scan_step. simpl. fold (counter degree x).
    assert ((x =? uId) = false) as -> by lia. simpl.
    destruct (Z.ltb_spec bestDeg (counter degree x)) as [Hlt|Hge]; simpl.
    + split; [done|]. destruct best as [b|].
      * destruct IH as (-> & Hpos & j & Hj & Hmax & Hfirst).
        split; [lia|]. exists (length cs). split; [|split].
        -- by rewrite lookup_app_r, Nat.sub_diag.
        -- intros c [Hc| ->%list_elem_of_singleton]%elem_of_app;
             [specialize (Hmax c Hc); lia | lia].
        -- intros j' c Hj' Hc. rewrite lookup_app_l in Hc by done.
           apply list_elem_of_lookup_2 in Hc. specialize (Hmax c Hc). lia.
      * destruct IH as (-> & Hall).
        split; [lia|]. exists (length cs). split; [|split].
        -- by rewrite lookup_app_r, Nat.sub_diag.
        -- intros c [Hc| ->%list_elem_of_singleton]%elem_of_app;
             [specialize (Hall c Hc); lia | lia].
        -- intros j' c Hj' Hc. rewrite lookup_app_l in Hc by done.
           apply list_elem_of_lookup_2 in Hc. specialize (Hall c Hc). lia.
    + destruct best as [b|].
      * destruct IH as (-> & Hpos & j & Hj & Hmax & Hfirst).
        split; [done|]. split; [done|]. exists j. split; [|split].
        -- by apply lookup_app_l_Some.
        -- intros c [Hc| ->%list_elem_of_singleton]%elem_of_app; auto.
        -- intros j' c Hj' Hc. apply Hfirst with j'; [done|].
           apply lookup_lt_Some in Hj.
           rewrite lookup_app_l in Hc by lia. done.
      * destruct IH as (-> & Hall). split; [done|].
        intros c [Hc| ->%list_elem_of_singleton]%elem_of_app; auto.
Qed.

Lemma choose_Best (cs : list Z) :
  uId ∉ cs → 0 ∉ cs → Best degree cs (Neighbor.choose degree uId cs).
Proof.
  intros Hu H0. unfold Neighbor.choose.
  pose proof (scan_inv cs Hu) as Hscan.
  destruct (Neighbor.scan degree uId cs) as [[b|] bestDeg]; simpl.
  - destruct Hscan as (-> & Hpos & j & Hj & Hmax & Hfirst).
    assert (b ≠ 0) by (intros ->; apply H0; by eapply list_elem_of_lookup_2).
    assert ((b =? 0) = false) as -> by lia. simpl.
    exists j. split; [done|]. split.
    + intros Hall. apply list_elem_of_lookup_2 in Hj.
      specialize (Hall b Hj). lia.
    + intros _. split; done.
  - destruct Hscan as (-> & Hall).
    destruct cs as [|c cs]; simpl; [done|].
    exists 0%nat. split; [done|]. split; [done|].
    intros (c' & Hc' & Hlt). specialize (Hall c' Hc'). lia.
Qed.

End Selector.

Lemma others_spec uId pool c :
  c ∈ Neighbor.others uId pool ↔ c ∈ pool ∧ c ≠ uId.
Proof. unfold Neighbor.others. rewrite list_elem_of_filter. tauto. Qed.

Lemma others_length uId pool :
  NoDup pool → uId ∈ pool →
  Z.of_nat (length (Neighbor.others uId pool)) = Z.of_nat (length pool) - 1.
Proof.
  unfold Neighbor.others.
  induction pool as [|x pool IH]; intros Hnd Hin; [inversion Hin|].
  apply NoDup_cons in Hnd as [Hx Hnd].
  rewrite filter_cons. destruct (decide (x ≠ uId)) as [Hne|Heq].
  - simpl. rewrite Nat2Z.inj_succ, IH; [lia|done|set_solver].
  - assert (x = uId) as -> by (destruct (decide (x = uId)); [done|tauto]).
    assert (filter (λ id : Z, id ≠ uId) pool = pool) as ->; [|simpl; lia].
    clear IH Hin Hnd. induction pool as [|y pool IH]; [done|].
    rewrite filter_cons, decide_True by set_solver.
    f_equal. apply IH. set_solver.
Qed.

Lemma usable_lookup `{Countable K} (m : gmap K (list Z)) k l :
  usable m k = Some l → ∃ key, m !! key = Some l.
Proof.
  unfold usable. destruct k as [key|]; simpl; [|done].
  destruct (m !! key) as [l'|] eqn:Hl; [|done].
  destruct (1 <? _); [|done]. intros [= <-]. eauto.
Qed.

Lemma pool_for_small pop lk uId r :
  SmallPools pop →
  Z.of_nat (length (Neighbor.pool_for pop lk uId r)) ≤ 4294967296.
Proof.
  intros (Hall & Hcomm & Hcity). unfold Neighbor.pool_for.
  destruct (if Rng.lt_ratio r 3 4 then _ else _) as [l|] eqn:H1.
  - destruct (Rng.lt_ratio r 3 4); [|done].
    apply usable_lookup in H1 as [key Hkey]. by eapply (Hcomm key).
  - destruct (if Rng.lt_ratio r 9 10 then _ else _) as [l|] eqn:H2; [|done].
    destruct (Rng.lt_ratio r 9 10); [|done].
    apply usable_lookup in H2 as [key Hkey]. by eapply (Hcity key).
Qed.

Lemma others_le uId pool :
  (length (Neighbor.others uId pool) ≤ length pool)%nat.
Proof. unfold Neighbor.others. apply length_filter. Qed.

(** With fuel for six elements the selector returns. *)
Lemma pickNeighbor_total fuel pop lk degree uId seed :
  Z.of_nat (length (Neighbor.pool_for pop lk uId (Rng.rand seed))) ≤ 4294967296 →
  (6 * period ≤ fuel)%nat →
  ∃ r s', Neighbor.pickNeighbor fuel pop lk degree uId seed = Ok (r, s').
Proof.
  intros Hlen Hfuel. unfold Neighbor.pickNeighbor.
  set (pool := Neighbor.pool_for pop lk uId (Rng.rand seed)) in *.
  pose proof (others_le uId pool).
  destruct (sample_total (Neighbor.others uId pool) (Neighbor.how_many pool)
              (Rng.rand seed) fuel) as [[cs s] ->].
  - lia.
  - unfold Neighbor.how_many. lia.
  - unfold Neighbor.how_many. nia.
  - simpl. eauto.
Qed.

(** C7: for a user [uId] whose chosen pool holds distinct non-zero ids, [uId]
    among them, the selector, given enough fuel for the rejection loop,
    returns; the candidates it scans are the list [cs] that [sample] returns
    for the pool without [uId]: 6 distinct members of the pool other than
    [uId], or all the others, in the order of the pool, if there are no more
    than 6; what it returns is the first one of [cs] with the highest
    counter, or the first one of [cs] if no counter exceeds the sentinel; it
    is [null] exactly when the pool has no member other than [uId], and it
    is never [uId]. *)
Theorem pickNeighbor_correct (pop : Population) (lk : Lookup)
    (degree : gmap Z Z) (uId : Z) (seed : N) :
  let pool := Neighbor.pool_for pop lk uId (Rng.rand seed) in
  NoDup pool → 0 ∉ pool → uId ∈ pool →
  Z.of_nat (length pool) ≤ 4294967296 →
  (∀ fuel r s',
     Neighbor.pickNeighbor fuel pop lk degree uId seed = Ok (r, s') →
     ∃ cs,
       Rng.sample fuel (Neighbor.others uId pool) (Neighbor.how_many pool)
                  (Rng.rand seed) = Some (cs, s')
       ∧ Sampled (Neighbor.others uId pool) cs ∧ NoDup cs
       ∧ Z.of_nat (length cs)
         = Z.min 6 (Z.of_nat (length (Neighbor.others uId pool)))
       ∧ (Z.of_nat (length (Neighbor.others uId pool)) ≤ 6 →
          cs = Neighbor.others uId pool)
       ∧ (∀ c, c ∈ cs → c ∈ pool ∧ c ≠ uId)
       ∧ Best degree cs r
       ∧ (r = None ↔ Neighbor.others uId pool = [])
       ∧ r ≠ Some uId)
  ∧ (∃ F, ∀ fuel, (F ≤ fuel)%nat →
       ∃ r s', Neighbor.pickNeighbor fuel pop lk degree uId seed = Ok (r, s')).
Proof.
  intros pool Hnd H0 Hin Hlen.
  assert (Hothers := others_length uId pool Hnd Hin).
  assert (Hnd' : NoDup (Neighbor.others uId pool))
    by (unfold Neighbor.others; by apply NoDup_filter).
  split.
  - intros fuel r s'. unfold Neighbor.pickNeighbor. fold pool.
    destruct (Rng.sample _ _ _ _) as [[cs s]|] eqn:Hs; simpl; [|done].
    intros [= <- <-].
    pose proof Hs as Hrun.
    apply sample_spec in Hs as [Hsam Hcs].
    assert (Hmem : ∀ c, c ∈ cs → c ∈ pool ∧ c ≠ uId).
    { intros c Hc. apply others_spec. by eapply Sampled_elem. }
    assert (HB : Best degree cs (Neighbor.choose degree uId cs)).
    { apply choose_Best; intros Hc; apply Hmem in Hc as [? ?]; done. }
    exists cs. split; [done|]. split; [done|].
    split; [by eapply Sampled_NoDup|].
    split; [unfold Neighbor.how_many in Hcs; lia|]. split.
    { intros Hfew. unfold Rng.sample in Hrun.
      assert ((Z.of_nat (length (Neighbor.others uId pool))
               <=? Neighbor.how_many pool) = true) as Hb
        by (apply Z.leb_le; unfold Neighbor.how_many; lia).
      rewrite Hb in Hrun. by injection Hrun as <- _. }
    split; [done|]. split; [done|]. split.
    + split.
      * intros Hr. rewrite Hr in HB. simpl in HB. subst cs.
        unfold Neighbor.how_many in Hcs. simpl in Hcs.
        apply length_zero_iff_nil. lia.
      * intros He. rewrite He in Hsam.
        destruct Hsam as (idxs & _ & Hall).
        destruct cs as [|c cs]; [done|].
        apply Forall2_cons_inv_r in Hall as (i & ? & Hi & _).
        by rewrite lookup_nil in Hi.
    + intros Hr. rewrite Hr in HB. destruct HB as (j & Hj & _).
      apply list_elem_of_lookup_2, Hmem in Hj as [_ ?]. done.
  - exists (6 * period)%nat. intros fuel Hfuel.
    by apply pickNeighbor_total.
Qed.

(** User 1 of three users whose two neighbours have the same counter: the
    candidates are [2; 3] and the first of them is returned. *)
Lemma pickNeighbor_correct_witness :
  let degree : gmap Z Z := {[ 1 := 0; 2 := 3; 3 := 3 ]} in
  (∀ fuel r s',
     Neighbor.pickNeighbor fuel pop3 (lookup_maps pop3) degree 1 1234567
       = Ok (r, s') →
     ∃ cs,
       Rng.sample fuel [2; 3] 2 (Rng.rand 1234567) = Some (cs, s')
       ∧ Sampled [2; 3] cs ∧ NoDup cs
       ∧ Z.of_nat (length cs) = 2
       ∧ (2 ≤ 6 → cs = [2; 3])
       ∧ (∀ c, c ∈ cs → c ∈ [1; 2; 3] ∧ c ≠ 1)
       ∧ Best degree cs r
       ∧ (r = None ↔ [2; 3] = [])
       ∧ r ≠ Some 1)
  ∧ (∃ F, ∀ fuel, (F ≤ fuel)%nat →
       ∃ r s', Neighbor.pickNeighbor fuel pop3 (lookup_maps pop3) degree 1
                 1234567 = Ok (r, s')).
Proof.
  intros degree.
  apply (pickNeighbor_correct pop3 (lookup_maps pop3) degree 1 1234567).
  - vm_compute. repeat constructor; set_solver.
  - vm_compute. set_solver.
  - vm_compute. set_solver.
  - vm_compute. discriminate.
Defined.

(** ** The batch sink never lets an insert failure escape *)

Lemma try_catch_thrown {K} (w1 : World K) (exn : option string) warning :
  try_insert (w1, thrown exn) warning
  = Ok (match exn with
        | Some e => print (warning +:+ " " +:+ e) w1
        | None => w1
        end).
Proof. by destruct exn. Qed.

Lemma try_insert_users {K} (batch : list UserDoc) (w : World K) warning :
  ∃ w', try_insert (insertMany_users batch w) warning = Ok w'
        ∧ sentUsers w' = sentUsers w ++ batch
        ∧ sentEdges w' = sentEdges w
        ∧ sentInteractions w' = sentInteractions w.
Proof.
  unfold insertMany_users. destruct (insertUsers K batch (db w)) as [d exn].
  rewrite try_catch_thrown. eexists. split; [reflexivity|]. by destruct exn.
Qed.

Lemma try_insert_edges {K} (batch : list EdgeDoc) (w : World K) warning :
  ∃ w', try_insert (insertMany_edges batch w) warning = Ok w'
        ∧ sentUsers w' = sentUsers w
        ∧ sentEdges w' = sentEdges w ++ batch
        ∧ sentInteractions w' = sentInteractions w.
Proof.
  unfold insertMany_edges. destruct (insertEdges K batch (db w)) as [d exn].
  rewrite try_catch_thrown. eexists. split; [reflexivity|]. by destruct exn.
Qed.

Lemma try_insert_interactions {K} (batch : list InteractionDoc) (w : World K)
    warning :
  ∃ w', try_insert (insertMany_interactions batch w) warning = Ok w'
        ∧ sentUsers w' = sentUsers w
        ∧ sentEdges w' = sentEdges w
        ∧ sentInteractions w' = sentInteractions w ++ batch.
Proof.
  unfold insertMany_interactions.
  destruct (insertInteractions K batch (db w)) as [d exn].
  rewrite try_catch_thrown. eexists. split; [reflexivity|]. by destruct exn.
Qed.

(** ** The population partitioner *)

Lemma communities_loop_sum (n : nat) : ∀ i nC nUsers rem acc seed,
  n = Z.to_nat (nC - i) → 0 ≤ i < nC →
  let cs := fst (Partition.communities_loop n i nC nUsers rem acc seed) in
  sumZ cs = sumZ acc + rem ∧ length cs = (length acc + n)%nat
  ∧ ∃ init, cs = init ++ [rem - (sumZ init - sumZ acc)].
Proof.
  assert (Hsum : ∀ l x, sumZ (l ++ [x]) = sumZ l + x).
  { intros l x. unfold sumZ. rewrite foldr_app. simpl.
    induction l; simpl; lia. }
  induction n as [|n IH]; intros i nC nUsers rem acc seed Hn Hi; [lia|].
  simpl. destruct (Z.eqb_spec i (nC - 1)) as [->|Hne]; simpl.
  - rewrite Hsum, length_app. simpl. split; [done|]. split; [lia|].
    exists acc. f_equal. f_equal. lia.
  - destruct (IH (i + 1) nC nUsers
               (rem - (nUsers / (nC * 2)
                       + Rng.floor_mul (Rng.rand seed)
                           (Z.max (nUsers / (nC * 2)) (rem / (nC - i))
                            - nUsers / (nC * 2) + 1)))
               (acc ++ [nUsers / (nC * 2)
                        + Rng.floor_mul (Rng.rand seed)
                            (Z.max (nUsers / (nC * 2)) (rem / (nC - i))
                             - nUsers / (nC * 2) + 1)])
               (Rng.rand seed)) as (H1 & H2 & init & H3); [lia|lia|].
    rewrite Hsum in H1. rewrite length_app in H2. simpl in H2.
    split; [lia|]. split; [lia|].
    exists init. rewrite H3 at 1. f_equal. f_equal. rewrite Hsum. lia.
Qed.

Lemma seqZ_snoc (n : Z) : 0 ≤ n → seqZ 1 (n + 1) = seqZ 1 n ++ [n + 1].
Proof.
  intros Hn. rewrite seqZ_app by lia. f_equal.
  replace (1 + n) with (n + 1) by lia. reflexivity.
Qed.

Lemma push_at_lookup `{Countable K} (k k' : K) id (m : gmap K (list Z)) l :
  push_at k id m !! k' = Some l ↔
  (k' = k ∧ l = default [] (m !! k) ++ [id]) ∨ (k' ≠ k ∧ m !! k' = Some l).
Proof.
  unfold push_at. destruct (decide (k = k')) as [->|Hne].
  - rewrite lookup_insert_eq. naive_solver.
  - rewrite lookup_insert_ne by done. naive_solver.
Qed.

Lemma push_at_in_range `{Countable K} (k : K) (m : gmap K (list Z)) n :
  0 ≤ n →
  (∀ c l, m !! c = Some l → NoDup l ∧ ∀ id, id ∈ l → 1 ≤ id ≤ n) →
  ∀ c l, push_at k (n + 1) m !! c = Some l →
         NoDup l ∧ ∀ id, id ∈ l → 1 ≤ id ≤ n + 1.
Proof.
  intros Hn Hlists c l [[-> ->]|[Hne Hl]]%push_at_lookup.
  - destruct (m !! k) as [l|] eqn:Hl; simpl.
    + destruct (Hlists _ _ Hl) as [Hnd Hr]. split.
      * apply NoDup_app. split; [done|]. split; [|apply NoDup_singleton].
        intros id Hin ->%list_elem_of_singleton. apply Hr in Hin. lia.
      * intros id [Hin| ->%list_elem_of_singleton]%elem_of_app;
          [apply Hr in Hin; lia | lia].
    + split; [apply NoDup_singleton|].
      intros id ->%list_elem_of_singleton. lia.
  - destruct (Hlists _ _ Hl) as [Hnd Hr]. split; [done|].
    intros id Hin. apply Hr in Hin. lia.
Qed.

Lemma member_add_user pop id c cty c' id' :
  member (add_user id c cty pop) c' id' ↔ (c' = c ∧ id' = id) ∨ member pop c' id'.
Proof.
  unfold member, add_user. simpl. split.
  - intros (l & [[-> ->]|[Hne Hl]]%push_at_lookup & Hin).
    + apply elem_of_app in Hin as [Hin| ->%list_elem_of_singleton]; [|by left].
      right. destruct (idsByCommunity pop !! c) as [l|] eqn:Hl; simpl in Hin;
        [by exists l | inversion Hin].
    + right. by exists l.
  - intros [[-> ->]|(l & Hl & Hin)].
    + eexists. split; [apply push_at_lookup; left; done|]. set_solver.
    + destruct (decide (c' = c)) as [->|Hne].
      * eexists. split; [apply push_at_lookup; left; done|].
        rewrite Hl. set_solver.
      * exists l. split; [apply push_at_lookup; right; done | done].
Qed.

Lemma add_user_Partitioned pop n c cty :
  0 ≤ n → Partitioned pop n → Partitioned (add_user (n + 1) c cty pop) (n + 1).
Proof.
  intros Hn (Hids & Hlists & Hcover & Huniq & Hcity).
  assert (Hfresh : ∀ c' l, idsByCommunity pop !! c' = Some l → n + 1 ∉ l).
  { intros c' l Hl Hin. apply Hlists in Hl as [_ Hr]. apply Hr in Hin. lia. }
  pose proof (member_add_user pop (n + 1) c cty) as Hmem.
  split; [|split; [|split; [|split]]].
  - unfold add_user. simpl. rewrite Hids. symmetry. by apply seqZ_snoc.
  - unfold add_user. simpl. by apply push_at_in_range.
  - intros id Hid. destruct (decide (id = n + 1)) as [->|Hne].
    + exists c. apply Hmem. by left.
    + destruct (Hcover id) as [c' Hc']; [lia|]. exists c'. apply Hmem. by right.
  - intros id c1 c2 [[-> ->]|H1]%Hmem [[-> Heq]|H2]%Hmem; try done.
    + destruct H2 as (l & Hl & Hin). by destruct (Hfresh _ _ Hl).
    + subst id. destruct H1 as (l & Hl & Hin). by destruct (Hfresh _ _ Hl).
    + by eapply Huniq.
  - unfold add_user. simpl. by apply push_at_in_range.
Qed.

Ltac split_lets :=
  repeat match goal with
         | |- context [let '(_, _) := ?e in _] => destruct e eqn:?
         | |- context [match ?e with (_, _) => _ end] => destruct e eqn:?
         end.

Lemma make_user_fields fuel id c seed doc s :
  make_user fuel id c seed = Ok (doc, s) → _id doc = id ∧ community doc = c.
Proof.
  unfold make_user. split_lets.
  destruct (Rng.sample _ _ _ _) as [[ints s7]|]; simpl; [|done].
  split_lets. by intros [= <- _].
Qed.

Lemma make_user_total fuel id c seed :
  (3 * period ≤ fuel)%nat → ∃ doc s, make_user fuel id c seed = Ok (doc, s).
Proof.
  intros Hfuel. unfold make_user. split_lets.
  match goal with H : Rng.randint 1 3 ?s5 = (?k, _) |- _ =>
    pose proof (randint_range 1 3 s5 ltac:(lia)) as Hk; rewrite H in Hk;
    simpl in Hk end.
  match goal with |- context [Rng.sample fuel ?arr ?k ?s] =>
    destruct (sample_total arr k s fuel) as [[ints s7] ->] end.
  - vm_compute. discriminate.
  - lia.
  - nia.
  - simpl. split_lets. eauto.
Qed.

Lemma user_body_inv {K} fuel cfg communities created (st st' : Partition.State K) n :
  0 ≤ n → UsersInv st n →
  Partition.user_body fuel cfg communities created st = Ok st' →
  UsersInv st' (n + 1).
Proof.
  intros Hn (Hpart & Hid & Hids & Hdocs). unfold Partition.user_body.
  destruct (Partition.advance _ _ _) as [ci asg].
  destruct (make_user _ _ _ _) as [[doc s]| |] eqn:Hmk; simpl; try done.
  apply make_user_fields in Hmk as [Hdid Hdc].
  assert (Hnew : ∀ (w : World K) batch,
    sentUsers w ++ batch = produced_users st ++ [doc] →
    UsersInv {| Partition._seed := s;
                Partition.GLOBAL_USER_ID := Partition.GLOBAL_USER_ID st + 1;
                Partition.userBatch := batch; Partition.communityIndex := ci;
                Partition.assignedToCurrent := asg + 1;
                Partition.pop := add_user (Partition.GLOBAL_USER_ID st) ci
                                   (loc_city (location doc)) (Partition.pop st);
                Partition.degree := <[Partition.GLOBAL_USER_ID st := 0]>
                                      (Partition.degree st);
                Partition.world := w |} (n + 1)).
  { intros w batch Hprod. unfold UsersInv, produced_users. simpl.
    rewrite Hprod, Hid. split; [by apply add_user_Partitioned|].
    split; [lia|]. split.
    - rewrite fmap_app, Hids. simpl. by rewrite Hdid, Hid.
    - apply Forall_app. split.
      + eapply Forall_impl; [exact Hdocs|]. intros d Hd.
        apply member_add_user. by right.
      + constructor; [|constructor]. apply member_add_user. left.
        by rewrite Hdid, Hdc, Hid. }
  destruct (_ || _).
  - destruct (try_insert_users (Partition.userBatch st ++ [doc])
                (Partition.world st)
                "Warning: insertMany users batch error (continuing).")
      as (w & -> & Hsent & _). simpl.
    intros [= <-]. apply Hnew. simpl. rewrite Hsent.
    unfold produced_users. by rewrite app_nil_r, app_assoc.
  - intros [= <-]. apply Hnew. unfold produced_users. by rewrite app_assoc.
Qed.

Lemma user_body_total {K} fuel cfg communities created (st : Partition.State K) :
  (3 * period ≤ fuel)%nat →
  ∃ st', Partition.user_body fuel cfg communities created st = Ok st'.
Proof.
  intros Hfuel. unfold Partition.user_body.
  destruct (Partition.advance _ _ _) as [ci asg].
  destruct (make_user_total fuel (Partition.GLOBAL_USER_ID st) ci
              (Partition._seed st) Hfuel) as (doc & s & ->). simpl.
  destruct (_ || _); [|eauto].
  destruct (try_insert_users (Partition.userBatch st ++ [doc])
              (Partition.world st)
              "Warning: insertMany users batch error (continuing).")
    as (w & -> & _). simpl. eauto.
Qed.

Lemma user_loop_inv {K} fuel cfg communities (k : nat) :
  ∀ n (st st' : Partition.State K),
  0 ≤ n → UsersInv st n →
  Partition.user_loop fuel cfg communities k n st = Ok st' →
  UsersInv st' (n + Z.of_nat k).
Proof.
  induction k as [|k IH]; intros n st st' Hn Hinv; simpl.
  - intros [= <-]. by rewrite Z.add_0_r.
  - destruct (Partition.user_body _ _ _ _ _) as [st1| |] eqn:Hb; simpl; try done.
    intros Hrun. eapply user_body_inv in Hb; [|exact Hn|exact Hinv].
    apply IH in Hrun; [|lia|done].
    replace (n + Z.of_nat (S k)) with (n + 1 + Z.of_nat k) by lia. done.
Qed.

Lemma user_loop_total {K} fuel cfg communities (k : nat) :
  (3 * period ≤ fuel)%nat →
  ∀ n (st : Partition.State K),
  ∃ st', Partition.user_loop fuel cfg communities k n st = Ok st'.
Proof.
  intros Hfuel. induction k as [|k IH]; intros n st; simpl; [eauto|].
  destruct (user_body_total fuel cfg communities n st Hfuel) as (st1 & ->).
  simpl. apply IH.
Qed.

Lemma UsersInv_init {K} s (w : World K) :
  sentUsers w = [] → UsersInv (Partition.init s w) 0.
Proof.
  intros Hw. unfold UsersInv, produced_users, Partitioned, member. simpl.
  rewrite Hw. split; [|done]. split; [done|]. split; [|split; [|split]].
  - intros c l Hl. by rewrite lookup_empty in Hl.
  - intros id Hid. lia.
  - intros id c1 c2 (l & Hl & _). by rewrite lookup_empty in Hl.
  - intros c l Hl. by rewrite lookup_empty in Hl.
Qed.

Lemma user_body_flushed {K} fuel cfg communities created (st st' : Partition.State K) :
  created + 1 = N_USERS cfg →
  Partition.user_body fuel cfg communities created st = Ok st' →
  Partition.userBatch st' = [].
Proof.
  intros Hlast. unfold Partition.user_body.
  destruct (Partition.advance _ _ _) as [ci asg].
  destruct (make_user _ _ _ _) as [[doc s]| |]; simpl; try done.
  assert ((created + 1 =? N_USERS cfg) = true) as -> by lia.
  rewrite orb_true_r.
  destruct (try_insert_users (Partition.userBatch st ++ [doc])
              (Partition.world st)
              "Warning: insertMany users batch error (continuing).")
    as (w & -> & _). simpl. by intros [= <-].
Qed.

Lemma user_loop_flushed {K} fuel cfg communities (k : nat) :
  ∀ n (st st' : Partition.State K),
  (k ≠ 0%nat → n + Z.of_nat k = N_USERS cfg) →
  (k = 0%nat → Partition.userBatch st = []) →
  Partition.user_loop fuel cfg communities k n st = Ok st' →
  Partition.userBatch st' = [].
Proof.
  induction k as [|k IH]; intros n st st' Hk H0; simpl.
  - intros [= <-]. by apply H0.
  - destruct (Partition.user_body _ _ _ _ _) as [st1| |] eqn:Hb; simpl; try done.
    apply IH; [lia|]. intros ->.
    eapply user_body_flushed; [|exact Hb]. lia.
Qed.

Lemma make_user_mono fuel fuel' id c seed r :
  make_user fuel id c seed = Ok r → (fuel ≤ fuel')%nat →
  make_user fuel' id c seed = Ok r.
Proof.
  unfold make_user. intros Hrun Hle. revert Hrun. split_lets.
  destruct (Rng.sample fuel _ _ _) as [r7|] eqn:Hs; simpl; [|done].
  by rewrite (sample_mono _ _ _ _ _ _ Hs Hle).
Qed.

Lemma user_body_mono {K} fuel fuel' cfg communities created
    (st r : Partition.State K) :
  Partition.user_body fuel cfg communities created st = Ok r →
  (fuel ≤ fuel')%nat →
  Partition.user_body fuel' cfg communities created st = Ok r.
Proof.
  unfold Partition.user_body. intros Hrun Hle. revert Hrun.
  destruct (Partition.advance _ _ _) as [ci asg].
  destruct (make_user fuel _ _ _) as [r1| |] eqn:Hmk; simpl; try done.
  by rewrite (make_user_mono _ _ _ _ _ _ Hmk Hle).
Qed.

Lemma user_loop_mono {K} fuel fuel' cfg communities (n : nat) :
  (fuel ≤ fuel')%nat →
  ∀ created (st r : Partition.State K),
  Partition.user_loop fuel cfg communities n created st = Ok r →
  Partition.user_loop fuel' cfg communities n created st = Ok r.
Proof.
  intros Hle. induction n as [|n IH]; intros created st r; simpl; [done|].
  destruct (Partition.user_body fuel _ _ _ _) as [st1| |] eqn:Hb; simpl; try done.
  rewrite (user_body_mono _ _ _ _ _ _ _ Hb Hle). simpl. apply IH.
Qed.

Lemma partition_run_mono {K} fuel fuel' cfg s (w : World K) r :
  Partition.run fuel cfg s w = Ok r → (fuel ≤ fuel')%nat →
  Partition.run fuel' cfg s w = Ok r.
Proof.
  unfold Partition.run. intros Hrun Hle. revert Hrun.
  destruct (Rng.randint _ _ s) as [nC s1].
  destruct (Partition.communities nC (N_USERS cfg) s1) as [cs s2].
  destruct (Partition.user_loop fuel _ _ _ _ _) as [st| |] eqn:Hl; simpl; try done.
  by rewrite (user_loop_mono _ _ _ _ _ Hle _ _ _ Hl).
Qed.

(** The users part of the phase: what holds of the population when it
    returns. *)
Lemma partition_run_users {K} fuel cfg s (w : World K) communities st :
  sentUsers w = [] →
  Partition.run fuel cfg s w = Ok (communities, st) →
  Partitioned (Partition.pop st) (Z.of_nat (Z.to_nat (N_USERS cfg)))
  ∧ _id <$> sentUsers (Partition.world st) = allUserIds (Partition.pop st)
  ∧ Forall (fun d => member (Partition.pop st) (community d) (_id d))
           (sentUsers (Partition.world st)).
Proof.
  intros Hw. unfold Partition.run.
  destruct (Rng.randint _ _ s) as [nC s1].
  destruct (Partition.communities nC (N_USERS cfg) s1) as [cs s2].
  destruct (Partition.user_loop _ _ _ _ _ _) as [st1| |] eqn:Hloop;
    simpl; try done.
  intros [= <- <-]. simpl.
  pose proof Hloop as Hloop'.
  apply user_loop_inv with (n := 0) in Hloop;
    [|lia|by apply UsersInv_init].
  destruct Hloop as (Hpart & Hid & Hdocs & Hall).
  assert (Hflush : Partition.userBatch st1 = []).
  { refine (user_loop_flushed fuel cfg cs _ 0 _ _ _ _ Hloop'); [lia|done]. }
  unfold produced_users in Hdocs, Hall. rewrite Hflush, app_nil_r in Hdocs, Hall.
  by rewrite Z.add_0_l in Hpart.
Qed.

Lemma partition_run_total {K} cfg s (w : World K) :
  ∃ r, ∀ fuel, (3 * period ≤ fuel)%nat → Partition.run fuel cfg s w = Ok r.
Proof.
  assert (∃ r, Partition.run (3 * period) cfg s w = Ok r) as [r Hr].
  { unfold Partition.run.
    destruct (Rng.randint _ _ s) as [nC s1].
    destruct (Partition.communities nC (N_USERS cfg) s1) as [cs s2].
    destruct (user_loop_total (3 * period) cfg cs (Z.to_nat (N_USERS cfg))
                ltac:(lia) 0
                (Partition.init s2
                   (print "Generating users and attributes (streamed in batches)..." w)))
      as (st & ->).
    simpl. eauto. }
  exists r. intros fuel Hfuel. by eapply partition_run_mono.
Qed.

(** C5: the community sizes sum to the population size, the last one being
    what the others left; the users get the ids 1..N, each id lies in exactly
    one community list, and the document of each user carries that
    community.  With enough fuel for the interest sampling, the partitioner
    returns. *)
Theorem partition_exact {K} (cfg : Config) (s : N) (w : World K) :
  1 ≤ COMMUNITIES_MIN cfg ≤ COMMUNITIES_MAX cfg → sentUsers w = [] →
  (∀ fuel communities st,
     Partition.run fuel cfg s w = Ok (communities, st) →
     sumZ communities = N_USERS cfg
     ∧ (∃ init, communities = init ++ [N_USERS cfg - sumZ init])
     ∧ allUserIds (Partition.pop st) = seqZ 1 (N_USERS cfg)
     ∧ (∀ id, id ∈ allUserIds (Partition.pop st) →
          ∃ c, member (Partition.pop st) c id
               ∧ ∀ c', member (Partition.pop st) c' id → c' = c)
     ∧ _id <$> sentUsers (Partition.world st) = allUserIds (Partition.pop st)
     ∧ Forall (fun d => member (Partition.pop st) (community d) (_id d))
              (sentUsers (Partition.world st)))
  ∧ (∃ F, ∀ fuel, (F ≤ fuel)%nat →
       ∃ communities st, Partition.run fuel cfg s w = Ok (communities, st)).
Proof.
  intros Hc Hw. split.
  - intros fuel communities st Hrun.
    destruct (partition_run_users fuel cfg s w communities st Hw Hrun)
      as ((Hids & Hlists & Hcover & Huniq & _) & Hdocs & Hall).
    revert Hrun. unfold Partition.run.
    pose proof (randint_range (COMMUNITIES_MIN cfg) (COMMUNITIES_MAX cfg) s
                  ltac:(lia)) as HnC.
    destruct (Rng.randint _ _ s) as [nC s1]. simpl in HnC.
    pose proof (communities_loop_sum (Z.to_nat nC) 0 nC (N_USERS cfg)
                  (N_USERS cfg) [] s1 ltac:(f_equal; lia) ltac:(lia))
      as (Hsum & _ & init & Hlast).
    fold (Partition.communities nC (N_USERS cfg) s1) in Hsum, Hlast.
    destruct (Partition.communities nC (N_USERS cfg) s1) as [cs s2].
    simpl in Hsum, Hlast.
    destruct (Partition.user_loop _ _ _ _ _ _) as [st1| |]; simpl; try done.
    intros [= <- <-].
    split; [simpl in Hsum; lia|].
    split; [exists init; rewrite Hlast at 1; simpl; do 2 f_equal; lia|].
    assert (Hseq : seqZ 1 (Z.of_nat (Z.to_nat (N_USERS cfg)))
                   = seqZ 1 (N_USERS cfg)).
    { unfold seqZ. by rewrite Nat2Z.id. }
    rewrite Hseq in Hids.
    split; [done|]. split; [|done].
    intros id Hin. rewrite Hids in Hin. apply elem_of_seqZ in Hin.
    destruct (Hcover id) as [c Hmc]; [lia|].
    exists c. split; [done|]. intros c' Hmc'. by eapply Huniq.
  - destruct (partition_run_total cfg s w) as ([cs st] & Hr).
    exists (3 * period)%nat. intros fuel Hfuel. exists cs, st. by apply Hr.
Qed.

Lemma partition_exact_witness :
  (∀ fuel communities st,
     Partition.run fuel small_config 1234567 world0
       = Ok (communities, st) →
     sumZ communities = 30
     ∧ (∃ init, communities = init ++ [30 - sumZ init])
     ∧ allUserIds (Partition.pop st) = seqZ 1 30
     ∧ (∀ id, id ∈ allUserIds (Partition.pop st) →
          ∃ c, member (Partition.pop st) c id
               ∧ ∀ c', member (Partition.pop st) c' id → c' = c)
     ∧ _id <$> sentUsers (Partition.world st) = allUserIds (Partition.pop st)
     ∧ Forall (fun d => member (Partition.pop st) (community d) (_id d))
              (sentUsers (Partition.world st)))
  ∧ (∃ F, ∀ fuel, (F ≤ fuel)%nat →
       ∃ communities st,
         Partition.run fuel small_config 1234567 world0
           = Ok (communities, st)).
Proof.
  apply (partition_exact small_config 1234567 world0).
  - simpl. lia.
  - reflexivity.
Defined.

(** ** The degree planner *)

Lemma get_insert (td : gmap Z Z) id id' v :
  Planner.get (<[id := v]> td) id' = if decide (id = id') then v else Planner.get td id'.
Proof.
  unfold Planner.get. destruct (decide (id = id')) as [->|Hne].
  - by rewrite lookup_insert_eq.
  - by rewrite lookup_insert_ne.
Qed.

Lemma sum_targets_insert_notin (l : list Z) td id v :
  id ∉ l → Planner.sum_targets l (<[id := v]> td) = Planner.sum_targets l td.
Proof.
  unfold Planner.sum_targets. induction l as [|x l IH]; intros Hid; [done|].
  simpl. rewrite get_insert, decide_False by set_solver.
  rewrite IH by set_solver. done.
Qed.

Lemma sum_targets_insert_in (l : list Z) td id v :
  NoDup l → id ∈ l →
  Planner.sum_targets l (<[id := v]> td)
  = Planner.sum_targets l td - Planner.get td id + v.
Proof.
  induction l as [|x l IH]; intros Hnd Hin; [inversion Hin|].
  apply NoDup_cons in Hnd as [Hx Hnd].
  change (Planner.sum_targets (x :: l) ?m)
    with (Planner.get m x + Planner.sum_targets l m).
  rewrite get_insert. destruct (decide (id = x)) as [->|Hne].
  - rewrite sum_targets_insert_notin by done. lia.
  - rewrite IH; [lia|done|set_solver].
Qed.

Lemma sum_targets_ge (l : list Z) td :
  (∀ id, id ∈ l → 1 ≤ Planner.get td id) →
  Z.of_nat (length l) ≤ Planner.sum_targets l td.
Proof.
  induction l as [|x l IH]; intros Hp; [simpl; lia|].
  change (Planner.sum_targets (x :: l) td)
    with (Planner.get td x + Planner.sum_targets l td).
  specialize (Hp x ltac:(set_solver)) as Hx.
  rewrite length_cons, Nat2Z.inj_succ.
  assert (Z.of_nat (length l) ≤ Planner.sum_targets l td); [|lia].
  apply IH. intros id Hid. apply Hp. set_solver.
Qed.

Lemma sum_targets_all_one (l : list Z) td :
  (∀ id, id ∈ l → Planner.get td id ≤ 1) →
  Planner.sum_targets l td ≤ Z.of_nat (length l).
Proof.
  induction l as [|x l IH]; intros Hp; [simpl; lia|].
  change (Planner.sum_targets (x :: l) td)
    with (Planner.get td x + Planner.sum_targets l td).
  specialize (Hp x ltac:(set_solver)) as Hx.
  rewrite length_cons, Nat2Z.inj_succ.
  assert (Planner.sum_targets l td ≤ Z.of_nat (length l)); [|lia].
  apply IH. intros id Hid. apply Hp. set_solver.
Qed.

Section PlannerLoops.

Variable ids : list Z.
Hypothesis ids_NoDup : NoDup ids.
Hypothesis ids_nonempty : ids ≠ [].

Lemma at_mod_lookup idx :
  ids !! Z.to_nat (idx mod Z.of_nat (length ids)) = Some (Planner.at_mod ids idx).
Proof.
  unfold Planner.at_mod.
  destruct (lookup_lt_is_Some_2 ids (Z.to_nat (idx mod Z.of_nat (length ids))))
    as [x ->]; [|done].
  assert (0 < Z.of_nat (length ids)) by (destruct ids; simpl; [done|lia]).
  pose proof (Z.mod_pos_bound idx _ H). lia.
Qed.

Lemma at_mod_elem idx : Planner.at_mod ids idx ∈ ids.
Proof. eapply list_elem_of_lookup_2, at_mod_lookup. Qed.

Lemma len_pos : 0 < Z.of_nat (length ids).
Proof. destruct ids; simpl; [done|lia]. Qed.

Lemma Planned_insert td id v :
  Planned ids td → 1 ≤ v → Planned ids (<[id := v]> td).
Proof.
  intros Hp Hv id' Hin. rewrite get_insert. case_decide; [done|by apply Hp].
Qed.

(** The shortfall loop: it needs [remaining] iterations and adds exactly
    that much. *)
Lemma add_loop_spec (fuel : nat) : ∀ td remaining idx,
  Planned ids td →
  match Planner.add_loop fuel ids td remaining idx with
  | Ok (td', r') =>
      r' = Z.min remaining 0
      ∧ Planner.sum_targets ids td'
        = Planner.sum_targets ids td + Z.max remaining 0
      ∧ Planned ids td'
  | OutOfFuel => (fuel < Z.to_nat remaining)%nat
  | Throw _ => False
  end.
Proof.
  pose proof len_pos as Hlen. apply Z.ltb_lt in Hlen as Hlenb.
  induction fuel as [|fuel IH]; intros td remaining idx Hp; simpl;
    rewrite Hlenb, andb_true_r;
    destruct (Z.ltb_spec 0 remaining) as [Hr|Hr]; try lia; try (split; [lia|split; [lia|done]]).
  specialize (IH (<[Planner.at_mod ids idx
                    := Planner.get td (Planner.at_mod ids idx) + 1]> td)
                 (remaining - 1) (idx + 1)).
  destruct (Planner.add_loop _ _ _ _ _) as [[td' r']| |].
  - destruct IH as (-> & Hsum & Hp').
    { apply Planned_insert; [done|]. specialize (Hp _ (at_mod_elem idx)). lia. }
    split; [lia|]. split; [|done].
    rewrite Hsum, sum_targets_insert_in by (done || apply at_mod_elem). lia.
  - apply IH. apply Planned_insert; [done|].
    specialize (Hp _ (at_mod_elem idx)). lia.
  - assert (fuel < Z.to_nat (remaining - 1))%nat; [|lia].
    apply IH. apply Planned_insert; [done|].
    specialize (Hp _ (at_mod_elem idx)). lia.
Qed.

(** The surplus loop, when it returns, has removed exactly the surplus. *)
Lemma trim_loop_spec (fuel : nat) : ∀ td remaining idx td' r',
  Planned ids td → remaining ≤ 0 →
  Planner.trim_loop fuel ids td remaining idx = Ok (td', r') →
  r' = 0
  ∧ Planner.sum_targets ids td' = Planner.sum_targets ids td + remaining
  ∧ Planned ids td'.
Proof.
  pose proof len_pos as Hlen. apply Z.ltb_lt in Hlen as Hlenb.
  induction fuel as [|fuel IH]; intros td remaining idx td' r' Hp Hr; simpl;
    rewrite Hlenb, andb_true_r;
    destruct (Z.ltb_spec remaining 0) as [Hneg|Hzero]; try done;
    try (intros [= <- <-]; split; [lia|split; [lia|done]]).
  destruct (Z.ltb_spec 1 (Planner.get td (Planner.at_mod ids idx))) as [Hgt|Hle].
  - intros Hrun. apply IH in Hrun as (-> & Hsum & Hp'); [|by apply Planned_insert; [|lia]|lia].
    split; [done|]. split; [|done].
    rewrite Hsum, sum_targets_insert_in by (done || apply at_mod_elem). lia.
  - intros Hrun. by apply IH in Hrun.
Qed.

(** Without room above 1 for the whole surplus the loop runs forever. *)
Lemma trim_loop_diverges (fuel : nat) : ∀ td remaining idx,
  Planned ids td →
  Planner.sum_targets ids td - Z.of_nat (length ids) < - remaining →
  Planner.trim_loop fuel ids td remaining idx = OutOfFuel.
Proof.
  pose proof len_pos as Hlen. apply Z.ltb_lt in Hlen as Hlenb.
  induction fuel as [|fuel IH]; intros td remaining idx Hp Hslack; simpl;
    rewrite Hlenb, andb_true_r;
    pose proof (sum_targets_ge ids td Hp);
    (destruct (Z.ltb_spec remaining 0) as [Hneg|Hzero]; [|lia]); [done|].
  destruct (Z.ltb_spec 1 (Planner.get td (Planner.at_mod ids idx))) as [Hgt|Hle].
  - apply IH; [by apply Planned_insert; [|lia]|].
    rewrite sum_targets_insert_in by (done || apply at_mod_elem). lia.
  - by apply IH.
Qed.

Lemma trim_loop_skip td remaining f (j : nat) : ∀ idx,
  remaining < 0 →
  (∀ j', (j' < j)%nat →
         Planner.get td (Planner.at_mod ids (idx + Z.of_nat j')) ≤ 1) →
  Planner.trim_loop (j + f) ids td remaining idx
  = Planner.trim_loop f ids td remaining (idx + Z.of_nat j).
Proof.
  pose proof len_pos as Hlen. apply Z.ltb_lt in Hlen as Hlenb.
  induction j as [|j IH]; intros idx Hneg Hle.
  - by rewrite Z.add_0_r.
  - change (S j + f)%nat with (S (j + f)). simpl.
    rewrite Hlenb, andb_true_r.
    assert ((remaining <? 0) = true) as -> by lia.
    pose proof (Hle 0%nat ltac:(lia)) as H0. rewrite Z.add_0_r in H0.
    assert ((1 <? Planner.get td (Planner.at_mod ids idx)) = false) as -> by lia.
    rewrite IH; [f_equal; lia|done|].
    intros j' Hj'. specialize (Hle (S j') ltac:(lia)).
    by replace (idx + 1 + Z.of_nat j') with (idx + Z.of_nat (S j')) by lia.
Qed.

(** Within one round over the users the loop meets a target above 1. *)
Lemma trim_next_hit td idx :
  Z.of_nat (length ids) < Planner.sum_targets ids td →
  ∃ j, (j < length ids)%nat
       ∧ 1 < Planner.get td (Planner.at_mod ids (idx + Z.of_nat j))
       ∧ ∀ j', (j' < j)%nat →
               Planner.get td (Planner.at_mod ids (idx + Z.of_nat j')) ≤ 1.
Proof.
  intros Hsum. pose proof len_pos as Hlen.
  assert (Hex : Exists (fun id => 1 < Planner.get td id) ids).
  { destruct (decide (Exists (fun id => 1 < Planner.get td id) ids)) as [H|H];
      [done|].
    exfalso. pose proof (sum_targets_all_one ids td) as Hone.
    assert (Planner.sum_targets ids td ≤ Z.of_nat (length ids)); [|lia].
    apply Hone. intros id Hid.
    destruct (Z_lt_dec 1 (Planner.get td id)); [|lia].
    exfalso. apply H. apply Exists_exists. by exists id. }
  apply Exists_exists in Hex as (id & (p & Hp)%list_elem_of_lookup_1 & Hid).
  apply lookup_lt_Some in Hp as Hplt.
  set (P := fun j => 1 < Planner.get td (Planner.at_mod ids (idx + Z.of_nat j))).
  assert (HP : P (Z.to_nat ((Z.of_nat p - idx) mod Z.of_nat (length ids)))).
  { unfold P.
    pose proof (Z.mod_pos_bound (Z.of_nat p - idx) _ Hlen).
    assert (Planner.at_mod ids
              (idx + Z.of_nat (Z.to_nat ((Z.of_nat p - idx)
                                          mod Z.of_nat (length ids)))) = id)
      as ->; [|done].
    unfold Planner.at_mod. rewrite Z2Nat.id by lia.
    rewrite Zplus_mod_idemp_r.
    replace (idx + (Z.of_nat p - idx)) with (Z.of_nat p) by lia.
    rewrite Z.mod_small by lia. by rewrite Nat2Z.id, Hp. }
  destruct (dec_inh_nat_subset_has_unique_least_element P)
    as (j & [Hj Hleast] & _).
  { intros k. unfold P. destruct (Z_lt_dec 1 (Planner.get td
      (Planner.at_mod ids (idx + Z.of_nat k)))); [by left|by right]. }
  { eexists. exact HP. }
  exists j. split; [|split; [exact Hj|]].
  - specialize (Hleast _ HP).
    pose proof (Z.mod_pos_bound (Z.of_nat p - idx) _ Hlen). lia.
  - intros j' Hj'.
    destruct (Z_lt_dec 1 (Planner.get td
      (Planner.at_mod ids (idx + Z.of_nat j')))) as [Hgt|]; [|lia].
    specialize (Hleast j' Hgt). lia.
Qed.

(** With room above 1 for the whole surplus, one round per unit of surplus
    is enough fuel. *)
Lemma trim_loop_total (m : nat) : ∀ td remaining idx fuel,
  Planned ids td → m = Z.to_nat (- remaining) → remaining ≤ 0 →
  - remaining ≤ Planner.sum_targets ids td - Z.of_nat (length ids) →
  (m * length ids ≤ fuel)%nat →
  ∃ td', Planner.trim_loop fuel ids td remaining idx = Ok (td', 0).
Proof.
  pose proof len_pos as Hlen. apply Z.ltb_lt in Hlen as Hlenb.
  induction m as [|m IH]; intros td remaining idx fuel Hp Hm Hr Hslack Hfuel.
  - assert (remaining = 0) as -> by lia. exists td.
    by destruct fuel.
  - destruct (trim_next_hit td idx) as (j & Hj & Hhit & Hbefore); [lia|].
    replace fuel with (j + S (fuel - j - 1))%nat by (simpl in Hfuel; lia).
    rewrite trim_loop_skip by (lia || done). simpl.
    rewrite Hlenb, andb_true_r.
    assert ((remaining <? 0) = true) as -> by lia.
    apply Z.ltb_lt in Hhit as Hhitb. rewrite Hhitb.
    apply IH.
    + apply Planned_insert; [done|lia].
    + lia.
    + lia.
    + rewrite sum_targets_insert_in by (done || apply at_mod_elem). lia.
    + simpl in Hfuel. lia.
Qed.

End PlannerLoops.

Lemma assign_loop_spec base scale (ids : list Z) : ∀ td0 s0,
  NoDup ids →
  let r := Planner.assign_loop ids base scale td0 s0 in
  r.2 = s0 + Planner.sum_targets ids r.1 ∧ Planned ids r.1
  ∧ ∀ id, id ∉ ids → r.1 !! id = td0 !! id.
Proof.
  induction ids as [|x ids IH]; intros td0 s0 Hnd; simpl.
  - split; [lia|]. split; [|done]. intros id Hid. inversion Hid.
  - apply NoDup_cons in Hnd as [Hx Hnd].
    destruct (IH (<[x := Planner.first_pass (Planner.get base x) scale]> td0)
                 (s0 + Planner.first_pass (Planner.get base x) scale) Hnd)
      as (Hs & Hp & Hout).
    set (r := Planner.assign_loop ids base scale _ _) in *.
    assert (Hgx : Planner.get r.1 x
                  = Planner.first_pass (Planner.get base x) scale).
    { unfold Planner.get at 1. by rewrite Hout, lookup_insert_eq. }
    split; [|split].
    + change (Planner.sum_targets (x :: ids) r.1)
        with (Planner.get r.1 x + Planner.sum_targets ids r.1).
      rewrite Hs, Hgx. lia.
    + intros id [->|Hid]%elem_of_cons; [|by apply Hp].
      rewrite Hgx. unfold Planner.first_pass. lia.
    + intros id Hid. rewrite Hout by set_solver.
      apply lookup_insert_ne. set_solver.
Qed.

Section FixRounding.

Variable ids : list Z.
Hypothesis ids_NoDup : NoDup ids.
Hypothesis ids_nonempty : ids ≠ [].

Lemma fix_rounding_spec fuel td stubs td' r' :
  Planned ids td →
  Planner.fix_rounding fuel ids td (stubs - Planner.sum_targets ids td)
  = Ok (td', r') →
  r' = 0 ∧ Planner.sum_targets ids td' = stubs ∧ Planned ids td'.
Proof.
  intros Hp. unfold Planner.fix_rounding.
  pose proof (add_loop_spec ids ids_NoDup ids_nonempty fuel td
                (stubs - Planner.sum_targets ids td) 0 Hp) as Hadd.
  destruct (Planner.add_loop _ _ _ _ _) as [[td1 r1]| |]; simpl; try done.
  destruct Hadd as (-> & Hsum & Hp1).
  destruct (Z.ltb_spec (Z.min (stubs - Planner.sum_targets ids td) 0) 0).
  - intros Hrun.
    apply (trim_loop_spec ids ids_NoDup ids_nonempty) in Hrun
      as (-> & Hsum' & Hp'); [|done|lia].
    split; [done|]. split; [lia|done].
  - intros [= <- <-]. split; [lia|]. split; [lia|done].
Qed.

Lemma fix_rounding_total fuel td stubs :
  Planned ids td → Z.of_nat (length ids) ≤ stubs →
  (Z.to_nat (Z.abs (stubs - Planner.sum_targets ids td)) * length ids ≤ fuel)%nat →
  ∃ td', Planner.fix_rounding fuel ids td (stubs - Planner.sum_targets ids td)
         = Ok (td', 0).
Proof.
  intros Hp Hstubs Hfuel. unfold Planner.fix_rounding.
  pose proof (len_pos ids ids_NoDup ids_nonempty) as Hlen.
  pose proof (add_loop_spec ids ids_NoDup ids_nonempty fuel td
                (stubs - Planner.sum_targets ids td) 0 Hp) as Hadd.
  destruct (Planner.add_loop _ _ _ _ _) as [[td1 r1]| |]; simpl; try done.
  - destruct Hadd as (-> & Hsum & Hp1).
    destruct (Z.ltb_spec (Z.min (stubs - Planner.sum_targets ids td) 0) 0).
    + apply (trim_loop_total ids ids_NoDup ids_nonempty
               (Z.to_nat (- Z.min (stubs - Planner.sum_targets ids td) 0)));
        try done; try lia; try nia.
    + exists td1. do 2 f_equal. lia.
  - exfalso. nia.
Qed.

Lemma fix_rounding_diverges fuel td stubs :
  Planned ids td → stubs < Z.of_nat (length ids) →
  Planner.fix_rounding fuel ids td (stubs - Planner.sum_targets ids td)
  = OutOfFuel.
Proof.
  intros Hp Hstubs. unfold Planner.fix_rounding.
  pose proof (sum_targets_ge ids td Hp) as Hge.
  pose proof (add_loop_spec ids ids_NoDup ids_nonempty fuel td
                (stubs - Planner.sum_targets ids td) 0 Hp) as Hadd.
  destruct (Planner.add_loop _ _ _ _ _) as [[td1 r1]| |]; simpl; try done.
  destruct Hadd as (-> & Hsum & Hp1).
  assert ((Z.min (stubs - Planner.sum_targets ids td) 0 <? 0) = true)
    as -> by lia.
  apply (trim_loop_diverges ids ids_NoDup ids_nonempty); [done|lia].
Qed.

(** What [plan] does, in terms of the first-pass targets. *)
Lemma plan_unfold fuel cfg seed :
  ∃ td s2,
    Planned ids td
    ∧ Planner.plan fuel cfg ids seed
      = (let stubs := (Rng.randint (TARGET_EDGE_MIN cfg) (TARGET_EDGE_MAX cfg)
                         seed).1 * 2 in
         let* (td', _) := Planner.fix_rounding fuel ids td
                            (stubs - Planner.sum_targets ids td) in
         Ok ({| Planner.targetEdges :=
                  (Rng.randint (TARGET_EDGE_MIN cfg) (TARGET_EDGE_MAX cfg)
                     seed).1;
                Planner.totalStubs := stubs;
                Planner.targetDegrees := td' |}, s2))
    ∧ ∀ fuel', Planner.plan fuel' cfg ids seed
      = (let stubs := (Rng.randint (TARGET_EDGE_MIN cfg) (TARGET_EDGE_MAX cfg)
                         seed).1 * 2 in
         let* (td', _) := Planner.fix_rounding fuel' ids td
                            (stubs - Planner.sum_targets ids td) in
         Ok ({| Planner.targetEdges :=
                  (Rng.randint (TARGET_EDGE_MIN cfg) (TARGET_EDGE_MAX cfg)
                     seed).1;
                Planner.totalStubs := stubs;
                Planner.targetDegrees := td' |}, s2)).
Proof.
  unfold Planner.plan.
  destruct (Rng.randint _ _ seed) as [E s1]. simpl.
  destruct (Planner.base_loop cfg ids ∅ 0 s1) as [[base sumBase] s2].
  pose proof (assign_loop_spec base (Planner.scaleFactor (E * 2) sumBase) ids
                ∅ 0 ids_NoDup) as (Hs & Hp & _).
  destruct (Planner.assign_loop _ _ _ _ _) as [td sumAssigned].
  simpl in Hs, Hp. exists td, s2. split; [done|].
  rewrite Hs, Z.add_0_l. done.
Qed.

Lemma plan_total cfg seed :
  Z.of_nat (length ids)
    ≤ 2 * (Rng.randint (TARGET_EDGE_MIN cfg) (TARGET_EDGE_MAX cfg) seed).1 →
  ∃ F, ∀ fuel, (F ≤ fuel)%nat →
    ∃ p s', Planner.plan fuel cfg ids seed = Ok (p, s').
Proof.
  intros Hn. destruct (plan_unfold 0 cfg seed) as (td & s2 & Hp & _ & Hplan).
  set (stubs := (Rng.randint (TARGET_EDGE_MIN cfg) (TARGET_EDGE_MAX cfg)
                    seed).1 * 2) in *.
  exists (Z.to_nat (Z.abs (stubs - Planner.sum_targets ids td))
          * length ids)%nat.
  intros fuel Hfuel. rewrite Hplan. simpl.
  destruct (fix_rounding_total fuel td stubs Hp) as (td' & ->);
    [unfold stubs; lia | exact Hfuel |].
  simpl. eauto.
Qed.

Lemma plan_spec fuel cfg seed p s' :
  Planner.plan fuel cfg ids seed = Ok (p, s') →
  Planner.targetEdges p
    = (Rng.randint (TARGET_EDGE_MIN cfg) (TARGET_EDGE_MAX cfg) seed).1
  ∧ Planner.totalStubs p = 2 * Planner.targetEdges p
  ∧ Planner.sum_targets ids (Planner.targetDegrees p) = Planner.totalStubs p
  ∧ Planned ids (Planner.targetDegrees p).
Proof.
  destruct (plan_unfold fuel cfg seed) as (td & s2 & Hp & -> & _). simpl.
  destruct (Planner.fix_rounding _ _ _ _) as [[td' r']| |] eqn:Hfix;
    simpl; try done.
  intros [= <- <-]. simpl.
  apply fix_rounding_spec in Hfix as (_ & Hsum & Hp'); [|done].
  split; [done|]. split; [lia|]. done.
Qed.

Lemma plan_diverges fuel cfg seed :
  2 * (Rng.randint (TARGET_EDGE_MIN cfg) (TARGET_EDGE_MAX cfg) seed).1
    < Z.of_nat (length ids) →
  Planner.plan fuel cfg ids seed = OutOfFuel.
Proof.
  intros Hn. destruct (plan_unfold fuel cfg seed) as (td & s2 & Hp & -> & _).
  cbv zeta. rewrite fix_rounding_diverges; [done|done|lia].
Qed.

End FixRounding.






(** ** The undirected edge builder *)

Lemma pairKey_comm a b : pairKey a b = pairKey b a.
Proof.
  unfold pairKey, String.ltb.
  rewrite (String.compare_antisym (pretty a) (pretty b)).
  destruct (String.compare (pretty b) (pretty a)) eqn:Hc; simpl; try done.
  apply String.compare_eq_iff in Hc. by rewrite Hc.
Qed.

Lemma friends_of_app l l' : friends_of (l ++ l') = friends_of l ++ friends_of l'.
Proof. unfold friends_of. apply omap_app. Qed.

Lemma same_generation_refl {K} (d : FriendBuilder.Data K) : same_generation d d.
Proof. by repeat split. Qed.

Lemma same_generation_generated {K} (d d' : FriendBuilder.Data K) :
  same_generation d d' → generated d' = generated d.
Proof. intros (_ & _ & _ & _ & _ & He & _). unfold generated. by rewrite He. Qed.

Lemma FriendInv_same {K} (d d' : FriendBuilder.Data K) :
  same_generation d d' → FriendInv d → FriendInv d'.
Proof.
  intros Hs Hinv. pose proof (same_generation_generated d d' Hs) as Hg.
  destruct Hs as (_ & _ & Hf & Ht & _). unfold FriendInv.
  by rewrite Hg, Hf, Ht.
Qed.

Lemma flushEdges_spec {K} (d : FriendBuilder.Data K) :
  ∃ d', FriendBuilder.flushEdges d = Ok d' ∧ same_generation d d'
        ∧ FriendBuilder.edgeBatch d' = [].
Proof.
  unfold FriendBuilder.flushEdges.
  destruct (Z.ltb_spec 0 (Z.of_nat (length (FriendBuilder.edgeBatch d)))).
  - destruct (try_insert_edges (FriendBuilder.edgeBatch d)
                (FriendBuilder.world d) "Edge batch insert warning:")
      as (w & -> & Hu & He & Hi). simpl.
    eexists. split; [reflexivity|]. split; [|done].
    unfold same_generation. simpl. rewrite He, app_nil_r. done.
  - exists d. split; [done|]. split; [apply same_generation_refl|].
    destruct (FriendBuilder.edgeBatch d); [done|simpl in *; lia].
Qed.

Lemma accept_spec {K} (c : FriendBuilder.Ctx) uId vId (d : FriendBuilder.Data K) :
  FriendInv d → uId ≠ vId → pairKey uId vId ∉ FriendBuilder.friendSet d →
  ∃ d', FriendBuilder.accept c uId vId (pairKey uId vId) d = Ok d'
        ∧ FriendInv d'
        ∧ generated d'
          = generated d ++ [ {| f_src := uId; f_dst := vId;
                                f_pair := pairKey uId vId |} ]
        ∧ FriendBuilder.totalEdges d' = FriendBuilder.totalEdges d + 1
        ∧ sentUsers (FriendBuilder.world d') = sentUsers (FriendBuilder.world d)
        ∧ sentInteractions (FriendBuilder.world d')
          = sentInteractions (FriendBuilder.world d).
Proof.
  intros (Hnd & Hall & Hlen) Hne Hfresh. unfold FriendBuilder.accept.
  set (e := {| f_src := uId; f_dst := vId; f_pair := pairKey uId vId |}).
  set (d1 := {| FriendBuilder._seed := FriendBuilder._seed d;
                FriendBuilder.degree := _; FriendBuilder.friendSet := _;
                FriendBuilder.edgeBatch := _; FriendBuilder.totalEdges := _;
                FriendBuilder.progressCounter := _;
                FriendBuilder.world := FriendBuilder.world d |}).
  assert (Hg1 : generated d1 = generated d ++ [e]).
  { unfold generated, d1. simpl. rewrite app_assoc, friends_of_app. done. }
  assert (Hinv1 : FriendInv d1).
  { unfold FriendInv. rewrite Hg1. split; [|split].
    - rewrite fmap_app. apply NoDup_app. split; [done|].
      split; [|apply NoDup_singleton].
      intros k Hk Hk'. simpl in Hk'. apply list_elem_of_singleton in Hk'.
      subst k. apply Hfresh.
      apply list_elem_of_fmap in Hk as (e' & Heq & He'). simpl in Heq.
      rewrite Heq.
      by apply (proj1 (Forall_forall _ _) Hall) in He' as (_ & _ & ?).
    - apply Forall_app. split.
      + eapply Forall_impl; [exact Hall|]. intros e' (? & ? & ?).
        split; [done|]. split; [done|]. unfold d1. simpl. set_solver.
      + constructor; [|constructor]. simpl. split; [done|]. split; [done|].
        set_solver.
    - rewrite length_app. simpl. unfold d1. simpl. lia. }
  assert (Hflush : ∃ d2,
    (if BATCH_SIZE (FriendBuilder.cfg c)
        <=? Z.of_nat (length (FriendBuilder.edgeBatch d ++ [Friend e]))
     then FriendBuilder.flushEdges d1 else Ok d1) = Ok d2
    ∧ same_generation d1 d2).
  { destruct (_ <=? _).
    - destruct (flushEdges_spec d1) as (d2 & ? & ? & _). eauto.
    - exists d1. split; [done|apply same_generation_refl]. }
  destruct Hflush as (d2 & -> & Hs2). simpl.
  eexists. split; [reflexivity|].
  assert (Hs3 : same_generation d1
    (if (FriendBuilder.progressCounter d + 1) mod 50000 =? 0
     then FriendBuilder.with_world d2
            (print ("Friend edges produced so far: "
                    +:+ pretty (FriendBuilder.totalEdges d + 1))
                   (FriendBuilder.world d2)) (FriendBuilder.edgeBatch d2)
     else d2)).
  { destruct (_ =? 0); [|done]. destruct Hs2 as (?&?&?&?&?&?&?&?).
    by repeat split. }
  split; [by eapply FriendInv_same|].
  split; [by rewrite (same_generation_generated _ _ Hs3)|].
  destruct Hs3 as (_ & _ & _ & -> & _ & _ & -> & ->). done.
Qed.

(** An attempt changes nothing but the seed, or accepts one new edge. *)
Lemma attempt_spec {K} fuel (c : FriendBuilder.Ctx) uId
    (d d' : FriendBuilder.Data K) :
  FriendInv d → FriendBuilder.attempt fuel c uId d = Ok d' →
  FriendInv d'
  ∧ sentUsers (FriendBuilder.world d') = sentUsers (FriendBuilder.world d)
  ∧ sentInteractions (FriendBuilder.world d')
    = sentInteractions (FriendBuilder.world d)
  ∧ ((generated d' = generated d
      ∧ FriendBuilder.totalEdges d' = FriendBuilder.totalEdges d)
     ∨ (∃ vId, uId ≠ vId
          ∧ generated d'
            = generated d ++ [ {| f_src := uId; f_dst := vId;
                                  f_pair := pairKey uId vId |} ]
          ∧ FriendBuilder.totalEdges d' = FriendBuilder.totalEdges d + 1)).
Proof.
  intros Hinv. unfold FriendBuilder.attempt.
  destruct (Neighbor.pickNeighbor _ _ _ _ _ _) as [[vId s]| |]; simpl; try done.
  assert (Hseed : FriendInv (FriendBuilder.with_seed d s)) by done.
  destruct vId as [v|]; [|intros [= <-]; split; [done|]; auto].
  destruct (v =? 0); [intros [= <-]; split; [done|]; auto|].
  destruct (Z.eqb_spec uId v) as [->|Hne]; [intros [= <-]; split; [done|]; auto|].
  destruct (decide _) as [Hin|Hout]; [intros [= <-]; split; [done|]; auto|].
  destruct (accept_spec c uId v (FriendBuilder.with_seed d s) Hseed Hne Hout)
    as (d2 & -> & Hinv2 & Hg & Ht & Hu & Hi).
  intros [= <-]. split; [done|]. split; [done|]. split; [done|].
  right. exists v. done.
Qed.

Lemma attempt_no_throw {K} fuel (c : FriendBuilder.Ctx) uId
    (d : FriendBuilder.Data K) e :
  FriendInv d → FriendBuilder.attempt fuel c uId d ≠ Throw e.
Proof.
  intros Hinv. unfold FriendBuilder.attempt, Neighbor.pickNeighbor.
  destruct (Rng.sample _ _ _ _) as [[cs s]|]; simpl; [|done].
  destruct (Neighbor.choose _ _ _) as [v|]; [|done].
  destruct (v =? 0); [done|].
  destruct (Z.eqb_spec uId v) as [->|Hne]; [done|].
  destruct (decide _) as [Hin|Hout]; [done|].
  assert (Hseed : FriendInv (FriendBuilder.with_seed d s)) by done.
  destruct (accept_spec c uId v (FriendBuilder.with_seed d s) Hseed Hne Hout)
    as (d2 & -> & _). done.
Qed.

Lemma step_spec {K} fuel (c : FriendBuilder.Ctx)
    (m m' : FriendBuilder.Control * FriendBuilder.Data K) :
  MachineInv c m → FriendBuilder.step fuel c m = Ok m' →
  MachineInv c m'
  ∧ generated m.2 `prefix_of` generated m'.2
  ∧ sentUsers (FriendBuilder.world m'.2) = sentUsers (FriendBuilder.world m.2)
  ∧ sentInteractions (FriendBuilder.world m'.2)
    = sentInteractions (FriendBuilder.world m.2).
Proof.
  destruct m as [pc d], m' as [pc' d']. unfold MachineInv. simpl.
  intros (Hinv & Hcap & Hpc & Hfin).
  destruct pc as [[|u rest]|u desired tries rest|rest| |]; simpl.
  - intros [= <- <-]. done.
  - intros [= <- <-]. split; [|done]. split; [done|]. split; [done|].
    split; [simpl; lia|done].
  - destruct (FriendBuilder.while_cond c u desired d) eqn:Hcond;
      [|intros [= <- <-]; done].
    destruct (Z.ltb_spec (desired * RETRY_FACTOR (FriendBuilder.cfg c)) tries);
      [intros [= <- <-]; done|].
    destruct (FriendBuilder.attempt fuel c u d) as [d1| |] eqn:Hat;
      simpl; try done.
    intros [= <- <-].
    apply attempt_spec in Hat as (Hinv1 & Hu & Hi & Hg); [|done].
    unfold FriendBuilder.while_cond in Hcond.
    apply andb_true_iff in Hcond as [_ Hlt%Z.ltb_lt].
    split; [|split; [|done]].
    + split; [done|]. split; [|split; [simpl in *; lia|done]].
      unfold Capped in *. destruct Hg as [[_ ->]|(v & _ & _ & ->)]; lia.
    + destruct Hg as [[-> _]|(v & _ & -> & _)]; [done|by apply prefix_app_r].
  - destruct (_ <=? _); intros [= <- <-]; done.
  - destruct (flushEdges_spec d) as (d1 & -> & Hs & Hb). simpl.
    intros [= <- <-].
    assert (Hs' : same_generation d
      (FriendBuilder.with_world d1
         (print ("Friend edges inserted (capped): "
                 +:+ pretty (countFriendEdges K (db (FriendBuilder.world d1))))
                (FriendBuilder.world d1)) (FriendBuilder.edgeBatch d1))).
    { destruct Hs as (?&?&?&?&?&?&?&?). by repeat split. }
    split; [|split].
    + split; [by eapply FriendInv_same|]. split; [|done].
      unfold Capped in *. destruct Hs' as (_ & _ & _ & -> & _). done.
    + by rewrite (same_generation_generated _ _ Hs').
    + by destruct Hs' as (_ & _ & _ & _ & _ & _ & -> & ->).
  - intros [= <- <-]. done.
Qed.

Lemma step_no_throw {K} fuel (c : FriendBuilder.Ctx)
    (m : FriendBuilder.Control * FriendBuilder.Data K) e :
  FriendInv m.2 → FriendBuilder.step fuel c m ≠ Throw e.
Proof.
  destruct m as [pc d]. simpl. intros Hinv.
  destruct pc as [[|u rest]|u desired tries rest|rest| |]; simpl; try done.
  - destruct (FriendBuilder.while_cond c u desired d); [|done].
    destruct (_ <? _); [done|].
    pose proof (attempt_no_throw fuel c u d e Hinv) as Hat.
    destruct (FriendBuilder.attempt fuel c u d); simpl;
      [done|intros [= ->]; by apply Hat|done].
  - by destruct (_ <=? _).
  - by destruct (flushEdges_spec d) as (d1 & -> & _).
Qed.

Lemma after_add {K} (n k fuel : nat) (c : FriendBuilder.Ctx)
    (m : FriendBuilder.Control * FriendBuilder.Data K) :
  after (n + k) fuel c m = (let* m' := after n fuel c m in after k fuel c m').
Proof.
  revert m. induction n as [|n IH]; intros m; simpl; [done|].
  destruct (FriendBuilder.step fuel c m); simpl; [apply IH|done|done].
Qed.

Lemma after_spec {K} (n fuel : nat) (c : FriendBuilder.Ctx) :
  ∀ m : FriendBuilder.Control * FriendBuilder.Data K,
  MachineInv c m →
  match after n fuel c m with
  | Ok m' =>
      MachineInv c m' ∧ generated m.2 `prefix_of` generated m'.2
      ∧ sentUsers (FriendBuilder.world m'.2) = sentUsers (FriendBuilder.world m.2)
      ∧ sentInteractions (FriendBuilder.world m'.2)
        = sentInteractions (FriendBuilder.world m.2)
  | Throw _ => False
  | OutOfFuel => True
  end.
Proof.
  induction n as [|n IH]; intros m Hm; simpl; [done|].
  pose proof (step_spec fuel c m) as Hstep.
  pose proof (step_no_throw fuel c m) as Hthrow.
  destruct (FriendBuilder.step fuel c m) as [m1|e|]; simpl; [| |done].
  - destruct (Hstep m1 Hm eq_refl) as (Hm1 & Hpre & Hu & Hi).
    specialize (IH m1 Hm1). destruct (after n fuel c m1) as [m'| |]; try done.
    destruct IH as (? & ? & -> & ->). split; [done|]. split; [|done].
    by etrans.
  - destruct Hm as (? & _). by eapply Hthrow.
Qed.

Lemma init_MachineInv {K} (c : FriendBuilder.Ctx) s degree (w : World K) :
  friends_of (sentEdges w) = [] →
  MachineInv c (FriendBuilder.init c s degree w).
Proof.
  intros Hw. unfold MachineInv, FriendInv, Capped, generated. simpl.
  rewrite app_nil_r, Hw. simpl. repeat split; try done; [constructor|lia].
Qed.

(** C2: at every point of a run of the friend-edge builder (after any number
    [n] of steps, from a store that holds no friend edge yet) the friend
    edges generated so far have pairwise distinct pair keys, each key is the
    canonical key of its edge, which is the same for both orders of the
    pair, no edge joins a user to itself, and no edge repeats the pair of an
    earlier one in either order; edges are only ever added, and at the end
    all of them have been handed to the store. *)
Theorem friend_edges_unique {K} (fuel : nat) (c : FriendBuilder.Ctx) (s : N)
    (degree : gmap Z Z) (w : World K) (n : nat) :
  friends_of (sentEdges w) = [] →
  match after n fuel c (FriendBuilder.init c s degree w) with
  | Ok (pc, d) =>
      let es := generated d in
      NoDup (f_pair <$> es)
      ∧ (∀ e, e ∈ es →
           f_src e ≠ f_dst e
           ∧ f_pair e = pairKey (f_src e) (f_dst e)
           ∧ f_pair e = pairKey (f_dst e) (f_src e))
      ∧ (∀ i j e e', (i < j)%nat → es !! i = Some e → es !! j = Some e' →
           f_pair e' ≠ f_pair e
           ∧ (f_src e', f_dst e') ≠ (f_src e, f_dst e)
           ∧ (f_src e', f_dst e') ≠ (f_dst e, f_src e))
      ∧ (∀ n', (n' ≤ n)%nat →
           match after n' fuel c (FriendBuilder.init c s degree w) with
           | Ok (_, d0) => generated d0 `prefix_of` es
           | _ => True
           end)
      ∧ (pc = FriendBuilder.Finished →
         es = friends_of (sentEdges (FriendBuilder.world d)))
  | Throw _ => False
  | OutOfFuel => True
  end.
Proof.
  intros Hw.
  pose proof (after_spec n fuel c _ (init_MachineInv c s degree w Hw)) as Hn.
  destruct (after n fuel c _) as [[pc d]| |] eqn:Hrun; try done.
  destruct Hn as (((Hnd & Hall & Hlen) & Hcap & Hpc & Hfin) & _). simpl in *.
  assert (Hkeys : ∀ e, e ∈ generated d →
            f_src e ≠ f_dst e ∧ f_pair e = pairKey (f_src e) (f_dst e)
            ∧ f_pair e = pairKey (f_dst e) (f_src e)).
  { intros e He. apply (proj1 (Forall_forall _ _) Hall) in He as (? & Hk & _).
    split; [done|]. split; [done|]. by rewrite pairKey_comm. }
  split; [done|]. split; [done|]. split; [|split].
  - intros i j e e' Hij Hi Hj.
    assert (Hne : f_pair e' ≠ f_pair e).
    { intros Heq.
      assert (j = i); [|lia].
      eapply (NoDup_lookup _ j i (f_pair e') Hnd);
        rewrite list_lookup_fmap; [by rewrite Hj|by rewrite Hi, Heq]. }
    apply list_elem_of_lookup_2 in Hi as (_ & Hk & Hk')%Hkeys.
    apply list_elem_of_lookup_2 in Hj as (_ & Hk1 & _)%Hkeys.
    split; [done|]. split; intros [= Hs Hd]; apply Hne; congruence.
  - intros n' Hn'.
    replace n with (n' + (n - n'))%nat in Hrun by lia.
    rewrite after_add in Hrun.
    pose proof (after_spec n' fuel c _ (init_MachineInv c s degree w Hw)) as H'.
    destruct (after n' fuel c _) as [[pc0 d0]| |]; try done.
    simpl in Hrun. destruct H' as (Hm0 & _).
    pose proof (after_spec (n - n') fuel c _ Hm0) as Hk.
    rewrite Hrun in Hk. by destruct Hk as (_ & ? & _).
  - intros Hf. unfold generated. by rewrite (Hfin Hf), app_nil_r.
Qed.

Lemma friend_edges_unique_witness :
  match after 60 10 ctx3 (FriendBuilder.init ctx3 1234567 degree3 world0) with
  | Ok (pc, d) =>
      let es := generated d in
      NoDup (f_pair <$> es)
      ∧ (∀ e, e ∈ es →
           f_src e ≠ f_dst e
           ∧ f_pair e = pairKey (f_src e) (f_dst e)
           ∧ f_pair e = pairKey (f_dst e) (f_src e))
      ∧ (∀ i j e e', (i < j)%nat → es !! i = Some e → es !! j = Some e' →
           f_pair e' ≠ f_pair e
           ∧ (f_src e', f_dst e') ≠ (f_src e, f_dst e)
           ∧ (f_src e', f_dst e') ≠ (f_dst e, f_src e))
      ∧ (∀ n', (n' ≤ 60)%nat →
           match after n' 10 ctx3
                   (FriendBuilder.init ctx3 1234567 degree3 world0) with
           | Ok (_, d0) => generated d0 `prefix_of` es
           | _ => True
           end)
      ∧ (pc = FriendBuilder.Finished →
         es = friends_of (sentEdges (FriendBuilder.world d)))
  | Throw _ => False
  | OutOfFuel => True
  end.
Proof.
  apply (friend_edges_unique 10 ctx3 1234567 degree3 world0 60). reflexivity.
Defined.

(** Once the budget is reached the machine finishes within four steps,
    drawing nothing and accepting nothing. *)
Lemma budget_reached_stops {K} fuel (c : FriendBuilder.Ctx) pc
    (d : FriendBuilder.Data K) :
  Planner.targetEdges (FriendBuilder.plan c) ≤ FriendBuilder.totalEdges d →
  ∃ d', after 4 fuel c (pc, d) = Ok (FriendBuilder.Finished, d')
        ∧ same_generation d d'.
Proof.
  intros HE.
  assert (Hfor : ∀ k, ∃ d',
    after (S k) fuel c (FriendBuilder.AfterFor, d)
    = Ok (FriendBuilder.Finished, d') ∧ same_generation d d').
  { intros k. simpl. destruct (flushEdges_spec d) as (d1 & -> & Hs & _). simpl.
    eexists. split.
    - induction k as [|k IH]; simpl; [reflexivity|exact IH].
    - destruct Hs as (?&?&?&?&?&?&?&?). by repeat split. }
  assert (Hwhile : ∀ k rest, ∃ d',
    after (S (S k)) fuel c (FriendBuilder.AfterWhile rest, d)
    = Ok (FriendBuilder.Finished, d') ∧ same_generation d d').
  { intros k rest. change (after (S (S k)) fuel c (FriendBuilder.AfterWhile rest, d))
      with (let* m' := FriendBuilder.step fuel c (FriendBuilder.AfterWhile rest, d)
            in after (S k) fuel c m').
    simpl FriendBuilder.step.
    assert ((Planner.targetEdges (FriendBuilder.plan c)
             <=? FriendBuilder.totalEdges d) = true) as -> by lia.
    apply Hfor. }
  assert (Hcond : ∀ u desired, FriendBuilder.while_cond c u desired d = false).
  { intros u desired. unfold FriendBuilder.while_cond.
    assert ((FriendBuilder.totalEdges d
             <? Planner.targetEdges (FriendBuilder.plan c)) = false) as -> by lia.
    apply andb_false_r. }
  assert (Hhead : ∀ k u desired tries rest, ∃ d',
    after (S (S (S k))) fuel c (FriendBuilder.WhileHead u desired tries rest, d)
    = Ok (FriendBuilder.Finished, d') ∧ same_generation d d').
  { intros k u desired tries rest.
    change (after (S (S (S k))) fuel c (FriendBuilder.WhileHead u desired tries rest, d))
      with (let* m' := FriendBuilder.step fuel c
                         (FriendBuilder.WhileHead u desired tries rest, d)
            in after (S (S k)) fuel c m').
    simpl FriendBuilder.step. rewrite Hcond. apply Hwhile. }
  destruct pc as [[|u rest]|u desired tries rest|rest| |].
  - change (after 4 fuel c (FriendBuilder.ForHead [], d))
      with (after 3 fuel c (FriendBuilder.AfterFor, d)). apply Hfor.
  - change (after 4 fuel c (FriendBuilder.ForHead (u :: rest), d))
      with (after 3 fuel c
              (FriendBuilder.WhileHead u
                 (let t := default 0 (Planner.targetDegrees (FriendBuilder.plan c) !! u)
                  in if t =? 0 then 1 else t) 0 rest, d)).
    apply Hhead.
  - apply Hhead.
  - apply Hwhile.
  - apply Hfor.
  - exists d. split; [done|apply same_generation_refl].
Qed.

(** C4: at every point of a run of the friend-edge builder (after any number
    [n] of steps, from a store that holds no friend edge yet, for a budget
    E >= 0) the accepted count is the number of friend edges generated and is
    at most E; no step raises an error, whatever the count; and from a point
    where the count has reached E the machine is finished within four steps
    in which nothing is drawn and no edge is accepted. *)
Theorem friend_count_capped {K} (fuel : nat) (c : FriendBuilder.Ctx) (s : N)
    (degree : gmap Z Z) (w : World K) (n : nat) :
  friends_of (sentEdges w) = [] →
  0 ≤ Planner.targetEdges (FriendBuilder.plan c) →
  match after n fuel c (FriendBuilder.init c s degree w) with
  | Ok (pc, d) =>
      FriendBuilder.totalEdges d ≤ Planner.targetEdges (FriendBuilder.plan c)
      ∧ Z.of_nat (length (generated d)) = FriendBuilder.totalEdges d
      ∧ (Planner.targetEdges (FriendBuilder.plan c) ≤ FriendBuilder.totalEdges d →
         ∃ d', after 4 fuel c (pc, d) = Ok (FriendBuilder.Finished, d')
               ∧ same_generation d d')
  | Throw _ => False
  | OutOfFuel => True
  end.
Proof.
  intros Hw HE.
  pose proof (after_spec n fuel c _ (init_MachineInv c s degree w Hw)) as Hn.
  destruct (after n fuel c _) as [[pc d]| |] eqn:Hrun; try done.
  destruct Hn as (((Hnd & Hall & Hlen) & Hcap & Hpc & Hfin) & _). simpl in *.
  unfold Capped in Hcap. split; [lia|]. split; [done|].
  apply budget_reached_stops.
Qed.

Lemma friend_count_capped_witness :
  match after 60 10 ctx3 (FriendBuilder.init ctx3 1234567 degree3 world0) with
  | Ok (pc, d) =>
      FriendBuilder.totalEdges d ≤ 3
      ∧ Z.of_nat (length (generated d)) = FriendBuilder.totalEdges d
      ∧ (3 ≤ FriendBuilder.totalEdges d →
         ∃ d', after 4 10 ctx3 (pc, d) = Ok (FriendBuilder.Finished, d')
               ∧ same_generation d d')
  | Throw _ => False
  | OutOfFuel => True
  end.
Proof.
  apply (friend_count_capped 10 ctx3 1234567 degree3 world0 60).
  - reflexivity.
  - simpl. lia.
Defined.

Lemma accept_total {K} (c : FriendBuilder.Ctx) uId vId k (d : FriendBuilder.Data K) :
  ∃ d', FriendBuilder.accept c uId vId k d = Ok d'.
Proof.
  unfold FriendBuilder.accept.
  match goal with |- context [if ?b then FriendBuilder.flushEdges ?d1 else _] =>
    destruct b; [destruct (flushEdges_spec d1) as (d2 & -> & _)|] end;
    simpl; eauto.
Qed.

Lemma attempt_total {K} fuel (c : FriendBuilder.Ctx) uId (d : FriendBuilder.Data K) :
  SmallPools (FriendBuilder.pop c) → (6 * period ≤ fuel)%nat →
  ∃ d', FriendBuilder.attempt fuel c uId d = Ok d'.
Proof.
  intros Hpools Hfuel. unfold FriendBuilder.attempt.
  destruct (pickNeighbor_total fuel (FriendBuilder.pop c) (FriendBuilder.lk c)
              (FriendBuilder.degree d) uId (FriendBuilder._seed d))
    as (r & s & ->); [by apply pool_for_small|done|]. simpl.
  destruct r as [v|]; [|eauto].
  destruct (v =? 0); [eauto|]. destruct (uId =? v); [eauto|].
  destruct (decide _); [eauto|]. apply accept_total.
Qed.

(** The [while] of one user is left within one step more than the attempts
    the retry test still allows. *)
Lemma while_exits {K} fuel (c : FriendBuilder.Ctx) uId desired rest (m : nat) :
  SmallPools (FriendBuilder.pop c) → (6 * period ≤ fuel)%nat →
  ∀ tries (d : FriendBuilder.Data K),
  m = Z.to_nat (desired * RETRY_FACTOR (FriendBuilder.cfg c) + 1 - tries) →
  ∃ n d', (n ≤ m + 1)%nat
    ∧ after n fuel c (FriendBuilder.WhileHead uId desired tries rest, d)
      = Ok (FriendBuilder.AfterWhile rest, d').
Proof.
  intros Hpools Hfuel. induction m as [|m IH]; intros tries d Hm.
  - exists 1%nat. simpl.
    destruct (FriendBuilder.while_cond c uId desired d); [|eauto].
    assert ((desired * RETRY_FACTOR (FriendBuilder.cfg c) <? tries) = true)
      as -> by lia. eauto.
  - destruct (FriendBuilder.while_cond c uId desired d) eqn:Hcond.
    + destruct (attempt_total fuel c uId d Hpools Hfuel) as (d1 & Hat).
      destruct (IH (tries + 1) d1 ltac:(lia)) as (n & d' & Hn & Hrun).
      exists (S n), d'. split; [lia|]. simpl. rewrite Hcond.
      assert ((desired * RETRY_FACTOR (FriendBuilder.cfg c) <? tries) = false)
        as -> by lia.
      rewrite Hat. simpl. exact Hrun.
    + exists 1%nat, d. split; [lia|]. simpl. by rewrite Hcond.
Qed.

(** C8, as amended: the [while] of a user [uId] is left once more than
    [desired * RETRY_FACTOR] attempts, accepted or not, have been made for
    it: from its head with [tries] attempts made, and fuel enough for the
    selector, control is after the loop within
    [desired * RETRY_FACTOR + 1 - tries] attempts and one more step, a bound
    proportional to the target degree [desired]. *)
Theorem retry_cap {K} (c : FriendBuilder.Ctx) (uId desired tries : Z)
    (rest : list Z) (d : FriendBuilder.Data K) :
  SmallPools (FriendBuilder.pop c) → 0 ≤ tries →
  ∃ F, ∀ fuel, (F ≤ fuel)%nat →
    ∃ n d',
      Z.of_nat n
        ≤ Z.max 0 (desired * RETRY_FACTOR (FriendBuilder.cfg c) + 1 - tries) + 1
      ∧ after n fuel c (FriendBuilder.WhileHead uId desired tries rest, d)
        = Ok (FriendBuilder.AfterWhile rest, d').
Proof.
  intros Hpools Htries. exists (6 * period)%nat. intros fuel Hfuel.
  destruct (while_exits fuel c uId desired rest _ Hpools Hfuel tries d eq_refl)
    as (n & d' & Hn & Hrun).
  exists n, d'. split; [lia|done].
Qed.

Lemma retry_cap_witness :
  ∃ F, ∀ fuel, (F ≤ fuel)%nat →
    ∃ n d',
      Z.of_nat n ≤ Z.max 0 (2 * 15 + 1 - 0) + 1
      ∧ after n fuel ctx3
          (FriendBuilder.WhileHead 1 2 0 [2; 3],
           (FriendBuilder.init ctx3 1234567 degree3 world0).2)
        = Ok (FriendBuilder.AfterWhile [2; 3], d').
Proof.
  apply (retry_cap ctx3 1 2 0 [2; 3]
           (FriendBuilder.init ctx3 1234567 degree3 world0).2).
  - split; [simpl; lia|]. split; apply map_Forall_singleton; simpl; lia.
  - lia.
Defined.

(** C8 as stated fails: a single user planned for two friends has nobody to
    befriend; after 2 * 15 = 30 failed attempts the loop is not left, a 31st
    attempt is made, and only then is the loop left. *)
Lemma retry_cap_one_more_attempt :
  (∃ d, after 31 2 ctx1 (FriendBuilder.init ctx1 1234567 {[ 1 := 0 ]} world0)
        = Ok (FriendBuilder.WhileHead 1 2 30 [], d)
        ∧ FriendBuilder.totalEdges d = 0)
  ∧ (∃ d, after 32 2 ctx1 (FriendBuilder.init ctx1 1234567 {[ 1 := 0 ]} world0)
          = Ok (FriendBuilder.WhileHead 1 2 31 [], d)
          ∧ FriendBuilder.totalEdges d = 0)
  ∧ (∃ d, after 33 2 ctx1 (FriendBuilder.init ctx1 1234567 {[ 1 := 0 ]} world0)
          = Ok (FriendBuilder.AfterWhile [], d)
          ∧ FriendBuilder.totalEdges d = 0).
Proof.
  split; [|split]; eexists; (split; [vm_compute; reflexivity|reflexivity]).
Qed.

(** ** The keys of the directed dedup set *)

Lemma pretty_N_char_plain x : plain (pretty_N_char x).
Proof. unfold pretty_N_char, plain. repeat case_match; split; discriminate. Qed.

Lemma pretty_N_go_plain x : ∀ s,
  all_chars plain s → all_chars plain (pretty_N_go x s).
Proof.
  induction (N.lt_wf_0 x) as [x _ IH]; intros s Hs.
  destruct (decide (x = 0)%N) as [->|Hx]; [by rewrite pretty_N_go_0|].
  rewrite pretty_N_go_step by lia. apply IH.
  - apply N.div_lt; lia.
  - split; [apply pretty_N_char_plain|done].
Qed.

Lemma pretty_Z_plain (z : Z) : all_chars plain (pretty z).
Proof.
  assert (HN : ∀ n : N, all_chars plain (pretty n)).
  { intros n. unfold pretty, pretty_N. case_decide.
    - simpl. split; [|done]. split; discriminate.
    - by apply pretty_N_go_plain. }
  destruct z as [|p|p]; unfold pretty, pretty_Z.
  - simpl. split; [|done]. split; discriminate.
  - apply (HN (Npos p)).
  - simpl. split; [split; discriminate|]. apply (HN (Npos p)).
Qed.

(** Two keys agree only if both halves do. *)
Lemma bar_split (s s' t t' : string) :
  all_chars plain s → all_chars plain s' →
  s +:+ "|" +:+ t = s' +:+ "|" +:+ t' → s = s' ∧ t = t'.
Proof.
  assert (Hnil : ∀ x : string, "" +:+ x = x) by done.
  revert s'. induction s as [|a s IH]; intros [|a' s'] Hs Hs' Heq;
    simpl in Heq; injection Heq; rewrite ?Hnil.
  - by intros ->.
  - intros _ <-. by destruct Hs' as [[? _] _].
  - intros _ ->. by destruct Hs as [[? _] _].
  - intros Heq' ->. destruct Hs as [_ Hs], Hs' as [_ Hs'].
    destruct (IH s' Hs Hs' Heq') as [-> ->]. done.
Qed.

Lemma show_candidate_inj c c' : show_candidate c = show_candidate c' → c = c'.
Proof.
  destruct c as [v|], c' as [v'|]; simpl; try done.
  - by intros ->%(inj pretty).
  - intros Heq. pose proof (pretty_Z_plain v) as Hp. rewrite Heq in Hp.
    by destruct Hp as [[_ ?] _].
  - intros Heq. pose proof (pretty_Z_plain v') as Hp. rewrite <- Heq in Hp.
    by destruct Hp as [[_ ?] _].
Qed.

Lemma followKey_inj u c u' c' :
  followKey u c = followKey u' c' → u = u' ∧ c = c'.
Proof.
  unfold followKey. intros Heq.
  apply bar_split in Heq as [Hu Hc]; try apply pretty_Z_plain.
  split; [by apply (inj pretty)|by apply show_candidate_inj].
Qed.

(** ** The directed edge builder *)

Lemma follows_of_app l l' : follows_of (l ++ l') = follows_of l ++ follows_of l'.
Proof. unfold follows_of. apply omap_app. Qed.

Lemma follow_frame_trans {K} (d d1 d2 : FollowBuilder.Data K) :
  follow_frame d d1 → follow_frame d1 d2 → follow_frame d d2.
Proof.
  unfold follow_frame. intros (? & ? & ?) (? & ? & ?). split; [|split]; congruence.
Qed.

Lemma flushFollow_spec {K} (d : FollowBuilder.Data K) :
  ∃ d', FollowBuilder.flushFollow d = Ok d'
        ∧ FollowBuilder._seed d' = FollowBuilder._seed d
        ∧ FollowBuilder.followSet d' = FollowBuilder.followSet d
        ∧ sentEdges (FollowBuilder.world d') ++ FollowBuilder.followBatch d'
          = sentEdges (FollowBuilder.world d) ++ FollowBuilder.followBatch d
        ∧ FollowBuilder.followBatch d' = []
        ∧ sentUsers (FollowBuilder.world d') = sentUsers (FollowBuilder.world d)
        ∧ sentInteractions (FollowBuilder.world d')
          = sentInteractions (FollowBuilder.world d).
Proof.
  unfold FollowBuilder.flushFollow.
  destruct (Z.ltb_spec 0 (Z.of_nat (length (FollowBuilder.followBatch d)))).
  - destruct (try_insert_edges (FollowBuilder.followBatch d)
                (FollowBuilder.world d) "Follow batch insert warning:")
      as (w & -> & Hu & He & Hi). simpl.
    eexists. split; [reflexivity|]. simpl. rewrite He, app_nil_r. done.
  - exists d. repeat split; try done.
    destruct (FollowBuilder.followBatch d); [done|simpl in *; lia].
Qed.

Lemma FollowInv_frame {K} (d d' : FollowBuilder.Data K) :
  FollowBuilder.followSet d' = FollowBuilder.followSet d →
  sentEdges (FollowBuilder.world d') ++ FollowBuilder.followBatch d'
  = sentEdges (FollowBuilder.world d) ++ FollowBuilder.followBatch d →
  FollowInv d → FollowInv d'.
Proof. unfold FollowInv, followed. by intros -> ->. Qed.

Lemma draw_candidate_total pop lk uId seed :
  WellIndexed pop lk → uId ∈ allUserIds pop →
  ∃ r, FollowBuilder.draw_candidate pop lk uId seed = Ok r.
Proof.
  intros Hwf Hu. unfold FollowBuilder.draw_candidate.
  destruct (Hwf uId Hu) as (c & l & -> & Hl). simpl. rewrite Hl.
  destruct (Rng.lt_ratio _ 4 10); [eauto|]. destruct (Rng.lt_ratio _ 8 10); eauto.
Qed.

(** One turn of the [while]: the state after the candidate has been dealt
    with. *)
Lemma while_loop_spec {K} cfg pop lk uId nF (n : nat) :
  ∀ made tries (d d' : FollowBuilder.Data K),
  FollowInv d →
  FollowBuilder.while_loop n cfg pop lk uId nF made tries d = Ok d' →
  FollowInv d' ∧ follow_frame d d'.
Proof.
  induction n as [|n IH]; intros made tries d d' Hinv; simpl.
  { destruct (_ && _); [done|]. intros [= <-]. done. }
  destruct (_ && _); [|intros [= <-]; done].
  destruct (FollowBuilder.draw_candidate _ _ _ _) as [[cand s]| |]; simpl; try done.
  set (d0 := {| FollowBuilder._seed := s;
                FollowBuilder.followSet := FollowBuilder.followSet d;
                FollowBuilder.followBatch := FollowBuilder.followBatch d;
                FollowBuilder.world := FollowBuilder.world d |}).
  assert (Hinv0 : FollowInv d0) by done.
  destruct (decide (cand = Some uId)) as [Hself|Hself];
    [intros Hrun; by apply (IH _ _ d0) in Hrun|].
  destruct (decide (followKey uId cand ∈ _)) as [Hseen|Hnew];
    [intros Hrun; by apply (IH _ _ d0) in Hrun|].
  set (e := {| w_src := uId; w_dst := cand |}).
  set (d1 := {| FollowBuilder._seed := s;
                FollowBuilder.followSet := {[followKey uId cand]} ∪ FollowBuilder.followSet d;
                FollowBuilder.followBatch := FollowBuilder.followBatch d ++ [Follow e];
                FollowBuilder.world := FollowBuilder.world d |}).
  assert (Hf1 : followed d1 = followed d ++ [e]).
  { unfold followed, d1. simpl. by rewrite app_assoc, follows_of_app. }
  assert (Hinv1 : FollowInv d1).
  { destruct Hinv as (Hnd & Hall & Hset). unfold FollowInv. rewrite Hf1.
    split; [|split].
    - apply NoDup_app. split; [done|]. split; [|apply NoDup_singleton].
      intros e' He' ->%list_elem_of_singleton. by apply Hnew, Hset.
    - apply Forall_app. split; [done|]. by repeat constructor.
    - intros u c. unfold d1. simpl.
      rewrite elem_of_union, elem_of_singleton, elem_of_app,
        list_elem_of_singleton, Hset. split.
      + intros [[-> ->]%followKey_inj|?]; [by right|by left].
      + intros [?|[= -> ->]]; [by right|by left]. }
  assert (Hfr1 : follow_frame d d1).
  { unfold follow_frame, d1. simpl. rewrite app_assoc, friends_of_app. simpl.
    by rewrite app_nil_r. }
  assert (Hflush : ∃ d2,
    (if BATCH_SIZE cfg <=? Z.of_nat (length (FollowBuilder.followBatch d ++ [Follow e]))
     then FollowBuilder.flushFollow d1 else Ok d1) = Ok d2
    ∧ FollowInv d2 ∧ follow_frame d d2).
  { destruct (_ <=? _); [|by exists d1].
    destruct (flushFollow_spec d1) as (d2 & -> & _ & Hs & He & _ & Hu & Hi).
    exists d2. split; [done|]. split; [by eapply FollowInv_frame|].
    destruct Hfr1 as (Hfr & ? & ?). unfold follow_frame.
    rewrite He, Hu, Hi. done. }
  destruct Hflush as (d2 & -> & Hinv2 & Hfr2). simpl.
  intros Hrun. apply IH in Hrun as (Hinv' & Hfr'); [|done].
  split; [done|]. by eapply follow_frame_trans.
Qed.

Lemma while_loop_total {K} cfg pop lk uId nF (n : nat) :
  WellIndexed pop lk → uId ∈ allUserIds pop →
  ∀ made tries (d : FollowBuilder.Data K),
  (Z.to_nat (nF * 8 - tries) ≤ n)%nat →
  ∃ d', FollowBuilder.while_loop n cfg pop lk uId nF made tries d = Ok d'.
Proof.
  intros Hwf Hu. induction n as [|n IH]; intros made tries d Hn; simpl.
  { destruct (Z.ltb_spec made nF), (Z.ltb_spec tries (nF * 8)); simpl; eauto.
    lia. }
  destruct (_ && _); [|eauto].
  destruct (draw_candidate_total pop lk uId (FollowBuilder._seed d) Hwf Hu)
    as ([cand s] & ->). simpl.
  destruct (decide _); [apply IH; lia|].
  destruct (decide _); [apply IH; lia|].
  match goal with |- context [if ?b then FollowBuilder.flushFollow ?d1 else _] =>
    destruct b; [destruct (flushFollow_spec d1) as (d2 & -> & _)|] end;
    simpl; apply IH; lia.
Qed.

Lemma for_loop_spec {K} cfg pop lk (users : list Z) :
  ∀ d d' : FollowBuilder.Data K,
  FollowInv d → FollowBuilder.for_loop cfg pop lk users d = Ok d' →
  FollowInv d' ∧ follow_frame d d'.
Proof.
  induction users as [|u users IH]; intros d d' Hinv; simpl.
  { intros [= <-]. done. }
  match goal with
  | |- context [FollowBuilder.while_loop ?n ?a ?b ?c ?u0 ?f ?m ?t ?d0] =>
      destruct (FollowBuilder.while_loop n a b c u0 f m t d0) as [d1| |] eqn:Hw
  end; simpl; try done.
  apply while_loop_spec in Hw as (Hinv1 & Hfr1); [|done].
  intros Hrun. apply IH in Hrun as (Hinv' & Hfr'); [|done].
  split; [done|]. by eapply follow_frame_trans.
Qed.

Lemma for_loop_total {K} cfg pop lk (users : list Z) :
  WellIndexed pop lk → (∀ u, u ∈ users → u ∈ allUserIds pop) →
  ∀ d : FollowBuilder.Data K,
  ∃ d', FollowBuilder.for_loop cfg pop lk users d = Ok d'.
Proof.
  intros Hwf. induction users as [|u users IH]; intros Hsub d; simpl; [eauto|].
  assert (Hu : u ∈ allUserIds pop) by (apply Hsub; set_solver).
  match goal with |- context [FollowBuilder.while_loop ?n _ _ _ _ ?f ?m ?t ?d0] =>
    destruct (while_loop_total cfg pop lk u f n Hwf Hu m t d0) as (d1 & ->);
      [lia|] end.
  simpl. apply IH. intros u' Hu'. apply Hsub. set_solver.
Qed.

Lemma follow_run_total {K} cfg pop lk s (w : World K) :
  WellIndexed pop lk → ∃ d, FollowBuilder.run cfg pop lk s w = Ok d.
Proof.
  intros Hwf. unfold FollowBuilder.run.
  destruct (for_loop_total cfg pop lk (allUserIds pop) Hwf ltac:(done)
              {| FollowBuilder._seed := s; FollowBuilder.followSet := ∅;
                 FollowBuilder.followBatch := [];
                 FollowBuilder.world :=
                   print "Generating follow (directed) edges..." w |})
    as (d1 & ->). simpl.
  destruct (flushFollow_spec d1) as (d2 & -> & _). simpl. eauto.
Qed.

(** C6: when the follow phase returns (it does whenever every user has a
    community list; it has no unbounded loop), the follow edges handed to the
    store contain no ordered (src,dst) pair twice and no self-loop; the
    dedup set holds exactly the keys of the accepted ordered pairs, and keys
    of different ordered pairs differ, so that a->b does not stand in the way
    of b->a; the friend edges, and with them the friend dedup, play no part:
    the phase starts from any store without follow edges and leaves the
    friend edges as they were. *)
Theorem follow_edges_unique {K} (cfg : Config) (pop : Population) (lk : Lookup)
    (s : N) (w : World K) :
  follows_of (sentEdges w) = [] →
  (∀ d, FollowBuilder.run cfg pop lk s w = Ok d →
     let es := follows_of (sentEdges (FollowBuilder.world d)) in
     FollowBuilder.followBatch d = []
     ∧ NoDup ((fun e => (w_src e, w_dst e)) <$> es)
     ∧ (∀ e, e ∈ es → w_dst e ≠ Some (w_src e))
     ∧ (∀ u c, followKey u c ∈ FollowBuilder.followSet d
               ↔ {| w_src := u; w_dst := c |} ∈ es)
     ∧ friends_of (sentEdges (FollowBuilder.world d)) = friends_of (sentEdges w))
  ∧ (∀ a b a' b', followKey a b = followKey a' b' → a = a' ∧ b = b')
  ∧ (∀ a b, a ≠ b → followKey a (Some b) ≠ followKey b (Some a))
  ∧ (WellIndexed pop lk → ∃ d, FollowBuilder.run cfg pop lk s w = Ok d).
Proof.
  intros Hw. split; [|split; [|split]].
  - intros d. unfold FollowBuilder.run.
    set (d0 := {| FollowBuilder._seed := s; FollowBuilder.followSet := ∅;
                  FollowBuilder.followBatch := [];
                  FollowBuilder.world :=
                    print "Generating follow (directed) edges..." w |}).
    assert (Hinv0 : FollowInv d0).
    { unfold FollowInv, followed, d0. simpl. rewrite app_nil_r, Hw.
      split; [constructor|]. split; [constructor|]. intros u c. set_solver. }
    destruct (FollowBuilder.for_loop cfg pop lk (allUserIds pop) d0)
      as [d1| |] eqn:Hloop; simpl; try done.
    apply for_loop_spec in Hloop as (Hinv1 & Hfr1); [|done].
    destruct (flushFollow_spec d1) as (d2 & -> & _ & Hset & He & Hb & _). simpl.
    intros [= <-]. simpl.
    assert (Hinv2 : FollowInv d2) by (by eapply FollowInv_frame).
    destruct Hinv2 as (Hnd & Hall & Hkeys). unfold followed in *.
    rewrite Hb, app_nil_r in Hnd, Hall, Hkeys.
    split; [done|]. split; [|split; [|split]].
    + apply NoDup_fmap_2; [|done]. intros [a b] [a' b'] [= -> ->]. done.
    + intros e He'. by apply (proj1 (Forall_forall _ _) Hall).
    + done.
    + destruct Hfr1 as (Hfr & _). rewrite Hb, app_nil_r in He.
      rewrite He, Hfr. unfold d0. simpl. by rewrite app_nil_r.
  - apply followKey_inj.
  - intros a b Hab [-> _]%followKey_inj. done.
  - apply follow_run_total.
Qed.

Lemma follow_edges_unique_witness :
  (∀ d, FollowBuilder.run small_config pop3 (lookup_maps pop3) 1234567 world0
        = Ok d →
     let es := follows_of (sentEdges (FollowBuilder.world d)) in
     FollowBuilder.followBatch d = []
     ∧ NoDup ((fun e => (w_src e, w_dst e)) <$> es)
     ∧ (∀ e, e ∈ es → w_dst e ≠ Some (w_src e))
     ∧ (∀ u c, followKey u c ∈ FollowBuilder.followSet d
               ↔ {| w_src := u; w_dst := c |} ∈ es)
     ∧ friends_of (sentEdges (FollowBuilder.world d))
       = friends_of (sentEdges world0))
  ∧ (∀ a b a' b', followKey a b = followKey a' b' → a = a' ∧ b = b')
  ∧ (∀ a b, a ≠ b → followKey a (Some b) ≠ followKey b (Some a))
  ∧ (WellIndexed pop3 (lookup_maps pop3) →
     ∃ d, FollowBuilder.run small_config pop3 (lookup_maps pop3) 1234567 world0
          = Ok d).
Proof.
  apply (follow_edges_unique small_config pop3 (lookup_maps pop3) 1234567 world0).
  reflexivity.
Defined.

(** ** The generated documents depend on neither the store nor the clock *)

Section Agreement.

Variable p : InteractionDoc → InteractionDoc.

Ltac agreed :=
  repeat match goal with
         | H : agree p _ _ |- _ => destruct H as (? & ? & ?)
         | H : users_agree p _ _ |- _ => destruct H as (?&?&?&?&?&?&?&?)
         | H : friends_agree p _ _ |- _ => destruct H as (?&?&?&?&?&?&?)
         | H : follows_agree p _ _ |- _ => destruct H as (?&?&?&?)
         | H : interactions_agree p _ _ |- _ => destruct H as (?&?&?)
         end;
  simpl in *; repeat split; simpl; try done; try congruence.

Lemma agree_print {K1 K2} (w1 : World K1) (w2 : World K2) m1 m2 :
  agree p w1 w2 → agree p (print m1 w1) (print m2 w2).
Proof. done. Qed.

Lemma rel_res_bind {A1 A2 B1 B2} (R : A1 → A2 → Prop) (S : B1 → B2 → Prop)
    (m1 : res A1) (m2 : res A2) (k1 : A1 → res B1) (k2 : A2 → res B2) :
  rel_res R m1 m2 → (∀ a b, R a b → rel_res S (k1 a) (k2 b)) →
  rel_res S (rbind m1 k1) (rbind m2 k2).
Proof. destruct m1, m2; simpl; try done. intros HR Hk. by apply Hk. Qed.

Lemma agree_insert_users {K1 K2} batch (w1 : World K1) (w2 : World K2) warning :
  agree p w1 w2 →
  rel_res (agree p) (try_insert (insertMany_users batch w1) warning)
                (try_insert (insertMany_users batch w2) warning).
Proof.
  intros (Hu & He & Hi).
  destruct (try_insert_users batch w1 warning) as (w1' & -> & Hu1 & He1 & Hi1).
  destruct (try_insert_users batch w2 warning) as (w2' & -> & Hu2 & He2 & Hi2).
  simpl. unfold agree. by rewrite Hu1, He1, Hi1, Hu2, He2, Hi2, Hu, He, Hi.
Qed.

Lemma agree_insert_edges {K1 K2} batch (w1 : World K1) (w2 : World K2) warning :
  agree p w1 w2 →
  rel_res (agree p) (try_insert (insertMany_edges batch w1) warning)
                (try_insert (insertMany_edges batch w2) warning).
Proof.
  intros (Hu & He & Hi).
  destruct (try_insert_edges batch w1 warning) as (w1' & -> & Hu1 & He1 & Hi1).
  destruct (try_insert_edges batch w2 warning) as (w2' & -> & Hu2 & He2 & Hi2).
  simpl. unfold agree. by rewrite Hu1, He1, Hi1, Hu2, He2, Hi2, Hu, He, Hi.
Qed.

Lemma agree_insert_interactions {K1 K2} b1 b2 (w1 : World K1) (w2 : World K2)
    warning :
  p <$> b1 = p <$> b2 → agree p w1 w2 →
  rel_res (agree p) (try_insert (insertMany_interactions b1 w1) warning)
                (try_insert (insertMany_interactions b2 w2) warning).
Proof.
  intros Hb (Hu & He & Hi).
  destruct (try_insert_interactions b1 w1 warning)
    as (w1' & -> & Hu1 & He1 & Hi1).
  destruct (try_insert_interactions b2 w2 warning)
    as (w2' & -> & Hu2 & He2 & Hi2).
  simpl. unfold agree.
  by rewrite Hu1, He1, Hi1, Hu2, He2, Hi2, Hu, He, !fmap_app, Hi, Hb.
Qed.

(** *** Users *)

Lemma user_body_agree {K1 K2} fuel cfg communities created
    (a : Partition.State K1) (b : Partition.State K2) :
  users_agree p a b →
  rel_res (users_agree p) (Partition.user_body fuel cfg communities created a)
                      (Partition.user_body fuel cfg communities created b).
Proof.
  intros (Hs & Hid & Hb & Hci & Has & Hp & Hd & Hw). unfold Partition.user_body.
  rewrite Hs, Hid, Hb, Hci, Has, Hp, Hd.
  destruct (Partition.advance _ _ _) as [ci asg].
  destruct (make_user _ _ _ _) as [[doc s]| |]; simpl; try done.
  destruct (_ || _).
  - eapply rel_res_bind; [by apply agree_insert_users|].
    intros w1 w2 Hw'. simpl. agreed.
  - simpl. agreed.
Qed.

Lemma user_loop_agree {K1 K2} fuel cfg communities (n : nat) :
  ∀ created (a : Partition.State K1) (b : Partition.State K2),
  users_agree p a b →
  rel_res (users_agree p) (Partition.user_loop fuel cfg communities n created a)
                      (Partition.user_loop fuel cfg communities n created b).
Proof.
  induction n as [|n IH]; intros created a b Hab; simpl; [done|].
  eapply rel_res_bind; [by apply user_body_agree|]. intros a' b' Hab'. by apply IH.
Qed.

Lemma partition_agree {K1 K2} fuel cfg s (w1 : World K1) (w2 : World K2) :
  agree p w1 w2 →
  rel_res (fun r1 r2 => r1.1 = r2.1 ∧ users_agree p r1.2 r2.2)
          (Partition.run fuel cfg s w1) (Partition.run fuel cfg s w2).
Proof.
  intros Hw. unfold Partition.run.
  destruct (Rng.randint _ _ s) as [nC s1].
  destruct (Partition.communities nC (N_USERS cfg) s1) as [cs s2].
  eapply rel_res_bind.
  - apply user_loop_agree. agreed.
  - intros a b (?&?&?&?&?&?&?&?). simpl. agreed.
Qed.

(** *** Friend edges *)

Lemma flushEdges_agree {K1 K2} (a : FriendBuilder.Data K1)
    (b : FriendBuilder.Data K2) :
  friends_agree p a b →
  rel_res (friends_agree p) (FriendBuilder.flushEdges a) (FriendBuilder.flushEdges b).
Proof.
  intros (Hs & Hd & Hf & Hb & Ht & Hp & Hw). unfold FriendBuilder.flushEdges.
  rewrite Hb. destruct (0 <? _); [|agreed].
  eapply rel_res_bind; [by apply agree_insert_edges|].
  intros w1 w2 Hw'. simpl. agreed.
Qed.

Lemma accept_agree {K1 K2} c uId vId k (a : FriendBuilder.Data K1)
    (b : FriendBuilder.Data K2) :
  friends_agree p a b →
  rel_res (friends_agree p) (FriendBuilder.accept c uId vId k a)
                        (FriendBuilder.accept c uId vId k b).
Proof.
  intros (Hs & Hd & Hf & Hb & Ht & Hp & Hw). unfold FriendBuilder.accept.
  rewrite Hs, Hd, Hf, Hb, Ht, Hp.
  eapply rel_res_bind.
  - destruct (_ <=? _); [apply flushEdges_agree|]; agreed.
  - intros a' b' (?&?&?&?&?&?&?). simpl. destruct (_ =? 0); agreed.
Qed.

Lemma attempt_agree {K1 K2} fuel c uId (a : FriendBuilder.Data K1)
    (b : FriendBuilder.Data K2) :
  friends_agree p a b →
  rel_res (friends_agree p) (FriendBuilder.attempt fuel c uId a)
                        (FriendBuilder.attempt fuel c uId b).
Proof.
  intros Hab. pose proof Hab as (Hs & Hd & Hf & Hb & Ht & Hp & Hw).
  unfold FriendBuilder.attempt. rewrite Hs, Hd.
  destruct (Neighbor.pickNeighbor _ _ _ _ _ _) as [[v s]| |]; simpl; try done.
  assert (Hseed : friends_agree p (FriendBuilder.with_seed a s)
                                (FriendBuilder.with_seed b s)) by (agreed).
  destruct v as [v|]; [|done]. destruct (v =? 0); [done|].
  destruct (uId =? v); [done|]. rewrite Hf.
  destruct (decide _); [done|]. by apply accept_agree.
Qed.

Lemma step_agree {K1 K2} fuel c pc (a : FriendBuilder.Data K1)
    (b : FriendBuilder.Data K2) :
  friends_agree p a b →
  rel_res (fun m1 m2 => m1.1 = m2.1 ∧ friends_agree p m1.2 m2.2)
          (FriendBuilder.step fuel c (pc, a)) (FriendBuilder.step fuel c (pc, b)).
Proof.
  intros Hab. pose proof Hab as (Hs & Hd & Hf & Hb & Ht & Hp & Hw).
  destruct pc as [[|u rest]|u desired tries rest|rest| |]; simpl; try done.
  - unfold FriendBuilder.while_cond. rewrite Hd, Ht.
    destruct (_ && _); [|done]. destruct (_ <? _); [done|].
    eapply rel_res_bind; [by apply attempt_agree|]. done.
  - rewrite Ht. by destruct (_ <=? _).
  - eapply rel_res_bind; [by apply flushEdges_agree|].
    intros a' b' (?&?&?&?&?&?&?). simpl. agreed.
Qed.

Lemma run_agree {K1 K2} (steps : nat) fuel c :
  ∀ pc (a : FriendBuilder.Data K1) (b : FriendBuilder.Data K2),
  friends_agree p a b →
  rel_res (friends_agree p) (FriendBuilder.run steps fuel c (pc, a))
                        (FriendBuilder.run steps fuel c (pc, b)).
Proof.
  induction steps as [|steps IH]; intros pc a b Hab.
  - destruct pc; simpl; done.
  - assert (Hstep : rel_res (friends_agree p)
      (let* m' := FriendBuilder.step fuel c (pc, a) in
       FriendBuilder.run steps fuel c m')
      (let* m' := FriendBuilder.step fuel c (pc, b) in
       FriendBuilder.run steps fuel c m')).
    { eapply rel_res_bind; [by apply step_agree|].
      intros [pc1 a1] [pc2 b1] [Hpc Hab1]. simpl in *. subst pc2. by apply IH. }
    destruct pc; simpl; done.
Qed.

(** *** Follow edges *)

Lemma flushFollow_agree {K1 K2} (a : FollowBuilder.Data K1)
    (b : FollowBuilder.Data K2) :
  follows_agree p a b →
  rel_res (follows_agree p) (FollowBuilder.flushFollow a) (FollowBuilder.flushFollow b).
Proof.
  intros (Hs & Hf & Hb & Hw). unfold FollowBuilder.flushFollow.
  rewrite Hb. destruct (0 <? _); [|agreed].
  eapply rel_res_bind; [by apply agree_insert_edges|].
  intros w1 w2 Hw'. simpl. agreed.
Qed.

Lemma while_loop_agree {K1 K2} cfg pop lk uId nF (n : nat) :
  ∀ made tries (a : FollowBuilder.Data K1) (b : FollowBuilder.Data K2),
  follows_agree p a b →
  rel_res (follows_agree p)
    (FollowBuilder.while_loop n cfg pop lk uId nF made tries a)
    (FollowBuilder.while_loop n cfg pop lk uId nF made tries b).
Proof.
  induction n as [|n IH]; intros made tries a b Hab;
    pose proof Hab as (Hs & Hf & Hb & Hw); simpl.
  { by destruct (_ && _). }
  destruct (_ && _); [|done]. rewrite Hs.
  destruct (FollowBuilder.draw_candidate _ _ _ _) as [[cand s]| |]; simpl; try done.
  rewrite Hf, Hb.
  destruct (decide (cand = Some uId)); [apply IH; agreed|].
  destruct (decide (followKey uId cand ∈ _)); [apply IH; agreed|].
  eapply rel_res_bind.
  - destruct (_ <=? _); [apply flushFollow_agree|]; agreed.
  - intros a' b' Hab'. by apply IH.
Qed.

Lemma for_loop_agree {K1 K2} cfg pop lk (users : list Z) :
  ∀ (a : FollowBuilder.Data K1) (b : FollowBuilder.Data K2),
  follows_agree p a b →
  rel_res (follows_agree p) (FollowBuilder.for_loop cfg pop lk users a)
                        (FollowBuilder.for_loop cfg pop lk users b).
Proof.
  induction users as [|u users IH]; intros a b Hab;
    pose proof Hab as (Hs & Hf & Hb & Hw); simpl; [done|].
  rewrite Hs, Hf, Hb.
  eapply rel_res_bind; [apply while_loop_agree; agreed|].
  intros a' b' Hab'. by apply IH.
Qed.

Lemma follow_agree {K1 K2} cfg pop lk s (w1 : World K1) (w2 : World K2) :
  agree p w1 w2 →
  rel_res (follows_agree p) (FollowBuilder.run cfg pop lk s w1)
                        (FollowBuilder.run cfg pop lk s w2).
Proof.
  intros Hw. unfold FollowBuilder.run.
  eapply rel_res_bind; [apply for_loop_agree; agreed|].
  intros a b Hab. eapply rel_res_bind; [by apply flushFollow_agree|].
  intros a' b' (?&?&?&?). simpl. agreed.
Qed.

(** *** Interactions *)

Lemma flushInteractions_agree {K1 K2} (a : Interactions.Data K1)
    (b : Interactions.Data K2) :
  interactions_agree p a b →
  rel_res (interactions_agree p) (Interactions.flushInteractions a)
                             (Interactions.flushInteractions b).
Proof.
  intros (Hs & Hb & Hw). unfold Interactions.flushInteractions.
  assert (Hlen : length (Interactions.interactionsBatch a)
                 = length (Interactions.interactionsBatch b)).
  { by rewrite <- (length_fmap p), Hb, length_fmap. }
  rewrite Hlen. destruct (0 <? _); [|agreed].
  eapply rel_res_bind; [by apply agree_insert_interactions|].
  intros w1 w2 Hw'. simpl. agreed.
Qed.

Lemma body_agree {K1 K2} cfg pop now1 now2 (a : Interactions.Data K1)
    (b : Interactions.Data K2) :
  (∀ x y t w, p {| actor := x; target := y; itype := t; weight2 := w;
                   createdAt := now1 |}
              = p {| actor := x; target := y; itype := t; weight2 := w;
                     createdAt := now2 |}) →
  interactions_agree p a b →
  rel_res (interactions_agree p) (Interactions.body cfg pop now1 a)
                             (Interactions.body cfg pop now2 b).
Proof.
  intros Hnow (Hs & Hb & Hw). unfold Interactions.body. rewrite Hs.
  destruct (Rng.choice (allUserIds pop) _) as [actor s1].
  destruct (Rng.choice (allUserIds pop) s1) as [target s2].
  destruct (decide (actor = target)); [agreed|].
  destruct (Rng.choice Interactions.interactionTypes s2) as [t s3].
  rewrite !length_app.
  assert (Hlen : length (Interactions.interactionsBatch a)
                 = length (Interactions.interactionsBatch b)).
  { by rewrite <- (length_fmap p), Hb, length_fmap. }
  rewrite Hlen. simpl length.
  assert (Hab : interactions_agree p
    {| Interactions._seed := s3;
       Interactions.interactionsBatch := Interactions.interactionsBatch a ++
         [{| actor := actor; target := target; itype := t;
             weight2 := Interactions.weight_of t; createdAt := now1 |}];
       Interactions.world := Interactions.world a |}
    {| Interactions._seed := s3;
       Interactions.interactionsBatch := Interactions.interactionsBatch b ++
         [{| actor := actor; target := target; itype := t;
             weight2 := Interactions.weight_of t; createdAt := now2 |}];
       Interactions.world := Interactions.world b |}).
  { split; [done|]. split; [|done]. simpl. rewrite !fmap_app, Hb. simpl.
    by rewrite Hnow. }
  destruct (_ <=? _); [by apply flushInteractions_agree|done].
Qed.

Lemma interactions_for_loop_agree {K1 K2} cfg pop clock1 clock2 (n : nat) :
  (∀ i x y t w, p {| actor := x; target := y; itype := t; weight2 := w;
                     createdAt := clock1 i |}
                = p {| actor := x; target := y; itype := t; weight2 := w;
                       createdAt := clock2 i |}) →
  ∀ i (a : Interactions.Data K1) (b : Interactions.Data K2),
  interactions_agree p a b →
  rel_res (interactions_agree p) (Interactions.for_loop cfg pop clock1 n i a)
                             (Interactions.for_loop cfg pop clock2 n i b).
Proof.
  intros Hclock. induction n as [|n IH]; intros i a b Hab; simpl; [done|].
  eapply rel_res_bind; [apply body_agree; [apply Hclock|done]|].
  intros a' b' Hab'. by apply IH.
Qed.

Lemma interactions_agree_run {K1 K2} cfg pop clock1 clock2 s
    (w1 : World K1) (w2 : World K2) :
  (∀ i x y t w, p {| actor := x; target := y; itype := t; weight2 := w;
                     createdAt := clock1 i |}
                = p {| actor := x; target := y; itype := t; weight2 := w;
                       createdAt := clock2 i |}) →
  agree p w1 w2 →
  rel_res (interactions_agree p) (Interactions.run cfg pop clock1 s w1)
                             (Interactions.run cfg pop clock2 s w2).
Proof.
  intros Hclock Hw. unfold Interactions.run.
  eapply rel_res_bind; [apply interactions_for_loop_agree; [done|agreed]|].
  intros a b Hab. eapply rel_res_bind; [by apply flushInteractions_agree|].
  intros a' b' (?&?&?). simpl. agreed.
Qed.

(** *** The script *)

Lemma main_agree {K1 K2} fuel cfg clock1 clock2 (d1 : DB K1) (d2 : DB K2) :
  (∀ i x y t w, p {| actor := x; target := y; itype := t; weight2 := w;
                     createdAt := clock1 i |}
                = p {| actor := x; target := y; itype := t; weight2 := w;
                       createdAt := clock2 i |}) →
  rel_res (agree p) (main fuel cfg clock1 d1) (main fuel cfg clock2 d2).
Proof.
  intros Hclock. unfold main.
  eapply rel_res_bind; [apply partition_agree; agreed|].
  intros [cs1 us1] [cs2 us2] [Hcs (Hs & Hid & Hb & Hci & Has & Hp & Hd & Hw)].
  simpl in *. subst cs2. rewrite Hs, Hp, Hd.
  destruct (Planner.plan _ _ _ _) as [[plan s1]| |]; simpl; try done.
  eapply rel_res_bind; [apply run_agree; agreed|].
  intros fa fb (Hfs & _ & _ & _ & _ & _ & Hfw). rewrite Hfs.
  eapply rel_res_bind; [by apply follow_agree|].
  intros wa wb (Hws & _ & _ & Hww). rewrite Hws.
  eapply rel_res_bind; [by apply interactions_agree_run|].
  intros ia ib (_ & _ & Hiw). done.
Qed.

End Agreement.

(** ** The script runs to completion *)

Lemma assign_all_lookup `{Countable K} (k : K) (ids : list Z) :
  ∀ (acc : gmap Z K) id,
  foldl (fun acc id => <[id := k]> acc) acc ids !! id
  = if decide (id ∈ ids) then Some k else acc !! id.
Proof.
  induction ids as [|x ids IH]; intros acc id.
  - destruct (decide (id ∈ [])) as [Hin|]; [inversion Hin|done].
  - simpl. rewrite IH. destruct (decide (id ∈ ids)) as [Hin|Hout].
    + rewrite decide_True; [done|]. set_solver.
    + destruct (decide (id = x)) as [->|Hne].
      * rewrite lookup_insert_eq, decide_True; [done|]. set_solver.
      * rewrite lookup_insert_ne by done. rewrite decide_False; [done|].
        set_solver.
Qed.

(** Every id of a list is indexed, and only under keys of the table. *)
Lemma index_of_spec `{Countable K} (m : gmap K (list Z)) :
  (∀ id c, index_of m !! id = Some c → is_Some (m !! c))
  ∧ (∀ c l id, m !! c = Some l → id ∈ l → is_Some (index_of m !! id)).
Proof.
  unfold index_of.
  apply (map_fold_weak_ind (fun (acc : gmap Z K) (m : gmap K (list Z)) =>
    (∀ id c, acc !! id = Some c → is_Some (m !! c))
    ∧ (∀ c l id, m !! c = Some l → id ∈ l → is_Some (acc !! id)))).
  - split; [intros id c Hl|intros c l id Hl]; by rewrite lookup_empty in Hl.
  - intros k ids m' acc Hk [H1 H2]. split.
    + intros id c. rewrite assign_all_lookup. case_decide.
      * intros [= <-]. rewrite lookup_insert_eq. eauto.
      * intros Hacc. destruct (H1 _ _ Hacc) as [l Hl].
        exists l. rewrite lookup_insert_ne; [done|]. intros ->. congruence.
    + intros c l id Hl Hin. rewrite assign_all_lookup. case_decide; [eauto|].
      destruct (decide (k = c)) as [->|Hne].
      * rewrite lookup_insert_eq in Hl. by injection Hl as ->.
      * rewrite lookup_insert_ne in Hl by done. by eapply H2.
Qed.

Lemma Partitioned_WellIndexed pop n :
  Partitioned pop n → WellIndexed pop (lookup_maps pop).
Proof.
  intros (Hids & Hlists & Hcover & _). intros u Hu. rewrite Hids in Hu.
  apply elem_of_seqZ in Hu. destruct (Hcover u) as (c & l & Hl & Hin); [lia|].
  destruct (index_of_spec (idsByCommunity pop)) as [H1 H2].
  destruct (H2 c l u Hl Hin) as [c' Hc']. destruct (H1 u c' Hc') as [l' Hl'].
  exists c', l'. done.
Qed.

Lemma in_range_length (l : list Z) n :
  NoDup l → (∀ id, id ∈ l → 1 ≤ id ≤ n) → Z.of_nat (length l) ≤ Z.max 0 n.
Proof.
  intros Hnd Hr.
  assert (l ⊆+ seqZ 1 n) as Hsub%submseteq_length.
  { apply NoDup_submseteq; [done|]. intros x Hx%Hr. apply elem_of_seqZ. lia. }
  rewrite length_seqZ in Hsub. lia.
Qed.

Lemma Partitioned_SmallPools pop n :
  n ≤ 4294967296 → Partitioned pop n → SmallPools pop.
Proof.
  intros Hn (Hids & Hlists & _ & _ & Hcity). split; [|split].
  - rewrite Hids, length_seqZ. lia.
  - intros c l Hl. destruct (Hlists c l Hl) as [Hnd Hr].
    pose proof (in_range_length l n Hnd Hr). simpl. lia.
  - intros c l Hl. destruct (Hcity c l Hl) as [Hnd Hr].
    pose proof (in_range_length l n Hnd Hr). simpl. lia.
Qed.

Lemma after_Finished {K} (n fuel : nat) c (d : FriendBuilder.Data K) :
  after n fuel c (FriendBuilder.Finished, d) = Ok (FriendBuilder.Finished, d).
Proof. induction n as [|n IH]; simpl; [done|exact IH]. Qed.

Lemma run_of_after {K} (n fuel : nat) c :
  ∀ (m : FriendBuilder.Control * FriendBuilder.Data K) d' steps,
  after n fuel c m = Ok (FriendBuilder.Finished, d') → (n ≤ steps)%nat →
  FriendBuilder.run steps fuel c m = Ok d'.
Proof.
  induction n as [|n IH]; intros [pc d] d' steps Hafter Hle.
  - simpl in Hafter. injection Hafter as -> ->. by destruct steps.
  - assert (pc = FriendBuilder.Finished ∨ pc ≠ FriendBuilder.Finished)
      as [->|Hpc] by (destruct pc; (by left) || (by right)).
    + rewrite after_Finished in Hafter. injection Hafter as ->. by destruct steps.
    + destruct steps as [|steps]; [lia|].
      assert (FriendBuilder.run (S steps) fuel c (pc, d)
              = (let* m' := FriendBuilder.step fuel c (pc, d) in
                 FriendBuilder.run steps fuel c m')) as ->
        by (by destruct pc).
      change (after (S n) fuel c (pc, d))
        with (let* m' := FriendBuilder.step fuel c (pc, d) in after n fuel c m')
        in Hafter.
      destruct (FriendBuilder.step fuel c (pc, d)) as [m1| |];
        cbn [rbind] in *; try done.
      apply IH; [done|lia].
Qed.

(** The machine finishes: every user costs at most the attempts the retry
    test allows and three more steps. *)
Lemma friend_finishes {K} fuel (c : FriendBuilder.Ctx) (W : nat) :
  SmallPools (FriendBuilder.pop c) → (6 * period ≤ fuel)%nat →
  ∀ (rest : list Z) (d : FriendBuilder.Data K),
  (∀ u, u ∈ rest →
     (Z.to_nat (desired_of c u * RETRY_FACTOR (FriendBuilder.cfg c) + 1) ≤ W)%nat) →
  ∃ n d', (n ≤ length rest * (W + 3) + 2)%nat
    ∧ after n fuel c (FriendBuilder.ForHead rest, d)
      = Ok (FriendBuilder.Finished, d').
Proof.
  intros Hpools Hfuel.
  assert (Hfor : ∀ d : FriendBuilder.Data K, ∃ d',
    after 1 fuel c (FriendBuilder.AfterFor, d) = Ok (FriendBuilder.Finished, d')).
  { intros d. simpl. destruct (flushEdges_spec d) as (d1 & -> & _). simpl. eauto. }
  induction rest as [|u rest IH]; intros d HW.
  - destruct (Hfor d) as (d' & Hd'). exists 2%nat, d'. split; [simpl; lia|].
    exact Hd'.
  - destruct (while_exits fuel c u (desired_of c u) rest _ Hpools Hfuel 0 d
                eq_refl) as (n1 & d1 & Hn1 & Hrun1).
    specialize (HW u ltac:(set_solver)) as Hu.
    rewrite Z.sub_0_r in Hn1.
    destruct (Z.leb_spec (Planner.targetEdges (FriendBuilder.plan c))
                (FriendBuilder.totalEdges d1)) as [Hfull|Hmore].
    + destruct (Hfor d1) as (d' & Hd').
      exists (1 + (n1 + (1 + 1)))%nat, d'. split; [simpl; lia|].
      rewrite after_add. simpl after at 1. fold (desired_of c u).
      cbn [rbind]. rewrite after_add, Hrun1. cbn [rbind].
      rewrite after_add. simpl after at 1. simpl FriendBuilder.step.
      assert ((Planner.targetEdges (FriendBuilder.plan c)
               <=? FriendBuilder.totalEdges d1) = true) as -> by lia.
      cbn [rbind]. exact Hd'.
    + destruct (IH d1) as (n2 & d' & Hn2 & Hrun2).
      { intros u' Hu'. apply HW. set_solver. }
      exists (1 + (n1 + (1 + n2)))%nat, d'. split; [simpl; lia|].
      rewrite after_add. simpl after at 1. fold (desired_of c u).
      cbn [rbind]. rewrite after_add, Hrun1. cbn [rbind].
      rewrite after_add. simpl after at 1. simpl FriendBuilder.step.
      assert ((Planner.targetEdges (FriendBuilder.plan c)
               <=? FriendBuilder.totalEdges d1) = false) as -> by lia.
      cbn [rbind]. exact Hrun2.
Qed.

Lemma flushInteractions_Ok {K} (d : Interactions.Data K) :
  ∃ d', Interactions.flushInteractions d = Ok d'
        ∧ Interactions._seed d' = Interactions._seed d
        ∧ Interactions.interactionsBatch d' = [].
Proof.
  unfold Interactions.flushInteractions.
  destruct (Z.ltb_spec 0 (Z.of_nat (length (Interactions.interactionsBatch d)))).
  - destruct (try_insert_interactions (Interactions.interactionsBatch d)
                (Interactions.world d) "Interactions batch insert warning:")
      as (w & -> & _). simpl. eauto.
  - exists d. split; [done|]. split; [done|].
    destruct (Interactions.interactionsBatch d); [done|simpl in *; lia].
Qed.

Lemma interactions_run_total {K} cfg pop clock s (w : World K) :
  ∃ d, Interactions.run cfg pop clock s w = Ok d.
Proof.
  unfold Interactions.run.
  assert (Hloop : ∀ (n : nat) i (d : Interactions.Data K),
            ∃ d', Interactions.for_loop cfg pop clock n i d = Ok d').
  { induction n as [|n IH]; intros i d; simpl; [eauto|].
    assert (∃ d1, Interactions.body cfg pop (clock i) d = Ok d1) as [d1 ->].
    { unfold Interactions.body.
      destruct (Rng.choice (allUserIds pop) _) as [actor s1].
      destruct (Rng.choice (allUserIds pop) s1) as [target s2].
      destruct (decide _); [eauto|].
      destruct (Rng.choice Interactions.interactionTypes s2) as [t s3].
      destruct (_ <=? _); [|eauto].
      match goal with |- context [Interactions.flushInteractions ?x] =>
        destruct (flushInteractions_Ok x) as (d1 & -> & _) end. eauto. }
    simpl. apply IH. }
  match goal with |- context [Interactions.for_loop _ _ _ ?n ?i ?d0] =>
    destruct (Hloop n i d0) as (d1 & ->) end. simpl.
  destruct (flushInteractions_Ok d1) as (d2 & -> & _). simpl. eauto.
Qed.

Lemma get_le_sum (ids : list Z) td u :
  Planned ids td → u ∈ ids → Planner.get td u ≤ Planner.sum_targets ids td.
Proof.
  induction ids as [|x ids IH]; intros Hp Hu; [inversion Hu|].
  change (Planner.sum_targets (x :: ids) td)
    with (Planner.get td x + Planner.sum_targets ids td).
  assert (Hrest : Planned ids td) by (intros id Hid; apply Hp; set_solver).
  pose proof (sum_targets_ge ids td Hrest).
  apply elem_of_cons in Hu as [->|Hu]; [lia|].
  specialize (IH Hrest Hu). specialize (Hp x ltac:(set_solver)). lia.
Qed.

(** For a population of 1 to 2^32 users, a budget range whose lower end
    covers the population (N <= 2*Emin) and a non-negative retry factor, the
    script runs to completion, given enough fuel. *)
Lemma main_total {K} (cfg : Config) (clock : Z → Z) (d : DB K) :
  1 ≤ N_USERS cfg ≤ 4294967296 →
  TARGET_EDGE_MIN cfg ≤ TARGET_EDGE_MAX cfg →
  N_USERS cfg ≤ 2 * TARGET_EDGE_MIN cfg →
  0 ≤ RETRY_FACTOR cfg →
  ∃ F, ∀ fuel, (F ≤ fuel)%nat → ∃ w, main fuel cfg clock d = Ok w.
Proof.
  intros HN HE HNE HK.
  destruct (partition_run_total cfg (SEED cfg) (start d)) as ([cs us] & Hpart).
  pose proof (partition_run_users (3 * period) cfg (SEED cfg) (start d) cs us
                eq_refl (Hpart (3 * period)%nat (le_n _))) as (HP & _ & _).
  rewrite Z2Nat.id in HP by lia.
  set (pop := Partition.pop us) in *.
  pose proof HP as (Hids & _).
  assert (Hnd : NoDup (allUserIds pop)) by (rewrite Hids; apply NoDup_seqZ).
  assert (Hlen : Z.of_nat (length (allUserIds pop)) = N_USERS cfg)
    by (rewrite Hids, length_seqZ; lia).
  assert (Hne : allUserIds pop ≠ []) by (intros Heq; rewrite Heq in Hlen; simpl in Hlen; lia).
  pose proof (randint_range (TARGET_EDGE_MIN cfg) (TARGET_EDGE_MAX cfg)
                (Partition._seed us) HE) as HEr.
  destruct (plan_total (allUserIds pop) Hnd Hne cfg (Partition._seed us)
              ltac:(lia)) as (F1 & HF1).
  set (W := Z.to_nat (2 * TARGET_EDGE_MAX cfg * RETRY_FACTOR cfg + 1)).
  exists (3 * period + F1 + 6 * period
          + (length (allUserIds pop) * (W + 3) + 2))%nat.
  intros fuel Hfuel. unfold main.
  rewrite (Hpart fuel) by lia. cbn [rbind]. fold pop.
  destruct (HF1 fuel ltac:(lia)) as (p & s1 & Hplan). rewrite Hplan.
  cbn [rbind].
  apply (plan_spec _ Hnd Hne) in Hplan as (HpE & Hstubs & Hsum & Hplanned).
  match goal with
  | |- context [FriendBuilder.run fuel fuel ?c _] => set (c0 := c)
  end.
  match goal with
  | |- context [FriendBuilder.run fuel fuel c0 ?m] => set (m0 := m)
  end.
  destruct (friend_finishes fuel c0 W
              (Partitioned_SmallPools pop (N_USERS cfg) ltac:(lia) HP) ltac:(lia)
              (allUserIds pop) m0.2) as (n & fd & Hn & Hafter).
  { intros u Hu. unfold desired_of, c0. simpl.
    pose proof (Hplanned u Hu) as H1. pose proof (get_le_sum _ _ _ Hplanned Hu) as H2.
    unfold Planner.get in H1, H2.
    destruct (Z.eqb_spec (default 0 (Planner.targetDegrees p !! u)) 0); [lia|].
    unfold W. apply Z2Nat.inj_le; nia. }
  rewrite (run_of_after n fuel c0 m0 fd fuel); [|exact Hafter|lia].
  cbn [rbind].
  destruct (follow_run_total cfg pop (lookup_maps pop) (FriendBuilder._seed fd)
              (FriendBuilder.world fd) (Partitioned_WellIndexed pop _ HP))
    as (wd & ->). cbn [rbind].
  destruct (interactions_run_total cfg pop clock (FollowBuilder._seed wd)
              (FollowBuilder.world wd)) as (id & ->). cbn [rbind]. eauto.
Qed.

(** C3, as amended: two runs with the same configuration (seed included) end
    the same way and generate the same user documents and the same edge
    documents, and interaction documents that are the same but for
    [createdAt], whatever the wall clocks, the stores and their contents;
    and for a population of 1 to 2^32 users within the budget (N <= 2*Emin)
    both runs complete, given enough fuel. *)
Theorem same_seed_same_documents {K1 K2} (fuel : nat) (cfg : Config)
    (clock1 clock2 : Z → Z) (d1 : DB K1) (d2 : DB K2) :
  match main fuel cfg clock1 d1, main fuel cfg clock2 d2 with
  | Ok w1, Ok w2 =>
      sentUsers w1 = sentUsers w2 ∧ sentEdges w1 = sentEdges w2
      ∧ untimed <$> sentInteractions w1 = untimed <$> sentInteractions w2
  | Throw e1, Throw e2 => e1 = e2
  | OutOfFuel, OutOfFuel => True
  | _, _ => False
  end
  ∧ (1 ≤ N_USERS cfg ≤ 4294967296 →
     TARGET_EDGE_MIN cfg ≤ TARGET_EDGE_MAX cfg →
     N_USERS cfg ≤ 2 * TARGET_EDGE_MIN cfg →
     0 ≤ RETRY_FACTOR cfg →
     ∃ F, ∀ fuel', (F ≤ fuel')%nat →
       ∃ w1 w2, main fuel' cfg clock1 d1 = Ok w1
                ∧ main fuel' cfg clock2 d2 = Ok w2).
Proof.
  split; [by apply (main_agree untimed fuel cfg clock1 clock2 d1 d2)|].
  intros HN HE HS HR.
  destruct (main_total cfg clock1 d1 HN HE HS HR) as (F1 & H1).
  destruct (main_total cfg clock2 d2 HN HE HS HR) as (F2 & H2).
  exists (F1 `max` F2)%nat. intros fuel' Hfuel.
  destruct (H1 fuel' ltac:(lia)) as (w1 & ?).
  destruct (H2 fuel' ltac:(lia)) as (w2 & ?). eauto.
Qed.

(** Two runs of the thirty-user configuration, one against a store that is
    up and one against a store that is down, a second apart. *)
Lemma same_seed_same_documents_witness :
  ∃ F, ∀ fuel, (F ≤ fuel)%nat →
    ∃ w1 w2,
      main (K := memSink) fuel small_config clock_a emptyDB = Ok w1
      ∧ main (K := downSink) fuel small_config clock_b emptyDB = Ok w2.
Proof.
  apply (same_seed_same_documents (K1 := memSink) (K2 := downSink) 0
           small_config clock_a clock_b emptyDB emptyDB); simpl; lia.
Defined.

(** C3 as stated fails: two runs of the thirty-user configuration against the
    in-memory store, same seed, wall clocks a second apart, hand different
    interaction documents to the store. *)
Lemma same_seed_different_timestamps :
  ∃ l1 l2,
    interactions_of (main (K := memSink) 2000 small_config clock_a emptyDB)
      = Some l1
    ∧ interactions_of (main (K := memSink) 2000 small_config clock_b emptyDB)
      = Some l2
    ∧ createdAt <$> l1 = [1000; 1001; 1002; 1003; 1004]
    ∧ createdAt <$> l2 = [2000; 2001; 2002; 2003; 2004]
    ∧ l1 ≠ l2.
Proof.
  eexists. eexists.
  split; [vm_compute; reflexivity|]. split; [vm_compute; reflexivity|].
  split; [reflexivity|]. split; [reflexivity|]. discriminate.
Qed.

(** ** Insert failures and outages *)

(** *** What an outage can do to a run *)

Lemma outage_only_refl {K} {O : Outage K} {A} (r : res A) : outage_only r r.
Proof. by left. Qed.

Lemma outage_only_bind {K} {O : Outage K} {A B} (m m0 : res A)
    (k k0 : A → res B) :
  outage_only m m0 → (∀ a, outage_only (k a) (k0 a)) →
  outage_only (let* a := m in k a) (let* a := m0 in k0 a).
Proof.
  intros [->|(e & c & d & -> & He)] Hk.
  - destruct m0 as [a| |]; cbn [rbind]; [apply Hk|by left|by left].
  - right. exists e, c, d. done.
Qed.

Lemma countDocuments_outage {K} {O : Outage K} (c : Counted) (d : DB K) :
  outage_only (countDocuments c d) (countDocuments (O := answers K) c d).
Proof.
  unfold countDocuments. destruct (count_throws c d) as [e|] eqn:He.
  - right. by exists e, c, d.
  - by left.
Qed.

Lemma user_body_outage {K} {O : Outage K} fuel cfg communities created
    (st : Partition.State K) :
  outage_only (Partition.user_body fuel cfg communities created st)
              (Partition.user_body (O := answers K) fuel cfg communities
                 created st).
Proof.
  unfold Partition.user_body.
  destruct (Partition.advance _ _ _) as [ci asg].
  apply outage_only_bind; [apply outage_only_refl|]. intros [doc s].
  destruct (_ || _); [|apply outage_only_refl].
  apply outage_only_bind; [apply outage_only_refl|]. intros w.
  apply outage_only_bind; [apply countDocuments_outage|]. intros n.
  apply outage_only_refl.
Qed.

Lemma user_loop_outage {K} {O : Outage K} fuel cfg communities (n : nat) :
  ∀ created (st : Partition.State K),
  outage_only (Partition.user_loop fuel cfg communities n created st)
              (Partition.user_loop (O := answers K) fuel cfg communities n
                 created st).
Proof.
  induction n as [|n IH]; intros created st; cbn [Partition.user_loop].
  - apply outage_only_refl.
  - apply outage_only_bind; [apply user_body_outage|]. intros st1. apply IH.
Qed.

Lemma partition_run_outage {K} {O : Outage K} fuel cfg s (w : World K) :
  outage_only (Partition.run fuel cfg s w)
              (Partition.run (O := answers K) fuel cfg s w).
Proof.
  unfold Partition.run.
  destruct (Rng.randint _ _ s) as [nC s1].
  destruct (Partition.communities _ _ _) as [cs s2].
  apply outage_only_bind; [apply user_loop_outage|]. intros st.
  apply outage_only_bind; [apply countDocuments_outage|]. intros n.
  apply outage_only_refl.
Qed.

Lemma step_outage {K} {O : Outage K} fuel (c : FriendBuilder.Ctx)
    (m : FriendBuilder.Control * FriendBuilder.Data K) :
  outage_only (FriendBuilder.step fuel c m)
              (FriendBuilder.step (O := answers K) fuel c m).
Proof.
  destruct m as [pc d].
  destruct pc as [[|u rest]|u desired tries rest|rest| |];
    try apply outage_only_refl.
  cbn [FriendBuilder.step].
  apply outage_only_bind; [apply outage_only_refl|]. intros d1.
  apply outage_only_bind; [apply countDocuments_outage|]. intros n.
  apply outage_only_refl.
Qed.

Lemma friend_run_outage {K} {O : Outage K} (steps : nat) fuel
    (c : FriendBuilder.Ctx) :
  ∀ m : FriendBuilder.Control * FriendBuilder.Data K,
  outage_only (FriendBuilder.run steps fuel c m)
              (FriendBuilder.run (O := answers K) steps fuel c m).
Proof.
  induction steps as [|steps IH]; intros [pc d].
  - apply outage_only_refl.
  - destruct pc; cbn [FriendBuilder.run]; try apply outage_only_refl;
      (apply outage_only_bind; [apply step_outage|]; intros m1; apply IH).
Qed.

Lemma follow_run_outage {K} {O : Outage K} cfg pop lk s (w : World K) :
  outage_only (FollowBuilder.run cfg pop lk s w)
              (FollowBuilder.run (O := answers K) cfg pop lk s w).
Proof.
  unfold FollowBuilder.run.
  apply outage_only_bind; [apply outage_only_refl|]. intros d.
  apply outage_only_bind; [apply outage_only_refl|]. intros d1.
  apply outage_only_bind; [apply countDocuments_outage|]. intros n.
  apply outage_only_refl.
Qed.

Lemma interactions_run_outage {K} {O : Outage K} cfg pop clock s
    (w : World K) :
  outage_only (Interactions.run cfg pop clock s w)
              (Interactions.run (O := answers K) cfg pop clock s w).
Proof.
  unfold Interactions.run.
  apply outage_only_bind; [apply outage_only_refl|]. intros d.
  apply outage_only_bind; [apply outage_only_refl|]. intros d1.
  apply outage_only_bind; [apply countDocuments_outage|]. intros n.
  apply outage_only_refl.
Qed.

Lemma main_outage {K} {O : Outage K} fuel cfg clock (d : DB K) :
  outage_only (main fuel cfg clock d) (main (O := answers K) fuel cfg clock d).
Proof.
  unfold main.
  apply outage_only_bind; [apply partition_run_outage|]. intros [cs us].
  apply outage_only_bind; [apply outage_only_refl|]. intros [plan s1].
  apply outage_only_bind; [apply friend_run_outage|]. intros fd.
  apply outage_only_bind; [apply follow_run_outage|]. intros wd.
  apply outage_only_bind; [apply interactions_run_outage|]. intros id.
  apply outage_only_refl.
Qed.

(** *** The four flush sites *)

Lemma try_insert_logged {K} (w1 : World K) (exn : option string) warning :
  ∃ w', try_insert (w1, thrown exn) warning = Ok w'
    ∧ db w' = db w1
    ∧ console w' = console w1 ++ warning_line warning exn
    ∧ sentUsers w' = sentUsers w1 ∧ sentEdges w' = sentEdges w1
    ∧ sentInteractions w' = sentInteractions w1.
Proof.
  rewrite try_catch_thrown. eexists. split; [reflexivity|].
  destruct exn; simpl; by rewrite ?app_nil_r.
Qed.

Lemma user_body_flush {K} {O : Outage K} fuel cfg communities created
    (st st' : Partition.State K) :
  Partition.user_body fuel cfg communities created st = Ok st' →
  ∃ doc,
    let batch := Partition.userBatch st ++ [doc] in
    let r := insertUsers K batch (db (Partition.world st)) in
    if (BATCH_SIZE cfg <=? Z.of_nat (length batch))
       || (created + 1 =? N_USERS cfg)
    then
      Partition.userBatch st' = []
      ∧ sentUsers (Partition.world st')
        = sentUsers (Partition.world st) ++ batch
      ∧ db (Partition.world st') = r.1
      ∧ console (Partition.world st')
        = console (Partition.world st)
          ++ warning_line
               "Warning: insertMany users batch error (continuing)." r.2
          ++ ["Inserted users so far: " +:+ pretty (countUsers K r.1)]
    else
      Partition.userBatch st' = batch
      ∧ Partition.world st' = Partition.world st.
Proof.
  unfold Partition.user_body.
  destruct (Partition.advance _ _ _) as [ci asg].
  destruct (make_user _ _ _ _) as [[doc s]| |]; cbn [rbind]; try done.
  intros Hrun. exists doc. cbv zeta. revert Hrun.
  destruct (_ || _).
  - unfold insertMany_users.
    destruct (insertUsers K (Partition.userBatch st ++ [doc])
                (db (Partition.world st))) as [d1 exn] eqn:Hins.
    match goal with |- context [try_insert (?w1, thrown exn) ?m] =>
      destruct (try_insert_logged w1 exn m) as (w' & -> & Hdb & Hc & Hu & _)
    end.
    cbn [rbind]. unfold countDocuments.
    destruct (count_throws CUsers (db w')) as [e|]; cbn [rbind]; [done|].
    intros [= <-]. cbn.
    rewrite Hu, Hdb, Hc. cbn. by rewrite <- app_assoc.
  - intros [= <-]. done.
Qed.

Lemma flushEdges_logged {K} (d : FriendBuilder.Data K) :
  ∃ d', FriendBuilder.flushEdges d = Ok d'
    ∧ FriendBuilder.edgeBatch d' = []
    ∧ same_generation d d'
    ∧ (FriendBuilder.edgeBatch d = [] → d' = d)
    ∧ (FriendBuilder.edgeBatch d ≠ [] →
       let r := insertEdges K (FriendBuilder.edgeBatch d)
                  (db (FriendBuilder.world d)) in
       sentEdges (FriendBuilder.world d')
       = sentEdges (FriendBuilder.world d) ++ FriendBuilder.edgeBatch d
       ∧ db (FriendBuilder.world d') = r.1
       ∧ console (FriendBuilder.world d')
         = console (FriendBuilder.world d)
           ++ warning_line "Edge batch insert warning:" r.2).
Proof.
  unfold FriendBuilder.flushEdges.
  destruct (FriendBuilder.edgeBatch d) as [|x l] eqn:Hb.
  - exists d. cbn. split; [done|]. split; [done|].
    split; [apply same_generation_refl|]. done.
  - assert ((0 <? Z.of_nat (length (x :: l))) = true) as ->
      by (apply Z.ltb_lt; rewrite length_cons; lia).
    unfold insertMany_edges.
    destruct (insertEdges K (x :: l) (db (FriendBuilder.world d)))
      as [d1 exn] eqn:Hins.
    match goal with |- context [try_insert (?w1, thrown exn) ?m] =>
      destruct (try_insert_logged w1 exn m)
        as (w' & -> & Hdb & Hc & Hu & He & Hi)
    end.
    cbn [rbind]. eexists. split; [reflexivity|]. cbn in *.
    split; [done|]. split.
    { unfold same_generation. cbn. rewrite He, Hu, Hi, Hb, app_nil_r. done. }
    split; [done|]. intros _. by rewrite He, Hdb, Hc.
Qed.

Lemma flushFollow_logged {K} (d : FollowBuilder.Data K) :
  ∃ d', FollowBuilder.flushFollow d = Ok d'
    ∧ FollowBuilder.followBatch d' = []
    ∧ FollowBuilder._seed d' = FollowBuilder._seed d
    ∧ FollowBuilder.followSet d' = FollowBuilder.followSet d
    ∧ sentUsers (FollowBuilder.world d') = sentUsers (FollowBuilder.world d)
    ∧ sentInteractions (FollowBuilder.world d')
      = sentInteractions (FollowBuilder.world d)
    ∧ (FollowBuilder.followBatch d = [] → d' = d)
    ∧ (FollowBuilder.followBatch d ≠ [] →
       let r := insertEdges K (FollowBuilder.followBatch d)
                  (db (FollowBuilder.world d)) in
       sentEdges (FollowBuilder.world d')
       = sentEdges (FollowBuilder.world d) ++ FollowBuilder.followBatch d
       ∧ db (FollowBuilder.world d') = r.1
       ∧ console (FollowBuilder.world d')
         = console (FollowBuilder.world d)
           ++ warning_line "Follow batch insert warning:" r.2).
Proof.
  unfold FollowBuilder.flushFollow.
  destruct (FollowBuilder.followBatch d) as [|x l] eqn:Hb.
  - exists d. cbn. by rewrite Hb.
  - assert ((0 <? Z.of_nat (length (x :: l))) = true) as ->
      by (apply Z.ltb_lt; rewrite length_cons; lia).
    unfold insertMany_edges.
    destruct (insertEdges K (x :: l) (db (FollowBuilder.world d)))
      as [d1 exn] eqn:Hins.
    match goal with |- context [try_insert (?w1, thrown exn) ?m] =>
      destruct (try_insert_logged w1 exn m)
        as (w' & -> & Hdb & Hc & Hu & He & Hi)
    end.
    cbn [rbind]. eexists. split; [reflexivity|]. cbn in *.
    do 6 (split; [done|]). intros _. by rewrite He, Hdb, Hc.
Qed.

Lemma flushInteractions_logged {K} (d : Interactions.Data K) :
  ∃ d', Interactions.flushInteractions d = Ok d'
    ∧ Interactions.interactionsBatch d' = []
    ∧ Interactions._seed d' = Interactions._seed d
    ∧ sentUsers (Interactions.world d') = sentUsers (Interactions.world d)
    ∧ sentEdges (Interactions.world d') = sentEdges (Interactions.world d)
    ∧ (Interactions.interactionsBatch d = [] → d' = d)
    ∧ (Interactions.interactionsBatch d ≠ [] →
       let r := insertInteractions K (Interactions.interactionsBatch d)
                  (db (Interactions.world d)) in
       sentInteractions (Interactions.world d')
       = sentInteractions (Interactions.world d)
         ++ Interactions.interactionsBatch d
       ∧ db (Interactions.world d') = r.1
       ∧ console (Interactions.world d')
         = console (Interactions.world d)
           ++ warning_line "Interactions batch insert warning:" r.2).
Proof.
  unfold Interactions.flushInteractions.
  destruct (Interactions.interactionsBatch d) as [|x l] eqn:Hb.
  - exists d. cbn. by rewrite Hb.
  - assert ((0 <? Z.of_nat (length (x :: l))) = true) as ->
      by (apply Z.ltb_lt; rewrite length_cons; lia).
    unfold insertMany_interactions.
    destruct (insertInteractions K (x :: l) (db (Interactions.world d)))
      as [d1 exn] eqn:Hins.
    match goal with |- context [try_insert (?w1, thrown exn) ?m] =>
      destruct (try_insert_logged w1 exn m)
        as (w' & -> & Hdb & Hc & Hu & He & Hi)
    end.
    cbn [rbind]. eexists. split; [reflexivity|]. cbn in *.
    do 5 (split; [done|]). intros _. by rewrite Hi, Hdb, Hc.
Qed.

(** *** The claim *)



(** Against that store the same 30 users and 158 edges (the 40 friend edges
    of the budget among them) are generated as against a store that keeps
    everything; the store takes 100 edges, and each of the six batches of
    follow edges it refuses leaves its warning. *)
Example store_full_same_documents :
  ∃ w w',
    main (K := quotaSink) 2000 small_config clock_a emptyDB = Ok w
    ∧ main (K := memSink) 2000 small_config clock_a emptyDB = Ok w'
    ∧ sentUsers w = sentUsers w' ∧ sentEdges w = sentEdges w'
    ∧ sentInteractions w = sentInteractions w'
    ∧ length (sentUsers w) = 30%nat ∧ length (sentEdges w) = 158%nat
    ∧ length (friends_of (sentEdges w)) = 40%nat
    ∧ filter (String.prefix "Follow batch insert warning:") (console w)
      = replicate 6 "Follow batch insert warning: quota exceeded"%string
    ∧ length (db_edges (db w)) = 100%nat
    ∧ length (db_edges (db w')) = 158%nat.
Proof.
  eexists. eexists.
  split; [vm_compute; reflexivity|]. split; [vm_compute; reflexivity|].
  vm_compute. repeat split; reflexivity.
Qed.


Local Open Scope string_scope.
Local Open Scope list_scope.
Local Open Scope Z_scope.

(** * Further properties of the script *)

(** ** The pseudo-random source *)

(** X1: [rand] leaves the state below 2^32, so that [rand()] is in [0,1), and
    it has full period: from any seed, every state below 2^32 comes up after
    at least one and at most 2^32 draws. *)
Theorem rand_full_period (seed t : N) :
  (t < 4294967296)%N →
  (Rng.rand seed < 4294967296)%N
  ∧ ∃ n : nat, (1 ≤ n)%nat ∧ Z.of_nat n ≤ 4294967296 ∧ draws n seed = t.
Proof.
  intros Ht. split.
  { pose proof (rand_lt seed). lia. }
  destruct (draws_reach seed t Ht) as (n & Hn & Hd).
  exists (S n). split; [lia|]. split.
  { pose proof period_Z. lia. }
  rewrite draws_rand in Hd. exact Hd.
Qed.

Lemma rand_full_period_witness :
  (Rng.rand 1234567 < 4294967296)%N
  ∧ ∃ n : nat, (1 ≤ n)%nat ∧ Z.of_nat n ≤ 4294967296 ∧ draws n 1234567 = 0%N.
Proof. apply (rand_full_period 1234567 0). reflexivity. Defined.

Lemma rand_preimage (t : N) :
  (t < 4294967296)%N → ∃ s, Rng.rand s = t.
Proof.
  intros Ht. destruct (draws_reach 0 t Ht) as (n & _ & Hd).
  rewrite draws_rand in Hd. eauto.
Qed.

Lemma floor_mul_onto (n v : Z) :
  0 < n ≤ 4294967296 → 0 ≤ v < n → v < 2097152 →
  ∃ t : N, (t < 4294967296)%N ∧ Rng.floor_mul t n = v.
Proof.
  intros Hn Hv Hsmall.
  destruct (index_at_surj (replicate (Z.to_nat n) tt) (Z.to_nat v))
    as (t & Ht & Hi).
  { rewrite length_replicate. lia. }
  { rewrite length_replicate. lia. }
  { lia. }
  exists t. split; [done|]. unfold index_at in Hi.
  rewrite length_replicate, Z2Nat.id in Hi by lia.
  pose proof (floor_mul_range t n ltac:(lia) ltac:(lia)). lia.
Qed.



(** X3: [choice] takes one draw whatever the array; on an empty array it
    returns [undefined], on any other an entry of the array, whatever the
    rounding of the product; and in an array of at most 2^32 entries every
    entry at an index below 2^21, so every entry of an array of at most 2^21
    entries, is returned for some state of the source. *)
Theorem choice_member {A} (arr : list A) (seed : N) :
  (Rng.choice arr seed).2 = Rng.rand seed
  ∧ (arr = [] → (Rng.choice arr seed).1 = None)
  ∧ (arr ≠ [] → ∃ x, (Rng.choice arr seed).1 = Some x ∧ x ∈ arr)
  ∧ (Z.of_nat (length arr) ≤ 4294967296 →
     ∀ i x, Z.of_nat i < 2097152 → arr !! i = Some x →
       ∃ s, (Rng.choice arr s).1 = Some x).
Proof.
  split; [done|]. split; [by intros ->|]. split; [apply choice_Some|].
  intros Hlen i x Hsmall Hi.
  destruct (index_at_surj arr i Hlen) as (t & Ht & Hidx).
  { by eapply lookup_lt_Some. }
  { done. }
  destruct (rand_preimage t Ht) as (s & Hs).
  exists s. unfold Rng.choice. cbv zeta. simpl. rewrite Hs.
  unfold index_at in Hidx. by rewrite Hidx.
Qed.

Lemma sample_loop_done {A} fuel (arr : list A) k res s seed :
  (Z.of_nat (length res) <? k) = false →
  Rng.sample_loop fuel arr k res s seed = Some (res, seed).
Proof. intros H. destruct fuel; simpl; by rewrite H. Qed.

(** X4: what [sample(arr,k)] returns are the entries at [min(k, arr.length)]
    pairwise distinct positions of the array (none for [k <= 0]), so
    distinct values if the array has no repeats; for [k >= arr.length] it is
    the array itself and for [k <= 0] the empty array, and in both cases
    nothing is drawn; and on an array of at most 2^32 entries it does
    return, given enough fuel for its rejection loop, when at most 2^21
    entries are asked for. *)
Theorem sample_distinct {A} (arr : list A) (k : Z) (seed : N) :
  Z.of_nat (length arr) ≤ 4294967296 →
  (∀ fuel out s', Rng.sample fuel arr k seed = Some (out, s') →
     Sampled arr out
     ∧ Z.of_nat (length out) = Z.max 0 (Z.min k (Z.of_nat (length arr)))
     ∧ (NoDup arr → NoDup out)
     ∧ (Z.of_nat (length arr) ≤ k → out = arr ∧ s' = seed)
     ∧ (k ≤ 0 → out = [] ∧ s' = seed))
  ∧ (k ≤ 2097152 →
     ∃ F, ∀ fuel, (F ≤ fuel)%nat →
       ∃ out s', Rng.sample fuel arr k seed = Some (out, s')).
Proof.
  intros Hlen. split.
  - intros fuel out s' Hs.
    destruct (sample_spec arr k fuel seed out s' Hs) as (Hsam & Hout).
    split; [done|]. split; [done|].
    split; [intros Hnd; by eapply Sampled_NoDup|]. split.
    + intros Hk. unfold Rng.sample in Hs.
      assert ((Z.of_nat (length arr) <=? k) = true) as Hb by lia.
      rewrite Hb in Hs. by injection Hs as <- <-.
    + intros Hk. unfold Rng.sample in Hs.
      destruct (Z.of_nat (length arr) <=? k) eqn:Hb.
      * injection Hs as <- <-. split; [|done].
        apply length_zero_iff_nil. lia.
      * rewrite sample_loop_done in Hs by (apply Z.ltb_ge; simpl; lia).
        by injection Hs as <- <-.
  - intros Hk. exists (Z.to_nat k * period)%nat. intros fuel Hfuel.
    destruct (sample_total arr k seed fuel Hlen Hk Hfuel) as [[out s'] Hs].
    eauto.
Qed.

Lemma sample_distinct_witness :
  (∀ fuel out s', Rng.sample fuel interestsPool 3 1234567 = Some (out, s') →
     Sampled interestsPool out
     ∧ Z.of_nat (length out)
       = Z.max 0 (Z.min 3 (Z.of_nat (length interestsPool)))
     ∧ (NoDup interestsPool → NoDup out)
     ∧ (Z.of_nat (length interestsPool) ≤ 3 → out = interestsPool ∧ s' = 1234567%N)
     ∧ (3 ≤ 0 → out = [] ∧ s' = 1234567%N))
  ∧ (3 ≤ 2097152 →
     ∃ F, ∀ fuel, (F ≤ fuel)%nat →
       ∃ out s', Rng.sample fuel interestsPool 3 1234567 = Some (out, s')).
Proof. apply (sample_distinct interestsPool 3 1234567). simpl. lia. Defined.

(** ** The pair key *)

Lemma pairKey_same (a b c d : Z) :
  pairKey a b = pairKey c d ↔ (a = c ∧ b = d) ∨ (a = d ∧ b = c).
Proof.
  split.
  - unfold pairKey.
    destruct (String.ltb (pretty a) (pretty b)),
             (String.ltb (pretty c) (pretty d));
      intros [H1 H2]%bar_split; try apply pretty_Z_plain;
      apply (inj pretty) in H1, H2; subst; auto.
  - intros [[-> ->]|[-> ->]]; [done|apply pairKey_comm].
Qed.

(** X5: two pairs of ids get the same pair key exactly when they are the
    same unordered pair: the key does not depend on the order of the two ids,
    and different unordered pairs never share a key. *)
Theorem pairKey_unordered (a b c d : Z) :
  pairKey a b = pairKey c d ↔ (a = c ∧ b = d) ∨ (a = d ∧ b = c).
Proof. apply pairKey_same. Qed.
(** ** The community sizes *)

Lemma communities_loop_lower (n : nat) : ∀ i nC nUsers rem acc seed,
  n = Z.to_nat (nC - i) → 0 ≤ i < nC →
  (nC - i) * (nUsers / (nC * 2)) ≤ rem →
  Forall (fun c => nUsers / (nC * 2) ≤ c) acc →
  Forall (fun c => nUsers / (nC * 2) ≤ c)
         (Partition.communities_loop n i nC nUsers rem acc seed).1.
Proof.
  induction n as [|n IH]; intros i nC nUsers rem acc seed Hn Hi Hrem Hacc.
  { lia. }
  cbn [Partition.communities_loop]. cbv zeta.
  set (min := nUsers / (nC * 2)) in *.
  destruct (i =? nC - 1) eqn:Hlast.
  - simpl. apply Forall_app. split; [done|].
    apply Forall_singleton. assert (nC - i = 1) as Hone by lia.
    rewrite Hone in Hrem. lia.
  - pose proof (randint_range min (Z.max min (rem / (nC - i))) seed
                  ltac:(lia)) as Hr.
    destruct (Rng.randint min _ seed) as [take s] eqn:Hd. simpl in Hr.
    apply IH; [lia|lia| |].
    + set (k := nC - i) in *. assert (2 ≤ k) by lia.
      replace (nC - (i + 1)) with (k - 1) by lia.
      destruct (Z.le_gt_cases min (rem / k)) as [Hq|Hq].
      * assert (take ≤ rem / k) by lia.
        pose proof (Z.mul_div_le rem k ltac:(lia)). nia.
      * assert (take = min) by lia. nia.
    + apply Forall_app. split; [done|]. apply Forall_singleton. lia.
Qed.



(** ** The attribute helpers *)

Lemma neqb_str_ne (a b : string) : neqb_str a b ↔ a ≠ b.
Proof.
  unfold neqb_str. destruct (String.eqb_spec a b); simpl; naive_solver.
Qed.

Lemma choice_str_elem (arr : list string) seed :
  arr ≠ [] → (choice_str arr seed).1 ∈ arr.
Proof.
  intros Hne. unfold choice_str.
  destruct (choice_Some arr seed Hne) as (x & Hx & Hin).
  destruct (Rng.choice arr seed) as [o r]. simpl in *. by subst.
Qed.

Lemma extras_nonempty (primary : string) :
  filter (fun l => neqb_str l primary && neqb_str l "en") languages_ref ≠ [].
Proof.
  intros Hnil.
  destruct (decide (primary = "hi")) as [->|Hne].
  - assert ("bn" ∈ filter (fun l => neqb_str l "hi" && neqb_str l "en")
                         languages_ref) as Hin.
    { apply list_elem_of_filter. split; [done|]. unfold languages_ref. set_solver. }
    rewrite Hnil in Hin. by apply elem_of_nil in Hin.
  - assert ("hi" ∈ filter (fun l => neqb_str l primary && neqb_str l "en")
                         languages_ref) as Hin.
    { apply list_elem_of_filter. split.
      - apply andb_True. split; [apply neqb_str_ne; congruence|done].
      - unfold languages_ref. set_solver. }
    rewrite Hnil in Hin. by apply elem_of_nil in Hin.
Qed.

Lemma pickPrimaryLang_spec (cityLang : string) (seed : N) :
  (pickPrimaryLang cityLang seed).1 = cityLang
  ∨ ((pickPrimaryLang cityLang seed).1 ∈ languages_ref
     ∧ (pickPrimaryLang cityLang seed).1 ≠ "en").
Proof.
  unfold pickPrimaryLang. cbv zeta.
  destruct (Rng.lt_ratio _ 7 10); [by left|right].
  assert (Hne0 : filter (fun x => neqb_str x "en") languages_ref ≠ [])
    by (intros H; vm_compute in H; discriminate).
  pose proof (choice_str_elem _ (Rng.rand seed) Hne0) as Hin.
  apply list_elem_of_filter in Hin as [Hne Hin].
  split; [done|]. by apply neqb_str_ne.
Qed.

(** X7: [pickPrimaryLang] returns the language of the city or one of the
    listed languages other than English: it never answers 'en' for a city
    whose language is not 'en'. *)
Theorem pickPrimaryLang_never_english (cityLang : string) (seed : N) :
  ((pickPrimaryLang cityLang seed).1 = cityLang
   ∨ ((pickPrimaryLang cityLang seed).1 ∈ languages_ref
      ∧ (pickPrimaryLang cityLang seed).1 ≠ "en"))
  ∧ ((pickPrimaryLang cityLang seed).1 = "en" → cityLang = "en")
  ∧ (cityLang ∈ languages_ref →
     (pickPrimaryLang cityLang seed).1 ∈ languages_ref).
Proof.
  pose proof (pickPrimaryLang_spec cityLang seed) as H.
  split; [done|]. split.
  - intros He. destruct H as [<-|[_ Hne]]; [done|]. by rewrite He in Hne.
  - intros Hin. destruct H as [->|[? _]]; done.
Qed.

Lemma buildLanguages_spec (primary : string) (seed : N) :
  let l := (buildLanguages primary seed).1 in
  head l = Some {| code := primary; is_primary := true |}
  ∧ (length (tail l) ≤ 2)%nat
  ∧ Forall (fun x => is_primary x = false ∧ code x ∈ languages_ref) (tail l)
  ∧ (primary ≠ "en" → NoDup (code <$> l))
  ∧ (primary = "en" → Rng.lt_ratio (Rng.rand seed) 8 10 = true →
     ¬ NoDup (code <$> l)).
Proof.
  unfold buildLanguages. cbv zeta.
  set (r1 := Rng.rand seed). set (r2 := Rng.rand r1).
  pose proof (choice_str_elem _ r2 (extras_nonempty primary)) as Hin.
  apply list_elem_of_filter in Hin as [Hne Hin].
  apply andb_True in Hne as [Hne1%neqb_str_ne Hne2%neqb_str_ne].
  destruct (choice_str _ r2) as [extra s3]. simpl in Hin, Hne1, Hne2.
  assert (Hen : "en" ∈ languages_ref) by (unfold languages_ref; set_solver).
  destruct (Rng.lt_ratio r1 8 10), (Rng.lt_ratio r2 3 10); simpl.
  all: split; [done|].
  all: split; [lia|].
  all: split; [repeat (apply Forall_cons_2; [done|]); apply Forall_nil_2|].
  all: split; [intros Hp; repeat (apply NoDup_cons_2; [set_solver|]);
               apply NoDup_nil_2|].
  all: try done.
  all: intros -> _ Hnd; apply NoDup_cons in Hnd as [Hnd _]; set_solver.
Qed.

(** X8: the language list built for a primary language starts with it, as
    the only entry flagged primary, and has at most two more entries, both
    from the listed languages; for a primary language other than 'en' no
    code occurs twice, while for 'en' the English entry added with
    probability 0.8 repeats it. *)
Theorem buildLanguages_shape (primary : string) (seed : N) :
  let l := (buildLanguages primary seed).1 in
  head l = Some {| code := primary; is_primary := true |}
  ∧ (length (tail l) ≤ 2)%nat
  ∧ Forall (fun x => is_primary x = false ∧ code x ∈ languages_ref) (tail l)
  ∧ (primary ≠ "en" → NoDup (code <$> l))
  ∧ (primary = "en" → Rng.lt_ratio (Rng.rand seed) 8 10 = true →
     ¬ NoDup (code <$> l)).
Proof. apply buildLanguages_spec. Qed.
(** ** Dates *)

Lemma two_digits_pad (m : Z) :
  0 ≤ m ≤ 99 → padStart2 (pretty m) = two_digits m.
Proof.
  intros Hm.
  assert (H : Forall (fun m => padStart2 (pretty m) = two_digits m)
                     (seqZ 0 100)).
  { apply (bool_decide_unpack _). by vm_compute. }
  rewrite Forall_seqZ in H. apply H. lia.
Qed.

Lemma four_digits_year (y : Z) :
  1000 ≤ y ≤ 2025 → pretty y = four_digits y.
Proof.
  intros Hy.
  assert (H : Forall (fun y => pretty y = four_digits y) (seqZ 1000 1026)).
  { apply (bool_decide_unpack _). by vm_compute. }
  rewrite Forall_seqZ in H. apply H. lia.
Qed.

Lemma dateRandom_spec (startYear : Z) (seed : N) :
  1000 ≤ startYear ≤ 2025 →
  ∃ y m d,
    startYear ≤ y ≤ 2025 ∧ 1 ≤ m ≤ 12 ∧ 1 ≤ d ≤ 28
    ∧ (dateRandom startYear seed).1
      = four_digits y +:+ "-" +:+ two_digits m +:+ "-" +:+ two_digits d
    ∧ String.length (dateRandom startYear seed).1 = 10%nat
    ∧ (dateRandom startYear seed).2 = draws 3 seed.
Proof.
  intros Hs. unfold dateRandom.
  pose proof (randint_range startYear 2025 seed ltac:(lia)) as Hy.
  destruct (Rng.randint startYear 2025 seed) as [y s1] eqn:H1.
  pose proof (randint_range 1 12 s1 ltac:(lia)) as Hm.
  destruct (Rng.randint 1 12 s1) as [m s2] eqn:H2.
  pose proof (randint_range 1 28 s2 ltac:(lia)) as Hd.
  destruct (Rng.randint 1 28 s2) as [d s3] eqn:H3.
  simpl in Hy, Hm, Hd. exists y, m, d.
  rewrite (four_digits_year y) by lia.
  rewrite (two_digits_pad m), (two_digits_pad d) by lia.
  split; [done|]. split; [done|]. split; [done|]. split; [done|].
  split; [done|].
  unfold Rng.randint in H1, H2, H3.
  injection H1 as _ <-. injection H2 as _ <-. injection H3 as _ <-. done.
Qed.

(** X9: for a start year from 1000 to 2025, [dateRandom] takes three draws
    and returns a ten-character date YYYY-MM-DD: a year from the start year
    to 2025, a month from 01 to 12 and a day from 01 to 28, month and day
    padded to two digits. *)
Theorem dateRandom_format (startYear : Z) (seed : N) :
  1000 ≤ startYear ≤ 2025 →
  ∃ y m d,
    startYear ≤ y ≤ 2025 ∧ 1 ≤ m ≤ 12 ∧ 1 ≤ d ≤ 28
    ∧ (dateRandom startYear seed).1
      = four_digits y +:+ "-" +:+ two_digits m +:+ "-" +:+ two_digits d
    ∧ String.length (dateRandom startYear seed).1 = 10%nat
    ∧ (dateRandom startYear seed).2 = draws 3 seed.
Proof. apply dateRandom_spec. Qed.

Lemma dateRandom_format_witness :
  ∃ y m d,
    2016 ≤ y ≤ 2025 ∧ 1 ≤ m ≤ 12 ∧ 1 ≤ d ≤ 28
    ∧ (dateRandom 2016 1234567).1
      = four_digits y +:+ "-" +:+ two_digits m +:+ "-" +:+ two_digits d
    ∧ String.length (dateRandom 2016 1234567).1 = 10%nat
    ∧ (dateRandom 2016 1234567).2 = draws 3 1234567.
Proof. apply (dateRandom_format 2016 1234567). lia. Defined.

(** ** The user documents *)

Lemma full_name_elem (fs ls : list string) (first last : string) :
  first ∈ fs → last ∈ ls →
  first +:+ " " +:+ last ∈ (f ← fs; l ← ls; [f +:+ " " +:+ l]).
Proof.
  intros Hf Hl. apply list_elem_of_bind. exists first. split; [|done].
  apply list_elem_of_bind. exists last. split; [|done]. apply list_elem_of_singleton.
  done.
Qed.

Lemma randomName_spec (g : string) (seed : N) :
  (randomName g seed).1 ∈ names_for g.
Proof.
  unfold randomName, names_for.
  destruct (String.eqb g "female").
  - pose proof (choice_str_elem firstNamesF seed ltac:(done)) as Hf.
    destruct (choice_str firstNamesF seed) as [first s1].
    pose proof (choice_str_elem lastNames s1 ltac:(done)) as Hl.
    destruct (choice_str lastNames s1) as [last s2].
    cbn [fst] in *. by apply full_name_elem.
  - pose proof (choice_str_elem firstNamesM seed ltac:(done)) as Hf.
    destruct (choice_str firstNamesM seed) as [first s1].
    pose proof (choice_str_elem lastNames s1 ltac:(done)) as Hl.
    destruct (choice_str lastNames s1) as [last s2].
    cbn [fst] in *. by apply full_name_elem.
Qed.

Lemma cities_languages :
  Forall (fun p => lang p ∈ languages_ref ∧ lang p ≠ "en") cities.
Proof. apply (bool_decide_unpack _). by vm_compute. Qed.

Lemma make_user_wf fuel id c seed doc s :
  make_user fuel id c seed = Ok (doc, s) → WellFormedUser doc.
Proof.
  unfold make_user. cbv zeta.
  set (r0 := Rng.rand seed).
  destruct (choice_Some cities r0 ltac:(done)) as (place & Hpl & Hplin).
  destruct (Rng.choice cities r0) as [oplace s1]. simpl in Hpl. subst oplace.
  simpl default.
  pose proof (pickPrimaryLang_spec (lang place) s1) as Hprim.
  destruct (pickPrimaryLang (lang place) s1) as [primary s2]. simpl in Hprim.
  pose proof (proj1 (Forall_forall _ _) cities_languages place Hplin)
    as [Hcl Hcne].
  assert (Hp : primary ∈ languages_ref ∧ primary ≠ "en")
    by (destruct Hprim as [->|?]; done).
  pose proof (buildLanguages_spec primary s2) as (Hhd & _ & Htl & Hnd & _).
  destruct (buildLanguages primary s2) as [languagesList s3].
  simpl in Hhd, Htl, Hnd.
  pose proof (choice_str_elem educations s3 ltac:(done)) as Hedu.
  destruct (choice_str educations s3) as [edu s4]. simpl in Hedu.
  pose proof (choice_str_elem professions s4 ltac:(done)) as Hprof.
  destruct (choice_str professions s4) as [prof s5]. simpl in Hprof.
  pose proof (randint_range 1 3 s5 ltac:(lia)) as Hn.
  destruct (Rng.randint 1 3 s5) as [nInterests s6]. simpl in Hn.
  destruct (Rng.sample fuel interestsPool nInterests s6)
    as [[ints s7]|] eqn:Hsam; cbn [rbind of_fuel]; [|done].
  apply sample_spec in Hsam as (Hsam & Hlen).
  pose proof (dateRandom_spec 2016 s7 ltac:(lia))
    as (y & m & d & _ & _ & _ & _ & Hdate & _).
  destruct (dateRandom 2016 s7) as [dateJoined s8]. simpl in Hdate.
  pose proof (choice_str_elem purposes s8 ltac:(done)) as Hpur.
  destruct (choice_str purposes s8) as [purp s9]. simpl in Hpur.
  destruct (Rng.randBool 1 4 s9) as [thirdParty s10].
  set (gen := if Rng.lt_ratio r0 1 2 then "female" else "male").
  pose proof (randomName_spec gen s10) as Hname.
  destruct (randomName gen s10) as [nm s11]. simpl in Hname.
  pose proof (randint_range 16 60 s11 ltac:(lia)) as Hage.
  destruct (Rng.randint 16 60 s11) as [ag s12]. simpl in Hage.
  intros [= <- <-]. unfold WellFormedUser.
  cbn [age gender name location loc_city loc_state loc_country primaryLang
       languages interests education profession purpose joinedAt].
  split; [done|]. split.
  { unfold gen. destruct (Rng.lt_ratio r0 1 2); [|right]; left. }
  split; [done|]. split.
  { apply list_elem_of_fmap. by exists place. }
  split; [done|]. split; [done|]. split; [apply Hp|]. split; [apply Hp|].
  split; [done|]. split; [done|]. split; [apply Hnd, Hp|].
  split; [simpl in Hlen; lia|]. split.
  { eapply Sampled_NoDup; [|done]. apply (bool_decide_unpack _). by vm_compute. }
  split.
  { apply Forall_forall. intros i Hi. by eapply Sampled_elem. }
  done.
Qed.

Lemma user_body_step {K} fuel cfg communities created
    (st st' : Partition.State K) :
  Partition.user_body fuel cfg communities created st = Ok st' →
  let a := Partition.advance communities (Partition.communityIndex st)
             (Partition.assignedToCurrent st) in
  ∃ doc,
    make_user fuel (Partition.GLOBAL_USER_ID st) a.1 (Partition._seed st)
      = Ok (doc, Partition._seed st')
    ∧ produced_users st' = produced_users st ++ [doc]
    ∧ Partition.communityIndex st' = a.1
    ∧ Partition.assignedToCurrent st' = a.2 + 1
    ∧ Partition.GLOBAL_USER_ID st' = Partition.GLOBAL_USER_ID st + 1
    ∧ Partition.pop st'
      = add_user (Partition.GLOBAL_USER_ID st) a.1 (loc_city (location doc))
                 (Partition.pop st)
    ∧ Partition.degree st'
      = <[Partition.GLOBAL_USER_ID st := 0]> (Partition.degree st).
Proof.
  unfold Partition.user_body.
  destruct (Partition.advance _ _ _) as [ci asg]. simpl.
  destruct (make_user _ _ _ _) as [[doc s]| |] eqn:Hmk; simpl; try done.
  destruct (_ || _).
  - destruct (try_insert_users (Partition.userBatch st ++ [doc])
                (Partition.world st)
                "Warning: insertMany users batch error (continuing).")
      as (w & -> & Hsent & _). simpl.
    intros [= <-]. exists doc. simpl. split; [done|].
    unfold produced_users. simpl. rewrite Hsent, app_nil_r, app_assoc. done.
  - intros [= <-]. exists doc. simpl. split; [done|].
    unfold produced_users. simpl. by rewrite app_assoc.
Qed.

Lemma user_loop_ind {K} fuel cfg communities
    (P : Z → Partition.State K → Prop) (k : nat) :
  ∀ c0 (st st' : Partition.State K),
  (∀ created st1 st2, c0 ≤ created < c0 + Z.of_nat k → P created st1 →
     Partition.user_body fuel cfg communities created st1 = Ok st2 →
     P (created + 1) st2) →
  P c0 st →
  Partition.user_loop fuel cfg communities k c0 st = Ok st' →
  P (c0 + Z.of_nat k) st'.
Proof.
  induction k as [|k IH]; intros c0 st st' Hstep H0; simpl.
  - intros [= <-]. by rewrite Z.add_0_r.
  - destruct (Partition.user_body _ _ _ _ _) as [st1| |] eqn:Hb; simpl;
      try done.
    intros Hloop. replace (c0 + Z.of_nat (S k)) with (c0 + 1 + Z.of_nat k) by lia.
    eapply IH; [|eapply Hstep; [|exact H0|exact Hb]; lia|exact Hloop].
    intros created st2 st3 Hc. apply Hstep. lia.
Qed.

Lemma partition_run_unfold {K} fuel cfg s (w : World K) cs st :
  Partition.run fuel cfg s w = Ok (cs, st) →
  ∃ nC s1 s2 st1,
    Rng.randint (COMMUNITIES_MIN cfg) (COMMUNITIES_MAX cfg) s = (nC, s1)
    ∧ Partition.communities nC (N_USERS cfg) s1 = (cs, s2)
    ∧ Partition.user_loop fuel cfg cs (Z.to_nat (N_USERS cfg)) 0
        (Partition.init s2
           (print "Generating users and attributes (streamed in batches)..." w))
      = Ok st1
    ∧ Partition.pop st = Partition.pop st1
    ∧ Partition.degree st = Partition.degree st1
    ∧ Partition._seed st = Partition._seed st1
    ∧ Partition.userBatch st = Partition.userBatch st1
    ∧ sentUsers (Partition.world st) = sentUsers (Partition.world st1)
    ∧ sentEdges (Partition.world st) = sentEdges (Partition.world st1)
    ∧ sentInteractions (Partition.world st)
      = sentInteractions (Partition.world st1).
Proof.
  intros Hrun. unfold Partition.run in Hrun.
  destruct (Rng.randint _ _ s) as [nC s1] eqn:HnC.
  destruct (Partition.communities nC (N_USERS cfg) s1) as [cs' s2] eqn:Hcs.
  destruct (Partition.user_loop _ _ _ _ _ _) as [st1| |] eqn:Hl;
    cbn [rbind] in Hrun; try done.
  injection Hrun as <- <-. exists nC, s1, s2, st1. simpl. done.
Qed.

(** X10: the user phase, given enough fuel, returns, and every user document
    it hands to the store is well formed: an age from 16 to 60, gender
    'female' or 'male' and a name from the lists for that gender, one of the
    sixteen cities in India with an empty state, a listed primary language
    other than 'en' that heads the language list as its only primary entry,
    language codes without repeats, one to three distinct interests from the
    pool, listed education, profession and purpose, and a ten-character
    join date. *)
Theorem users_well_formed {K} (cfg : Config) (s : N) (w : World K) :
  sentUsers w = [] →
  ∃ F, ∀ fuel, (F ≤ fuel)%nat →
    ∃ communities st,
      Partition.run fuel cfg s w = Ok (communities, st)
      ∧ Forall WellFormedUser (sentUsers (Partition.world st))
      ∧ length (sentUsers (Partition.world st)) = Z.to_nat (N_USERS cfg).
Proof.
  intros Hw. destruct (partition_run_total cfg s w) as ([cs st] & Hr).
  exists (3 * period)%nat. intros fuel Hfuel. exists cs, st.
  specialize (Hr fuel Hfuel). split; [done|].
  destruct (partition_run_users fuel cfg s w cs st Hw Hr)
    as ((Hids & _) & Hsent & _).
  split.
  - apply partition_run_unfold in Hr
      as (nC & s1 & s2 & st1 & _ & _ & Hloop & _ & _ & _ & _ & -> & _).
    apply (user_loop_ind fuel cfg cs
             (fun _ st => Forall WellFormedUser (produced_users st))) in Hloop.
    + unfold produced_users in Hloop. by apply Forall_app in Hloop as [? _].
    + intros created st2 st3 _ Hwf Hb.
      apply user_body_step in Hb as (doc & Hmk & -> & _).
      apply Forall_app. split; [done|]. apply Forall_singleton.
      by eapply make_user_wf.
    + unfold produced_users. simpl. rewrite Hw. constructor.
  - rewrite <- (length_fmap _id), Hsent, Hids, length_seqZ. lia.
Qed.

Lemma users_well_formed_witness :
  ∃ F, ∀ fuel, (F ≤ fuel)%nat →
    ∃ communities st,
      Partition.run fuel small_config 1234567 world0 = Ok (communities, st)
      ∧ Forall WellFormedUser (sentUsers (Partition.world st))
      ∧ length (sentUsers (Partition.world st)) = Z.to_nat 30.
Proof. apply (users_well_formed small_config 1234567 world0). reflexivity. Defined.
(** ** The members of the communities *)

Lemma sumZ_app (l l' : list Z) : sumZ (l ++ l') = sumZ l + sumZ l'.
Proof. induction l as [|x l IH]; simpl; [done|]. unfold sumZ in *. simpl. lia. Qed.

Lemma sumZ_ge (l : list Z) :
  Forall (fun c => 1 ≤ c) l → Z.of_nat (length l) ≤ sumZ l.
Proof.
  induction 1 as [|x l Hx _ IH]; [done|]. unfold sumZ in *. simpl length.
  simpl foldr. lia.
Qed.

Lemma offset_S (cs : list Z) (c : nat) size :
  cs !! c = Some size → offset cs (S c) = offset cs c + size.
Proof.
  intros Hc. unfold offset. rewrite (take_S_r _ _ _ Hc), sumZ_app.
  unfold sumZ. simpl. lia.
Qed.

Lemma offset_drop (cs : list Z) (c : nat) :
  sumZ cs = offset cs c + sumZ (drop c cs).
Proof. unfold offset. by rewrite <- sumZ_app, take_drop. Qed.

Lemma seqZ_snoc_at (m n : Z) : 0 ≤ n → seqZ m (n + 1) = seqZ m n ++ [m + n].
Proof. intros Hn. by rewrite seqZ_app by lia. Qed.

Lemma FillInv_step {K} fuel cfg cs created (st st' : Partition.State K) :
  Forall (fun c => 1 ≤ c) cs → created < sumZ cs →
  FillInv cs created st →
  Partition.user_body fuel cfg cs created st = Ok st' →
  FillInv cs (created + 1) st'.
Proof.
  intros Hpos Hlt (ci & Hci & Hlen & Ha & Hcr & Hid & Hfill) Hb.
  apply user_body_step in Hb
    as (doc & _ & _ & Hci' & Ha' & Hid' & Hpop & _).
  destruct (lookup_lt_is_Some_2 cs ci Hlen) as [size Hsize].
  rewrite Hsize in Ha. simpl in Ha.
  assert (Hadv' : Partition.advance cs (Partition.communityIndex st)
                    (Partition.assignedToCurrent st)
                  = if size <=? Partition.assignedToCurrent st
                    then (Z.of_nat ci + 1, 0)
                    else (Z.of_nat ci, Partition.assignedToCurrent st)).
  { unfold Partition.advance. by rewrite Hci, Nat2Z.id, Hsize. }
  rewrite Hadv' in Hci', Ha', Hpop.
  destruct (size <=? Partition.assignedToCurrent st) eqn:Hadv;
    simpl in Hci', Ha', Hpop.
  - (* the current community is full: on to the next *)
    assert (Partition.assignedToCurrent st = size) as Hfull by lia.
    assert (Hoff : offset cs (S ci) = created)
      by (rewrite (offset_S _ _ _ Hsize); lia).
    assert (Hnext : (S ci < length cs)%nat).
    { destruct (decide (S ci < length cs)%nat) as [|Hge]; [done|].
      pose proof (offset_drop cs (S ci)) as Hd.
      rewrite drop_ge in Hd by lia. unfold sumZ at 2 in Hd. simpl in Hd. lia. }
    destruct (lookup_lt_is_Some_2 cs (S ci) Hnext) as [size' Hsize'].
    assert (1 ≤ size')
      by (by apply (proj1 (Forall_lookup _ _) Hpos (S ci) size')).
    exists (S ci). split; [lia|]. split; [done|].
    rewrite Hsize', Ha'. simpl. split; [lia|]. split; [lia|]. split; [lia|].
    intros c. rewrite Hpop. simpl.
    destruct (decide (c = S ci)) as [->|Hne].
    + replace (Z.of_nat ci + 1) with (Z.of_nat (S ci)) by lia.
      unfold push_at. rewrite lookup_insert_eq. simpl.
      rewrite (Hfill (S ci)).
      assert ((S ci <? ci)%nat = false) as -> by (apply Nat.ltb_ge; lia).
      assert ((S ci =? ci)%nat = false) as -> by (apply Nat.eqb_neq; lia).
      rewrite Nat.ltb_irrefl, Nat.eqb_refl.
      rewrite (seqZ_nil _ 0) by lia. simpl. rewrite Hid, Hoff.
      replace (0 + 1) with 1 by lia.
      rewrite (seqZ_cons _ 1) by lia. rewrite seqZ_nil by lia.
      f_equal. lia.
    + unfold push_at. rewrite lookup_insert_ne by lia.
      rewrite (Hfill c).
      destruct (decide (c < ci)%nat); [|destruct (decide (c = ci)) as [->|]].
      * assert ((c <? ci)%nat = true) as -> by (apply Nat.ltb_lt; lia).
        assert ((c <? S ci)%nat = true) as -> by (apply Nat.ltb_lt; lia). done.
      * rewrite Nat.ltb_irrefl, Nat.eqb_refl.
        assert ((ci <? S ci)%nat = true) as -> by (apply Nat.ltb_lt; lia).
        by rewrite Hsize, Hfull.
      * assert ((c <? ci)%nat = false) as -> by (apply Nat.ltb_ge; lia).
        assert ((c =? ci)%nat = false) as -> by (apply Nat.eqb_neq; lia).
        assert ((c <? S ci)%nat = false) as -> by (apply Nat.ltb_ge; lia).
        assert ((c =? S ci)%nat = false) as -> by (apply Nat.eqb_neq; lia).
        done.
  - (* one more user for the current community *)
    exists ci. split; [lia|]. split; [done|].
    rewrite Hsize, Ha'. simpl. split; [lia|]. split; [lia|]. split; [lia|].
    intros c. rewrite Hpop. simpl.
    destruct (decide (c = ci)) as [->|Hne].
    + unfold push_at. rewrite lookup_insert_eq. simpl.
      rewrite (Hfill ci), Nat.ltb_irrefl, Nat.eqb_refl.
      rewrite seqZ_snoc_at by lia. do 2 f_equal. lia.
    + unfold push_at. rewrite lookup_insert_ne by lia.
      rewrite (Hfill c).
      assert ((c =? ci)%nat = false) as -> by (apply Nat.eqb_neq; lia). done.
Qed.

Lemma FillInv_end {K} cs (st : Partition.State K) :
  Forall (fun c => 1 ≤ c) cs → FillInv cs (sumZ cs) st →
  ∀ c size, cs !! c = Some size →
    idsByCommunity (Partition.pop st) !! Z.of_nat c
    = Some (seqZ (1 + offset cs c) size).
Proof.
  intros Hpos (ci & Hci & Hlen & Ha & Hcr & Hid & Hfill) c size Hc.
  destruct (lookup_lt_is_Some_2 cs ci Hlen) as [sz Hsz].
  rewrite Hsz in Ha. simpl in Ha.
  pose proof (offset_drop cs (S ci)) as Hd.
  rewrite (offset_S _ _ _ Hsz) in Hd.
  pose proof (sumZ_ge (drop (S ci) cs) (Forall_drop _ _ _ Hpos)) as Hdr.
  rewrite length_drop in Hdr.
  assert (S ci = length cs ∧ Partition.assignedToCurrent st = sz)
    as [Hlast Hfull] by lia.
  pose proof (lookup_lt_Some _ _ _ Hc) as Hclt.
  assert (1 ≤ size) by (by apply (proj1 (Forall_lookup _ _) Hpos c size)).
  specialize (Hfill c).
  assert (Hexp : (if (c <? ci)%nat then default 0 (cs !! c)
                  else if (c =? ci)%nat then Partition.assignedToCurrent st
                       else 0) = size).
  { destruct (decide (c = ci)) as [->|Hne].
    - rewrite Nat.ltb_irrefl, Nat.eqb_refl. congruence.
    - assert ((c <? ci)%nat = true) as -> by (apply Nat.ltb_lt; lia).
      by rewrite Hc. }
  rewrite Hexp in Hfill.
  destruct (idsByCommunity (Partition.pop st) !! Z.of_nat c) as [l|];
    simpl in Hfill; [by subst|].
  rewrite (seqZ_cons _ size) in Hfill by lia. done.
Qed.

(** X11: when there are at least twice as many users as communities can be
    drawn, the user phase, given enough fuel, returns with every community
    holding exactly the users its drawn size asks for, and these are
    consecutive ids: community [c] of size [size] holds the [size] ids that
    follow those of the communities before it. *)
Theorem communities_filled {K} (cfg : Config) (s : N) (w : World K) :
  1 ≤ COMMUNITIES_MIN cfg ≤ COMMUNITIES_MAX cfg →
  2 * COMMUNITIES_MAX cfg ≤ N_USERS cfg →
  ∃ F, ∀ fuel, (F ≤ fuel)%nat →
    ∃ communities st,
      Partition.run fuel cfg s w = Ok (communities, st)
      ∧ ∀ c size, communities !! c = Some size →
          1 ≤ size
          ∧ idsByCommunity (Partition.pop st) !! Z.of_nat c
            = Some (seqZ (1 + offset communities c) size).
Proof.
  intros HC HN. destruct (partition_run_total cfg s w) as ([cs st] & Hr).
  exists (3 * period)%nat. intros fuel Hfuel. exists cs, st.
  specialize (Hr fuel Hfuel). split; [done|].
  apply partition_run_unfold in Hr
    as (nC & s1 & s2 & st1 & HnC & Hcs & Hloop & -> & _).
  pose proof (randint_range (COMMUNITIES_MIN cfg) (COMMUNITIES_MAX cfg) s
                ltac:(lia)) as HnCr.
  rewrite HnC in HnCr. simpl in HnCr.
  destruct (communities_loop_sum (Z.to_nat nC) 0 nC (N_USERS cfg)
              (N_USERS cfg) [] s1 ltac:(f_equal; lia) ltac:(lia))
    as (Hsum & Hlen & _).
  pose proof (communities_loop_lower (Z.to_nat nC) 0 nC (N_USERS cfg)
                (N_USERS cfg) [] s1 ltac:(f_equal; lia) ltac:(lia)) as Hlow.
  fold (Partition.communities nC (N_USERS cfg) s1) in Hsum, Hlen, Hlow.
  rewrite Hcs in Hsum, Hlen, Hlow. simpl in Hsum, Hlen, Hlow.
  assert (Hpos : Forall (fun c => 1 ≤ c) cs).
  { eapply Forall_impl; [apply Hlow; [|constructor]|].
    - pose proof (Z.mul_div_le (N_USERS cfg) (nC * 2) ltac:(lia)).
      assert (0 ≤ N_USERS cfg / (nC * 2)) by (apply Z.div_pos; lia). nia.
    - intros c Hc. simpl in Hc.
      assert (1 ≤ N_USERS cfg / (nC * 2)); [|lia].
      apply Z.div_le_lower_bound; lia. }
  assert (Hne : (0 < length cs)%nat) by lia.
  destruct (lookup_lt_is_Some_2 cs 0%nat Hne) as [size0 Hsize0].
  assert (1 ≤ size0) by (by apply (proj1 (Forall_lookup _ _) Hpos 0%nat size0)).
  apply (user_loop_ind fuel cfg cs (fun created st => FillInv cs created st))
    in Hloop.
  - replace (0 + Z.of_nat (Z.to_nat (N_USERS cfg))) with (sumZ cs) in Hloop
      by lia.
    intros c size Hc. split.
    + by apply (proj1 (Forall_lookup _ _) Hpos c size).
    + by apply (FillInv_end cs st1 Hpos Hloop).
  - intros created st2 st3 Hc Hinv Hb.
    eapply FillInv_step; [exact Hpos| |exact Hinv|exact Hb]. lia.
  - exists 0%nat. simpl. rewrite Hsize0. simpl.
    split; [done|]. split; [done|]. split; [lia|]. split; [done|].
    split; [done|]. intros c. simpl. rewrite ?lookup_empty. simpl.
    destruct (c =? 0)%nat; by rewrite seqZ_nil by lia.
Qed.

Lemma communities_filled_witness :
  ∃ F, ∀ fuel, (F ≤ fuel)%nat →
    ∃ communities st,
      Partition.run fuel small_config 1234567 world0 = Ok (communities, st)
      ∧ ∀ c size, communities !! c = Some size →
          1 ≤ size
          ∧ idsByCommunity (Partition.pop st) !! Z.of_nat c
            = Some (seqZ (1 + offset communities c) size).
Proof.
  apply (communities_filled small_config 1234567 world0); simpl; lia.
Defined.
(** ** The lookup maps *)

Lemma index_of_sound `{Countable K} (m : gmap K (list Z)) :
  ∀ id c, index_of m !! id = Some c → ∃ l, m !! c = Some l ∧ id ∈ l.
Proof.
  unfold index_of.
  apply (map_fold_weak_ind (fun (acc : gmap Z K) (m : gmap K (list Z)) =>
    ∀ id c, acc !! id = Some c → ∃ l, m !! c = Some l ∧ id ∈ l)).
  - intros id c Hl. by rewrite lookup_empty in Hl.
  - intros k ids m' acc Hk IH id c. rewrite assign_all_lookup. case_decide.
    + intros [= <-]. exists ids. by rewrite lookup_insert_eq.
    + intros Hacc. destruct (IH _ _ Hacc) as (l & Hl & Hin).
      exists l. split; [|done]. rewrite lookup_insert_ne; [done|].
      intros ->. congruence.
Qed.

Lemma index_of_complete `{Countable K} (m : gmap K (list Z)) :
  (∀ c1 c2 l1 l2 id, m !! c1 = Some l1 → m !! c2 = Some l2 →
     id ∈ l1 → id ∈ l2 → c1 = c2) →
  ∀ id c l, m !! c = Some l → id ∈ l → index_of m !! id = Some c.
Proof.
  intros Hdisj id c l Hl Hin.
  destruct (proj2 (index_of_spec m) c l id Hl Hin) as [c' Hc'].
  destruct (index_of_sound m id c' Hc') as (l' & Hl' & Hin').
  by rewrite Hc', (Hdisj c' c l' l id).
Qed.

(** X12: the two lookup maps invert the member lists: a user mapped to a
    community (a city) is on the list of that community (city); and when no
    id is on two lists of a table, every id on a list is mapped to the key of
    that list. *)
Theorem lookup_maps_inverse (pop : Population) :
  (∀ id c, userCommunityMap (lookup_maps pop) !! id = Some c →
     member pop c id)
  ∧ (∀ id cty, userCityMap (lookup_maps pop) !! id = Some cty →
       ∃ l, idsByCity pop !! cty = Some l ∧ id ∈ l)
  ∧ ((∀ id c1 c2, member pop c1 id → member pop c2 id → c1 = c2) →
     ∀ id c, member pop c id →
       userCommunityMap (lookup_maps pop) !! id = Some c)
  ∧ ((∀ c1 c2 l1 l2 id, idsByCity pop !! c1 = Some l1 →
        idsByCity pop !! c2 = Some l2 → id ∈ l1 → id ∈ l2 → c1 = c2) →
     ∀ id cty l, idsByCity pop !! cty = Some l → id ∈ l →
       userCityMap (lookup_maps pop) !! id = Some cty).
Proof.
  split; [|split; [|split]].
  - intros id c. apply index_of_sound.
  - intros id cty. apply index_of_sound.
  - intros Hdisj id c (l & Hl & Hin). simpl.
    apply (index_of_complete _) with l; [|done|done].
    intros c1 c2 l1 l2 id' H1 H2 Hi1 Hi2.
    apply (Hdisj id'); [by exists l1|by exists l2].
  - intros Hdisj id cty l Hl Hin. simpl. by apply (index_of_complete _) with l.
Qed.

(** ** The planner's expected edge count *)

Lemma sum_values (ids : list Z) : ∀ td : gmap Z Z,
  NoDup ids → dom td = list_to_set ids →
  map_fold (fun _ v acc => acc + v) 0 td = Planner.sum_targets ids td.
Proof.
  induction ids as [|id ids IH]; intros td Hnd Hdom.
  - simpl in Hdom. apply dom_empty_inv_L in Hdom. subst td.
    by rewrite map_fold_empty.
  - apply NoDup_cons in Hnd as [Hnotin Hnd].
    assert (Hin : id ∈ dom td) by (rewrite Hdom; set_solver).
    apply elem_of_dom in Hin as [v Hv].
    rewrite <- (insert_delete_id td id v Hv) at 1.
    rewrite map_fold_insert_L; [|intros; lia|apply lookup_delete_eq].
    rewrite (IH (delete id td)); [| done |].
    + rewrite <- (sum_targets_insert_notin ids (delete id td) id v Hnotin).
      rewrite (insert_delete_id td id v Hv). simpl.
      unfold Planner.get at 1. rewrite Hv. simpl. fold (Planner.sum_targets ids td). lia.
    + rewrite dom_delete_L, Hdom. simpl. set_solver.
Qed.

Lemma assign_loop_dom base scale (ids : list Z) : ∀ td0 s0,
  dom (Planner.assign_loop ids base scale td0 s0).1
  = list_to_set ids ∪ dom td0.
Proof.
  induction ids as [|id ids IH]; intros td0 s0; simpl; [set_solver|].
  rewrite IH, dom_insert_L. set_solver.
Qed.

Lemma at_mod_in (ids : list Z) (idx : Z) :
  ids ≠ [] → Planner.at_mod ids idx ∈ ids.
Proof.
  intros Hne. unfold Planner.at_mod.
  assert (0 < Z.of_nat (length ids)) by (destruct ids; [done|simpl; lia]).
  pose proof (Z.mod_pos_bound idx (Z.of_nat (length ids)) ltac:(lia)).
  destruct (ids !! Z.to_nat (idx mod Z.of_nat (length ids))) as [x|] eqn:Hx.
  - simpl. by eapply list_elem_of_lookup_2.
  - apply lookup_ge_None in Hx. lia.
Qed.

Lemma add_loop_dom (ids : list Z) (fuel : nat) : ∀ td remaining idx td' r',
  ids ≠ [] → list_to_set ids ⊆ dom td →
  Planner.add_loop fuel ids td remaining idx = Ok (td', r') →
  dom td' = dom td.
Proof.
  intros td remaining idx td' r' Hne. revert td remaining idx.
  induction fuel as [|fuel IH]; intros td remaining idx Hsub; simpl;
    destruct (_ && _); try done; try (by intros [= <- _]).
  intros Hrun. apply IH in Hrun.
  - rewrite Hrun, dom_insert_L.
    pose proof (at_mod_in ids idx Hne). set_solver.
  - rewrite dom_insert_L. set_solver.
Qed.

Lemma trim_loop_dom (ids : list Z) (fuel : nat) : ∀ td remaining idx td' r',
  ids ≠ [] → list_to_set ids ⊆ dom td →
  Planner.trim_loop fuel ids td remaining idx = Ok (td', r') →
  dom td' = dom td.
Proof.
  intros td remaining idx td' r' Hne. revert td remaining idx.
  induction fuel as [|fuel IH]; intros td remaining idx Hsub; simpl;
    destruct (_ && _); try done; try (by intros [= <- _]).
  destruct (1 <? _).
  - intros Hrun. apply IH in Hrun.
    + rewrite Hrun, dom_insert_L.
      pose proof (at_mod_in ids idx Hne). set_solver.
    + rewrite dom_insert_L. set_solver.
  - by apply IH.
Qed.

Lemma plan_dom fuel cfg (ids : list Z) seed p s' :
  ids ≠ [] → Planner.plan fuel cfg ids seed = Ok (p, s') →
  dom (Planner.targetDegrees p) = list_to_set ids.
Proof.
  intros Hne. unfold Planner.plan.
  destruct (Rng.randint _ _ seed) as [E s1].
  destruct (Planner.base_loop cfg ids ∅ 0 s1) as [[base sumBase] s2].
  pose proof (assign_loop_dom base (Planner.scaleFactor (E * 2) sumBase) ids
                ∅ 0) as Hdom.
  destruct (Planner.assign_loop _ _ _ _ _) as [td sumA]. simpl in Hdom.
  rewrite dom_empty_L, (right_id_L ∅ (∪)) in Hdom.
  unfold Planner.fix_rounding.
  destruct (Planner.add_loop fuel ids td _ 0) as [[td1 r1]| |] eqn:Hadd;
    cbn [rbind]; try done.
  apply add_loop_dom in Hadd; [|done|by rewrite Hdom].
  destruct (r1 <? 0).
  - destruct (Planner.trim_loop fuel ids td1 r1 0) as [[td2 r2]| |] eqn:Htrim;
      cbn [rbind]; try done.
    apply trim_loop_dom in Htrim; [|done|by rewrite Hadd, Hdom].
    intros [= <- _]. simpl. by rewrite Htrim, Hadd.
  - cbn [rbind]. intros [= <- _]. simpl. by rewrite Hadd.
Qed.


(** ** What a step of the friend-edge builder does *)

Lemma generated_with_world {K} (d : FriendBuilder.Data K) msg :
  generated (FriendBuilder.with_world d (print msg (FriendBuilder.world d))
                                      (FriendBuilder.edgeBatch d))
  = generated d.
Proof. done. Qed.

Lemma accept_effect {K} (c : FriendBuilder.Ctx) u v k
    (d d' : FriendBuilder.Data K) :
  FriendBuilder.accept c u v k d = Ok d' →
  let deg1 := <[u := counter (FriendBuilder.degree d) u + 1]>
                (FriendBuilder.degree d) in
  FriendBuilder.degree d' = <[v := counter deg1 v + 1]> deg1
  ∧ generated d' = generated d ++ [ {| f_src := u; f_dst := v; f_pair := k |} ]
  ∧ FriendBuilder.totalEdges d' = FriendBuilder.totalEdges d + 1
  ∧ FriendBuilder.friendSet d' = {[k]} ∪ FriendBuilder.friendSet d
  ∧ FriendBuilder._seed d' = FriendBuilder._seed d.
Proof.
  unfold FriendBuilder.accept. cbv zeta.
  match goal with
  | |- context [FriendBuilder.flushEdges ?x] => set (d1 := x)
  end.
  assert (Hgen1 : generated d1
                  = generated d ++ [ {| f_src := u; f_dst := v; f_pair := k |} ]).
  { unfold generated, d1. simpl. by rewrite app_assoc, friends_of_app. }
  assert (Hd2 : ∀ d2, same_generation d1 d2 →
    ∀ d', Ok (if (FriendBuilder.progressCounter d + 1) mod 50000 =? 0
              then FriendBuilder.with_world d2
                     (print ("Friend edges produced so far: "
                             +:+ pretty (FriendBuilder.totalEdges d + 1))
                            (FriendBuilder.world d2))
                     (FriendBuilder.edgeBatch d2)
              else d2) = Ok d' →
    FriendBuilder.degree d' = FriendBuilder.degree d1
    ∧ generated d' = generated d1
    ∧ FriendBuilder.totalEdges d' = FriendBuilder.totalEdges d1
    ∧ FriendBuilder.friendSet d' = FriendBuilder.friendSet d1
    ∧ FriendBuilder._seed d' = FriendBuilder._seed d1).
  { intros d2 Hsame d0 [= <-].
    pose proof (same_generation_generated _ _ Hsame) as Hg.
    destruct Hsame as (? & ? & ? & ? & _).
    destruct (_ =? 0); simpl; rewrite ?generated_with_world; done. }
  destruct (BATCH_SIZE (FriendBuilder.cfg c) <=? _).
  - destruct (flushEdges_spec d1) as (d2 & -> & Hsame & _). cbn [rbind].
    intros Hd'. destruct (Hd2 d2 Hsame d' Hd') as (-> & -> & -> & -> & ->).
    by rewrite Hgen1.
  - cbn [rbind]. intros Hd'.
    destruct (Hd2 d1 (same_generation_refl d1) d' Hd')
      as (-> & -> & -> & -> & ->).
    by rewrite Hgen1.
Qed.

Lemma attempt_effect {K} fuel (c : FriendBuilder.Ctx) u
    (d d' : FriendBuilder.Data K) :
  FriendBuilder.attempt fuel c u d = Ok d' →
  (FriendBuilder.degree d' = FriendBuilder.degree d
   ∧ generated d' = generated d
   ∧ FriendBuilder.totalEdges d' = FriendBuilder.totalEdges d
   ∧ FriendBuilder.friendSet d' = FriendBuilder.friendSet d)
  ∨ (∃ v s,
       Neighbor.pickNeighbor fuel (FriendBuilder.pop c) (FriendBuilder.lk c)
         (FriendBuilder.degree d) u (FriendBuilder._seed d) = Ok (Some v, s)
       ∧ v ≠ 0 ∧ u ≠ v
       ∧ (pairKey u v ∉ FriendBuilder.friendSet d)
       ∧ (let deg1 := <[u := counter (FriendBuilder.degree d) u + 1]>
                        (FriendBuilder.degree d) in
          FriendBuilder.degree d' = <[v := counter deg1 v + 1]> deg1)
       ∧ generated d'
         = generated d ++ [ {| f_src := u; f_dst := v; f_pair := pairKey u v |} ]
       ∧ FriendBuilder.totalEdges d' = FriendBuilder.totalEdges d + 1
       ∧ FriendBuilder.friendSet d'
         = {[pairKey u v]} ∪ FriendBuilder.friendSet d).
Proof.
  unfold FriendBuilder.attempt.
  destruct (Neighbor.pickNeighbor _ _ _ _ _ _) as [[vId s]| |] eqn:Hpick;
    cbn [rbind]; try done.
  destruct vId as [v|]; [|intros [= <-]; by left].
  destruct (v =? 0) eqn:Hv0; [intros [= <-]; by left|].
  destruct (u =? v) eqn:Huv; [intros [= <-]; by left|].
  destruct (decide _) as [|Hfresh]; [intros [= <-]; by left|].
  intros Hacc. apply accept_effect in Hacc as (Hdeg & Hgen & Htot & Hset & _).
  right. exists v, s. split; [done|]. split; [lia|]. split; [lia|].
  split; [exact Hfresh|]. done.
Qed.

Lemma step_effect {K} fuel (c : FriendBuilder.Ctx) pc pc'
    (d d' : FriendBuilder.Data K) :
  FriendBuilder.step fuel c (pc, d) = Ok (pc', d') →
  (same_generation d d' ∧ pending pc' ⊆ pending pc
   ∧ ∀ u desired tries rest,
       pc' = FriendBuilder.WhileHead u desired tries rest →
       desired = desired_of c u)
  ∨ (∃ u desired tries rest,
       pc = FriendBuilder.WhileHead u desired tries rest
       ∧ pc' = FriendBuilder.WhileHead u desired (tries + 1) rest
       ∧ FriendBuilder.while_cond c u desired d = true
       ∧ FriendBuilder.attempt fuel c u d = Ok d').
Proof.
  destruct pc as [[|u rest]|u desired tries rest|rest| |]; simpl.
  - intros [= <- <-]. left. split; [apply same_generation_refl|]. done.
  - intros [= <- <-]. left. split; [apply same_generation_refl|].
    split; [done|]. by intros ? ? ? ? [= <- <- _ _].
  - destruct (FriendBuilder.while_cond c u desired d) eqn:Hcond.
    + destruct (_ <? tries).
      * intros [= <- <-]. left. split; [apply same_generation_refl|].
        split; [set_solver|done].
      * destruct (FriendBuilder.attempt fuel c u d) as [d1| |] eqn:Hat;
          cbn [rbind]; try done.
        intros [= <- <-]. right. by exists u, desired, tries, rest.
    + intros [= <- <-]. left. split; [apply same_generation_refl|].
      split; [set_solver|done].
  - destruct (_ <=? _); intros [= <- <-]; left;
      (split; [apply same_generation_refl|]); (split; [set_solver|done]).
  - destruct (flushEdges_spec d) as (d1 & -> & Hsame & _). cbn [rbind].
    intros [= <- <-]. left. split; [|done].
    destruct Hsame as (? & ? & ? & ? & ? & ? & ? & ?). by repeat split.
  - intros [= <- <-]. left. split; [apply same_generation_refl|done].
Qed.

Lemma after_ind {K} fuel (c : FriendBuilder.Ctx)
    (P : FriendBuilder.Control * FriendBuilder.Data K → Prop) :
  (∀ m m', P m → FriendBuilder.step fuel c m = Ok m' → P m') →
  ∀ n m m', P m → after n fuel c m = Ok m' → P m'.
Proof.
  intros Hstep. induction n as [|n IH]; intros m m' Hm; simpl.
  - by intros [= <-].
  - destruct (FriendBuilder.step fuel c m) as [m1| |] eqn:Hs; cbn [rbind];
      try done.
    apply IH. by eapply Hstep.
Qed.

(** ** The degree counters *)

Lemma incident_snoc u es e : incident u (es ++ [e]) = incident u es + touches u e.
Proof.
  unfold incident. rewrite fmap_app, sumZ_app. unfold sumZ. simpl. lia.
Qed.

Lemma initiated_snoc u es e :
  initiated u (es ++ [e])
  = initiated u es + (if decide (f_src e = u) then 1 else 0).
Proof.
  unfold initiated. rewrite filter_app, length_app.
  rewrite filter_cons, filter_nil. case_decide; simpl; lia.
Qed.

Lemma initiated_le_incident u es : initiated u es ≤ incident u es.
Proof.
  induction es as [|e es IH] using rev_ind.
  - done.
  - rewrite initiated_snoc, incident_snoc. unfold touches.
    repeat case_decide; lia.
Qed.

Lemma counter_insert (deg : gmap Z Z) u v x :
  counter (<[u := v]> deg) x = if decide (u = x) then v else counter deg x.
Proof.
  unfold counter. case_decide; [subst; by rewrite lookup_insert_eq|].
  by rewrite lookup_insert_ne.
Qed.

Lemma counts_step {K} fuel (c : FriendBuilder.Ctx) (deg0 : gmap Z Z)
    (m m' : FriendBuilder.Control * FriendBuilder.Data K) :
  (∀ x, counter (FriendBuilder.degree m.2) x
        = counter deg0 x + incident x (generated m.2)) →
  FriendBuilder.step fuel c m = Ok m' →
  ∀ x, counter (FriendBuilder.degree m'.2) x
       = counter deg0 x + incident x (generated m'.2).
Proof.
  destruct m as [pc d], m' as [pc' d']. simpl. intros Hinv Hstep x.
  apply step_effect in Hstep
    as [(Hsame & _)|(u & desired & tries & rest & _ & _ & _ & Hat)].
  - rewrite (same_generation_generated _ _ Hsame).
    destruct Hsame as (_ & -> & _). apply Hinv.
  - apply attempt_effect in Hat
      as [(-> & -> & _)|(v & s & _ & _ & Huv & _ & Hdeg & -> & _)];
      [apply Hinv|].
    simpl in Hdeg. rewrite Hdeg, incident_snoc, !counter_insert.
    unfold touches. simpl.
    pose proof (Hinv x). pose proof (Hinv u). pose proof (Hinv v).
    repeat case_decide; subst; try done; lia.
Qed.

(** X14: at every point of a run of the friend-edge builder from a store
    without friend edges, the degree counter of every user is its counter at
    the start plus the number of friend edges generated so far that have the
    user at an end. *)
Theorem degree_counts_edges {K} (fuel : nat) (c : FriendBuilder.Ctx) (s : N)
    (degree : gmap Z Z) (w : World K) (n : nat) :
  friends_of (sentEdges w) = [] →
  match after n fuel c (FriendBuilder.init c s degree w) with
  | Ok (pc, d) =>
      ∀ u, counter (FriendBuilder.degree d) u
           = counter degree u + incident u (generated d)
  | _ => True
  end.
Proof.
  intros Hw.
  destruct (after n fuel c _) as [[pc d]| |] eqn:Hrun; [|done|done].
  refine (after_ind fuel c
            (fun m => ∀ x, counter (FriendBuilder.degree m.2) x
                           = counter degree x + incident x (generated m.2))
            _ n _ (pc, d) _ Hrun).
  - intros m m'. apply counts_step.
  - intros x. unfold generated. simpl. rewrite app_nil_r, Hw.
    unfold incident, sumZ. simpl. lia.
Qed.

Lemma degree_counts_edges_witness :
  match after 200 10 ctx3 (FriendBuilder.init ctx3 1234567 degree3 world0) with
  | Ok (pc, d) =>
      ∀ u, counter (FriendBuilder.degree d) u
           = counter degree3 u + incident u (generated d)
  | _ => True
  end.
Proof.
  apply (degree_counts_edges 10 ctx3 1234567 degree3 world0 200). reflexivity.
Defined.

(** X15: no user starts more friend edges than its target: at every point
    of a run of the builder, from counters that are not negative and a store
    without friend edges, the friend edges with source [u] number at most
    [targetDegrees[u] || 1] (none if that is negative). *)
Theorem initiated_within_target {K} (fuel : nat) (c : FriendBuilder.Ctx)
    (s : N) (degree : gmap Z Z) (w : World K) (n : nat) :
  friends_of (sentEdges w) = [] →
  map_Forall (fun _ v => 0 ≤ v) degree →
  match after n fuel c (FriendBuilder.init c s degree w) with
  | Ok (pc, d) =>
      ∀ u, initiated u (generated d) ≤ Z.max 0 (desired_of c u)
  | _ => True
  end.
Proof.
  intros Hw Hpos.
  assert (Hdeg0 : ∀ x, 0 ≤ counter degree x).
  { intros x. unfold counter. destruct (degree !! x) as [v|] eqn:Hx; [|done].
    by apply (Hpos x v). }
  destruct (after n fuel c _) as [[pc d]| |] eqn:Hrun; [|done|done].
  refine (proj1 (proj2 (after_ind fuel c
           (fun m => (∀ x, counter (FriendBuilder.degree m.2) x
                           = counter degree x + incident x (generated m.2))
                     ∧ (∀ x, initiated x (generated m.2)
                             ≤ Z.max 0 (desired_of c x))
                     ∧ (∀ u desired tries rest,
                          m.1 = FriendBuilder.WhileHead u desired tries rest →
                          desired = desired_of c u))
           _ n _ (pc, d) _ Hrun))).
  - intros [pc1 d1] [pc2 d2] (Hcnt & Hini & Hctl) Hstep.
    split; [by apply (counts_step fuel c degree (pc1, d1) (pc2, d2))|].
    simpl in *.
    apply step_effect in Hstep
      as [(Hsame & _ & Hctl')|(u & desired & tries & rest & -> & -> & Hcond & Hat)].
    + rewrite (same_generation_generated _ _ Hsame). split; [done|].
      intros u desired tries rest Hpc. by eapply Hctl'.
    + specialize (Hctl u desired tries rest eq_refl). split.
      * intros x. apply attempt_effect in Hat
          as [(_ & -> & _)|(v & s' & _ & _ & Huv & _ & _ & -> & _)];
          [apply Hini|].
        rewrite initiated_snoc. simpl. case_decide; [subst x|].
        -- unfold FriendBuilder.while_cond in Hcond.
           apply andb_true_iff in Hcond as [Hcond _].
           pose proof (Hcnt u) as Hu. pose proof (initiated_le_incident u (generated d1)).
           pose proof (Hdeg0 u). unfold counter in Hu at 1.
           destruct (FriendBuilder.degree d1 !! u) as [du|]; [|done].
           simpl in Hu. lia.
        -- pose proof (Hini x). lia.
      * intros u' desired' tries' rest' [= <- <- _ _]. done.
  - split; [|split].
    + intros x. unfold generated. simpl. rewrite app_nil_r, Hw.
      unfold incident, sumZ. simpl. lia.
    + intros x. unfold generated. simpl. rewrite app_nil_r, Hw.
      unfold initiated. simpl. lia.
    + done.
Qed.

Lemma initiated_within_target_witness :
  match after 200 10 ctx3 (FriendBuilder.init ctx3 1234567 degree3 world0) with
  | Ok (pc, d) =>
      ∀ u, initiated u (generated d) ≤ Z.max 0 (desired_of ctx3 u)
  | _ => True
  end.
Proof.
  apply (initiated_within_target 10 ctx3 1234567 degree3 world0 200).
  - reflexivity.
  - apply (bool_decide_unpack _). by vm_compute.
Defined.
(** ** The ends of the friend edges *)

Lemma scan_elem (degree : gmap Z Z) (uId : Z) (cs : list Z) : ∀ acc b,
  (foldl (Neighbor.scan_step degree uId) acc cs).1 = Some b →
  b ∈ cs ∨ acc.1 = Some b.
Proof.
  induction cs as [|x cs IH]; intros acc b; simpl; [by right|].
  intros Hb. apply IH in Hb as [Hb|Hb]; [left; by right|].
  unfold Neighbor.scan_step in Hb.
  destruct (_ && _); simpl in Hb; [|by right].
  injection Hb as <-. left. by left.
Qed.

Lemma choose_elem (degree : gmap Z Z) (uId : Z) (cs : list Z) b :
  Neighbor.choose degree uId cs = Some b → b ∈ cs.
Proof.
  unfold Neighbor.choose.
  destruct (_ && _).
  - destruct cs as [|x cs]; simpl; [done|]. intros [= <-]. by left.
  - intros Hb. by apply scan_elem in Hb as [Hb|Hb].
Qed.

Lemma pickNeighbor_elem fuel pop lk degree uId seed v s :
  Neighbor.pickNeighbor fuel pop lk degree uId seed = Ok (Some v, s) →
  v ∈ Neighbor.pool_for pop lk uId (Rng.rand seed) ∧ v ≠ uId.
Proof.
  unfold Neighbor.pickNeighbor. cbv zeta.
  destruct (Rng.sample _ _ _ _) as [[cs s']|] eqn:Hs; cbn [rbind of_fuel];
    [|done].
  intros [= Hc <-]. apply choose_elem in Hc.
  apply sample_spec in Hs as [Hsam _].
  apply others_spec. by eapply Sampled_elem.
Qed.

Lemma pool_for_within pop lk uId r :
  PoolsWithin pop → Neighbor.pool_for pop lk uId r ⊆ allUserIds pop.
Proof.
  intros [Hcom Hcity]. unfold Neighbor.pool_for. cbv zeta.
  destruct (if Rng.lt_ratio r 3 4 then _ else None) as [l|] eqn:H1.
  - destruct (Rng.lt_ratio r 3 4); [|done].
    apply usable_lookup in H1 as [key Hkey]. by apply (Hcom key).
  - destruct (if Rng.lt_ratio r 9 10 then _ else None) as [l|] eqn:H2; [|done].
    destruct (Rng.lt_ratio r 9 10); [|done].
    apply usable_lookup in H2 as [key Hkey]. by apply (Hcity key).
Qed.

Lemma joins_step {K} fuel (c : FriendBuilder.Ctx)
    (m m' : FriendBuilder.Control * FriendBuilder.Data K) :
  PoolsWithin (FriendBuilder.pop c) →
  Forall (fun e => f_src e ∈ allUserIds (FriendBuilder.pop c)
                   ∧ f_dst e ∈ allUserIds (FriendBuilder.pop c))
         (generated m.2)
  ∧ pending m.1 ⊆ allUserIds (FriendBuilder.pop c) →
  FriendBuilder.step fuel c m = Ok m' →
  Forall (fun e => f_src e ∈ allUserIds (FriendBuilder.pop c)
                   ∧ f_dst e ∈ allUserIds (FriendBuilder.pop c))
         (generated m'.2)
  ∧ pending m'.1 ⊆ allUserIds (FriendBuilder.pop c).
Proof.
  destruct m as [pc1 d1], m' as [pc2 d2]. intros Hpools [Hall Hpend] Hstep.
  simpl in *.
  apply step_effect in Hstep
    as [(Hsame & Hsub & _)|(u & desired & tries & rest & -> & -> & _ & Hat)].
  - rewrite (same_generation_generated _ _ Hsame). split; [done|].
    by etrans.
  - split; [|done].
    apply attempt_effect in Hat
      as [(_ & -> & _)|(v & s' & Hpick & _ & _ & _ & _ & -> & _)]; [done|].
    apply Forall_app. split; [done|]. apply Forall_singleton. simpl.
    split; [apply Hpend; by left|].
    apply pickNeighbor_elem in Hpick as [Hin _].
    by eapply pool_for_within.
Qed.

(** X16: when the community and city lists hold user ids only, every friend
    edge generated, at any point of a run of the builder from a store
    without friend edges, joins two users of the population. *)
Theorem friend_edges_join_users {K} (fuel : nat) (c : FriendBuilder.Ctx)
    (s : N) (degree : gmap Z Z) (w : World K) (n : nat) :
  friends_of (sentEdges w) = [] →
  PoolsWithin (FriendBuilder.pop c) →
  match after n fuel c (FriendBuilder.init c s degree w) with
  | Ok (pc, d) =>
      Forall (fun e => f_src e ∈ allUserIds (FriendBuilder.pop c)
                       ∧ f_dst e ∈ allUserIds (FriendBuilder.pop c))
             (generated d)
  | _ => True
  end.
Proof.
  intros Hw Hpools.
  destruct (after n fuel c _) as [[pc d]| |] eqn:Hrun; [|done|done].
  refine (proj1 (after_ind fuel c
            (fun m => Forall (fun e => f_src e ∈ allUserIds (FriendBuilder.pop c)
                                       ∧ f_dst e ∈ allUserIds (FriendBuilder.pop c))
                             (generated m.2)
                      ∧ pending m.1 ⊆ allUserIds (FriendBuilder.pop c))
            _ n _ (pc, d) _ Hrun)).
  - intros m m'. by apply joins_step.
  - split; [|done]. unfold generated. simpl. rewrite app_nil_r, Hw. constructor.
Qed.

Lemma friend_edges_join_users_witness :
  match after 200 10 ctx3 (FriendBuilder.init ctx3 1234567 degree3 world0) with
  | Ok (pc, d) =>
      Forall (fun e => f_src e ∈ allUserIds (FriendBuilder.pop ctx3)
                       ∧ f_dst e ∈ allUserIds (FriendBuilder.pop ctx3))
             (generated d)
  | _ => True
  end.
Proof.
  apply (friend_edges_join_users 10 ctx3 1234567 degree3 world0 200).
  - reflexivity.
  - split; apply map_Forall_singleton; done.
Defined.
(** ** The follow edges of each user *)

Lemma while_loop_effect {K} cfg pop lk uId nF (n : nat) :
  ∀ made tries (d d' : FollowBuilder.Data K),
  FollowBuilder.while_loop n cfg pop lk uId nF made tries d = Ok d' →
  ∃ new, followed d' = followed d ++ new
    ∧ Forall (drawn_for pop lk uId) new
    ∧ Z.of_nat (length new) ≤ Z.max 0 (nF - made).
Proof.
  induction n as [|n IH]; intros made tries d d'; simpl.
  { destruct (_ && _); [done|]. intros [= <-]. exists [].
    rewrite app_nil_r. split; [done|]. split; [constructor|simpl; lia]. }
  destruct (_ && _) eqn:Hcond;
    [|intros [= <-]; exists []; rewrite app_nil_r;
      split; [done|]; split; [constructor|simpl; lia]].
  apply andb_true_iff in Hcond as [Hmade _].
  destruct (FollowBuilder.draw_candidate _ _ _ _) as [[cand s]| |] eqn:Hdraw;
    cbn [rbind]; try done.
  set (d0 := {| FollowBuilder._seed := s;
                FollowBuilder.followSet := FollowBuilder.followSet d;
                FollowBuilder.followBatch := FollowBuilder.followBatch d;
                FollowBuilder.world := FollowBuilder.world d |}).
  assert (Hskip : ∀ d',
    FollowBuilder.while_loop n cfg pop lk uId nF made (tries + 1) d0 = Ok d' →
    ∃ new, followed d' = followed d ++ new
      ∧ Forall (drawn_for pop lk uId) new
      ∧ Z.of_nat (length new) ≤ Z.max 0 (nF - made)).
  { intros d'' Hrun. by apply IH in Hrun. }
  destruct (decide (cand = Some uId)); [apply Hskip|].
  destruct (decide (followKey uId cand ∈ _)); [apply Hskip|].
  set (e := {| w_src := uId; w_dst := cand |}).
  match goal with
  | |- context [FollowBuilder.flushFollow ?x] => set (d1 := x)
  end.
  assert (Hf1 : followed d1 = followed d ++ [e]).
  { unfold followed, d1. simpl. by rewrite app_assoc, follows_of_app. }
  assert (Hflush : ∃ d2,
    (if BATCH_SIZE cfg
        <=? Z.of_nat (length (FollowBuilder.followBatch d ++ [Follow e]))
     then FollowBuilder.flushFollow d1 else Ok d1) = Ok d2
    ∧ followed d2 = followed d1).
  { destruct (_ <=? _); [|by exists d1].
    destruct (flushFollow_spec d1) as (d2 & -> & _ & _ & He & _).
    exists d2. split; [done|]. unfold followed. by rewrite He. }
  destruct Hflush as (d2 & -> & Hf2). cbn [rbind].
  intros Hrun. apply IH in Hrun as (new & Hnew & Hall & Hlen).
  exists (e :: new). split.
  { rewrite Hnew, Hf2, Hf1, <- app_assoc. done. }
  split.
  { constructor; [|done]. split; [done|]. simpl. eauto. }
  simpl length. lia.
Qed.

Lemma for_loop_effect {K} cfg pop lk (users : list Z) :
  FOLLOW_MIN cfg ≤ FOLLOW_MAX cfg →
  ∀ d d' : FollowBuilder.Data K,
  FollowBuilder.for_loop cfg pop lk users d = Ok d' →
  ∃ news : list (list FollowEdge),
    followed d' = followed d ++ concat news
    ∧ Forall2 (fun u new => Forall (drawn_for pop lk u) new
                            ∧ Z.of_nat (length new) ≤ Z.max 0 (FOLLOW_MAX cfg))
              users news.
Proof.
  intros Hrange. induction users as [|u users IH]; intros d d'.
  { simpl. intros [= <-]. exists []. simpl. rewrite app_nil_r.
    split; [done|constructor]. }
  cbn [FollowBuilder.for_loop].
  pose proof (randint_range _ _ (FollowBuilder._seed d) Hrange) as HnF.
  destruct (Rng.randint _ _ _) as [nF s]. simpl in HnF.
  destruct (FollowBuilder.while_loop _ _ _ _ _ _ _ _ _) as [d1| |] eqn:Hw;
    cbn [rbind]; try done.
  apply while_loop_effect in Hw as (new & Hnew & Hall & Hlen).
  intros Hrun. apply IH in Hrun as (news & Hnews & Hall2).
  exists (new :: news). split.
  - rewrite Hnews, Hnew. simpl. by rewrite <- app_assoc.
  - constructor; [|done]. split; [done|lia].
Qed.

Lemma follow_run_effect {K} cfg pop lk s (w : World K) d :
  FOLLOW_MIN cfg ≤ FOLLOW_MAX cfg →
  follows_of (sentEdges w) = [] →
  FollowBuilder.run cfg pop lk s w = Ok d →
  ∃ news : list (list FollowEdge),
    follows_of (sentEdges (FollowBuilder.world d)) = concat news
    ∧ Forall2 (fun u new => Forall (drawn_for pop lk u) new
                            ∧ Z.of_nat (length new) ≤ Z.max 0 (FOLLOW_MAX cfg))
              (allUserIds pop) news.
Proof.
  intros Hrange Hw. unfold FollowBuilder.run.
  destruct (FollowBuilder.for_loop _ _ _ _ _) as [d1| |] eqn:Hloop;
    cbn [rbind]; try done.
  apply for_loop_effect in Hloop as (news & Hnews & Hall); [|done].
  destruct (flushFollow_spec d1) as (d2 & -> & _ & _ & He & Hb & _).
  cbn [rbind]. intros [= <-]. simpl. exists news. split; [|done].
  unfold followed in Hnews. rewrite <- He, Hb, app_nil_r in Hnews.
  rewrite Hnews. simpl. by rewrite app_nil_r, Hw.
Qed.

Lemma out_follows_app u es es' :
  out_follows u (es ++ es') = out_follows u es + out_follows u es'.
Proof. unfold out_follows. rewrite filter_app, length_app. lia. Qed.

Lemma out_follows_other pop lk u x es :
  Forall (drawn_for pop lk u) es → x ≠ u → out_follows x es = 0.
Proof.
  intros Hall Hne. unfold out_follows.
  induction Hall as [|e es [He _] _ IH]; [done|].
  rewrite filter_cons. case_decide; [congruence|done].
Qed.

Lemma out_follows_le u es : out_follows u es ≤ Z.of_nat (length es).
Proof.
  unfold out_follows. pose proof (length_filter (fun e => w_src e = u) es). lia.
Qed.

Lemma out_follows_concat pop lk (M : Z) (users : list Z) :
  ∀ news : list (list FollowEdge),
  NoDup users → 0 ≤ M →
  Forall2 (fun u new => Forall (drawn_for pop lk u) new
                        ∧ Z.of_nat (length new) ≤ M) users news →
  ∀ x, out_follows x (concat news) ≤ M
       ∧ (x ∉ users → out_follows x (concat news) = 0).
Proof.
  intros news Hnd HM Hall. induction Hall as [|u new users news [Hn Hl] _ IH].
  { intros x. unfold out_follows. simpl. split; [lia|done]. }
  apply NoDup_cons in Hnd as [Hu Hnd]. intros x. simpl.
  rewrite out_follows_app. destruct (IH Hnd x) as [IH1 IH2].
  destruct (decide (x = u)) as [->|Hne].
  - rewrite (IH2 Hu). pose proof (out_follows_le u new).
    split; [lia|]. intros Hx. exfalso. apply Hx. by left.
  - rewrite (out_follows_other pop lk u x new Hn Hne).
    split; [lia|]. intros Hx. apply IH2. intros ?. apply Hx. by right.
Qed.

Lemma WellIndexed_pop3 : WellIndexed pop3 (lookup_maps pop3).
Proof.
  intros u Hu. exists 0, [1; 2; 3].
  unfold pop3 in Hu. simpl in Hu. set_unfold.
  destruct Hu as [->|[->|[->|[]]]]; split; by vm_compute.
Qed.

(** X17: for users listed once, each with a community list, and
    [FOLLOW_MIN <= FOLLOW_MAX], the follow phase returns, and no user is the
    source of more than [FOLLOW_MAX] follow edges. *)
Theorem follow_out_degree {K} (cfg : Config) (pop : Population) (lk : Lookup)
    (s : N) (w : World K) :
  NoDup (allUserIds pop) → WellIndexed pop lk →
  FOLLOW_MIN cfg ≤ FOLLOW_MAX cfg →
  follows_of (sentEdges w) = [] →
  ∃ d, FollowBuilder.run cfg pop lk s w = Ok d
    ∧ ∀ u, out_follows u (follows_of (sentEdges (FollowBuilder.world d)))
           ≤ Z.max 0 (FOLLOW_MAX cfg).
Proof.
  intros Hnd Hwi Hrange Hw.
  destruct (follow_run_total cfg pop lk s w Hwi) as (d & Hrun).
  exists d. split; [done|].
  apply follow_run_effect in Hrun as (news & -> & Hall); [|done|done].
  intros u.
  by destruct (out_follows_concat pop lk (Z.max 0 (FOLLOW_MAX cfg))
                 (allUserIds pop) news Hnd (Z.le_max_l _ _) Hall u) as [? _].
Qed.

Lemma follow_out_degree_witness :
  ∃ d, FollowBuilder.run small_config pop3 (lookup_maps pop3) 1234567 world0
       = Ok d
    ∧ ∀ u, out_follows u (follows_of (sentEdges (FollowBuilder.world d)))
           ≤ Z.max 0 (FOLLOW_MAX small_config).
Proof.
  apply (follow_out_degree small_config pop3 (lookup_maps pop3) 1234567 world0).
  - apply (bool_decide_unpack _). by vm_compute.
  - apply WellIndexed_pop3.
  - simpl. lia.
  - reflexivity.
Defined.

Lemma draw_candidate_core pop lk u seed o r :
  u ∈ allUserIds pop →
  (∀ c l, userCommunityMap lk !! u = Some c → idsByCommunity pop !! c = Some l →
          l ≠ [] ∧ l ⊆ allUserIds pop) →
  FollowBuilder.draw_candidate pop lk u seed = Ok (o, r) →
  ∃ v, o = Some v ∧ v ∈ allUserIds pop.
Proof.
  intros Hu Hlist. unfold FollowBuilder.draw_candidate. cbv zeta.
  assert (Hne : allUserIds pop ≠ [])
    by (intros Heq; rewrite Heq in Hu; by apply elem_of_nil in Hu).
  assert (Hall : ∀ sd, ∃ v, (Rng.choice (allUserIds pop) sd).1 = Some v
                            ∧ v ∈ allUserIds pop)
    by (intros sd; by apply choice_Some).
  set (r0 := Rng.rand seed).
  assert (Hglobal :
    Ok (Rng.choice (allUserIds pop) r0) = Ok (o, r) →
    ∃ v, o = Some v ∧ v ∈ allUserIds pop).
  { intros Heq. assert (Heq' : Rng.choice (allUserIds pop) r0 = (o, r))
      by congruence.
    destruct (Hall r0) as (v & Hv & Hin). rewrite Heq' in Hv. eauto. }
  destruct (Rng.lt_ratio _ 4 10); [done|].
  destruct (Rng.lt_ratio _ 8 10); [|done].
  destruct (userCommunityMap lk !! u ≫= _) as [commList|] eqn:Hcl; [|done].
  apply bind_Some in Hcl as (c & Hcu & Hc).
  destruct (Hlist c commList Hcu Hc) as [Hcne Hsub].
  destruct (choice_Some commList r0 Hcne) as (v & Hv & Hin).
  intros Heq. assert (Heq' : Rng.choice commList r0 = (o, r)) by congruence.
  rewrite Heq' in Hv. exists v. split; [done|]. by apply Hsub.
Qed.

Lemma drawn_join_users pop lk (M : Z) (users : list Z) :
  ∀ news : list (list FollowEdge),
  users ⊆ allUserIds pop →
  (∀ u c l, u ∈ users → userCommunityMap lk !! u = Some c →
            idsByCommunity pop !! c = Some l →
            l ≠ [] ∧ l ⊆ allUserIds pop) →
  Forall2 (fun u new => Forall (drawn_for pop lk u) new
                        ∧ Z.of_nat (length new) ≤ M) users news →
  Forall (fun e => w_src e ∈ allUserIds pop
                   ∧ ∃ v, w_dst e = Some v ∧ v ∈ allUserIds pop)
         (concat news).
Proof.
  intros news Hsub Hlists Hall.
  induction Hall as [|u new users news [Hn _] _ IH]; [constructor|].
  simpl. apply Forall_app. split.
  - eapply Forall_impl; [exact Hn|]. intros e [Hsrc (seed & r & Hdraw)].
    assert (Hu : u ∈ allUserIds pop) by (apply Hsub; by left).
    split; [by rewrite Hsrc|].
    eapply draw_candidate_core; [done| |done].
    intros c l. apply Hlists. by left.
  - apply IH.
    + intros x Hx. apply Hsub. by right.
    + intros x c l Hx. apply Hlists. by right.
Qed.

(** X18: when every community list has a member and holds user ids only,
    and every user has a community list, the follow phase returns, and every
    follow edge it hands to the store goes from a user of the population to
    a user of the population (none has an undefined target). *)
Theorem follow_edges_join_users {K} (cfg : Config) (pop : Population)
    (lk : Lookup) (s : N) (w : World K) :
  ListsWithin pop → WellIndexed pop lk →
  FOLLOW_MIN cfg ≤ FOLLOW_MAX cfg →
  follows_of (sentEdges w) = [] →
  ∃ d, FollowBuilder.run cfg pop lk s w = Ok d
    ∧ Forall (fun e => w_src e ∈ allUserIds pop
                       ∧ ∃ v, w_dst e = Some v ∧ v ∈ allUserIds pop)
             (follows_of (sentEdges (FollowBuilder.world d))).
Proof.
  intros Hlists Hwi Hrange Hw.
  destruct (follow_run_total cfg pop lk s w Hwi) as (d & Hrun).
  exists d. split; [done|].
  apply follow_run_effect in Hrun as (news & -> & Hall); [|done|done].
  eapply drawn_join_users; [done| |exact Hall].
  intros u c l _ _ Hl. by apply (Hlists c l).
Qed.

Lemma follow_edges_join_users_witness :
  ∃ d, FollowBuilder.run small_config pop3 (lookup_maps pop3) 1234567 world0
       = Ok d
    ∧ Forall (fun e => w_src e ∈ allUserIds pop3
                       ∧ ∃ v, w_dst e = Some v ∧ v ∈ allUserIds pop3)
             (follows_of (sentEdges (FollowBuilder.world d))).
Proof.
  apply (follow_edges_join_users small_config pop3 (lookup_maps pop3) 1234567
           world0).
  - apply map_Forall_singleton. done.
  - apply WellIndexed_pop3.
  - simpl. lia.
  - reflexivity.
Defined.
(** ** The interactions *)

Lemma flushInteractions_effect {K} (d : Interactions.Data K) :
  ∃ d', Interactions.flushInteractions d = Ok d'
    ∧ Interactions._seed d' = Interactions._seed d
    ∧ Interactions.interactionsBatch d' = []
    ∧ emitted d' = emitted d
    ∧ sentUsers (Interactions.world d') = sentUsers (Interactions.world d)
    ∧ sentEdges (Interactions.world d') = sentEdges (Interactions.world d).
Proof.
  unfold Interactions.flushInteractions, emitted.
  destruct (Z.ltb_spec 0 (Z.of_nat (length (Interactions.interactionsBatch d)))).
  - destruct (try_insert_interactions (Interactions.interactionsBatch d)
                (Interactions.world d) "Interactions batch insert warning:")
      as (w & -> & Hu & He & Hi). simpl. eexists. split; [done|]. simpl.
    rewrite Hi, app_nil_r. done.
  - exists d. split; [done|]. split; [done|].
    destruct (Interactions.interactionsBatch d); [done|simpl in *; lia].
Qed.

Lemma body_effect {K} cfg pop now (d : Interactions.Data K) :
  ∃ d', Interactions.body cfg pop now d = Ok d'
    ∧ sentUsers (Interactions.world d') = sentUsers (Interactions.world d)
    ∧ sentEdges (Interactions.world d') = sentEdges (Interactions.world d)
    ∧ (emitted d' = emitted d
       ∨ ∃ a t ty,
           a ≠ t ∧ a ∈ allUserIds pop ∧ t ∈ allUserIds pop
           ∧ ty ∈ Interactions.interactionTypes
           ∧ emitted d'
             = emitted d
               ++ [ {| actor := Some a; target := Some t; itype := Some ty;
                       weight2 := Interactions.weight_of (Some ty);
                       createdAt := now |} ]).
Proof.
  unfold Interactions.body.
  destruct (Rng.choice (allUserIds pop) _) as [actor s1] eqn:Ha.
  destruct (Rng.choice (allUserIds pop) s1) as [target s2] eqn:Ht.
  destruct (decide _) as [|Hne].
  { eexists. split; [done|]. split; [done|]. split; [done|]. by left. }
  pose proof (choice_elem (allUserIds pop) (Interactions._seed d)) as Hain.
  pose proof (choice_elem (allUserIds pop) s1) as Htin.
  rewrite Ha in Hain. rewrite Ht in Htin. simpl in Hain, Htin.
  assert (Hpop : allUserIds pop ≠ []).
  { intros Hnil. unfold Rng.choice in Ha, Ht. rewrite Hnil in Ha, Ht.
    cbv zeta in Ha, Ht. rewrite lookup_nil in Ha, Ht. congruence. }
  destruct (choice_Some (allUserIds pop) (Interactions._seed d) Hpop)
    as (a & Ha' & _).
  destruct (choice_Some (allUserIds pop) s1 Hpop) as (t & Ht' & _).
  rewrite Ha in Ha'. rewrite Ht in Ht'. simpl in Ha', Ht'. subst actor target.
  destruct (choice_Some Interactions.interactionTypes s2 ltac:(done))
    as (ty & Hty & Htyin).
  destruct (Rng.choice Interactions.interactionTypes s2) as [oty s3].
  simpl in Hty. subst oty.
  match goal with
  | |- context [Interactions.flushInteractions ?x] => set (d1 := x)
  end.
  assert (Hd1 : emitted d1
                = emitted d
                  ++ [ {| actor := Some a; target := Some t; itype := Some ty;
                          weight2 := Interactions.weight_of (Some ty);
                          createdAt := now |} ]).
  { unfold emitted, d1. simpl. by rewrite app_assoc. }
  assert (Hres : ∀ d' : Interactions.Data K, emitted d' = emitted d1 →
    emitted d' = emitted d
    ∨ ∃ a0 t0 ty0,
        a0 ≠ t0 ∧ a0 ∈ allUserIds pop ∧ t0 ∈ allUserIds pop
        ∧ ty0 ∈ Interactions.interactionTypes
        ∧ emitted d'
          = emitted d
            ++ [ {| actor := Some a0; target := Some t0; itype := Some ty0;
                    weight2 := Interactions.weight_of (Some ty0);
                    createdAt := now |} ]).
  { intros d' Hd'. right. exists a, t, ty. rewrite Hd', Hd1.
    split; [congruence|]. split; [by apply Hain|]. split; [by apply Htin|].
    done. }
  destruct (_ <=? _).
  - destruct (flushInteractions_effect d1) as (d2 & -> & _ & _ & He & Hu & Hed).
    exists d2. split; [done|]. split; [by rewrite Hu|]. split; [by rewrite Hed|].
    by apply Hres.
  - exists d1. split; [done|]. split; [done|]. split; [done|]. by apply Hres.
Qed.

Lemma interactions_loop_effect {K} cfg pop clock (n : nat) :
  ∀ i (d : Interactions.Data K),
  ∃ d' new, Interactions.for_loop cfg pop clock n i d = Ok d'
    ∧ emitted d' = emitted d ++ new
    ∧ (length new ≤ n)%nat
    ∧ Forall (ValidInteraction pop clock i (i + Z.of_nat n)) new
    ∧ sentUsers (Interactions.world d') = sentUsers (Interactions.world d)
    ∧ sentEdges (Interactions.world d') = sentEdges (Interactions.world d).
Proof.
  induction n as [|n IH]; intros i d.
  { exists d, []. simpl. rewrite app_nil_r. by repeat split. }
  cbn [Interactions.for_loop].
  destruct (body_effect cfg pop (clock i) d) as (d1 & -> & Hu1 & He1 & Hd1).
  cbn [rbind].
  destruct (IH (i + 1) d1) as (d' & new & -> & Hnew & Hlen & Hall & Hu & He).
  assert (Hall' : Forall (ValidInteraction pop clock i (i + Z.of_nat (S n))) new).
  { eapply Forall_impl; [exact Hall|].
    intros x (a & t & ty & j & ? & ? & ? & ? & ? & ?).
    exists a, t, ty, j. repeat split; try done; lia. }
  destruct Hd1 as [Hd1|(a & t & ty & Hne & Ha & Ht & Hty & Hd1)].
  - exists d', new. split; [done|]. rewrite Hnew, Hd1.
    split; [done|]. split; [lia|]. split; [done|]. split; congruence.
  - eexists d', (_ :: new). split; [done|]. rewrite Hnew, Hd1, <- app_assoc.
    split; [done|]. split; [simpl; lia|]. split; [|split; congruence].
    constructor; [|done]. exists a, t, ty, i. repeat split; try done; lia.
Qed.

Lemma interactions_run_effect {K} cfg pop clock s (w : World K) :
  ∃ d new, Interactions.run cfg pop clock s w = Ok d
    ∧ sentInteractions (Interactions.world d) = sentInteractions w ++ new
    ∧ Interactions.interactionsBatch d = []
    ∧ (length new ≤ Z.to_nat (N_INTERACTIONS cfg))%nat
    ∧ Forall (ValidInteraction pop clock 0 (N_INTERACTIONS cfg)) new
    ∧ sentUsers (Interactions.world d) = sentUsers w
    ∧ sentEdges (Interactions.world d) = sentEdges w.
Proof.
  unfold Interactions.run.
  match goal with
  | |- context [Interactions.for_loop _ _ _ ?n ?i ?d0] =>
      destruct (interactions_loop_effect cfg pop clock n i d0)
        as (d1 & new & -> & Hnew & Hlen & Hall & Hu & He)
  end.
  cbn [rbind].
  destruct (flushInteractions_effect d1) as (d2 & -> & _ & Hb & Hem & Hu2 & He2).
  cbn [rbind]. eexists _, new. split; [done|]. simpl.
  unfold emitted in Hem, Hnew. rewrite Hb, app_nil_r in Hem. simpl in Hnew.
  rewrite app_nil_r in Hnew.
  split; [by rewrite Hem, Hnew|]. split; [done|]. split; [done|]. split.
  - eapply Forall_impl; [exact Hall|].
    intros x (a & t & ty & j & ? & ? & ? & ? & ? & ?).
    exists a, t, ty, j. repeat split; try done; lia.
  - simpl in Hu, He. split; congruence.
Qed.

(** X19: the interaction phase always returns and leaves no interaction
    unsent; from a store without interactions, it hands at most
    [N_INTERACTIONS] interactions to the store, each between two different
    users of the population, of one of the four types, with the weight of
    its type and the time read in the iteration that made it; with fewer
    than two users it makes none. *)
Theorem interactions_valid {K} (cfg : Config) (pop : Population)
    (clock : Z → Z) (s : N) (w : World K) :
  sentInteractions w = [] →
  ∃ d, Interactions.run cfg pop clock s w = Ok d
    ∧ Interactions.interactionsBatch d = []
    ∧ (length (sentInteractions (Interactions.world d))
       ≤ Z.to_nat (N_INTERACTIONS cfg))%nat
    ∧ Forall (ValidInteraction pop clock 0 (N_INTERACTIONS cfg))
             (sentInteractions (Interactions.world d))
    ∧ ((length (allUserIds pop) ≤ 1)%nat →
       sentInteractions (Interactions.world d) = []).
Proof.
  intros Hw.
  destruct (interactions_run_effect cfg pop clock s w)
    as (d & new & Hrun & Hsent & Hb & Hlen & Hall & _).
  rewrite Hw in Hsent. simpl in Hsent.
  exists d. rewrite Hsent. split; [done|]. split; [done|]. split; [done|].
  split; [done|]. intros Hone.
  destruct new as [|x new]; [done|]. exfalso.
  apply Forall_cons in Hall as [(a & t & ty & j & _ & Hne & Ha & Ht & _) _].
  destruct (allUserIds pop) as [|u [|u' l]]; simpl in Hone; [|set_solver|lia].
  by apply elem_of_nil in Ha.
Qed.

Lemma interactions_valid_witness :
  ∃ d, Interactions.run small_config pop3 clock_a 1234567 world0 = Ok d
    ∧ Interactions.interactionsBatch d = []
    ∧ (length (sentInteractions (Interactions.world d))
       ≤ Z.to_nat (N_INTERACTIONS small_config))%nat
    ∧ Forall (ValidInteraction pop3 clock_a 0 (N_INTERACTIONS small_config))
             (sentInteractions (Interactions.world d))
    ∧ ((length (allUserIds pop3) ≤ 1)%nat →
       sentInteractions (Interactions.world d) = []).
Proof.
  apply (interactions_valid small_config pop3 clock_a 1234567 world0).
  reflexivity.
Defined.
(** ** The batch buffers *)

Lemma user_body_buffer {K} fuel cfg cs created (st st' : Partition.State K) :
  Partition.user_body fuel cfg cs created st = Ok st' →
  Z.of_nat (length (Partition.userBatch st')) < Z.max 1 (BATCH_SIZE cfg)
  ∧ (created + 1 = N_USERS cfg → Partition.userBatch st' = [])
  ∧ sentEdges (Partition.world st') = sentEdges (Partition.world st)
  ∧ sentInteractions (Partition.world st')
    = sentInteractions (Partition.world st).
Proof.
  unfold Partition.user_body.
  destruct (Partition.advance _ _ _) as [ci asg].
  destruct (make_user _ _ _ _) as [[doc s]| |]; cbn [rbind]; try done.
  destruct (_ || _) eqn:Hflush.
  - destruct (try_insert_users (Partition.userBatch st ++ [doc])
                (Partition.world st)
                "Warning: insertMany users batch error (continuing).")
      as (w & -> & _ & He & Hi). cbn [rbind].
    intros [= <-]. simpl. split; [lia|]. done.
  - intros [= <-]. simpl. apply orb_false_iff in Hflush as [Hlen Hlast].
    split; [lia|]. split; [lia|done].
Qed.

Lemma accept_buffer {K} (c : FriendBuilder.Ctx) u v k
    (d d' : FriendBuilder.Data K) :
  FriendBuilder.accept c u v k d = Ok d' →
  Z.of_nat (length (FriendBuilder.edgeBatch d'))
    < Z.max 1 (BATCH_SIZE (FriendBuilder.cfg c))
  ∧ follows_of (sentEdges (FriendBuilder.world d') ++ FriendBuilder.edgeBatch d')
    = follows_of (sentEdges (FriendBuilder.world d) ++ FriendBuilder.edgeBatch d).
Proof.
  unfold FriendBuilder.accept. cbv zeta.
  match goal with
  | |- context [FriendBuilder.flushEdges ?x] => set (d1 := x)
  end.
  assert (Hf1 : follows_of (sentEdges (FriendBuilder.world d1)
                            ++ FriendBuilder.edgeBatch d1)
                = follows_of (sentEdges (FriendBuilder.world d)
                              ++ FriendBuilder.edgeBatch d)).
  { unfold d1. simpl. rewrite app_assoc, follows_of_app. simpl.
    by rewrite app_nil_r. }
  destruct (BATCH_SIZE (FriendBuilder.cfg c) <=? _) eqn:Hfull.
  - destruct (flushEdges_spec d1) as (d2 & -> & Hsame & Hb). cbn [rbind].
    destruct Hsame as (_ & _ & _ & _ & _ & He & _).
    intros [= <-]. destruct (_ =? 0); simpl; rewrite Hb; simpl;
      (split; [lia|]); rewrite <- Hf1, <- He, Hb; done.
  - cbn [rbind]. intros [= <-].
    assert (Z.of_nat (length (FriendBuilder.edgeBatch d1))
            < BATCH_SIZE (FriendBuilder.cfg c)) by (unfold d1; simpl; lia).
    destruct (_ =? 0); simpl; (split; [simpl in *; lia|]); exact Hf1.
Qed.

Lemma step_buffer {K} fuel (c : FriendBuilder.Ctx)
    (m m' : FriendBuilder.Control * FriendBuilder.Data K) :
  Z.of_nat (length (FriendBuilder.edgeBatch m.2))
    < Z.max 1 (BATCH_SIZE (FriendBuilder.cfg c)) →
  FriendBuilder.step fuel c m = Ok m' →
  Z.of_nat (length (FriendBuilder.edgeBatch m'.2))
    < Z.max 1 (BATCH_SIZE (FriendBuilder.cfg c))
  ∧ follows_of (sentEdges (FriendBuilder.world m'.2)
                ++ FriendBuilder.edgeBatch m'.2)
    = follows_of (sentEdges (FriendBuilder.world m.2)
                  ++ FriendBuilder.edgeBatch m.2).
Proof.
  destruct m as [pc d], m' as [pc' d']. simpl. intros Hlen.
  destruct pc as [[|u rest]|u desired tries rest|rest| |]; simpl.
  - by intros [= <- <-].
  - by intros [= <- <-].
  - destruct (FriendBuilder.while_cond c u desired d); [|by intros [= <- <-]].
    destruct (_ <? tries); [by intros [= <- <-]|].
    unfold FriendBuilder.attempt.
    destruct (Neighbor.pickNeighbor _ _ _ _ _ _) as [[vId s]| |];
      cbn [rbind]; try done.
    destruct vId as [v|]; [|by intros [= <- <-]].
    destruct (v =? 0); [by intros [= <- <-]|].
    destruct (u =? v); [by intros [= <- <-]|].
    destruct (decide _); [by intros [= <- <-]|].
    destruct (FriendBuilder.accept _ _ _ _ _) as [d1| |] eqn:Hacc;
      cbn [rbind]; try done.
    intros [= <- <-]. by apply accept_buffer in Hacc.
  - destruct (_ <=? _); by intros [= <- <-].
  - destruct (flushEdges_spec d) as (d1 & -> & Hsame & Hb). cbn [rbind].
    destruct Hsame as (_ & _ & _ & _ & _ & He & _).
    intros [= <- <-]. simpl. rewrite Hb. simpl. split; [lia|].
    by rewrite <- He, Hb.
  - by intros [= <- <-].
Qed.

Lemma follow_while_buffer {K} cfg pop lk uId nF (n : nat) :
  ∀ made tries (d d' : FollowBuilder.Data K),
  Z.of_nat (length (FollowBuilder.followBatch d)) < Z.max 1 (BATCH_SIZE cfg) →
  FollowBuilder.while_loop n cfg pop lk uId nF made tries d = Ok d' →
  Z.of_nat (length (FollowBuilder.followBatch d')) < Z.max 1 (BATCH_SIZE cfg).
Proof.
  induction n as [|n IH]; intros made tries d d' Hlen; simpl.
  { destruct (_ && _); [done|]. by intros [= <-]. }
  destruct (_ && _); [|by intros [= <-]].
  destruct (FollowBuilder.draw_candidate _ _ _ _) as [[cand s]| |];
    cbn [rbind]; try done.
  destruct (decide (cand = Some uId)); [by apply IH|].
  destruct (decide (followKey uId cand ∈ _)); [by apply IH|].
  destruct (BATCH_SIZE cfg <=? _) eqn:Hfull.
  - match goal with
    | |- context [FollowBuilder.flushFollow ?x] =>
        destruct (flushFollow_spec x) as (d2 & -> & _ & _ & _ & Hb & _)
    end.
    cbn [rbind]. apply IH. rewrite Hb. simpl. lia.
  - cbn [rbind]. apply IH. simpl in *. lia.
Qed.

Lemma follow_for_buffer {K} cfg pop lk (users : list Z) :
  ∀ d d' : FollowBuilder.Data K,
  Z.of_nat (length (FollowBuilder.followBatch d)) < Z.max 1 (BATCH_SIZE cfg) →
  FollowBuilder.for_loop cfg pop lk users d = Ok d' →
  Z.of_nat (length (FollowBuilder.followBatch d')) < Z.max 1 (BATCH_SIZE cfg).
Proof.
  induction users as [|u users IH]; intros d d' Hlen.
  { simpl. by intros [= <-]. }
  cbn [FollowBuilder.for_loop].
  destruct (Rng.randint _ _ _) as [nF s].
  destruct (FollowBuilder.while_loop _ _ _ _ _ _ _ _ _) as [d1| |] eqn:Hw;
    cbn [rbind]; try done.
  apply follow_while_buffer in Hw; [|done]. by apply IH.
Qed.

Lemma interactions_body_buffer {K} cfg pop now (d d' : Interactions.Data K) :
  Z.of_nat (length (Interactions.interactionsBatch d))
    < Z.max 1 (BATCH_SIZE cfg) →
  Interactions.body cfg pop now d = Ok d' →
  Z.of_nat (length (Interactions.interactionsBatch d'))
    < Z.max 1 (BATCH_SIZE cfg).
Proof.
  intros Hlen. unfold Interactions.body.
  destruct (Rng.choice (allUserIds pop) _) as [actor s1].
  destruct (Rng.choice (allUserIds pop) s1) as [target s2].
  destruct (decide _); [by intros [= <-]|].
  destruct (Rng.choice Interactions.interactionTypes s2) as [t s3].
  destruct (BATCH_SIZE cfg <=? _) eqn:Hfull.
  - match goal with
    | |- context [Interactions.flushInteractions ?x] =>
        destruct (flushInteractions_effect x) as (d2 & -> & _ & Hb & _)
    end.
    intros [= <-]. rewrite Hb. simpl. lia.
  - intros [= <-]. simpl in *. lia.
Qed.

(** X20: no buffer holds [BATCH_SIZE] documents when control is back in its
    loop: with a user, edge, follow or interaction buffer shorter than
    [max(1, BATCH_SIZE)] before, it is shorter than that after any number
    of iterations of the user loop, steps of the friend-edge builder, users
    of the follow loop or iterations of the interaction loop; so that no
    insert carries more than [max(1, BATCH_SIZE)] documents. *)
Theorem buffers_bounded {K} (fuel : nat) (cfg : Config) :
  (∀ communities (k : nat) c0 (st st' : Partition.State K),
     Z.of_nat (length (Partition.userBatch st)) < Z.max 1 (BATCH_SIZE cfg) →
     Partition.user_loop fuel cfg communities k c0 st = Ok st' →
     Z.of_nat (length (Partition.userBatch st')) < Z.max 1 (BATCH_SIZE cfg))
  ∧ (∀ (c : FriendBuilder.Ctx) (n : nat) m pc (d : FriendBuilder.Data K),
       FriendBuilder.cfg c = cfg →
       Z.of_nat (length (FriendBuilder.edgeBatch m.2))
         < Z.max 1 (BATCH_SIZE cfg) →
       after n fuel c m = Ok (pc, d) →
       Z.of_nat (length (FriendBuilder.edgeBatch d))
         < Z.max 1 (BATCH_SIZE cfg))
  ∧ (∀ pop lk users (d d' : FollowBuilder.Data K),
       Z.of_nat (length (FollowBuilder.followBatch d))
         < Z.max 1 (BATCH_SIZE cfg) →
       FollowBuilder.for_loop cfg pop lk users d = Ok d' →
       Z.of_nat (length (FollowBuilder.followBatch d'))
         < Z.max 1 (BATCH_SIZE cfg))
  ∧ (∀ pop clock (n : nat) i (d d' : Interactions.Data K),
       Z.of_nat (length (Interactions.interactionsBatch d))
         < Z.max 1 (BATCH_SIZE cfg) →
       Interactions.for_loop cfg pop clock n i d = Ok d' →
       Z.of_nat (length (Interactions.interactionsBatch d'))
         < Z.max 1 (BATCH_SIZE cfg)).
Proof.
  split; [|split; [|split]].
  - intros cs k c0 st st' Hlen Hloop.
    refine (user_loop_ind fuel cfg cs
              (fun _ st => Z.of_nat (length (Partition.userBatch st))
                           < Z.max 1 (BATCH_SIZE cfg))
              k c0 st st' _ Hlen Hloop).
    intros created st1 st2 _ _ Hb. by apply user_body_buffer in Hb as [? _].
  - intros c n m pc d <- Hlen Hrun.
    refine (after_ind fuel c
              (fun m => Z.of_nat (length (FriendBuilder.edgeBatch m.2))
                        < Z.max 1 (BATCH_SIZE (FriendBuilder.cfg c)))
              _ n m (pc, d) Hlen Hrun).
    intros m1 m2 H1 Hs. by apply (step_buffer fuel c m1 m2 H1) in Hs as [? _].
  - intros pop lk users d d'. apply follow_for_buffer.
  - intros pop clock n. induction n as [|n IH]; intros i d d' Hlen; simpl.
    + by intros [= <-].
    + destruct (Interactions.body _ _ _ _) as [d1| |] eqn:Hb; cbn [rbind];
        try done.
      apply interactions_body_buffer in Hb; [|done]. by apply IH.
Qed.
(** ** A whole run *)

Lemma partition_run_frame {K} fuel cfg s (w : World K) cs st :
  Partition.run fuel cfg s w = Ok (cs, st) →
  sentEdges (Partition.world st) = sentEdges w
  ∧ sentInteractions (Partition.world st) = sentInteractions w.
Proof.
  intros Hrun. apply partition_run_unfold in Hrun
    as (nC & s1 & s2 & st1 & _ & _ & Hloop & _ & _ & _ & _ & _ & -> & ->).
  refine (user_loop_ind fuel cfg cs
            (fun _ st => sentEdges (Partition.world st) = sentEdges w
                         ∧ sentInteractions (Partition.world st)
                           = sentInteractions w)
            _ 0 _ st1 _ _ Hloop); [|done].
  intros created st2 st3 _ [He Hi] Hb.
  apply user_body_buffer in Hb as (_ & _ & -> & ->). done.
Qed.

Lemma Partitioned_PoolsWithin pop n : Partitioned pop n → PoolsWithin pop.
Proof.
  intros (Hids & Hcom & _ & _ & Hcity). split.
  - intros c l Hl x Hx. rewrite Hids. apply elem_of_seqZ.
    destruct (Hcom c l Hl) as [_ Hr]. specialize (Hr x Hx). lia.
  - intros c l Hl x Hx. rewrite Hids. apply elem_of_seqZ.
    destruct (Hcity c l Hl) as [_ Hr]. specialize (Hr x Hx). lia.
Qed.

Lemma run_to_after {K} (steps fuel : nat) c :
  ∀ (m : FriendBuilder.Control * FriendBuilder.Data K) d,
  FriendBuilder.run steps fuel c m = Ok d →
  ∃ n, after n fuel c m = Ok (FriendBuilder.Finished, d).
Proof.
  induction steps as [|steps IH]; intros [pc d0] d.
  - destruct pc; cbn [FriendBuilder.run]; try done.
    intros [= <-]. by exists 0%nat.
  - assert (Hgo : ∀ m : FriendBuilder.Control * FriendBuilder.Data K,
              (let* m' := FriendBuilder.step fuel c m in
               FriendBuilder.run steps fuel c m') = Ok d →
              ∃ n, after n fuel c m = Ok (FriendBuilder.Finished, d)).
    { intros m.
      destruct (FriendBuilder.step fuel c m) as [m1| |] eqn:Hs; cbn [rbind];
        try done.
      intros Hrun. apply IH in Hrun as [n Hn]. exists (S n).
      cbn [after]. rewrite Hs. cbn [rbind]. exact Hn. }
    destruct pc; cbn [FriendBuilder.run]; try apply Hgo.
    intros [= <-]. by exists 0%nat.
Qed.

Lemma friend_phase_effect {K} steps fuel (c : FriendBuilder.Ctx) s degree
    (w : World K) d :
  sentEdges w = [] → PoolsWithin (FriendBuilder.pop c) →
  FriendBuilder.run steps fuel c (FriendBuilder.init c s degree w) = Ok d →
  follows_of (sentEdges (FriendBuilder.world d)) = []
  ∧ sentUsers (FriendBuilder.world d) = sentUsers w
  ∧ sentInteractions (FriendBuilder.world d) = sentInteractions w
  ∧ Forall (fun e => f_src e ≠ f_dst e
                     ∧ f_src e ∈ allUserIds (FriendBuilder.pop c)
                     ∧ f_dst e ∈ allUserIds (FriendBuilder.pop c))
           (friends_of (sentEdges (FriendBuilder.world d))).
Proof.
  intros Hw Hpools Hrun. apply run_to_after in Hrun as [n Hrun].
  assert (Hfr : friends_of (sentEdges w) = []) by by rewrite Hw.
  pose proof (after_spec n fuel c _ (init_MachineInv c s degree w Hfr)) as Hspec.
  rewrite Hrun in Hspec.
  destruct Hspec as (((_ & Hinv & _) & _ & _ & Hfin) & _ & Hu & Hi).
  simpl in Hfin, Hinv, Hu, Hi. specialize (Hfin eq_refl).
  assert (Hgen : generated d = friends_of (sentEdges (FriendBuilder.world d)))
    by (unfold generated; by rewrite Hfin, app_nil_r).
  set (m0 := FriendBuilder.init c s degree w) in *.
  assert (Hgen0 : generated m0.2 = []).
  { unfold generated, m0. simpl. by rewrite app_nil_r. }
  assert (Hfol0 : follows_of (sentEdges (FriendBuilder.world m0.2)
                              ++ FriendBuilder.edgeBatch m0.2) = []).
  { unfold m0. simpl. by rewrite Hw. }
  assert (Hlen0 : Z.of_nat (length (FriendBuilder.edgeBatch m0.2))
                  < Z.max 1 (BATCH_SIZE (FriendBuilder.cfg c)))
    by (unfold m0; simpl; lia).
  assert (Hpend0 : pending m0.1 ⊆ allUserIds (FriendBuilder.pop c)) by done.
  pose proof (proj1 (after_ind fuel c
            (fun m => Forall (fun e => f_src e ∈ allUserIds (FriendBuilder.pop c)
                                       ∧ f_dst e ∈ allUserIds (FriendBuilder.pop c))
                             (generated m.2)
                      ∧ pending m.1 ⊆ allUserIds (FriendBuilder.pop c))
            (fun m m' => joins_step fuel c m m' Hpools)
            n m0 (FriendBuilder.Finished, d)
            (conj (eq_ind_r (Forall _) (Forall_nil_2 _) Hgen0) Hpend0)
            Hrun)) as Hjoin.
  pose proof (after_ind fuel c
            (fun m => Z.of_nat (length (FriendBuilder.edgeBatch m.2))
                        < Z.max 1 (BATCH_SIZE (FriendBuilder.cfg c))
                      ∧ follows_of (sentEdges (FriendBuilder.world m.2)
                                    ++ FriendBuilder.edgeBatch m.2) = [])
            (fun m m' H Hs =>
               let H' := step_buffer fuel c m m' (proj1 H) Hs in
               conj (proj1 H') (eq_trans (proj2 H') (proj2 H)))
            n m0 (FriendBuilder.Finished, d)
            (conj Hlen0 Hfol0)
            Hrun) as [_ Hfol].
  simpl in Hjoin, Hfol. rewrite Hfin, app_nil_r in Hfol.
  split; [done|]. split; [done|]. split; [done|].
  rewrite <- Hgen. apply Forall_forall. intros e He.
  pose proof (proj1 (Forall_forall _ _) Hinv e He) as (? & _).
  pose proof (proj1 (Forall_forall _ _) Hjoin e He) as (? & ?). done.
Qed.

Lemma follow_run_frame {K} cfg pop lk s (w : World K) d :
  follows_of (sentEdges w) = [] →
  FollowBuilder.run cfg pop lk s w = Ok d →
  friends_of (sentEdges (FollowBuilder.world d)) = friends_of (sentEdges w)
  ∧ sentUsers (FollowBuilder.world d) = sentUsers w
  ∧ sentInteractions (FollowBuilder.world d) = sentInteractions w
  ∧ Forall (fun e => w_dst e ≠ Some (w_src e))
           (follows_of (sentEdges (FollowBuilder.world d))).
Proof.
  intros Hw. unfold FollowBuilder.run.
  set (d0 := {| FollowBuilder._seed := s; FollowBuilder.followSet := ∅;
                FollowBuilder.followBatch := [];
                FollowBuilder.world :=
                  print "Generating follow (directed) edges..." w |}).
  assert (Hinv0 : FollowInv d0).
  { unfold FollowInv, followed, d0. simpl. rewrite app_nil_r, Hw.
    split; [constructor|]. split; [constructor|]. intros u c. set_solver. }
  destruct (FollowBuilder.for_loop cfg pop lk (allUserIds pop) d0)
    as [d1| |] eqn:Hloop; cbn [rbind]; try done.
  apply for_loop_spec in Hloop as (Hinv1 & Hfr & Hu1 & Hi1); [|done].
  destruct (flushFollow_spec d1) as (d2 & -> & _ & Hset & He & Hb & Hu2 & Hi2).
  cbn [rbind]. intros [= <-]. simpl.
  assert (Hinv2 : FollowInv d2) by (by eapply FollowInv_frame).
  destruct Hinv2 as (_ & Hall & _). unfold followed in Hall.
  rewrite Hb, app_nil_r in Hall, He.
  split; [|split; [|split]].
  - rewrite He, Hfr. unfold d0. simpl. by rewrite app_nil_r.
  - by rewrite Hu2, Hu1.
  - by rewrite Hi2, Hi1.
  - done.
Qed.

Lemma edges_within (n : Z) (l : list EdgeDoc) :
  Forall (fun f => EdgeWithin n (Friend f)) (friends_of l) →
  Forall (fun g => EdgeWithin n (Follow g)) (follows_of l) →
  Forall (EdgeWithin n) l.
Proof.
  induction l as [|[f|g] l IH]; intros Hf Hg; [constructor| |].
  - unfold friends_of in Hf. simpl in Hf. apply Forall_cons in Hf as [? ?].
    constructor; [done|]. by apply IH.
  - unfold follows_of in Hg. simpl in Hg. apply Forall_cons in Hg as [? ?].
    constructor; [done|]. by apply IH.
Qed.

Lemma main_unfold {K} fuel cfg clock (d : DB K) w :
  main fuel cfg clock d = Ok w →
  ∃ cs us p s1 w1 fd wd id,
    Partition.run fuel cfg (SEED cfg) (start d) = Ok (cs, us)
    ∧ Planner.plan fuel cfg (allUserIds (Partition.pop us))
        (Partition._seed us) = Ok (p, s1)
    ∧ sentUsers w1 = sentUsers (Partition.world us)
    ∧ sentEdges w1 = sentEdges (Partition.world us)
    ∧ sentInteractions w1 = sentInteractions (Partition.world us)
    ∧ (let c := {| FriendBuilder.cfg := cfg;
                   FriendBuilder.pop := Partition.pop us;
                   FriendBuilder.lk := lookup_maps (Partition.pop us);
                   FriendBuilder.plan := p |} in
       FriendBuilder.run fuel fuel c
         (FriendBuilder.init c s1 (Partition.degree us) w1) = Ok fd)
    ∧ FollowBuilder.run cfg (Partition.pop us) (lookup_maps (Partition.pop us))
        (FriendBuilder._seed fd) (FriendBuilder.world fd) = Ok wd
    ∧ Interactions.run cfg (Partition.pop us) clock (FollowBuilder._seed wd)
        (FollowBuilder.world wd) = Ok id
    ∧ w = Interactions.world id.
Proof.
  unfold main.
  destruct (Partition.run _ _ _ _) as [[cs us]| |] eqn:Hp; cbn [rbind];
    try done.
  destruct (Planner.plan _ _ _ _) as [[p s1]| |] eqn:Hpl; cbn [rbind];
    try done.
  cbv zeta.
  destruct (FriendBuilder.run _ _ _ _) as [fd| |] eqn:Hf; cbn [rbind];
    try done.
  destruct (FollowBuilder.run _ _ _ _ _) as [wd| |] eqn:Hw; cbn [rbind];
    try done.
  destruct (Interactions.run _ _ _ _ _) as [id| |] eqn:Hi; cbn [rbind];
    try done.
  intros [= <-]. eexists cs, us, p, s1, _, fd, wd, id.
  split; [done|]. split; [done|]. split; [|split; [|split; [|split]]].
  4: exact Hf. all: done.
Qed.


(** ** The friend phase as a whole *)

(** X22: when no pool has more than 2^32 entries and [W] bounds the
    attempts [targetDegrees[u] || 1] * RETRY_FACTOR + 1 of every user, the
    friend-edge builder, given enough fuel for the selector, is finished
    within [|users| * (W + 3) + 2] steps of the machine, whatever the
    selector returns. *)
Theorem friend_phase_terminates {K} (c : FriendBuilder.Ctx) (s : N)
    (degree : gmap Z Z) (w : World K) (W : nat) :
  SmallPools (FriendBuilder.pop c) →
  Forall (fun u => desired_of c u * RETRY_FACTOR (FriendBuilder.cfg c) + 1
                   ≤ Z.of_nat W)
         (allUserIds (FriendBuilder.pop c)) →
  ∃ F, ∀ fuel, (F ≤ fuel)%nat →
    ∃ n d,
      (n ≤ length (allUserIds (FriendBuilder.pop c)) * (W + 3) + 2)%nat
      ∧ after n fuel c (FriendBuilder.init c s degree w)
        = Ok (FriendBuilder.Finished, d)
      ∧ ∀ steps, (n ≤ steps)%nat →
          FriendBuilder.run steps fuel c (FriendBuilder.init c s degree w)
          = Ok d.
Proof.
  intros Hpools HW. exists (6 * period)%nat. intros fuel Hfuel.
  destruct (friend_finishes fuel c W Hpools Hfuel
              (allUserIds (FriendBuilder.pop c))
              (FriendBuilder.init c s degree w).2) as (n & d & Hn & Hrun).
  { intros u Hu. pose proof (proj1 (Forall_forall _ _) HW u Hu) as H0.
    simpl in H0. lia. }
  exists n, d. split; [done|]. split; [exact Hrun|].
  intros steps Hsteps. by eapply run_of_after.
Qed.

Lemma friend_phase_terminates_witness :
  ∃ F, ∀ fuel, (F ≤ fuel)%nat →
    ∃ n d,
      (n ≤ length (allUserIds (FriendBuilder.pop ctx3)) * (31 + 3) + 2)%nat
      ∧ after n fuel ctx3 (FriendBuilder.init ctx3 1234567 degree3 world0)
        = Ok (FriendBuilder.Finished, d)
      ∧ ∀ steps, (n ≤ steps)%nat →
          FriendBuilder.run steps fuel ctx3
            (FriendBuilder.init ctx3 1234567 degree3 world0)
          = Ok d.
Proof.
  apply (friend_phase_terminates ctx3 1234567 degree3 world0 31).
  - split; [simpl; lia|]. split; apply map_Forall_singleton; simpl; lia.
  - apply (bool_decide_unpack _). by vm_compute.
Defined.

(** ** The lookup maps of the generated population *)

Lemma city_step {K} fuel cfg cs created (st st' : Partition.State K) n :
  0 ≤ n → UsersInv st n →
  (∀ c1 c2 l1 l2 id,
     idsByCity (Partition.pop st) !! c1 = Some l1 →
     idsByCity (Partition.pop st) !! c2 = Some l2 →
     id ∈ l1 → id ∈ l2 → c1 = c2)
  ∧ Forall (fun doc => ∃ l, idsByCity (Partition.pop st)
                              !! loc_city (location doc) = Some l
                            ∧ _id doc ∈ l)
           (produced_users st) →
  Partition.user_body fuel cfg cs created st = Ok st' →
  (∀ c1 c2 l1 l2 id,
     idsByCity (Partition.pop st') !! c1 = Some l1 →
     idsByCity (Partition.pop st') !! c2 = Some l2 →
     id ∈ l1 → id ∈ l2 → c1 = c2)
  ∧ Forall (fun doc => ∃ l, idsByCity (Partition.pop st')
                              !! loc_city (location doc) = Some l
                            ∧ _id doc ∈ l)
           (produced_users st').
Proof.
  intros Hn ((_ & _ & _ & _ & Hrange) & Hid & _) [Hdisj Hdocs] Hb.
  apply user_body_step in Hb as (doc & Hmk & -> & _ & _ & _ & -> & _).
  apply make_user_fields in Hmk as [Hdid _].
  set (id := Partition.GLOBAL_USER_ID st) in *.
  set (cty := loc_city (location doc)).
  pose (m := idsByCity (Partition.pop st)).
  change (idsByCity (Partition.pop st)) with m in Hrange, Hdisj, Hdocs.
  assert (Hfresh : ∀ c l, m !! c = Some l → id ∉ l).
  { intros c l Hl Hin. destruct (Hrange c l Hl) as [_ Hr].
    specialize (Hr id Hin). lia. }
  assert (Hlook : ∀ c l, push_at cty id m !! c = Some l →
            (c = cty ∧ l = default [] (m !! cty) ++ [id])
            ∨ (c ≠ cty ∧ m !! c = Some l)).
  { intros c l. by rewrite push_at_lookup. }
  simpl. split.
  - intros c1 c2 l1 l2 x H1 H2 Hx1 Hx2.
    apply Hlook in H1 as [[-> ->]|[Hne1 H1]], H2 as [[-> ->]|[Hne2 H2]];
      [done| | |by eapply Hdisj].
    + apply elem_of_app in Hx1 as [Hx1|Hx1].
      * destruct (m !! cty) as [l|] eqn:Hl; simpl in Hx1;
          [by apply (Hdisj cty c2 l l2 x)|by apply elem_of_nil in Hx1].
      * apply list_elem_of_singleton in Hx1 as ->. by apply Hfresh in H2.
    + apply elem_of_app in Hx2 as [Hx2|Hx2].
      * destruct (m !! cty) as [l|] eqn:Hl; simpl in Hx2;
          [by apply (Hdisj c1 cty l1 l x)|by apply elem_of_nil in Hx2].
      * apply list_elem_of_singleton in Hx2 as ->. by apply Hfresh in H1.
  - apply Forall_app. split.
    + eapply Forall_impl; [exact Hdocs|]. intros d0 (l & Hl & Hin).
      destruct (decide (loc_city (location d0) = cty)) as [Heq|Hne].
      * exists (l ++ [id]). split; [|apply elem_of_app; by left].
        rewrite Heq in Hl |- *. apply push_at_lookup. left.
        split; [done|]. fold m. by rewrite Hl.
      * exists l. split; [|done]. apply push_at_lookup. by right.
    + apply Forall_singleton. eexists. split.
      * apply push_at_lookup. left. done.
      * apply elem_of_app. right. rewrite Hdid. by left.
Qed.

(** X23: the user phase, given enough fuel, returns, and the lookup maps
    built from its lists give back, for the id of every user document handed
    to the store, the community and the city of that document. *)
Theorem lookup_maps_agree {K} (cfg : Config) (s : N) (w : World K) :
  sentUsers w = [] →
  ∃ F, ∀ fuel, (F ≤ fuel)%nat →
    ∃ communities st,
      Partition.run fuel cfg s w = Ok (communities, st)
      ∧ Forall (fun doc =>
                  userCommunityMap (lookup_maps (Partition.pop st)) !! _id doc
                  = Some (community doc)
                  ∧ userCityMap (lookup_maps (Partition.pop st)) !! _id doc
                    = Some (loc_city (location doc)))
               (sentUsers (Partition.world st)).
Proof.
  intros Hw. destruct (partition_run_total cfg s w) as ([cs st] & Hr).
  exists (3 * period)%nat. intros fuel Hfuel. exists cs, st.
  specialize (Hr fuel Hfuel). split; [done|].
  destruct (partition_run_users fuel cfg s w cs st Hw Hr)
    as ((_ & _ & _ & Huniq & _) & _ & Hmem).
  apply partition_run_unfold in Hr
    as (nC & s1 & s2 & st1 & _ & _ & Hloop & Hpop & _ & _ & _ & Hsent & _).
  assert (Hcity :
    (∀ c1 c2 l1 l2 id,
       idsByCity (Partition.pop st1) !! c1 = Some l1 →
       idsByCity (Partition.pop st1) !! c2 = Some l2 →
       id ∈ l1 → id ∈ l2 → c1 = c2)
    ∧ Forall (fun doc => ∃ l, idsByCity (Partition.pop st1)
                                !! loc_city (location doc) = Some l
                              ∧ _id doc ∈ l)
             (produced_users st1)).
  { refine (proj2 (user_loop_ind fuel cfg cs
              (fun created st =>
                 (0 ≤ created ∧ UsersInv st created)
                 ∧ (∀ c1 c2 l1 l2 id,
                      idsByCity (Partition.pop st) !! c1 = Some l1 →
                      idsByCity (Partition.pop st) !! c2 = Some l2 →
                      id ∈ l1 → id ∈ l2 → c1 = c2)
                   ∧ Forall (fun doc => ∃ l, idsByCity (Partition.pop st)
                                               !! loc_city (location doc) = Some l
                                             ∧ _id doc ∈ l)
                            (produced_users st))
              _ 0 _ st1 _ _ Hloop)).
    - intros created st2 st3 _ [[Hc Hinv] Hci] Hb. split.
      + split; [lia|]. by eapply user_body_inv.
      + by eapply city_step.
    - split; [split; [done|by apply UsersInv_init]|].
      split; [intros c1 c2 l1 l2 id H1; simpl in H1;
              by rewrite lookup_empty in H1|].
      unfold produced_users. simpl. rewrite Hw. constructor. }
  destruct Hcity as [Hdisj Hdocs].
  unfold produced_users in Hdocs. apply Forall_app in Hdocs as [Hdocs _].
  rewrite Hpop in Huniq, Hmem |- *. rewrite Hsent in Hmem |- *.
  apply Forall_forall. intros doc Hdoc.
  pose proof (proj1 (Forall_forall _ _) Hmem doc Hdoc) as (l0 & Hl0 & Hin0).
  pose proof (proj1 (Forall_forall _ _) Hdocs doc Hdoc) as (l & Hl & Hin).
  split; simpl.
  - apply (index_of_complete _) with l0; [|done|done].
    intros c1 c2 l1 l2 id H1 H2 Hi1 Hi2.
    apply (Huniq id); [by exists l1|by exists l2].
  - by apply (index_of_complete _ Hdisj) with l.
Qed.

Lemma lookup_maps_agree_witness :
  ∃ F, ∀ fuel, (F ≤ fuel)%nat →
    ∃ communities st,
      Partition.run fuel small_config 1234567 world0 = Ok (communities, st)
      ∧ Forall (fun doc =>
                  userCommunityMap (lookup_maps (Partition.pop st)) !! _id doc
                  = Some (community doc)
                  ∧ userCityMap (lookup_maps (Partition.pop st)) !! _id doc
                    = Some (loc_city (location doc)))
               (sentUsers (Partition.world st)).
Proof. apply (lookup_maps_agree small_config 1234567 world0). reflexivity. Defined.
(** ** The degree planner of the earlier version *)

Lemma total_insert_fresh (td : gmap Z Z) id v :
  td !! id = None → OldPlanner.total (<[id := v]> td) = OldPlanner.total td + v.
Proof.
  intros Hid. unfold OldPlanner.total.
  rewrite map_fold_insert_L; [done|intros; lia|done].
Qed.

Lemma total_insert (td : gmap Z Z) id v :
  OldPlanner.total (<[id := v]> td)
  = OldPlanner.total td - Planner.get td id + v.
Proof.
  unfold Planner.get. destruct (td !! id) as [v0|] eqn:Hid; simpl.
  - rewrite <- (insert_delete_id td id v0 Hid) at 2.
    rewrite <- insert_delete_eq.
    rewrite !total_insert_fresh by apply lookup_delete_eq. lia.
  - rewrite total_insert_fresh by done. lia.
Qed.

Lemma old_assign_loop_spec cfg (users : list Z) : ∀ td remaining seed,
  NoDup users → (∀ u, u ∈ users → td !! u = None) →
  0 < remaining → map_Forall (fun _ v => 1 ≤ v) td →
  let r := OldPlanner.assign_loop cfg users td remaining seed in
  OldPlanner.total r.1.1 + r.1.2 = OldPlanner.total td + remaining
  ∧ 0 ≤ r.1.2
  ∧ dom r.1.1 ⊆ dom td ∪ list_to_set users
  ∧ (users ≠ [] → 0 < r.1.2 → dom r.1.1 = dom td ∪ list_to_set users)
  ∧ map_Forall (fun _ v => 1 ≤ v) r.1.1.
Proof.
  induction users as [|id users IH]; intros td remaining seed Hnd Hfresh Hrem Hpos.
  { simpl. split; [done|]. split; [lia|]. split; [set_solver|]. done. }
  apply NoDup_cons in Hnd as [Hid Hnd].
  cbn [OldPlanner.assign_loop].
  destruct (Rng.randint _ _ seed) as [x s]. cbv zeta.
  set (d := if remaining - Z.max 1 x <? 0 then remaining else Z.max 1 x).
  assert (Hd : 1 ≤ d ≤ remaining)
    by (unfold d; destruct (Z.ltb_spec (remaining - Z.max 1 x) 0); lia).
  assert (Hnone : td !! id = None) by (apply Hfresh; by left).
  assert (Hpos' : map_Forall (fun _ v => 1 ≤ v) (<[id := d]> td))
    by (apply map_Forall_insert_2; [lia|done]).
  destruct (Z.leb_spec (remaining - d) 0) as [Hstop|Hgo].
  - simpl. rewrite total_insert_fresh by done.
    split; [lia|]. split; [lia|]. split; [rewrite dom_insert_L; set_solver|].
    split; [intros _ ?; lia|done].
  - destruct (IH (<[id := d]> td) (remaining - d) s Hnd) as (H1 & H2 & H3 & H4 & H5);
      [|lia|done|].
    { intros u Hu. rewrite lookup_insert_ne; [|intros ->; done].
      apply Hfresh. by right. }
    rewrite total_insert_fresh in H1 by done.
    split; [lia|]. split; [done|].
    split; [rewrite dom_insert_L in H3; set_solver|]. split; [|done].
    intros _ Hleft. destruct users as [|u users].
    + simpl. rewrite dom_insert_L. set_solver.
    + rewrite H4 by done. rewrite dom_insert_L. set_solver.
Qed.

Lemma old_bump_loop_spec (keys : list Z) : ∀ td remaining,
  NoDup keys → (∀ k, k ∈ keys → is_Some (td !! k)) → 0 < remaining →
  map_Forall (fun _ v => 1 ≤ v) td →
  let r := OldPlanner.bump_loop keys td remaining in
  OldPlanner.total r.1 + r.2 = OldPlanner.total td + remaining
  ∧ 0 ≤ r.2 ∧ dom r.1 = dom td
  ∧ r.2 = Z.max 0 (remaining - Z.of_nat (length keys))
  ∧ map_Forall (fun _ v => 1 ≤ v) r.1
  ∧ (∀ k, k ∉ keys → r.1 !! k = td !! k)
  ∧ (0 < r.2 → ∀ k, k ∈ keys → Planner.get r.1 k = Planner.get td k + 1).
Proof.
  induction keys as [|id keys IH]; intros td remaining Hnd Hin Hrem Hpos.
  { simpl. split; [done|]. split; [lia|]. split; [done|]. split; [lia|].
    split; [done|]. split; [done|]. intros _ k Hk. by apply elem_of_nil in Hk. }
  apply NoDup_cons in Hnd as [Hid Hnd].
  cbn [OldPlanner.bump_loop]. cbv zeta.
  destruct (Hin id ltac:(by left)) as [v Hv].
  assert (Hget : Planner.get td id = v) by (unfold Planner.get; by rewrite Hv).
  assert (Hdom : dom (<[id := Planner.get td id + 1]> td) = dom td).
  { rewrite dom_insert_L. apply elem_of_dom_2 in Hv. set_solver. }
  assert (Hpos' : map_Forall (fun _ v => 1 ≤ v)
                             (<[id := Planner.get td id + 1]> td)).
  { apply map_Forall_insert_2; [|done]. specialize (Hpos id v Hv). simpl in Hpos.
    lia. }
  destruct (Z.leb_spec (remaining - 1) 0) as [Hstop|Hgo].
  - simpl. rewrite total_insert. split; [lia|]. split; [lia|].
    split; [done|]. split; [lia|]. split; [done|]. split; [|intros ?; lia].
    intros k Hk. rewrite lookup_insert_ne; [done|]. intros ->. apply Hk. by left.
  - destruct (IH (<[id := Planner.get td id + 1]> td) (remaining - 1) Hnd)
      as (H1 & H2 & H3 & H4 & H5 & H6 & H7); [|lia|done|].
    { intros k Hk. rewrite lookup_insert_ne; [|intros ->; done].
      apply Hin. by right. }
    rewrite total_insert in H1.
    split; [lia|]. split; [done|]. split; [by rewrite H3|].
    split; [rewrite H4; simpl length; lia|]. split; [done|]. split.
    + intros k Hk. rewrite H6 by (intros ?; apply Hk; by right).
      rewrite lookup_insert_ne; [done|]. intros ->. apply Hk. by left.
    + intros Hleft k Hk. apply elem_of_cons in Hk as [->|Hk].
      * unfold Planner.get at 1. rewrite (H6 id Hid), lookup_insert_eq. done.
      * rewrite (H7 Hleft k Hk). unfold Planner.get at 1.
        rewrite lookup_insert_ne; [done|]. intros ->. done.
Qed.

Lemma keys_in_order_spec (td : gmap Z Z) :
  NoDup (OldPlanner.keys_in_order td)
  ∧ (∀ k, k ∈ OldPlanner.keys_in_order td ↔ is_Some (td !! k))
  ∧ length (OldPlanner.keys_in_order td) = size td.
Proof.
  unfold OldPlanner.keys_in_order.
  pose proof (merge_sort_Permutation Z.le (elements (dom td))) as Hperm.
  split; [|split].
  - rewrite Hperm. apply NoDup_elements.
  - intros k. rewrite Hperm, elem_of_elements. apply elem_of_dom.
  - rewrite Hperm. by rewrite <- size_dom.
Qed.


(** ** The dedup set of the friend edges *)

Lemma friendSet_step {K} fuel (c : FriendBuilder.Ctx)
    (m m' : FriendBuilder.Control * FriendBuilder.Data K) :
  (∀ k, k ∈ FriendBuilder.friendSet m.2 ↔ k ∈ f_pair <$> generated m.2) →
  FriendBuilder.step fuel c m = Ok m' →
  ∀ k, k ∈ FriendBuilder.friendSet m'.2 ↔ k ∈ f_pair <$> generated m'.2.
Proof.
  destruct m as [pc d], m' as [pc' d']. simpl. intros Hinv Hstep k.
  apply step_effect in Hstep
    as [(Hsame & _)|(u & desired & tries & rest & _ & _ & _ & Hat)].
  - rewrite (same_generation_generated _ _ Hsame).
    destruct Hsame as (_ & _ & -> & _). apply Hinv.
  - apply attempt_effect in Hat
      as [(_ & -> & _ & ->)|(v & s & _ & _ & _ & _ & _ & -> & _ & ->)];
      [apply Hinv|].
    rewrite fmap_app, elem_of_app, elem_of_union, elem_of_singleton, Hinv.
    simpl. rewrite list_elem_of_singleton. tauto.
Qed.

(** X25: at every point of a run of the friend-edge builder from a store
    without friend edges, the dedup set holds the key of a pair of ids
    exactly when a friend edge between the two, in one order or the other,
    has been generated. *)
Theorem friendSet_exact {K} (fuel : nat) (c : FriendBuilder.Ctx) (s : N)
    (degree : gmap Z Z) (w : World K) (n : nat) :
  friends_of (sentEdges w) = [] →
  match after n fuel c (FriendBuilder.init c s degree w) with
  | Ok (pc, d) =>
      ∀ a b, pairKey a b ∈ FriendBuilder.friendSet d
             ↔ ∃ e, e ∈ generated d
                    ∧ ((f_src e = a ∧ f_dst e = b)
                       ∨ (f_src e = b ∧ f_dst e = a))
  | _ => True
  end.
Proof.
  intros Hw.
  pose proof (after_spec n fuel c _ (init_MachineInv c s degree w Hw)) as Hspec.
  destruct (after n fuel c _) as [[pc d]| |] eqn:Hrun; [|done|done].
  destruct Hspec as (((_ & Hkeys & _) & _) & _). simpl in Hkeys.
  assert (Hset : ∀ k, k ∈ FriendBuilder.friendSet d
                      ↔ k ∈ f_pair <$> generated d).
  { refine (after_ind fuel c
              (fun m => ∀ k, k ∈ FriendBuilder.friendSet m.2
                             ↔ k ∈ f_pair <$> generated m.2)
              _ n _ (pc, d) _ Hrun).
    - intros m m'. apply friendSet_step.
    - intros k. unfold generated. simpl. rewrite app_nil_r, Hw. set_solver. }
  intros a b. rewrite Hset, list_elem_of_fmap. split.
  - intros (e & Hk & He). exists e. split; [done|].
    pose proof (proj1 (Forall_forall _ _) Hkeys e He) as (_ & Hpair & _).
    rewrite Hpair in Hk. symmetry in Hk. by apply pairKey_same in Hk.
  - intros (e & He & Hab). exists e. split; [|done].
    pose proof (proj1 (Forall_forall _ _) Hkeys e He) as (_ & Hpair & _).
    rewrite Hpair. symmetry. by apply pairKey_same.
Qed.

Lemma friendSet_exact_witness :
  match after 200 10 ctx3 (FriendBuilder.init ctx3 1234567 degree3 world0) with
  | Ok (pc, d) =>
      ∀ a b, pairKey a b ∈ FriendBuilder.friendSet d
             ↔ ∃ e, e ∈ generated d
                    ∧ ((f_src e = a ∧ f_dst e = b)
                       ∨ (f_src e = b ∧ f_dst e = a))
  | _ => True
  end.
Proof.
  apply (friendSet_exact 10 ctx3 1234567 degree3 world0 200). reflexivity.
Defined.

(** ** An empty population *)

Lemma plan_empty fuel cfg seed :
  ∃ p s, Planner.plan fuel cfg [] seed = Ok (p, s)
    ∧ Planner.targetDegrees p = ∅.
Proof.
  unfold Planner.plan.
  destruct (Rng.randint _ _ seed) as [E s1]. simpl.
  unfold Planner.fix_rounding.
  assert (Hadd : ∀ td r, Planner.add_loop fuel [] td r 0 = Ok (td, r)).
  { intros td r. destruct fuel; simpl; by rewrite andb_false_r. }
  assert (Htrim : ∀ td r, Planner.trim_loop fuel [] td r 0 = Ok (td, r)).
  { intros td r. destruct fuel; simpl; by rewrite andb_false_r. }
  rewrite Hadd. cbn [rbind]. destruct (_ <? 0).
  - rewrite Htrim. cbn [rbind]. eauto.
  - cbn [rbind]. eauto.
Qed.

Lemma friend_run_empty {K} (n fuel : nat) (c : FriendBuilder.Ctx) (s : N)
    (degree : gmap Z Z) (w : World K) :
  allUserIds (FriendBuilder.pop c) = [] →
  ∃ d, FriendBuilder.run (S (S n)) fuel c (FriendBuilder.init c s degree w)
       = Ok d
    ∧ sentUsers (FriendBuilder.world d) = sentUsers w
    ∧ sentEdges (FriendBuilder.world d) = sentEdges w
    ∧ sentInteractions (FriendBuilder.world d) = sentInteractions w.
Proof.
  intros Hids. unfold FriendBuilder.init. rewrite Hids. simpl.
  destruct n; simpl; eauto.
Qed.

(** X26: with [N_USERS = 0] a run completes, given fuel for the two steps
    of the friend-edge builder, whatever the edge budget and the other
    constants are, and hands nothing to the store: no user, no edge and no
    interaction. *)
Theorem empty_population_run {K} (fuel : nat) (cfg : Config) (clock : Z → Z)
    (d : DB K) :
  N_USERS cfg = 0 → (2 ≤ fuel)%nat →
  ∃ w, main fuel cfg clock d = Ok w
    ∧ sentUsers w = [] ∧ sentEdges w = [] ∧ sentInteractions w = [].
Proof.
  intros HN Hfuel. unfold main.
  assert (Hpart : ∃ cs us,
    Partition.run fuel cfg (SEED cfg) (start d) = Ok (cs, us)
    ∧ Partition.pop us = emptyPopulation
    ∧ sentUsers (Partition.world us) = []
    ∧ sentEdges (Partition.world us) = []
    ∧ sentInteractions (Partition.world us) = []).
  { unfold Partition.run. rewrite HN.
    destruct (Rng.randint _ _ (SEED cfg)) as [nC s1].
    destruct (Partition.communities nC 0 s1) as [cs s2]. simpl. eauto 10. }
  destruct Hpart as (cs & us & -> & Hpop & Hu & He & Hi). cbn [rbind].
  rewrite Hpop. simpl allUserIds.
  destruct (plan_empty fuel cfg (Partition._seed us)) as (p & s1 & -> & Htd).
  cbn [rbind].
  destruct fuel as [|[|fuel]]; [lia|lia|].
  edestruct (friend_run_empty (K := K) fuel (S (S fuel)))
    as (fd & -> & Hfu & Hfe & Hfi); [reflexivity|].
  cbn [rbind]. simpl in Hfu, Hfe, Hfi.
  rewrite Hu in Hfu. rewrite He in Hfe. rewrite Hi in Hfi.
  clear Hu He Hi. rename Hfu into Hu, Hfe into He, Hfi into Hi.
  destruct (FollowBuilder.run (K := K) cfg emptyPopulation _ _ _) as [wd| |] eqn:Hfol.
  2, 3: exfalso; revert Hfol; unfold FollowBuilder.run; simpl; done.
  assert (Hwd : sentUsers (FollowBuilder.world wd) = []
                ∧ sentEdges (FollowBuilder.world wd) = []
                ∧ sentInteractions (FollowBuilder.world wd) = []).
  { revert Hfol. unfold FollowBuilder.run. simpl. intros [= <-]. simpl.
    by rewrite Hu, He, Hi. }
  destruct Hwd as (Hwu & Hwe & Hwi). cbn [rbind].
  destruct (interactions_run_effect cfg emptyPopulation clock
              (FollowBuilder._seed wd) (FollowBuilder.world wd))
    as (id & new & -> & Hsi & _ & _ & Hvalid & Hiu & Hie).
  cbn [rbind]. eexists. split; [done|].
  rewrite Hiu, Hie, Hsi, Hwu, Hwe, Hwi. split; [done|]. split; [done|].
  destruct new as [|x new]; [done|].
  apply Forall_cons in Hvalid as [(a & t & ty & i & _ & _ & Ha & _) _].
  by apply elem_of_nil in Ha.
Qed.

Lemma empty_population_run_witness :
  ∃ w, main (K := memSink) 2 no_users_config clock_a emptyDB = Ok w
    ∧ sentUsers w = [] ∧ sentEdges w = [] ∧ sentInteractions w = [].
Proof.
  apply (empty_population_run (K := memSink) 2 no_users_config clock_a emptyDB);
    [reflexivity|lia].
Defined.
